(* ===== verification/_CoqProject ===== *)
-Q . S2P
Prelude.v
RtList.v
RingBuffer.v
Strings.v
Format.v
Kernel.v
Scheduler.v
Object.v
Timer.v
Thread.v
Clock.v
Ipc.v
Decide.v
Scenario.v
Scheduling.v
Registry.v
Semaphore.v
Mutex.v
Event.v
Mailbox.v
Concurrency.v
MessageQueue.v
Heap.v
Allocator.v
HeapLock.v
MemPool.v
Device.v
Pin.v
Dynamic.v
Lifecycle.v
Ownership.v
Reaper.v
Serial.v
Calendar.v
Rtc.v
WallClock.v
Console.v
Syn6288.v
Startup.v
Application.v
Bluetooth.v
