(* ===== verification/Prelude.v ===== *)
(** * Verification of the SYN6288 speech firmware and its RT-Thread kernel

    The repository is the firmware of an STM32F103 board: commands arrive over
    a Bluetooth serial port, are echoed, and are mailed to threads that speak
    them through a SYN6288 synthesiser on another serial port or show them on a
    display.  It runs on the RT-Thread 4.0.3 kernel under
    [src/rt-thread].  This library models the kernel as [rtconfig.h] configures
    it (one processor, 32 priorities, soft timers, the small-memory heap, every
    IPC class), the device layer and serial framework, the kernel's string,
    formatting and console services, the C library's calendar with the software
    clock, and the applications in [src/applications]: the command reader, the
    synthesiser, the mailboxes and the speaking loop of [main.cpp], and the clock, the button and
    the text display of [oled_btn.cpp].

    ** How code is modelled

    A C function is a function in a state monad [M S] with faults (below in
    this file): it takes its arguments and a state, and gives a result and a
    new state or a fault: a failed [RT_ASSERT], a pointer to nothing, an access
    outside an array, a list node linked twice, fuel used up, or ([FConfig]) a
    path of the code that the model leaves out.  [wp m s Q] says that [m]
    started in [s] meets no fault and ends in [Q]; so a theorem about [wp] also
    says that no assertion fails and no array is overrun.  A component's
    operations work on their own state; [Part] and [zoom] run them on the state
    of a client that has it as a part.  Integers are [Z] with the wrap-around of
    their C types written out ([u8], [u16], [u32], [i16], [i32]).

    A call that would suspend its thread ends in [Park] with the locals it
    needs later, and has a [_resume] function for the code after
    [rt_schedule()]; what other threads do in between is any sequence of steps
    from the kernel state in which it parked (Concurrency makes the steps explicit).  [rt_hw_context_switch] is the
    change of [rt_current_thread].  Hooks (but those of the idle
    thread), debug output and tracing are left
    out, as no hook is set and the output has no effect on the state.

    ** The files

    - Prelude: integers, the monad, [wp], parts of states, arrays, and the
      tactics and hints of the library.
    - RtList ([include/rtservice.h]): the intrusive doubly linked lists as
      pointers in memory; they implement the sequences that the other files use
      for the kernel's lists.
    - RingBuffer ([components/drivers/src/ringbuffer.c]).
    - Strings, Format, Console ([src/kservice.c]): memory and string functions
      on a memory of bytes; [rt_vsnprintf] and its family; [rt_kprintf] on the
      console device.
    - Kernel ([include/rtdef.h]): the records of the kernel objects and the
      kernel state: finite maps from addresses to objects, queues as sequences,
      the global variables of scheduler.c, timer.c, clock.c and irq.c.
    - Scheduler ([src/scheduler.c], [libcpu/.../cpuport.c] [__rt_ffs]): ready
      lists, the priority bitmap, [rt_schedule], the scheduler lock, and the
      invariant [sched_inv].
    - Object ([src/object.c]): containers, initialisation, lookup; Registry
      holds what they promise.
    - Timer, Clock ([src/timer.c], [src/clock.c], [src/irq.c]): sorted timer
      lists and their invariant; ticks, expiry, time slices, the timer thread.
    - Thread ([src/thread.c]): start-up, sleep, suspension, control, exit.
    - Ipc, Semaphore, Mutex, Event, Mailbox, MessageQueue ([src/ipc.c]): wait
      lists and the five IPC classes.
    - Decide, Scenario: the kernel invariant decided by evaluation, and the
      concrete kernel the witnesses run in.
    - Scheduling: theorems about scheduler, timers, clock and threads together.
    - Concurrency ([src/drivers/drv_common.c] [SysTick_Handler] and the files above):
      worlds, that is the kernel with the calls that wait inside [rt_schedule]; a
      step is a call by the running thread, its return from a wait, or an
      interrupt, and [runs] is any order of steps.
    - Heap, Allocator, HeapLock ([src/mem.c]): the first-fit allocator over
      headers in an arena; its contract in terms of the blocks in use; the same
      calls under the heap semaphore.
    - MemPool ([src/mempool.c]): pools of equal blocks.
    - Device ([src/device.c]) and Serial ([components/drivers/serial/serial.c]):
      devices with reference counts; the serial framework over a UART, which is
      the class [UartOps] with the documented behaviour [UartSpec] (the FIFO of
      the receiver and what has been sent); the board drivers below it are not
      modelled.  An instance (a UART that is two byte streams) is used by the
      witnesses.
    - Pin ([components/drivers/misc/pin.c]): single pins over a board driver, the
      class [PinOps] with what is relied on of an output pin in [PinSpec].
    - Dynamic ([src/object.c], [src/ipc.c], [src/mempool.c], [src/timer.c],
      [src/thread.c], [src/device.c], [src/idle.c]): objects on the heap, that
      is all [_create] and [_delete] functions and the clean-up by the idle
      thread, over any allocator that is an instance of [AllocOps]/[AllocSpec]
      (HeapLock discharges the class).  Lifecycle holds what each function does
      to the kernel; Ownership who owns which block, for programs of creations
      and deletions; Reaper the way of a deleted thread to the idle thread.
    - Startup ([src/components.c], [src/idle.c]): from reset to the first thread;
      the hooks of the idle thread.
    - Calendar, Rtc ([components/libc/compilers/common/time.c],
      [components/drivers/rtc]): seconds and dates; the clock device, reading and
      setting it.
    - Syn6288, Bluetooth ([src/applications]): frames for the synthesiser, and
      the command reader from interrupt to mailbox.
    - WallClock ([src/applications/oled_btn.cpp]): setting the clock from a mail
      and the text that the display shows.
    - Application ([src/applications/main.cpp], [oled_btn.cpp]): the mailboxes,
      the speaking loop, the button, and the threads that take a text and draw it;
      what is drawn is a list of commands to the graphics library.

    Each component has its data, its operations in the order of the source,
    an invariant ([sched_inv], [timer_inv], [mailbox_ok], [mq_wf], [arena_ok],
    [fifo_rep], ...) and lemmas that each operation keeps it.

    ** What the theorems show

    - The running system: start-up makes the main, timer and idle threads and ends
      in a state that satisfies the invariant; from there, threads that take and release semaphores, send and
      receive mail, sleep and yield in any order, with ticks and signals from
      interrupts at any moment between, never reach a fault; the processor
      always has a most urgent thread; no unit of a semaphore and no mail is
      lost, doubled or out of order; a take with a time limit is over in time.
    - Scheduling: [rt_schedule] chooses a best thread; yielding
      and time slices rotate threads of one priority; a critical section defers
      rescheduling; a sleeping thread runs again after exactly the ticks it
      asked for.
    - Synchronisation: semaphores, mutexes, mailboxes and message queues refine
      their abstract machines (a counter with waiters, a recursive lock with
      priority inheritance, bounded queues); event sends wake exactly the
      satisfied waiters; blocking calls park, and what is handed to a waiter is
      what it receives.
    - Memory: sequences of heap calls hand out disjoint aligned blocks inside
      the arena and keep their contents; the search is first fit; freeing
      everything leaves one block; the lock makes the calls atomic; pools and
      the intrusive lists refine their abstract counterparts.
    - Input and output: an open serial port refines two byte queues; the ring
      buffer a bounded queue; formatted output prints the texts its directives
      stand for and never leaves its array; memory functions that go word by
      word equal byte loops.
    - Objects on the heap: programs that create and delete kernel objects keep a
      ledger of which block belongs to which object, also when memory runs out
      half-way through a creation; a deletion wakes every waiter; the stack and
      the control block of a deleted thread come back.
    - The clock: [gmtime_r] agrees with counting days, [mktime] is its inverse, and
      a date mailed to the display is the date it shows.
    - The applications: a command is echoed, stored and mailed where it
      belongs; the synthesiser's frames parse back to their text; a text that is
      mailed is shown from the next round of the drawing thread on, and the loop
      over its copies ends; the button chooses between standing and scrolling.
    - Limits the code has, stated as they are: overlong commands and texts,
      a speaking loop that appends every command to an array of one byte,
      messages too long for the console buffer, a timer at the last tick, a
      pool with no room, waiters served last first, a clock that falls back when
      the tick counter goes round, memory that is taken and never given back,
      days that [mktime] carries wrongly, priorities that a mutex does not give back.

    ** Fuel

    Loops that are not structural take fuel.  Where a loop runs inside an
    operation the operation computes enough (the number of nodes, blocks or
    cells, the length of the format) and the theorems prove that it suffices;
    where the number of rounds depends on the outside (the bytes waiting in a
    UART, wake-ups without data) the fuel is an argument and the theorems ask
    for more of it than there are bytes.

    ** Not modelled

    - Context switching in assembly, the board drivers over the vendor HAL, and
      memory-mapped registers: the UART is an interface.
    - The DMA modes of the serial framework, which no port of this board has,
      and the wait of interrupt-driven sending, which no program here uses:
      calls that reach them are the fault [FConfig].
    - The shell.  The set-up of the board and the tables of initialisation functions
      that the linker collects are parameters of Startup.
    - The libraries that draw, debounce the button and convert texts to GBK: their code is
      not in the repository.  Of [oled_btn.cpp] the function that starts the threads
      and the one that polls the button are left out with them.
    - Interrupts between two instructions of one call: calls run to their end
      or to the point where they park, and interrupt handlers and other threads run
      between them (Concurrency).  The calls of Concurrency are those on semaphores
      and mailboxes, sleep and yield; mutexes, events, message queues and pools are
      verified call by call.
      Code that masks interrupts, or locks the scheduler, does so in the model,
      but the model does not show what would happen if it did not. *)
From stdpp Require Export base gmap list strings fin_maps.
From Stdlib Require Export ZArith Lia.

#[global] Open Scope Z_scope.

(** ** Machine integers

    A w-bit unsigned integer is a [Z] reduced modulo [2^w]; a signed one is
    brought back to the two's complement range. *)
Definition wrapU (w z : Z) : Z := z mod 2 ^ w.
Definition wrapS (w z : Z) : Z := (z + 2 ^ (w - 1)) mod 2 ^ w - 2 ^ (w - 1).
Abbreviation u8 := (wrapU 8).
Abbreviation u16 := (wrapU 16).
Abbreviation u32 := (wrapU 32).
Abbreviation i16 := (wrapS 16).
Abbreviation i32 := (wrapS 32).

Definition RT_UINT8_MAX : Z := 255.
Definition RT_UINT16_MAX : Z := 65535.
Definition RT_UINT32_MAX : Z := 4294967295.

(** C's [~x] on a w-bit unsigned integer. *)
Definition notU (w z : Z) : Z := wrapU w (Z.lnot z).

Definition RT_ALIGN_SIZE : Z := 4.
Definition RT_ALIGN (size align : Z) : Z :=
  Z.land (u32 (size + align - 1)) (notU 32 (align - 1)).
Definition RT_ALIGN_DOWN (size align : Z) : Z := Z.land size (notU 32 (align - 1)).

(** ** Record update: [r <| f := v |>] *)
Class EtaRecord (R : Type) := eta_record : R → R.
Class FieldUpdate {R T : Type} (proj : R → T) := MkFieldUpdate {
  update_field : (T → T) → R → R
}.
Arguments update_field {R T} proj {_} f r /.

Ltac derive_field_update :=
  match goal with
  | |- @FieldUpdate ?R ?T ?proj =>
      let inst := constr:(_ : EtaRecord R) in
      let e := eval hnf in inst in
      let e := eval pattern proj in e in
      match e with
      | ?g _ => exact (@MkFieldUpdate R T proj (λ (f : T → T) (r : R), g (λ _ : R, f (proj r)) r))
      end
  end.
#[global] Hint Extern 0 (FieldUpdate _) => derive_field_update : typeclass_instances.

Notation "r <| f := v |>" := (update_field f (λ _, v) r)
  (at level 1, f at level 0, v at level 200, left associativity,
   format "r  <| f  :=  v |>").

(** ** Outcomes and the state monad of the translated code

    [Err] marks an execution the C code does not survive: a failed
    [RT_ASSERT], an access through a pointer that names no such object, an
    access outside an array, linking a list node that is already linked, a
    loop that outruns the fuel it was given, or a path the model leaves out
    (each [FConfig] names the code it stands for). *)
Inductive fault := FAssert | FBadPointer | FBounds | FLinked | FFuel | FConfig.
Inductive outcome (A : Type) := Ok (a : A) | Err (f : fault).
Arguments Ok {A} a.
Arguments Err {A} f.

#[global] Instance fault_eq_dec : EqDecision fault.
Proof. solve_decision. Defined.

Definition M (S A : Type) : Type := S → outcome (A * S).

#[global] Instance M_ret S : MRet (M S) := λ A a s, Ok (a, s).
#[global] Instance M_bind S : MBind (M S) := λ A B f m s,
  match m s with
  | Ok (a, s') => f a s'
  | Err e => Err e
  end.

Section Monad.
Context {S : Type}.

Definition fail {A} (e : fault) : M S A := λ _, Err e.
Definition gets {A} (f : S → A) : M S A := λ s, Ok (f s, s).
Definition modify (f : S → S) : M S unit := λ s, Ok (tt, f s).
Definition RT_ASSERT (P : Prop) `{Decision P} : M S unit :=
  if decide P then mret tt else fail FAssert.
Definition when (P : Prop) `{Decision P} (m : M S unit) : M S unit :=
  if decide P then m else mret tt.
Definition of_option {A} (e : fault) (o : option A) : M S A :=
  match o with Some a => mret a | None => fail e end.
Definition lift_outcome {A} (o : outcome A) : M S A :=
  match o with Ok a => mret a | Err e => fail e end.
End Monad.

(** Total-correctness triples: [wp m s Q] says that [m] started in [s] meets
    no fault and ends in a result and state that satisfy [Q]. *)
Definition wp {S A} (m : M S A) (s : S) (Q : A → S → Prop) : Prop :=
  match m s with
  | Ok (a, s') => Q a s'
  | Err _ => False
  end.

Section Wp.
Context {S : Type}.
Implicit Types s : S.

Lemma wp_ret {A} (a : A) s (Q : A → S → Prop) : Q a s → wp (mret a) s Q.
Proof. done. Qed.
Lemma wp_bind {A B} (m : M S A) (f : A → M S B) s (Q : B → S → Prop) :
  wp m s (λ a s', wp (f a) s' Q) → wp (m ≫= f) s Q.
Proof. unfold wp, mbind, M_bind. by destruct (m s) as [[a s']|]. Qed.
Lemma wp_gets {A} (f : S → A) s (Q : A → S → Prop) : Q (f s) s → wp (gets f) s Q.
Proof. done. Qed.
Lemma wp_modify (f : S → S) s (Q : unit → S → Prop) : Q tt (f s) → wp (modify f) s Q.
Proof. done. Qed.
Lemma wp_assert (P : Prop) `{Decision P} s (Q : unit → S → Prop) :
  P → Q tt s → wp (RT_ASSERT P) s Q.
Proof. intros HP HQ. unfold RT_ASSERT. by rewrite decide_True. Qed.
Lemma wp_when (P : Prop) `{Decision P} (m : M S unit) s (Q : unit → S → Prop) :
  (P → wp m s Q) → (¬ P → Q tt s) → wp (when P m) s Q.
Proof. intros H1 H2. unfold when. destruct (decide P); [by apply H1|by apply H2]. Qed.
Lemma wp_of_option {A} e (o : option A) a s (Q : A → S → Prop) :
  o = Some a → Q a s → wp (of_option e o) s Q.
Proof. by intros ->. Qed.
Lemma wp_lift_outcome {A} (o : outcome A) a s (Q : A → S → Prop) :
  o = Ok a → Q a s → wp (lift_outcome o) s Q.
Proof. by intros ->. Qed.
Lemma wp_mono {A} (m : M S A) s (P Q : A → S → Prop) :
  wp m s P → (∀ a s', P a s' → Q a s') → wp m s Q.
Proof. unfold wp. destruct (m s) as [[a s']|]; eauto. Qed.
Lemma wp_decide {A} (P : Prop) (d : Decision P) (m1 m2 : M S A) s Q :
  (P → wp m1 s Q) → (¬ P → wp m2 s Q) →
  wp (if @decide P d then m1 else m2) s Q.
Proof. intros. by destruct (decide P); auto. Qed.
Lemma wp_ok {A} (m : M S A) s Q :
  wp m s Q ↔ ∃ a s', m s = Ok (a, s') ∧ Q a s'.
Proof. unfold wp. destruct (m s) as [[a s']|]; naive_solver. Qed.
Lemma wp_eq {A} (m : M S A) s a s' Q : m s = Ok (a, s') → Q a s' → wp m s Q.
Proof. unfold wp. by intros ->. Qed.
Lemma wp_exact {A} (m : M S A) s a s' :
  wp m s (λ b t, b = a ∧ t = s') → m s = Ok (a, s').
Proof. unfold wp. destruct (m s) as [[b t]|]; [by intros [-> ->]|done]. Qed.
Lemma bind_ok {A B} (m : M S A) (f : A → M S B) s a s' : m s = Ok (a, s') → (m ≫= f) s = f a s'.
Proof. unfold mbind, M_bind. by intros ->. Qed.
Lemma bind_err {A B} (m : M S A) (f : A → M S B) s e : m s = Err e → (m ≫= f) s = Err e.
Proof. unfold mbind, M_bind. by intros ->. Qed.
Lemma lift_ok {A} (o : outcome A) a s : o = Ok a → lift_outcome o s = Ok (a, s).
Proof. by intros ->. Qed.
Lemma lift_err {A} (o : outcome A) e s : o = Err e → lift_outcome o s = Err e.
Proof. by intros ->. Qed.
Lemma wp_conj {A} (m : M S A) s P Q : wp m s P → wp m s Q → wp m s (λ a s', P a s' ∧ Q a s').
Proof. unfold wp. by destruct (m s) as [[a s']|]. Qed.
End Wp.

(** ** Running an operation on a part of the state

    A component's operations are written on the component's own state; its
    clients hold that state as a part of theirs. *)
Class Part (S A : Type) := MkPart { part_get : S → A; part_set : A → S → S }.
Class PartLaws (S A : Type) `{Part S A} := {
  part_get_set a s : part_get (part_set a s) = a;
  part_set_get s : part_set (part_get s) s = s;
  part_set_set a b s : part_set a (part_set b s) = part_set a s
}.

Definition zoom {S A R} `{Part S A} (m : M A R) : M S R := λ s,
  match m (part_get s) with
  | Ok (r, a) => Ok (r, part_set a s)
  | Err f => Err f
  end.

#[global] Instance Part_id A : Part A A := MkPart A A id (λ a _, a).
#[global] Instance PartLaws_id A : PartLaws A A.
Proof. by split. Qed.

(** Two parts of a state that do not overlap. *)
Class PartsApart (S A B : Type) `{Part S A, Part S B} := {
  part_apart_l (a : A) s : part_get (A := B) (part_set a s) = part_get s;
  part_apart_r (b : B) s : part_get (A := A) (part_set b s) = part_get s;
  part_apart_comm (a : A) (b : B) s : part_set a (part_set b s) = part_set b (part_set a s)
}.

Section Zoom.
Context {S A : Type} `{Part S A}.

Lemma wp_zoom {R} (m : M A R) s (Q : R → S → Prop) :
  wp m (part_get s) (λ r a, Q r (part_set a s)) → wp (zoom m) s Q.
Proof. unfold wp, zoom. by destruct (m (part_get s)) as [[r a]|]. Qed.
Lemma zoom_bind `{!PartLaws S A} {R1 R2} (m : M A R1) (f : R1 → M A R2) s :
  zoom (m ≫= f) s = (zoom m ≫= λ r, zoom (f r)) s.
Proof.
  unfold zoom, mbind, M_bind. destruct (m (part_get s)) as [[r a]|]; [|done].
  rewrite part_get_set. destruct (f r a) as [[r' a']|]; [|done]. by rewrite part_set_set.
Qed.
Lemma zoom_ok {R} (m : M A R) s r a :
  m (part_get s) = Ok (r, a) → zoom m s = Ok (r, part_set a s).
Proof. unfold zoom. by intros ->. Qed.
End Zoom.

(** One symbolic-execution step of a [wp] goal.  Conditionals, assertions and
    calls to other operations are left to the proof that uses it. *)
Ltac wp_step :=
  cbv beta;
  lazymatch goal with
  | |- wp (mbind _ _) _ _ => apply wp_bind
  | |- wp (mret _) _ _ => apply wp_ret
  | |- wp (gets _) _ _ => apply wp_gets
  | |- wp (modify _) _ _ => apply wp_modify
  | |- wp (RT_ASSERT _) _ _ => apply wp_assert; [try done|]
  | |- wp (of_option _ _) _ _ => eapply wp_of_option; [eassumption|]
  | |- wp (lift_outcome _) _ _ => eapply wp_lift_outcome; [eassumption|]
  end.
Ltac wp_steps := repeat wp_step.
(** Use a proved specification of the operation at the head of the goal. *)
Tactic Notation "wp_apply" uconstr(H) :=
  cbv beta; eapply wp_mono; [eapply H|cbv beta].
(** Case split on the conditional at the head of a [wp] goal. *)
Tactic Notation "wp_if" "as" ident(H) :=
  cbv beta; apply wp_decide; intros H.

(** ** Arrays of bytes *)
Definition splice {A} (l : list A) (i : nat) (xs : list A) : list A :=
  take i l ++ xs ++ drop (i + length xs) l.

Definition subseq {A} (l : list A) (i n : nat) : list A := take n (drop i l).

Definition zlen {A} (l : list A) : Z := Z.of_nat (length l).

(** [memcpy(&dst[doff], &src[soff], n)]; outside either array it is a fault. *)
Definition memcpy (dst : list Z) (doff : Z) (src : list Z) (soff n : Z) : outcome (list Z) :=
  if decide (0 ≤ doff ∧ 0 ≤ soff ∧ 0 ≤ n ∧ doff + n ≤ zlen dst ∧ soff + n ≤ zlen src)
  then Ok (splice dst (Z.to_nat doff) (subseq src (Z.to_nat soff) (Z.to_nat n)))
  else Err FBounds.

(** [arr[i] = v] and [arr[i]]. *)
Definition array_set (l : list Z) (i v : Z) : outcome (list Z) :=
  if decide (0 ≤ i < zlen l) then Ok (<[Z.to_nat i := v]> l) else Err FBounds.
Definition array_get (l : list Z) (i : Z) : outcome Z :=
  if decide (0 ≤ i) then
    match l !! Z.to_nat i with Some v => Ok v | None => Err FBounds end
  else Err FBounds.

Section ListFacts.
Context {A : Type}.
Implicit Types l xs : list A.

Lemma length_splice l i xs :
  (i + length xs ≤ length l)%nat → length (splice l i xs) = length l.
Proof.
  intros. unfold splice. rewrite !length_app, length_take, length_drop. lia.
Qed.

Lemma lookup_splice_in l i xs j :
  (i + length xs ≤ length l)%nat → (i ≤ j < i + length xs)%nat →
  splice l i xs !! j = xs !! (j - i)%nat.
Proof.
  intros. unfold splice.
  rewrite lookup_app_r by (rewrite length_take; lia).
  rewrite length_take, lookup_app_l by lia. f_equal; lia.
Qed.

Lemma lookup_splice_out l i xs j :
  (i + length xs ≤ length l)%nat → (j < i ∨ i + length xs ≤ j)%nat →
  splice l i xs !! j = l !! j.
Proof.
  intros Hl [Hj|Hj]; unfold splice.
  - rewrite lookup_app_l by (rewrite length_take; lia).
    by rewrite lookup_take_lt.
  - rewrite lookup_app_r by (rewrite length_take; lia).
    rewrite length_take, lookup_app_r by lia.
    rewrite lookup_drop. f_equal; lia.
Qed.

Lemma splice_0 l xs : splice l 0 xs = xs ++ drop (length xs) l.
Proof. done. Qed.

Lemma splice_splice l xs ys :
  (length xs + length ys ≤ length l)%nat →
  splice (splice l 0 xs) (length xs) ys = xs ++ ys ++ drop (length xs + length ys) l.
Proof.
  intros. rewrite splice_0. unfold splice. rewrite take_app_length. do 2 f_equal.
  rewrite drop_app_ge by lia. rewrite drop_drop. f_equal. lia.
Qed.

Lemma length_subseq l i n : (i + n ≤ length l)%nat → length (subseq l i n) = n.
Proof. intros. unfold subseq. rewrite length_take, length_drop. lia. Qed.

Lemma lookup_subseq l i n j : (j < n)%nat → subseq l i n !! j = l !! (i + j)%nat.
Proof. intros. unfold subseq. by rewrite lookup_take_lt, lookup_drop. Qed.

Lemma list_filter_ne_id `{EqDecision A} l (x : A) :
  x ∉ l → filter (.≠ x) l = l.
Proof.
  induction l as [|y l IH]; intros Hx; [done|].
  apply not_elem_of_cons in Hx as [? ?].
  rewrite filter_cons_True by done. by rewrite IH.
Qed.

Lemma NoDup_middle l1 l2 (x : A) : NoDup (l1 ++ l2) → x ∉ l1 ++ l2 → NoDup (l1 ++ x :: l2).
Proof. intros. rewrite <-Permutation_middle. by apply NoDup_cons. Qed.
End ListFacts.

(** ** Splicing in steps *)
Section Splices.
Context {A : Type}.
Implicit Types l xs ys : list A.

Lemma splice_nil l i : splice l i [] = l.
Proof. unfold splice. simpl. by rewrite Nat.add_0_r, take_drop. Qed.
Lemma splice_app l i xs ys :
  (i ≤ length l)%nat → splice l i (xs ++ ys) = splice (splice l i xs) (i + length xs) ys.
Proof.
  intros Hi. unfold splice. assert (length (take i l ++ xs) = (i + length xs)%nat) as Hl by (rewrite length_app, length_take; lia).
  rewrite (app_assoc (take i l) xs (drop _ l)), take_app_length', drop_app_ge by lia.
  rewrite Hl, drop_drop, length_app, <-!app_assoc. do 4 f_equal. lia.
Qed.
Lemma splice_app_r l i xs ys :
  (i + length xs ≤ length l)%nat → splice l i (xs ++ ys) = splice (splice l (i + length xs) ys) i xs.
Proof.
  intros Hi. unfold splice. assert (length (take (i + length xs) l) = (i + length xs)%nat) as Hl by (rewrite length_take; lia).
  rewrite take_app_le, take_take, (Nat.min_l i), drop_app_length' by lia.
  rewrite length_app, <-!app_assoc, Nat.add_assoc. done.
Qed.
Lemma insert_splice l i x : (i < length l)%nat → <[i := x]> l = splice l i [x].
Proof. intros Hi. unfold splice. rewrite insert_take_drop by done. simpl. by rewrite Nat.add_1_r. Qed.
Lemma splice_cons l i x xs :
  (i < length l)%nat → splice l i (x :: xs) = splice (<[i := x]> l) (S i) xs.
Proof. intros Hi. change (x :: xs) with ([x] ++ xs). rewrite splice_app, insert_splice by lia. simpl. by rewrite Nat.add_1_r. Qed.
Lemma subseq_app l i a b : subseq l i (a + b) = subseq l i a ++ subseq l (i + a) b.
Proof. unfold subseq. by rewrite <-drop_drop, take_take_drop. Qed.
Lemma subseq_cons l i n x : l !! i = Some x → subseq l i (S n) = x :: subseq l (S i) n.
Proof. intros Hx. unfold subseq. by rewrite (drop_S _ _ _ Hx). Qed.
Lemma subseq_0 l i : subseq l i 0 = [].
Proof. done. Qed.
Lemma subseq_splice_out l i xs j n :
  (i + length xs ≤ length l)%nat → (j + n ≤ length l)%nat → (j + n ≤ i ∨ i + length xs ≤ j)%nat →
  subseq (splice l i xs) j n = subseq l j n.
Proof.
  intros Hi Hj Ho. apply list_eq. intros k. destruct (decide (k < n)%nat) as [Hk|Hk].
  - rewrite !lookup_subseq by done. apply lookup_splice_out; lia.
  - rewrite !lookup_ge_None_2; [done| |]; rewrite length_subseq; rewrite ?length_splice; lia.
Qed.
End Splices.

(** ** Arithmetic of the machine integers *)
Lemma wrapU_small w z : 0 ≤ z < 2 ^ w → wrapU w z = z.
Proof. apply Z.mod_small. Qed.
Lemma wrapU_range w z : 0 ≤ w → 0 ≤ wrapU w z < 2 ^ w.
Proof. intros. apply Z.mod_pos_bound. lia. Qed.
Lemma wrapS_small w z : 0 < w → - 2 ^ (w - 1) ≤ z < 2 ^ (w - 1) → wrapS w z = z.
Proof.
  intros Hw Hz. unfold wrapS.
  assert (2 ^ w = 2 * 2 ^ (w - 1)) as Hp.
  { rewrite <-Z.pow_succ_r by lia. f_equal; lia. }
  rewrite Z.mod_small by lia. lia.
Qed.
Lemma wrapU_idemp w z : 0 ≤ w → wrapU w (wrapU w z) = wrapU w z.
Proof. intros. apply wrapU_small, wrapU_range. done. Qed.

Lemma RT_ALIGN_DOWN_4 z : 0 ≤ z < 2 ^ 32 → RT_ALIGN_DOWN z RT_ALIGN_SIZE = 4 * (z / 4).
Proof.
  intros Hz. unfold RT_ALIGN_DOWN, RT_ALIGN_SIZE.
  replace (notU 32 (4 - 1)) with (Z.shiftl (Z.ones 30) 2) by reflexivity.
  apply Z.bits_inj'. intros n Hn. rewrite Z.land_spec.
  replace (4 * (z / 4)) with (Z.shiftl (Z.shiftr z 2) 2).
  2:{ rewrite Z.shiftl_mul_pow2, Z.shiftr_div_pow2 by lia. change (2 ^ 2) with 4. lia. }
  rewrite !Z.shiftl_spec by lia.
  destruct (decide (n < 2)) as [?|?].
  - by rewrite !(Z.testbit_neg_r _ (n - 2)), andb_false_r by lia.
  - rewrite Z.shiftr_spec by lia. replace (n - 2 + 2) with n by lia.
    destruct (decide (n < 32)).
    + rewrite Z.ones_spec_low by lia. apply andb_true_r.
    + rewrite Z.ones_spec_high by lia.
      rewrite andb_false_r. symmetry.
      destruct (decide (z = 0)) as [->|]; [apply Z.bits_0|].
      apply Z.bits_above_log2; [lia|].
      apply Z.log2_lt_pow2; [lia|].
      apply Z.lt_le_trans with (2 ^ 32); [lia|]. apply Z.pow_le_mono_r; lia.
Qed.

Lemma RT_ALIGN_4 z : 0 ≤ z ≤ 2 ^ 32 - 4 → RT_ALIGN z RT_ALIGN_SIZE = 4 * ((z + 3) / 4).
Proof.
  intros Hz. unfold RT_ALIGN, RT_ALIGN_SIZE.
  rewrite wrapU_small by lia.
  replace (z + 4 - 1) with (z + 3) by lia.
  apply RT_ALIGN_DOWN_4. lia.
Qed.

(** ** Bytes *)
Abbreviation byte c := (0 ≤ c < 256) (only parsing).
Lemma u8_byte c : byte c → u8 c = c.
Proof. exact (wrapU_small 8 c). Qed.
Lemma u8_range z : byte (u8 z).
Proof. exact (wrapU_range 8 z ltac:(done)). Qed.
Lemma land_byte c : byte c → Z.land c 0xff = c.
Proof. intros Hc. etrans; [exact (Z.land_ones c 8 ltac:(done))|]. by apply Z.mod_small. Qed.

(** A decidable statement about closed data. *)
Ltac by_evaluation := apply (bool_decide_eq_true_1 _); vm_compute; reflexivity.
