(* ===== verification/RtList.v ===== *)
(** * Intrusive lists ([include/rtservice.h])

    The linked lists as the code has them, nodes with pointers in memory, and
    the sequences they stand for.  The kernel model of Kernel.v works on the
    sequences; the theorems here are what entitles it to. *)
From S2P Require Import Prelude.

Definition addr := Z.

(** ** Doubly linked lists: [rt_list_t] *)

(** The memory: the two fields of every node. *)
Record mem := mkMem { nexts : gmap addr addr; prevs : gmap addr addr }.

Definition next (a : addr) : M mem addr := x ← gets (λ m, nexts m !! a); of_option FBadPointer x.
Definition prev (a : addr) : M mem addr := x ← gets (λ m, prevs m !! a); of_option FBadPointer x.
Definition set_next (a v : addr) : M mem unit := modify (λ m, mkMem (<[a := v]> (nexts m)) (prevs m)).
Definition set_prev (a v : addr) : M mem unit := modify (λ m, mkMem (nexts m) (<[a := v]> (prevs m))).

Definition rt_list_init (l : addr) : M mem unit := set_prev l l;; set_next l l.
Definition rt_list_insert_after (l n : addr) : M mem unit :=
  ln ← next l;
  set_prev ln n;;
  ln ← next l;
  set_next n ln;;
  set_next l n;;
  set_prev n l.
Definition rt_list_insert_before (l n : addr) : M mem unit :=
  lp ← prev l;
  set_next lp n;;
  lp ← prev l;
  set_prev n lp;;
  set_prev l n;;
  set_next n l.
Definition rt_list_remove (n : addr) : M mem unit :=
  nn ← next n; np ← prev n;
  set_prev nn np;;
  np ← prev n; nn ← next n;
  set_next np nn;;
  set_prev n n;;
  set_next n n.
Definition rt_list_isempty (l : addr) : M mem bool := ln ← next l; mret (bool_decide (ln = l)).
(** [while (p->next != l)] *)
Fixpoint list_len_loop (fuel : nat) (l p : addr) (len : Z) : M mem Z :=
  match fuel with
  | O => fail FFuel
  | S fuel =>
      pn ← next p;
      if decide (pn ≠ l) then list_len_loop fuel l pn (u32 (len + 1)) else mret len
  end.
Definition rt_list_len (fuel : nat) (l : addr) : M mem Z := list_len_loop fuel l l 0.

(** *** Chains and rings *)
Fixpoint links (m : mem) (xs : list addr) : Prop :=
  match xs with
  | a :: ((b :: _) as r) => nexts m !! a = Some b ∧ prevs m !! b = Some a ∧ links m r
  | _ => True
  end.
(** The list with head [h] and the nodes [l]. *)
Definition ring (m : mem) (h : addr) (l : list addr) : Prop :=
  NoDup (h :: l) ∧ links m (h :: l ++ [h]).

Section Links.
Implicit Types (m : mem) (xs ys : list addr).

Lemma links_split m xs a ys : links m (xs ++ a :: ys) ↔ links m (xs ++ [a]) ∧ links m (a :: ys).
Proof.
  induction xs as [|b xs IH]; [simpl; tauto|].
  destruct xs as [|c xs]; simpl in *; [tauto|]. rewrite IH. tauto.
Qed.
Lemma links_pair m xs a b ys :
  links m (xs ++ a :: b :: ys) ↔
  links m (xs ++ [a]) ∧ nexts m !! a = Some b ∧ prevs m !! b = Some a ∧ links m (b :: ys).
Proof. rewrite links_split. simpl. tauto. Qed.

(** Only the pairs inside a chain matter. *)
Lemma links_frame m m' xs b :
  (∀ a, a ∈ xs → nexts m' !! a = nexts m !! a) →
  (∀ a, a ∈ tail (xs ++ [b]) → prevs m' !! a = prevs m !! a) →
  links m (xs ++ [b]) → links m' (xs ++ [b]).
Proof.
  induction xs as [|a xs IH]; [done|]. intros Hn Hp.
  assert (links m (xs ++ [b]) → links m' (xs ++ [b])) as IH'.
  { apply IH; [intros c Hc; apply Hn; by right|].
    intros c Hc. apply Hp. simpl. destruct xs as [|x xs]; simpl in *; [by apply not_elem_of_nil in Hc|by right]. }
  destruct xs as [|x xs]; simpl in *.
  - intros (H1 & H2 & _). rewrite Hn, Hp by left. done.
  - intros (H1 & H2 & H3). rewrite Hn, Hp by left. split; [done|]. split; [done|]. by apply IH'.
Qed.

Lemma links_lookup m xs b a : links m (xs ++ [b]) → a ∈ xs → is_Some (nexts m !! a).
Proof.
  intros Hl (xs1 & xs2 & ->)%list_elem_of_split. rewrite <-app_assoc in Hl.
  apply links_split in Hl as [_ Hl]. destruct xs2 as [|c xs2]; simpl in Hl; by destruct Hl as [-> _].
Qed.
End Links.

Lemma ring_frame m m' h l :
  (∀ a, a ∈ h :: l → nexts m' !! a = nexts m !! a ∧ prevs m' !! a = prevs m !! a) →
  ring m h l → ring m' h l.
Proof.
  intros Hf [Hnd Hl]. split; [done|]. revert Hl. change (h :: l ++ [h]) with ((h :: l) ++ [h]).
  apply links_frame.
  - intros a Ha. by apply Hf.
  - simpl. intros a Ha. apply Hf. apply elem_of_app in Ha as [?| ->%list_elem_of_singleton]; [by right|left].
Qed.

Lemma wp_next a b m (Q : addr → mem → Prop) : nexts m !! a = Some b → Q b m → wp (next a) m Q.
Proof. intros. unfold next. by wp_steps. Qed.
Lemma wp_prev a b m (Q : addr → mem → Prop) : prevs m !! a = Some b → Q b m → wp (prev a) m Q.
Proof. intros. unfold prev. by wp_steps. Qed.

(** *** Initialising *)
Lemma init_ring m l :
  ∃ m', rt_list_init l m = Ok (tt, m') ∧ ring m' l [] ∧
    ∀ a, a ≠ l → nexts m' !! a = nexts m !! a ∧ prevs m' !! a = prevs m !! a.
Proof.
  eexists. split; [reflexivity|]. split.
  - split; [apply NoDup_singleton|]. simpl. by rewrite !lookup_insert_eq.
  - intros a Ha. simpl. by rewrite !lookup_insert_ne.
Qed.

(** *** Inserting between neighbours [p] and [q] of a ring *)
Lemma insert_between m p q n :
  nexts m !! p = Some q → prevs m !! q = Some p → n ≠ p → n ≠ q →
  let m' := mkMem (<[p := n]> (<[n := q]> (nexts m))) (<[n := p]> (<[q := n]> (prevs m))) in
  rt_list_insert_after p n m = Ok (tt, m') ∧ rt_list_insert_before q n m = Ok (tt, m').
Proof.
  intros Hp Hq Hnp Hnq m'. split; apply wp_exact.
  - unfold rt_list_insert_after. wp_steps. eapply wp_next; [done|]. unfold set_prev, set_next. wp_steps.
    eapply wp_next; [done|]. by wp_steps.
  - unfold rt_list_insert_before. wp_steps. eapply wp_prev; [done|]. unfold set_prev, set_next. wp_steps.
    eapply wp_prev; [done|]. wp_steps. split; [done|]. unfold m'. simpl.
    rewrite (insert_insert_ne _ n p), (insert_insert_ne _ q n) by done. done.
Qed.

Lemma insert_links m h l1 p l2 n :
  ring m h (tail (l1 ++ p :: l2)) → head (l1 ++ [p]) = Some h → n ∉ l1 ++ p :: l2 →
  ∃ q r, l2 ++ [h] = q :: r ∧ nexts m !! p = Some q ∧ prevs m !! q = Some p ∧ n ≠ p ∧ n ≠ q ∧
  let m' := mkMem (<[p := n]> (<[n := q]> (nexts m))) (<[n := p]> (<[q := n]> (prevs m))) in
  ring m' h (tail (l1 ++ p :: n :: l2)).
Proof.
  intros [Hnd Hl] Hh Hn.
  assert (h :: tail (l1 ++ p :: l2) = l1 ++ p :: l2) as E by (destruct l1; simpl in *; congruence).
  assert (h :: tail (l1 ++ p :: n :: l2) = l1 ++ p :: n :: l2) as E' by (destruct l1; simpl in *; congruence).
  rewrite E in Hnd. change (h :: tail (l1 ++ p :: l2) ++ [h]) with ((h :: tail (l1 ++ p :: l2)) ++ [h]) in Hl.
  rewrite E, <-app_assoc in Hl. simpl in Hl.
  assert (h ∈ l1 ++ [p]) as Hhin by (destruct l1; simpl in *; injection Hh as ->; left).
  destruct (l2 ++ [h]) as [|q r] eqn:Er; [by destruct l2|]. exists q, r. split; [done|].
  apply links_pair in Hl as (Hl1 & Hpq & Hqp & Hl2).
  assert (q ∈ l1 ++ p :: l2) as Hq.
  { destruct l2 as [|c l2]; simpl in Er; injection Er as <- _.
    - done.
    - apply elem_of_app. right. right. left. }
  assert (n ≠ p) as Hnp by (intros ->; apply Hn, elem_of_app; right; left).
  assert (n ≠ q) as Hnq by (intros ->; by apply Hn).
  do 4 (split; [done|]). intros m'.
  apply NoDup_app in Hnd as (Hnd1 & Hd & Hnd2). apply NoDup_cons in Hnd2 as [Hp2 Hnd2].
  split.
  { rewrite E'. apply NoDup_app. split; [done|]. split.
    - intros a Ha [->|[->|Ha']%elem_of_cons]%elem_of_cons.
      + apply (Hd p Ha). left.
      + apply Hn, elem_of_app. by left.
      + apply (Hd a Ha). by right.
    - apply NoDup_cons. split; [intros [->|?]%elem_of_cons; done|]. apply NoDup_cons. split; [|done].
      intros ?. apply Hn, elem_of_app. right. by right. }
  change (h :: tail (l1 ++ p :: n :: l2) ++ [h]) with ((h :: tail (l1 ++ p :: n :: l2)) ++ [h]).
  rewrite E', <-app_assoc. simpl. rewrite Er.
  apply links_pair. split.
  - revert Hl1. apply links_frame.
    + intros a Ha. simpl. rewrite !lookup_insert_ne; [done| |].
      * intros <-. apply Hn, elem_of_app. by left.
      * intros <-. apply (Hd p Ha). left.
    + intros a Ha. simpl.
      assert (a ≠ n) as Han.
      { intros ->. apply Hn. destruct l1 as [|b l1]; simpl in *; [by apply not_elem_of_nil in Ha|].
        right. apply elem_of_app. apply elem_of_app in Ha as [?| ->%list_elem_of_singleton]; [by left|right; left]. }
      rewrite !lookup_insert_ne; [done| |done]. intros <-.
      destruct l1 as [|b l1]; simpl in *; [by apply not_elem_of_nil in Ha|].
      injection Hh as ->. apply NoDup_cons in Hnd1 as [Hh1 _].
      destruct l2 as [|c l2]; simpl in Er; injection Er as <- _.
      * apply elem_of_app in Ha as [?| ->%list_elem_of_singleton]; [done|]. apply (Hd p); [left|left].
      * apply elem_of_app in Ha as [Ha| ->%list_elem_of_singleton].
        -- apply (Hd c); [by right|right; left].
        -- apply Hp2. left.
  - simpl. rewrite lookup_insert_eq, lookup_insert_eq. split; [done|]. split; [done|].
    destruct r as [|s r]; [|].
    + rewrite lookup_insert_ne, lookup_insert_eq by done.
      rewrite lookup_insert_ne, lookup_insert_eq by done. done.
    + rewrite lookup_insert_ne, lookup_insert_eq by done.
      rewrite (lookup_insert_ne _ n q), lookup_insert_eq by done. split; [done|]. split; [done|].
      destruct l2 as [|c l2]; [by simpl in Er; injection Er|]. simpl in Er. injection Er as <- Er.
      assert (links m' ((c :: l2) ++ [h])) as Hx; [|simpl in Hx; rewrite Er in *; exact Hx].
      rewrite <-Er in Hl2. change (c :: l2 ++ [h]) with ((c :: l2) ++ [h]) in Hl2.
      revert Hl2. apply links_frame.
      * intros a Ha. simpl. rewrite !lookup_insert_ne; [done| |].
        -- intros <-. apply Hn, elem_of_app. right. by right.
        -- intros <-. done.
      * intros a Ha. simpl in Ha |- *.
        assert (a ≠ n) as Han.
        { intros ->. apply Hn. apply elem_of_app in Ha as [?| ->%list_elem_of_singleton].
          - apply elem_of_app. right. right. by right.
          - apply elem_of_app in Hhin as [?| ->%list_elem_of_singleton]; apply elem_of_app; [by left|right; left]. }
        rewrite !lookup_insert_ne; [done| |done]. intros <-.
        apply NoDup_cons in Hnd2 as [Hc _]. apply elem_of_app in Ha as [?| ->%list_elem_of_singleton]; [done|].
        apply elem_of_app in Hhin as [Hin| ->%list_elem_of_singleton].
        -- apply (Hd _ Hin). right. left.
        -- apply Hp2. left.
Qed.

(** *** Removing a node *)
Lemma remove_links m h l1 n l2 :
  ring m h (l1 ++ n :: l2) →
  ∃ p q, nexts m !! n = Some q ∧ prevs m !! n = Some p ∧ nexts m !! p = Some n ∧ prevs m !! q = Some n ∧
  p ∈ h :: l1 ∧ q ∈ l2 ++ [h] ∧
  let m' := mkMem (<[n := n]> (<[p := q]> (nexts m))) (<[n := n]> (<[q := p]> (prevs m))) in
  ring m' h (l1 ++ l2).
Proof.
  intros [Hnd Hl].
  destruct (exists_last (l := h :: l1) ltac:(done)) as (xs & p & Exs).
  destruct (l2 ++ [h]) as [|q r] eqn:Er; [by destruct l2|].
  assert (p ∈ h :: l1) as Hp by (rewrite Exs; apply elem_of_app; right; left).
  assert (q ∈ l2 ++ [h]) as Hq by (rewrite Er; left).
  exists p, q.
  rewrite <-app_assoc in Hl. change (h :: l1 ++ (n :: l2) ++ [h]) with ((h :: l1) ++ n :: l2 ++ [h]) in Hl.
  rewrite Exs, Er, <-app_assoc in Hl. simpl in Hl.
  apply links_pair in Hl as (Hl1 & Hpn & Hnp & Hnq & Hqn & Hl2).
  do 5 (split; [done|]). split; [by rewrite <-Er|]. intros m'.
  change (h :: l1 ++ n :: l2) with ((h :: l1) ++ n :: l2) in Hnd.
  pose proof Hnd as Hnd0. apply NoDup_app in Hnd as (Hnd1 & Hd & Hnd2).
  apply NoDup_cons in Hnd2 as [Hn2 Hnd2].
  assert (n ∉ h :: l1) as Hn1 by (intros Hin; apply (Hd n Hin); left).
  split.
  { change (h :: l1 ++ l2) with ((h :: l1) ++ l2). apply NoDup_app. split; [done|]. split; [|done].
    intros a Ha ?. apply (Hd a Ha). by right. }
  rewrite <-app_assoc. change (h :: l1 ++ l2 ++ [h]) with ((h :: l1) ++ l2 ++ [h]).
  rewrite Exs, Er, <-app_assoc. simpl. apply links_pair.
  assert (∀ a, a ∈ xs → a ≠ p) as Hxp.
  { intros a Ha ->. rewrite Exs in Hnd1. apply NoDup_app in Hnd1 as (_ & H & _). apply (H p Ha). left. }
  assert (n ≠ p ∧ n ≠ q) as [Hnep Hneq].
  { split; [by intros ->|]. intros <-. apply elem_of_app in Hq as [?| ->%list_elem_of_singleton]; [done|].
    apply Hn1. left. }
  split; [|split; [|split]].
  - revert Hl1. apply links_frame.
    + intros a Ha. simpl. assert (a ∈ h :: l1) by (rewrite Exs; apply elem_of_app; by left).
      rewrite !lookup_insert_ne; [done| |]; intros <-; [by apply (Hxp p)|done].
    + rewrite <-Exs. simpl. intros a Ha. rewrite !lookup_insert_ne; [done| |].
      * intros <-. destruct l2 as [|c l2]; simpl in Er; injection Er as <- _.
        -- by apply NoDup_cons in Hnd1 as [? _].
        -- apply (Hd c); [by right|right; left].
      * intros <-. apply Hn1. by right.
  - simpl. by rewrite lookup_insert_ne, lookup_insert_eq.
  - simpl. by rewrite lookup_insert_ne, lookup_insert_eq.
  - rewrite <-Er in Hl2 |- *. revert Hl2. apply links_frame.
    + intros a Ha. simpl. rewrite !lookup_insert_ne; [done| |]; intros <-; [|done].
      apply (Hd p Hp). by right.
    + intros a Ha. simpl. destruct l2 as [|c l2]; simpl in Er, Ha; injection Er as <- _; [by apply not_elem_of_nil in Ha|].
      rewrite !lookup_insert_ne; [done| |]; intros <-; apply elem_of_app in Ha as [Ha| ->%list_elem_of_singleton].
      * by apply NoDup_cons in Hnd2 as [? _].
      * apply (Hd h); [left|right; left].
      * apply Hn2. by right.
      * apply Hn1. left.
Qed.

Lemma remove_run m p n q :
  nexts m !! n = Some q → prevs m !! n = Some p → n ≠ p → n ≠ q →
  rt_list_remove n m = Ok (tt, mkMem (<[n := n]> (<[p := q]> (nexts m))) (<[n := n]> (<[q := p]> (prevs m)))).
Proof.
  intros Hq Hp Hnp Hnq. apply wp_exact. unfold rt_list_remove.
  wp_steps. eapply wp_next; [done|]. wp_steps. eapply wp_prev; [done|]. unfold set_prev, set_next. wp_steps.
  eapply wp_prev; [simpl; by rewrite lookup_insert_ne|]. wp_steps. eapply wp_next; [done|]. by wp_steps.
Qed.
(** A detached node points at itself; removing it again changes nothing. *)
Lemma remove_detached m n :
  nexts m !! n = Some n → prevs m !! n = Some n → rt_list_remove n m = Ok (tt, m).
Proof.
  intros Hn Hp. apply wp_exact. unfold rt_list_remove.
  wp_steps. eapply wp_next; [done|]. wp_steps. eapply wp_prev; [done|]. unfold set_prev, set_next. wp_steps.
  eapply wp_prev; [simpl; by rewrite lookup_insert_eq|]. wp_steps. eapply wp_next; [done|]. wp_steps.
  destruct m as [ns ps]; simpl in *. rewrite !(insert_id _ n n) by (rewrite ?lookup_insert_eq; done). done.
Qed.

(** *** Measuring *)
Lemma isempty_run m h l : ring m h l → rt_list_isempty h m = Ok (bool_decide (l = []), m).
Proof.
  intros [Hnd Hl]. apply wp_exact. unfold rt_list_isempty. wp_steps. destruct l as [|a l].
  - eapply wp_next; [apply Hl|]. wp_steps. by rewrite !bool_decide_eq_true_2.
  - eapply wp_next; [apply Hl|]. wp_steps. apply NoDup_cons in Hnd as [Hh _].
    rewrite !bool_decide_eq_false_2; [done|done|]. intros ->. apply Hh. left.
Qed.

Lemma len_loop m h l p len fuel :
  links m (p :: l ++ [h]) → h ∉ l → (length l < fuel)%nat → 0 ≤ len →
  list_len_loop fuel h p (u32 len) m = Ok (u32 (len + Z.of_nat (length l)), m).
Proof.
  revert p len fuel. induction l as [|a l IH]; intros p len fuel Hl Hh Hf H0; (destruct fuel as [|fuel]; [simpl in Hf; lia|]);
    apply wp_exact; simpl; wp_steps; (eapply wp_next; [apply Hl|]).
  - rewrite decide_False by tauto. wp_steps. split; [|done]. f_equal. lia.
  - rewrite decide_True by (intros ->; apply Hh; left).
    unfold wp, u32, wrapU. rewrite Z.add_mod_idemp_l by done.
    fold (wrapU 32 (len + 1)). rewrite (IH a (len + 1) fuel); [|apply Hl|..|simpl in Hf; lia|lia].
    + split; [|done]. simpl. unfold wrapU. f_equal. lia.
    + intros ?. apply Hh. by right.
Qed.

(** ** Collections of lists

    What a set of linked lists in memory stands for: the sequence of every
    head.  A node that is in no list is the head of an empty one, which is the
    state [rt_list_init] and [rt_list_remove] leave it in. *)
Definition lists := gmap addr (list addr).

Record rep (m : mem) (Q : lists) : Prop := {
  rep_ring h l : Q !! h = Some l → ring m h l;
  rep_disjoint h1 l1 h2 l2 a :
    Q !! h1 = Some l1 → Q !! h2 = Some l2 → a ∈ h1 :: l1 → a ∈ h2 :: l2 → h1 = h2;
}.

(** [n] before the node [x], at the end when [x] is the head. *)
Fixpoint before (x n : addr) (l : list addr) : list addr :=
  match l with
  | [] => [n]
  | a :: r => if decide (a = x) then n :: a :: r else a :: before x n r
  end.
Fixpoint after (x n : addr) (l : list addr) : list addr :=
  match l with
  | [] => []
  | a :: r => if decide (a = x) then a :: n :: r else a :: after x n r
  end.

Inductive op :=
| OInit (n : addr)
| OInsertBefore (h x n : addr)
| OInsertAfter (h x n : addr)
| ORemove (h n : addr)
| OIsEmpty (h : addr)
| OLen (h : addr).

(** What the operations do to sequences; [None] where the caller breaks the
    rules (a node linked twice, a position that is not in the list). *)
Definition op_spec (o : op) (Q : lists) : option (Z * lists) :=
  match o with
  | OInit n => if decide (map_Forall (λ h l, n ∉ h :: l) Q) then Some (0, <[n := []]> Q) else None
  | OInsertBefore h x n =>
      l ← Q !! h;
      if decide (x ∈ h :: l ∧ Q !! n = Some [] ∧ n ≠ h) then Some (0, <[h := before x n l]> (delete n Q)) else None
  | OInsertAfter h x n =>
      l ← Q !! h;
      if decide (x ∈ h :: l ∧ Q !! n = Some [] ∧ n ≠ h) then Some (0, <[h := tail (after x n (h :: l))]> (delete n Q)) else None
  | ORemove h n =>
      l ← Q !! h;
      if decide (n ∈ l) then Some (0, <[n := []]> (<[h := filter (.≠ n) l]> Q))
      else if decide (n = h ∧ l = []) then Some (0, Q) else None
  | OIsEmpty h => l ← Q !! h; Some (if decide (l = []) then 1 else 0, Q)
  | OLen h => l ← Q !! h; Some (u32 (Z.of_nat (length l)), Q)
  end.
Definition op_run (fuel : nat) (o : op) : M mem Z :=
  match o with
  | OInit n => rt_list_init n;; mret 0
  | OInsertBefore h x n => rt_list_insert_before x n;; mret 0
  | OInsertAfter h x n => rt_list_insert_after x n;; mret 0
  | ORemove h n => rt_list_remove n;; mret 0
  | OIsEmpty h => b ← rt_list_isempty h; mret (if decide (b = true) then 1 else 0)
  | OLen h => rt_list_len fuel h
  end.

Lemma before_split x n l1 l2 : x ∉ l1 → before x n (l1 ++ x :: l2) = l1 ++ n :: x :: l2.
Proof.
  induction l1 as [|a l1 IH]; simpl; intros Hx; [by rewrite decide_True|].
  rewrite decide_False by (intros ->; apply Hx; left). rewrite IH; [done|]. intros ?. apply Hx. by right.
Qed.
Lemma before_end x n l : x ∉ l → before x n l = l ++ [n].
Proof.
  induction l as [|a l IH]; simpl; intros Hx; [done|].
  rewrite decide_False by (intros ->; apply Hx; left). rewrite IH; [done|]. intros ?. apply Hx. by right.
Qed.
Lemma after_split x n l1 l2 : x ∉ l1 → after x n (l1 ++ x :: l2) = l1 ++ x :: n :: l2.
Proof.
  induction l1 as [|a l1 IH]; simpl; intros Hx; [by rewrite decide_True|].
  rewrite decide_False by (intros ->; apply Hx; left). rewrite IH; [done|]. intros ?. apply Hx. by right.
Qed.
Lemma elem_of_split_first (x : addr) l : x ∈ l → ∃ l1 l2, l = l1 ++ x :: l2 ∧ x ∉ l1.
Proof.
  induction l as [|a l IH]; [by intros ?%not_elem_of_nil|]. intros Hx. destruct (decide (a = x)) as [->|Ha].
  - exists [], l. split; [done|]. apply not_elem_of_nil.
  - apply elem_of_cons in Hx as [->|Hx]; [done|]. destruct (IH Hx) as (l1 & l2 & -> & Hn).
    exists (a :: l1), l2. split; [done|]. by intros [->|?]%elem_of_cons.
Qed.

Definition same_at (m m' : mem) (a : addr) : Prop :=
  nexts m' !! a = nexts m !! a ∧ prevs m' !! a = prevs m !! a.

Lemma rep_insert m m' Q h l n l' :
  rep m Q → Q !! h = Some l → Q !! n = Some [] → n ≠ h → ring m' h l' →
  (∀ a, a ∈ h :: l' → a = n ∨ a ∈ h :: l) → (∀ a, a ≠ n → a ∉ h :: l → same_at m m' a) →
  rep m' (<[h := l']> (delete n Q)).
Proof.
  intros HR Hh Hn Hne Hr Hin Hs.
  assert (∀ k lk, h ≠ k → delete n Q !! k = Some lk → Q !! k = Some lk ∧ ∀ a, a ∈ k :: lk → a ≠ n ∧ a ∉ h :: l) as Hoth.
  { intros k lk Hk [Hkn E]%lookup_delete_Some. split; [done|]. intros a Ha. split.
    - intros ->. apply Hkn. apply (rep_disjoint _ _ HR n [] k lk n); [done|done|left|done].
    - intros Ha'. apply Hk. symmetry. by apply (rep_disjoint _ _ HR k lk h l a). }
  split.
  - intros k lk [[<- <-]|[Hk E]]%lookup_insert_Some; [done|].
    destruct (Hoth k lk) as [E' Ho]; [done|done|]. apply (ring_frame m); [|by apply (rep_ring _ _ HR)].
    intros a Ha. destruct (Ho a Ha). by apply Hs.
  - intros k1 lk1 k2 lk2 a [[<- <-]|[Hk1 E1]]%lookup_insert_Some [[<- <-]|[Hk2 E2]]%lookup_insert_Some Ha1 Ha2; [done|..].
    + destruct (Hoth k2 lk2) as [_ Ho]; [done|done|]. destruct (Ho a Ha2) as [? ?]. by destruct (Hin a Ha1).
    + destruct (Hoth k1 lk1) as [_ Ho]; [done|done|]. destruct (Ho a Ha1) as [? ?]. by destruct (Hin a Ha2).
    + apply lookup_delete_Some in E1 as [_ E1], E2 as [_ E2]. by apply (rep_disjoint _ _ HR k1 lk1 k2 lk2 a).
Qed.

Lemma rep_remove m m' Q h l n l' :
  rep m Q → Q !! h = Some l → n ∈ l → ring m' h l' → ring m' n [] → n ∉ h :: l' →
  (∀ a, a ∈ l' → a ∈ l) → (∀ a, a ∉ h :: l → same_at m m' a) →
  rep m' (<[n := []]> (<[h := l']> Q)).
Proof.
  intros HR Hh Hn Hr Hrn Hni Hsub Hs.
  assert (∀ k lk, h ≠ k → Q !! k = Some lk → ∀ a, a ∈ k :: lk → a ∉ h :: l) as Hoth.
  { intros k lk Hk E a Ha Ha'. apply Hk. symmetry. by apply (rep_disjoint _ _ HR k lk h l a). }
  assert (∀ k lk a, <[h := l']> Q !! k = Some lk → a ∈ k :: lk → k ≠ n → a ≠ n) as Hn'.
  { intros k lk a [[<- <-]|[Hk E]]%lookup_insert_Some Ha Hkn ->; [done|].
    apply (Hoth k lk Hk E n Ha). by right. }
  split.
  - intros k lk [[<- <-]|[Hkn [[<- <-]|[Hk E]]%lookup_insert_Some]]%lookup_insert_Some; [done|done|].
    apply (ring_frame m); [|by apply (rep_ring _ _ HR)]. intros a Ha. apply Hs. by apply (Hoth k lk).
  - intros k1 lk1 k2 lk2 a [[<- <-]|[Hk1 E1]]%lookup_insert_Some [[<- <-]|[Hk2 E2]]%lookup_insert_Some Ha1 Ha2; [done|..].
    + apply list_elem_of_singleton in Ha1 as ->. by destruct (Hn' k2 lk2 n).
    + apply list_elem_of_singleton in Ha2 as ->. by destruct (Hn' k1 lk1 n).
    + apply lookup_insert_Some in E1 as [[<- <-]|[Hh1 E1]], E2 as [[<- <-]|[Hh2 E2]]; [done|..].
      * destruct (Hoth k2 lk2 Hh2 E2 a Ha2). apply elem_of_cons in Ha1 as [->|Ha1]; [left|right; by apply Hsub].
      * destruct (Hoth k1 lk1 Hh1 E1 a Ha1). apply elem_of_cons in Ha2 as [->|Ha2]; [left|right; by apply Hsub].
      * by apply (rep_disjoint _ _ HR k1 lk1 k2 lk2 a).
Qed.

(** Inserting behind [p], the last node of the prefix [l1 ++ [p]] of a ring. *)
Lemma insert_rep m Q h l l1 p l2 n :
  rep m Q → Q !! h = Some l → Q !! n = Some [] → n ≠ h → h :: l = l1 ++ p :: l2 →
  ∃ q r m', l2 ++ [h] = q :: r ∧
    rt_list_insert_after p n m = Ok (tt, m') ∧ rt_list_insert_before q n m = Ok (tt, m') ∧
    rep m' (<[h := tail (l1 ++ p :: n :: l2)]> (delete n Q)).
Proof.
  intros HR Hh Hn Hne E.
  assert (head (l1 ++ [p]) = Some h) as Hhd by (destruct l1; simpl in *; congruence).
  assert (n ∉ l1 ++ p :: l2) as Hni.
  { rewrite <-E. intros Hin. apply Hne. apply (rep_disjoint _ _ HR n [] h l n); [done|done|left|done]. }
  assert (tail (l1 ++ p :: l2) = l) as Et by by rewrite <-E.
  destruct (insert_links m h l1 p l2 n) as (q & r & Er & Hpq & Hqp & Hnp & Hnq & Hr); [rewrite Et; by apply (rep_ring _ _ HR)|done|done|].
  destruct (insert_between m p q n Hpq Hqp Hnp Hnq) as [Ha Hb].
  exists q, r. eexists. split; [done|]. split; [exact Ha|]. split; [exact Hb|].
  assert (p ∈ h :: l) as Hpin by (rewrite E; apply elem_of_app; right; left).
  assert (q ∈ h :: l) as Hqin.
  { assert (q ∈ l2 ++ [h]) as Hq by (rewrite Er; left). apply elem_of_app in Hq as [Hq| ->%list_elem_of_singleton]; [|left].
    rewrite E. apply elem_of_app. right. by right. }
  eapply rep_insert; [done|done|done|done|exact Hr|..].
  - intros a Ha'. rewrite E.
    assert (h :: tail (l1 ++ p :: n :: l2) = l1 ++ p :: n :: l2) as E' by (destruct l1; simpl in *; congruence).
    rewrite E' in Ha'. clear -Ha'. set_solver.
  - intros a Han Hal. split; simpl; rewrite !lookup_insert_ne; try done; intros <-; done.
Qed.

(** The steps an operation needs at most. *)
Definition op_fuel (o : op) (Q : lists) : nat :=
  match o with OLen h => S (length (default [] (Q !! h))) | _ => 1%nat end.

Lemma op_init m Q n :
  rep m Q → map_Forall (λ h l, n ∉ h :: l) Q →
  ∃ m', rt_list_init n m = Ok (tt, m') ∧ rep m' (<[n := []]> Q).
Proof.
  intros HR Hf. destruct (init_ring m n) as (m' & Hrun & Hr & Hs). exists m'. split; [done|]. split.
  - intros h l [[<- <-]|[Hk E]]%lookup_insert_Some; [done|].
    apply (ring_frame m); [|by apply (rep_ring _ _ HR)]. intros a Ha. apply Hs. intros ->. by apply (Hf h l).
  - intros k1 lk1 k2 lk2 a [[<- <-]|[Hk1 E1]]%lookup_insert_Some [[<- <-]|[Hk2 E2]]%lookup_insert_Some Ha1 Ha2; [done|..].
    + apply list_elem_of_singleton in Ha1 as ->. by destruct (Hf _ _ E2).
    + apply list_elem_of_singleton in Ha2 as ->. by destruct (Hf _ _ E1).
    + by apply (rep_disjoint _ _ HR k1 lk1 k2 lk2 a).
Qed.

Lemma op_insert_before m Q h l x n :
  rep m Q → Q !! h = Some l → x ∈ h :: l → Q !! n = Some [] → n ≠ h →
  ∃ m', rt_list_insert_before x n m = Ok (tt, m') ∧ rep m' (<[h := before x n l]> (delete n Q)).
Proof.
  intros HR Hh Hx Hn Hne. destruct (rep_ring _ _ HR h l Hh) as [[Hhl _]%NoDup_cons _].
  destruct (decide (x = h)) as [->|Hxh].
  - destruct (exists_last (l := h :: l) ltac:(done)) as (l1 & p & E).
    destruct (insert_rep m Q h l l1 p [] n) as (q & r & m' & Er & _ & Hrun & HR'); [done..|].
    simpl in Er. injection Er as <- <-. exists m'. split; [done|].
    assert (tail (l1 ++ [p; n]) = before h n l) as <-; [|done].
    rewrite before_end by done. destruct l1 as [|y l1]; simpl in E |- *; injection E as -> ->; [done|].
    by rewrite <-app_assoc.
  - apply elem_of_cons in Hx as [->|Hx]; [done|]. destruct (elem_of_split_first x l Hx) as (la & lb & -> & Hxa).
    destruct (exists_last (l := h :: la) ltac:(done)) as (l1 & p & E).
    destruct (insert_rep m Q h (la ++ x :: lb) l1 p (x :: lb) n) as (q & r & m' & Er & _ & Hrun & HR'); [done..| |].
    { change (h :: la ++ x :: lb) with ((h :: la) ++ x :: lb). by rewrite E, <-app_assoc. }
    simpl in Er. injection Er as <- _. exists m'. split; [done|].
    rewrite before_split by done.
    assert (tail (l1 ++ p :: n :: x :: lb) = la ++ n :: x :: lb) as <-; [|done].
    destruct l1 as [|y l1]; simpl in E |- *; injection E as -> ->; [done|]. by rewrite <-app_assoc.
Qed.

Lemma op_insert_after m Q h l x n :
  rep m Q → Q !! h = Some l → x ∈ h :: l → Q !! n = Some [] → n ≠ h →
  ∃ m', rt_list_insert_after x n m = Ok (tt, m') ∧ rep m' (<[h := tail (after x n (h :: l))]> (delete n Q)).
Proof.
  intros HR Hh Hx Hn Hne. destruct (elem_of_split_first x _ Hx) as (l1 & l2 & E & Hx1).
  destruct (insert_rep m Q h l l1 x l2 n) as (q & r & m' & _ & Hrun & _ & HR'); [done..|].
  exists m'. split; [done|]. by rewrite E, after_split.
Qed.

Lemma op_remove m Q h l n :
  rep m Q → Q !! h = Some l → n ∈ l →
  ∃ m', rt_list_remove n m = Ok (tt, m') ∧ rep m' (<[n := []]> (<[h := filter (.≠ n) l]> Q)).
Proof.
  intros HR Hh Hn. pose proof (rep_ring _ _ HR h l Hh) as Hr.
  destruct (elem_of_split_first n l Hn) as (l1 & l2 & -> & Hn1).
  destruct (remove_links m h l1 n l2 Hr) as (p & q & Hq & Hp & Hpn & Hqn & Hpin & Hqin & Hr').
  destruct Hr as [Hnd _]. apply NoDup_cons in Hnd as [Hhn Hnd]. apply NoDup_app in Hnd as (_ & Hd & [Hn2 _]%NoDup_cons).
  assert (n ≠ h) as Hnh by (intros ->; by apply Hhn).
  assert (n ≠ p) as Hnp by (intros <-; apply elem_of_cons in Hpin as [?|?]; done).
  assert (n ≠ q) as Hnq by (intros <-; apply elem_of_app in Hqin as [?|?%list_elem_of_singleton]; done).
  eexists. split; [by apply remove_run|].
  assert (filter (.≠ n) (l1 ++ n :: l2) = l1 ++ l2) as ->.
  { rewrite filter_app, filter_cons_False by tauto. by rewrite !list_filter_ne_id. }
  eapply (rep_remove m); [done|done|done|exact Hr'|..].
  - split; [apply NoDup_singleton|]. simpl. by rewrite !lookup_insert_eq.
  - intros [?|[?|?]%elem_of_app]%elem_of_cons; done.
  - intros a. rewrite !elem_of_app, elem_of_cons. tauto.
  - intros a Ha.
    assert (a ≠ n) by (intros ->; apply Ha; right; apply elem_of_app; right; left).
    assert (a ≠ p) by (intros ->; apply Ha; apply elem_of_cons in Hpin as [->|?]; [left|right; apply elem_of_app; by left]).
    assert (a ≠ q).
    { intros ->. apply Ha. apply elem_of_app in Hqin as [?| ->%list_elem_of_singleton]; [right; apply elem_of_app; right; by right|left]. }
    split; simpl; by rewrite !lookup_insert_ne.
Qed.

Lemma op_refines m Q o z Q' fuel :
  rep m Q → op_spec o Q = Some (z, Q') → (op_fuel o Q ≤ fuel)%nat →
  ∃ m', op_run fuel o m = Ok (z, m') ∧ rep m' Q'.
Proof.
  intros HR Hs Hf. destruct o as [n|h x n|h x n|h n|h|h]; simpl in Hs, Hf; unfold op_run.
  { case_decide as Hc; [|done]. injection Hs as <- <-. destruct (op_init m Q n HR Hc) as (m' & E & HR').
    exists m'. split; [|done]. unfold mbind, M_bind. by rewrite E. }
  all: apply bind_Some in Hs as (l & Hh & Hs).
  - case_decide as Hc; [|done]. injection Hs as <- <-. destruct Hc as (Hx & Hn & Hne).
    destruct (op_insert_before m Q h l x n) as (m' & E & HR'); [done..|].
    exists m'. split; [|done]. unfold mbind, M_bind. by rewrite E.
  - case_decide as Hc; [|done]. injection Hs as <- <-. destruct Hc as (Hx & Hn & Hne).
    destruct (op_insert_after m Q h l x n) as (m' & E & HR'); [done..|].
    exists m'. split; [|done]. unfold mbind, M_bind. by rewrite E.
  - case_decide as Hc.
    + injection Hs as <- <-. destruct (op_remove m Q h l n) as (m' & E & HR'); [done..|].
      exists m'. split; [|done]. unfold mbind, M_bind. by rewrite E.
    + case_decide as Hc2; [|done]. injection Hs as <- <-. destruct Hc2 as [-> ->].
      exists m. split; [|done]. destruct (rep_ring _ _ HR _ _ Hh) as [_ Hl]. simpl in Hl.
      unfold mbind, M_bind. by rewrite remove_detached by tauto.
  - injection Hs as <- <-. exists m. split; [|done]. unfold mbind, M_bind.
    rewrite (isempty_run m h l) by by apply (rep_ring _ _ HR). by destruct l.
  - injection Hs as <- <-. exists m. split; [|done]. rewrite Hh in Hf. simpl in Hf.
    destruct (rep_ring _ _ HR _ _ Hh) as [[Hhl _]%NoDup_cons Hl]. unfold rt_list_len. apply (len_loop m h l h 0); [done|done|lia|lia].
Qed.

(** *** Sequences of operations *)
Fixpoint run_ops (fuel : nat) (os : list op) : M mem (list Z) :=
  match os with
  | [] => mret []
  | o :: os => z ← op_run fuel o; zs ← run_ops fuel os; mret (z :: zs)
  end.
Fixpoint spec_ops (os : list op) (Q : lists) : option (list Z * lists) :=
  match os with
  | [] => Some ([], Q)
  | o :: os => '(z, Q) ← op_spec o Q; '(zs, Q) ← spec_ops os Q; Some (z :: zs, Q)
  end.
(** The steps the longest loop of a run takes at most. *)
Fixpoint ops_fuel (os : list op) (Q : lists) : nat :=
  match os with
  | [] => O
  | o :: os => Nat.max (op_fuel o Q) (from_option (λ x, ops_fuel os x.2) O (op_spec o Q))
  end.

(** C26: the pointer code of the kernel's doubly linked lists implements
    sequences.  Whatever operations a client performs, as long as it inserts
    only nodes that are in no list and names positions that are there, no
    pointer is followed to a node that does not exist, [rt_list_len] and
    [rt_list_isempty] return, with the right answer, and the memory again
    represents the sequences the specification computes: [rt_list_insert_before]
    on a head appends, on a node places in front of it, [rt_list_insert_after]
    on a head prepends, [rt_list_remove] takes the node out of whatever list it
    is in and leaves it ready to be inserted again.  Lists that are not named
    are not disturbed. *)
Theorem list_run_refines m Q os zs Q' fuel :
  rep m Q → spec_ops os Q = Some (zs, Q') → (ops_fuel os Q ≤ fuel)%nat →
  ∃ m', run_ops fuel os m = Ok (zs, m') ∧ rep m' Q'.
Proof.
  revert m Q zs. induction os as [|o os IH]; intros m Q zs HR Hs Hf.
  { injection Hs as <- <-. by exists m. }
  simpl in Hs, Hf. apply bind_Some in Hs as ([z Q1] & Ho & Hs).
  apply bind_Some in Hs as ([zs1 Q2] & Hos & [= <- <-]). rewrite Ho in Hf. simpl in Hf.
  destruct (op_refines m Q o z Q1 fuel HR Ho) as (m1 & E1 & HR1); [lia|].
  destruct (IH m1 Q1 zs1 HR1 Hos) as (m2 & E2 & HR2); [lia|].
  exists m2. split; [|done]. simpl. unfold mbind, M_bind. by rewrite E1, E2.
Qed.
Lemma rep_empty : rep (mkMem ∅ ∅) ∅.
Proof. by split. Qed.
(** Two heads (1, 2) and three nodes: queue 10, 30, put 20 between them, move
    10 to the other list, count. *)
Lemma list_run_refines_witness :
  ∃ m', run_ops 3 (OInit <$> [1; 2; 10; 20; 30] ++ []) (mkMem ∅ ∅) = Ok ([0; 0; 0; 0; 0], m') ∧
  ∃ m2, run_ops 3 [OInsertBefore 1 1 10; OInsertBefore 1 1 30; OInsertBefore 1 30 20; ORemove 1 10;
                   OInsertAfter 2 2 10; OLen 1; OIsEmpty 1; OLen 2; ORemove 2 10; OIsEmpty 2] m'
        = Ok ([0; 0; 0; 0; 0; 2; 0; 1; 0; 1], m2) ∧
  rep m2 {[ 1 := [20; 30]; 2 := []; 10 := [] ]}.
Proof.
  destruct (list_run_refines _ _ (OInit <$> [1; 2; 10; 20; 30] ++ []) [0; 0; 0; 0; 0]
    {[ 1 := []; 2 := []; 10 := []; 20 := []; 30 := [] ]} 3 rep_empty) as (m' & E & HR); [by vm_compute|vm_compute; lia|].
  exists m'. split; [exact E|].
  destruct (list_run_refines _ _ [OInsertBefore 1 1 10; OInsertBefore 1 1 30; OInsertBefore 1 30 20; ORemove 1 10;
                   OInsertAfter 2 2 10; OLen 1; OIsEmpty 1; OLen 2; ORemove 2 10; OIsEmpty 2]
     [0; 0; 0; 0; 0; 2; 0; 1; 0; 1] {[ 1 := [20; 30]; 2 := []; 10 := [] ]} 3 HR) as (m2 & E2 & HR2);
   [by vm_compute|vm_compute; lia|].
  by exists m2.
Defined.

(** measuring a list terminates.  However long the list is, the walk
    [while (p->next != l)] of [rt_list_len] is over after at most as many steps
    as there are nodes in memory, and answers the length of the sequence (modulo
    the width of [unsigned int]) without changing anything. *)
Theorem rt_list_len_terminates m h l fuel :
  ring m h l → (size (nexts m) ≤ fuel)%nat → rt_list_len fuel h m = Ok (u32 (Z.of_nat (length l)), m).
Proof.
  intros [Hnd Hl] Hf. apply (len_loop m h l h 0); [done|by apply NoDup_cons in Hnd as [? _]| |lia].
  assert (length (h :: l) ≤ size (nexts m))%nat as Hs; [|simpl in Hs; lia].
  rewrite <-(size_list_to_set (C := gset addr) (h :: l)), <-size_dom by done. apply subseteq_size.
  intros a Ha%elem_of_list_to_set. apply elem_of_dom. by apply (links_lookup m (h :: l) h a).
Qed.
Lemma rt_list_len_terminates_witness :
  let m := mkMem {[ 1 := 20; 20 := 30; 30 := 1 ]} {[ 1 := 30; 20 := 1; 30 := 20 ]} in
  ring m 1 [20; 30] ∧ rt_list_len 3 1 m = Ok (2, m).
Proof.
  intros m. assert (ring m 1 [20; 30]) as Hr.
  { split; [apply (bool_decide_eq_true_1 _); by vm_compute|by vm_compute]. }
  split; [exact Hr|]. apply (rt_list_len_terminates m 1 [20; 30] 3); [exact Hr|vm_compute; lia].
Defined.
