(* ===== verification/RingBuffer.v ===== *)
(** * The byte ring buffer ([components/drivers/src/ringbuffer.c])

    A ring buffer with mirror bits.  The pool is a list of bytes, the indices
    are the 15-bit and 1-bit fields of the C structure.  The abstract view
    [contents] is the queue of the bytes still to be read; each operation is
    related to the queue operation it implements. *)
From S2P Require Import Prelude.

Module RingBuffer.

Record rt_ringbuffer := mkRingbuffer {
  buffer_ptr : list Z;
  read_mirror : Z;
  read_index : Z;
  write_mirror : Z;
  write_index : Z;
  buffer_size : Z
}.
#[export] Instance eta_rt_ringbuffer : EtaRecord rt_ringbuffer := λ r,
  mkRingbuffer (buffer_ptr r) (read_mirror r) (read_index r) (write_mirror r)
    (write_index r) (buffer_size r).

Inductive rt_ringbuffer_state :=
  RT_RINGBUFFER_EMPTY | RT_RINGBUFFER_FULL | RT_RINGBUFFER_HALFFULL.

#[export] Instance rt_ringbuffer_state_eq_dec : EqDecision rt_ringbuffer_state.
Proof. solve_decision. Defined.

(** [rb->read_mirror = ~rb->read_mirror] on a 1-bit field; 15-bit index stores. *)
Definition not1 (b : Z) : Z := notU 1 b.
Definition idx15 (z : Z) : Z := wrapU 15 z.

Definition rt_ringbuffer_status (rb : rt_ringbuffer) : rt_ringbuffer_state :=
  if decide (read_index rb = write_index rb) then
    if decide (read_mirror rb = write_mirror rb)
    then RT_RINGBUFFER_EMPTY else RT_RINGBUFFER_FULL
  else RT_RINGBUFFER_HALFFULL.

Definition rt_ringbuffer_init (rb : rt_ringbuffer) (pool : list Z) (size : Z) : outcome rt_ringbuffer :=
  if decide (size > 0) then
    Ok (mkRingbuffer pool 0 0 0 0 (RT_ALIGN_DOWN size RT_ALIGN_SIZE))
  else Err FAssert.

Definition rt_ringbuffer_data_len (rb : rt_ringbuffer) : Z :=
  match rt_ringbuffer_status rb with
  | RT_RINGBUFFER_EMPTY => 0
  | RT_RINGBUFFER_FULL => buffer_size rb
  | RT_RINGBUFFER_HALFFULL =>
      if decide (write_index rb > read_index rb)
      then write_index rb - read_index rb
      else buffer_size rb - (read_index rb - write_index rb)
  end.

Definition rt_ringbuffer_space_len (rb : rt_ringbuffer) : Z :=
  u32 (buffer_size rb - rt_ringbuffer_data_len rb).

(** The two writes shared by [put] and [put_force], and the index updates
    that go with them. *)
Definition write_straight (ptr : list Z) (length : Z) : M rt_ringbuffer unit :=
  rb ← gets id;
  buf ← lift_outcome (memcpy (buffer_ptr rb) (write_index rb) ptr 0 length);
  modify (λ rb, rb <| buffer_ptr := buf |>
                   <| write_index := idx15 (write_index rb + length) |>).

Definition write_wrapped (ptr : list Z) (length : Z) : M rt_ringbuffer unit :=
  rb ← gets id;
  let room := buffer_size rb - write_index rb in
  buf ← lift_outcome (memcpy (buffer_ptr rb) (write_index rb) ptr 0 room);
  buf ← lift_outcome (memcpy buf 0 ptr room (u32 (length - room)));
  modify (λ rb, rb <| buffer_ptr := buf |>
                   <| write_mirror := not1 (write_mirror rb) |>
                   <| write_index := idx15 (length - (buffer_size rb - write_index rb)) |>).

Definition rt_ringbuffer_put (ptr : list Z) (length : Z) : M rt_ringbuffer Z :=
  rb ← gets id;
  let size := u16 (rt_ringbuffer_space_len rb) in
  if decide (size = 0) then mret 0
  else
    let length := if decide (size < length) then size else length in
    if decide (buffer_size rb - write_index rb > length) then
      write_straight ptr length;; mret length
    else
      write_wrapped ptr length;; mret length.

Definition rt_ringbuffer_put_force (ptr : list Z) (length : Z) : M rt_ringbuffer Z :=
  rb ← gets id;
  let space_length := u16 (rt_ringbuffer_space_len rb) in
  let cut := decide (length > buffer_size rb) in
  let ptr := if cut then drop (Z.to_nat (length - buffer_size rb)) ptr else ptr in
  let length := if cut then buffer_size rb else length in
  if decide (buffer_size rb - write_index rb > length) then
    write_straight ptr length;;
    when (length > space_length)
      (modify (λ rb, rb <| read_index := write_index rb |>));;
    mret length
  else
    write_wrapped ptr length;;
    when (length > space_length)
      (modify (λ rb, rb <| read_mirror := not1 (read_mirror rb) |>
                       <| read_index := write_index rb |>));;
    mret length.

(** [get] copies into the caller's array [ptr], which is returned with the
    count. *)
Definition rt_ringbuffer_get (ptr : list Z) (length : Z) : M rt_ringbuffer (list Z * Z) :=
  rb ← gets id;
  let size := rt_ringbuffer_data_len rb in
  if decide (size = 0) then mret (ptr, 0)
  else
    let length := if decide (size < length) then u16 size else length in
    let room := buffer_size rb - read_index rb in
    if decide (room > length) then
      out ← lift_outcome (memcpy ptr 0 (buffer_ptr rb) (read_index rb) length);
      modify (λ rb, rb <| read_index := idx15 (read_index rb + length) |>);;
      mret (out, length)
    else
      out ← lift_outcome (memcpy ptr 0 (buffer_ptr rb) (read_index rb) room);
      out ← lift_outcome (memcpy out room (buffer_ptr rb) 0 (u32 (length - room)));
      modify (λ rb, rb <| read_mirror := not1 (read_mirror rb) |>
                       <| read_index := idx15 (length - (buffer_size rb - read_index rb)) |>);;
      mret (out, length).

(** [peak] hands out the position of the first unread byte in the pool
    ([None] for [RT_NULL]) and consumes the readable run that starts there. *)
Definition rt_ringbuffer_peak : M rt_ringbuffer (option Z * Z) :=
  rb ← gets id;
  let size := rt_ringbuffer_data_len rb in
  if decide (size = 0) then mret (None, 0)
  else
    let ptr := Some (read_index rb) in
    if decide (buffer_size rb - read_index rb > size) then
      modify (λ rb, rb <| read_index := idx15 (read_index rb + size) |>);;
      mret (ptr, size)
    else
      modify (λ rb, rb <| read_mirror := not1 (read_mirror rb) |> <| read_index := 0 |>);;
      mret (ptr, buffer_size rb - read_index rb).

Definition rt_ringbuffer_putchar (ch : Z) : M rt_ringbuffer Z :=
  rb ← gets id;
  if decide (rt_ringbuffer_space_len rb = 0) then mret 0
  else
    buf ← lift_outcome (array_set (buffer_ptr rb) (write_index rb) ch);
    modify (λ rb, rb <| buffer_ptr := buf |>);;
    (if decide (write_index rb = buffer_size rb - 1) then
       modify (λ rb, rb <| write_mirror := not1 (write_mirror rb) |> <| write_index := 0 |>)
     else
       modify (λ rb, rb <| write_index := idx15 (write_index rb + 1) |>));;
    mret 1.

Definition rt_ringbuffer_putchar_force (ch : Z) : M rt_ringbuffer Z :=
  rb ← gets id;
  let old_state := rt_ringbuffer_status rb in
  buf ← lift_outcome (array_set (buffer_ptr rb) (write_index rb) ch);
  modify (λ rb, rb <| buffer_ptr := buf |>);;
  (if decide (write_index rb = buffer_size rb - 1) then
     modify (λ rb, rb <| write_mirror := not1 (write_mirror rb) |> <| write_index := 0 |>);;
     when (old_state = RT_RINGBUFFER_FULL)
       (modify (λ rb, rb <| read_mirror := not1 (read_mirror rb) |>
                        <| read_index := write_index rb |>))
   else
     modify (λ rb, rb <| write_index := idx15 (write_index rb + 1) |>);;
     when (old_state = RT_RINGBUFFER_FULL)
       (modify (λ rb, rb <| read_index := write_index rb |>)));;
  mret 1.

Definition rt_ringbuffer_getchar : M rt_ringbuffer (option Z * Z) :=
  rb ← gets id;
  if decide (rt_ringbuffer_data_len rb = 0) then mret (None, 0)
  else
    ch ← lift_outcome (array_get (buffer_ptr rb) (read_index rb));
    (if decide (read_index rb = buffer_size rb - 1) then
       modify (λ rb, rb <| read_mirror := not1 (read_mirror rb) |> <| read_index := 0 |>)
     else
       modify (λ rb, rb <| read_index := idx15 (read_index rb + 1) |>));;
    mret (Some ch, 1).

Definition rt_ringbuffer_reset : M rt_ringbuffer unit :=
  modify (λ rb, rb <| read_mirror := 0 |> <| read_index := 0 |>
                   <| write_mirror := 0 |> <| write_index := 0 |>).

(** ** The abstract queue *)

Record ring_wf (rb : rt_ringbuffer) : Prop := {
  wf_size : 0 < buffer_size rb < 2 ^ 15;
  wf_pool : buffer_size rb ≤ zlen (buffer_ptr rb);
  wf_read : 0 ≤ read_index rb < buffer_size rb;
  wf_write : 0 ≤ write_index rb < buffer_size rb;
  wf_order :
    read_mirror rb = write_mirror rb ∧ read_index rb ≤ write_index rb ∨
    read_mirror rb ≠ write_mirror rb ∧ write_index rb ≤ read_index rb;
  wf_mirrors : (read_mirror rb = 0 ∨ read_mirror rb = 1) ∧
               (write_mirror rb = 0 ∨ write_mirror rb = 1)
}.

(** Position in the pool of the [i]-th unread byte. *)
Definition slot (rb : rt_ringbuffer) (i : nat) : nat :=
  let j := (Z.to_nat (read_index rb) + i)%nat in
  let n := Z.to_nat (buffer_size rb) in
  if decide (j < n)%nat then j else (j - n)%nat.

Definition contents (rb : rt_ringbuffer) : list Z :=
  (λ i, buffer_ptr rb !!! slot rb i) <$> seq 0 (Z.to_nat (rt_ringbuffer_data_len rb)).

Definition capacity (rb : rt_ringbuffer) : nat := Z.to_nat (buffer_size rb).

(** Distance of pool position [j] from the write index, going forward. *)
Definition ahead (rb : rt_ringbuffer) (j : nat) : nat :=
  if decide (Z.to_nat (write_index rb) ≤ j)%nat then (j - Z.to_nat (write_index rb))%nat
  else (j + capacity rb - Z.to_nat (write_index rb))%nat.

(** The effect of the two kinds of write: the [n] bytes of [ptr] land at the
    write index going forward around the pool. *)
Record written (rb : rt_ringbuffer) (ptr : list Z) (n : Z) (rb' : rt_ringbuffer) : Prop := {
  written_bytes : ∀ j, (j < capacity rb)%nat →
    buffer_ptr rb' !!! j =
      if decide (Z.of_nat (ahead rb j) < n) then ptr !!! ahead rb j else buffer_ptr rb !!! j;
  written_pool : length (buffer_ptr rb') = length (buffer_ptr rb);
  written_read : read_index rb' = read_index rb ∧ read_mirror rb' = read_mirror rb;
  written_size : buffer_size rb' = buffer_size rb;
  written_write :
    n < buffer_size rb - write_index rb ∧ write_index rb' = write_index rb + n
      ∧ write_mirror rb' = write_mirror rb ∨
    buffer_size rb - write_index rb ≤ n
      ∧ write_index rb' = n - (buffer_size rb - write_index rb)
      ∧ write_mirror rb' = not1 (write_mirror rb)
}.

Lemma not1_0 : not1 0 = 1. Proof. reflexivity. Qed.
Lemma not1_1 : not1 1 = 0. Proof. reflexivity. Qed.
Lemma idx15_small z : 0 ≤ z < 2 ^ 15 → idx15 z = z.
Proof. apply wrapU_small. Qed.

Lemma memcpy_ok dst doff src soff n :
  0 ≤ doff → 0 ≤ soff → 0 ≤ n → doff + n ≤ zlen dst → soff + n ≤ zlen src →
  memcpy dst doff src soff n =
    Ok (splice dst (Z.to_nat doff) (subseq src (Z.to_nat soff) (Z.to_nat n))).
Proof. intros. unfold memcpy. by rewrite decide_True. Qed.

Lemma lookup_total_memcpy (dst : list Z) doff (src : list Z) soff n j :
  (doff + n ≤ length dst)%nat → (soff + n ≤ length src)%nat →
  splice dst doff (subseq src soff n) !!! j =
    if decide (doff ≤ j < doff + n)%nat then src !!! (soff + (j - doff))%nat else dst !!! j.
Proof.
  intros Hd Hs. rewrite !list_lookup_total_alt. f_equal. case_decide.
  - rewrite lookup_splice_in by (rewrite length_subseq; lia).
    by rewrite lookup_subseq by lia.
  - rewrite lookup_splice_out; [done| |]; rewrite length_subseq; lia.
Qed.

Lemma length_memcpy (dst : list Z) doff (src : list Z) soff n :
  (doff + n ≤ length dst)%nat → (soff + n ≤ length src)%nat →
  length (splice dst doff (subseq src soff n)) = length dst.
Proof. intros. apply length_splice. rewrite length_subseq; lia. Qed.

Section Facts.
Context (rb : rt_ringbuffer) (Hwf : ring_wf rb).

Lemma data_len_wf :
  rt_ringbuffer_data_len rb =
    if decide (read_mirror rb = write_mirror rb)
    then write_index rb - read_index rb
    else buffer_size rb - (read_index rb - write_index rb).
Proof.
  destruct Hwf as [? ? ? ? Ho ?]. unfold rt_ringbuffer_data_len, rt_ringbuffer_status.
  repeat case_decide; lia.
Qed.

Lemma data_len_range : 0 ≤ rt_ringbuffer_data_len rb ≤ buffer_size rb.
Proof. rewrite data_len_wf. destruct Hwf. case_decide; lia. Qed.

Lemma space_len_wf :
  rt_ringbuffer_space_len rb = buffer_size rb - rt_ringbuffer_data_len rb.
Proof.
  pose proof data_len_range. destruct Hwf. unfold rt_ringbuffer_space_len.
  apply wrapU_small. lia.
Qed.

Lemma length_contents : length (contents rb) = Z.to_nat (rt_ringbuffer_data_len rb).
Proof. unfold contents. by rewrite length_fmap, length_seq. Qed.

Lemma contents_lookup i :
  (i < Z.to_nat (rt_ringbuffer_data_len rb))%nat →
  contents rb !! i = Some (buffer_ptr rb !!! slot rb i).
Proof.
  intros Hi. unfold contents. by rewrite list_lookup_fmap, lookup_seq_lt.
Qed.

Lemma slot_lt i : (i < capacity rb)%nat → (slot rb i < capacity rb)%nat.
Proof. destruct Hwf. unfold slot, capacity. case_decide; lia. Qed.

Lemma write_straight_spec ptr n :
  0 ≤ n < buffer_size rb - write_index rb → n ≤ zlen ptr →
  wp (write_straight ptr n) rb (λ _ rb', written rb ptr n rb').
Proof.
  intros Hn Hp. destruct Hwf. unfold write_straight, zlen in *.
  do 2 wp_step. eapply wp_bind, wp_lift_outcome.
  { apply memcpy_ok; unfold zlen, id; lia. }
  apply wp_modify. unfold id. rewrite Z2Nat.inj_0. constructor; simpl.
  - intros j Hj. unfold ahead, capacity in *.
    rewrite lookup_total_memcpy by lia. repeat case_decide; try lia; f_equal; lia.
  - apply length_memcpy; lia.
  - done.
  - done.
  - left. rewrite idx15_small by lia. lia.
Qed.

Lemma write_wrapped_spec ptr n :
  buffer_size rb - write_index rb ≤ n ≤ buffer_size rb → n ≤ zlen ptr →
  wp (write_wrapped ptr n) rb (λ _ rb', written rb ptr n rb').
Proof.
  intros Hn Hp. destruct Hwf. unfold write_wrapped, zlen in *.
  do 2 wp_step. eapply wp_bind, wp_lift_outcome.
  { apply memcpy_ok; unfold zlen, id; lia. }
  rewrite (wrapU_small 32) by (unfold id; lia). unfold id.
  rewrite Z2Nat.inj_0.
  eapply wp_bind, wp_lift_outcome.
  { apply memcpy_ok; unfold zlen; rewrite ?length_memcpy by lia; lia. }
  apply wp_modify. rewrite Z2Nat.inj_0. constructor; simpl.
  - intros j Hj. unfold ahead, capacity in *.
    rewrite lookup_total_memcpy by (rewrite ?length_memcpy by lia; lia).
    case_decide.
    + repeat case_decide; try lia; f_equal; lia.
    + rewrite lookup_total_memcpy by lia. repeat case_decide; try lia; f_equal; lia.
  - rewrite !length_memcpy; rewrite ?length_memcpy; lia.
  - done.
  - done.
  - right. rewrite idx15_small by lia. lia.
Qed.
End Facts.

(** A write that fits in the free space appends to the queue. *)
Lemma written_append rb ptr n rb' :
  ring_wf rb → written rb ptr n rb' →
  0 ≤ n → n ≤ buffer_size rb - rt_ringbuffer_data_len rb → n ≤ zlen ptr →
  ring_wf rb' ∧ contents rb' = contents rb ++ take (Z.to_nat n) ptr.
Proof.
  intros Hwf [Hb Hp [Hr Hrm] Hs Hw] Hn0 Hn Hlen.
  pose proof (data_len_wf rb Hwf) as Hdl. pose proof Hwf as [? ? ? ? Ho [Hm1 Hm2]].
  assert (ring_wf rb') as Hwf'.
  { unfold not1, zlen in *. rewrite Hdl in Hn.
    constructor; rewrite ?Hs, ?Hr, ?Hrm, ?Hp; unfold zlen; rewrite ?Hp; try lia.
    all: destruct Hm1 as [e1|e1], Hm2 as [e2|e2]; rewrite e1, e2 in *;
      change (notU 1 0) with 1 in *; change (notU 1 1) with 0 in *;
      repeat case_decide; lia. }
  split; [done|].
  assert (rt_ringbuffer_data_len rb' = rt_ringbuffer_data_len rb + n) as Hdl'.
  { rewrite (data_len_wf _ Hwf'), Hdl. rewrite Hdl in Hn. rewrite Hs, Hr, Hrm.
    destruct Hwf' as [? ? ? ? Ho' [? ?]]. rewrite ?Hs, ?Hr, ?Hrm in *.
    destruct Hm1 as [e1|e1], Hm2 as [e2|e2]; rewrite e1, e2 in *;
      unfold not1 in *; change (notU 1 0) with 1 in *; change (notU 1 1) with 0 in *;
      repeat case_decide; lia. }
  apply list_eq_same_length with (length (contents rb')); [|done|].
  { rewrite length_app, !length_contents, length_take, Hdl'. unfold zlen in *.
    destruct (data_len_range rb Hwf). lia. }
  rewrite length_contents, Hdl'. intros i x y Hi Hx Hy.
  rewrite contents_lookup in Hx by (rewrite Hdl'; lia). injection Hx as <-.
  destruct (data_len_range rb Hwf) as [Hd0 Hd1].
  assert (slot rb' i = slot rb i) as -> by (unfold slot; by rewrite Hr, Hs).
  rewrite Hb by (apply (slot_lt _ Hwf); unfold capacity; lia).
  destruct (decide (i < Z.to_nat (rt_ringbuffer_data_len rb))%nat) as [Hlt|Hge].
  - rewrite lookup_app_l in Hy by (rewrite length_contents; lia).
    rewrite contents_lookup in Hy by lia. injection Hy as <-.
    rewrite decide_False; [done|]. unfold slot, ahead, capacity.
    clear Hw Hwf' Hdl' Hi Hlen Hp Hb Hs Hr Hrm.
    destruct Ho as [[Hm Ho]|[Hm Ho]];
      [rewrite decide_True in Hdl by done|rewrite decide_False in Hdl by done];
      clear Hm Hm1 Hm2; repeat case_decide; lia.
  - rewrite lookup_app_r in Hy by (rewrite length_contents; lia).
    rewrite length_contents, lookup_take_lt in Hy by lia.
    assert (ahead rb (slot rb i) = i - Z.to_nat (rt_ringbuffer_data_len rb))%nat as Hrel.
    { unfold slot, ahead, capacity. clear Hw Hwf' Hdl' Hlen Hp Hb Hs Hr Hrm.
      destruct Ho as [[Hm Ho]|[Hm Ho]];
        [rewrite decide_True in Hdl by done|rewrite decide_False in Hdl by done];
        clear Hm Hm1 Hm2; repeat case_decide; lia. }
    rewrite decide_True.
    2:{ rewrite Hrel. lia. }
    apply list_lookup_total_correct. by rewrite <-Hy, Hrel.
Qed.

(** Reading [n] bytes: the read side moves, the pool and the write side stay. *)
Record consumed (rb : rt_ringbuffer) (n : Z) (rb' : rt_ringbuffer) : Prop := {
  consumed_pool : buffer_ptr rb' = buffer_ptr rb ∧ buffer_size rb' = buffer_size rb;
  consumed_write : write_index rb' = write_index rb ∧ write_mirror rb' = write_mirror rb;
  consumed_read :
    n < buffer_size rb - read_index rb ∧ read_index rb' = read_index rb + n
      ∧ read_mirror rb' = read_mirror rb ∨
    buffer_size rb - read_index rb ≤ n
      ∧ read_index rb' = n - (buffer_size rb - read_index rb)
      ∧ read_mirror rb' = not1 (read_mirror rb)
}.

Lemma consumed_drop rb n rb' :
  ring_wf rb → consumed rb n rb' → 0 ≤ n ≤ rt_ringbuffer_data_len rb →
  ring_wf rb' ∧ contents rb' = drop (Z.to_nat n) (contents rb).
Proof.
  intros Hwf [[Hp Hs] [Hw Hwm] Hr] Hn.
  pose proof (data_len_wf rb Hwf) as Hdl. pose proof Hwf as [? ? ? ? Ho [Hm1 Hm2]].
  assert (ring_wf rb' ∧ rt_ringbuffer_data_len rb' = rt_ringbuffer_data_len rb - n)
    as [Hwf' Hdl'].
  { assert (ring_wf rb') as Hwf'.
    { rewrite Hdl in Hn.
      constructor; rewrite ?Hs, ?Hw, ?Hwm, ?Hp; try lia.
      all: unfold not1 in *; destruct Hm1 as [e1|e1], Hm2 as [e2|e2]; rewrite e1, e2 in *;
        change (notU 1 0) with 1 in *; change (notU 1 1) with 0 in *;
        repeat case_decide; lia. }
    split; [done|]. rewrite (data_len_wf _ Hwf'), Hdl. rewrite Hdl in Hn.
    destruct Hwf' as [? ? ? ? Ho' [? ?]]. rewrite ?Hs, ?Hw, ?Hwm in *.
    unfold not1 in *; destruct Hm1 as [e1|e1], Hm2 as [e2|e2]; rewrite e1, e2 in *;
      change (notU 1 0) with 1 in *; change (notU 1 1) with 0 in *;
      repeat case_decide; lia. }
  split; [done|]. destruct (data_len_range rb Hwf) as [Hd0 Hd1].
  apply list_eq_same_length with (length (contents rb')); [|done|].
  { rewrite length_drop, !length_contents. lia. }
  rewrite length_contents, Hdl'. intros i x y Hi Hx Hy.
  rewrite contents_lookup in Hx by (rewrite Hdl'; lia). injection Hx as <-.
  rewrite lookup_drop, contents_lookup in Hy by lia. injection Hy as <-.
  rewrite Hp. f_equal. unfold slot. rewrite Hs. clear Hdl Hdl' Hwf' Ho Hm1 Hm2.
  repeat case_decide; lia.
Qed.

Lemma contents_prefix rb n :
  ring_wf rb → 0 ≤ n ≤ rt_ringbuffer_data_len rb →
  take (Z.to_nat n) (contents rb) =
    if decide (buffer_size rb - read_index rb > n)
    then subseq (buffer_ptr rb) (Z.to_nat (read_index rb)) (Z.to_nat n)
    else subseq (buffer_ptr rb) (Z.to_nat (read_index rb))
           (Z.to_nat (buffer_size rb - read_index rb))
         ++ take (Z.to_nat (n - (buffer_size rb - read_index rb))) (buffer_ptr rb).
Proof.
  intros Hwf Hn. destruct (data_len_range rb Hwf) as [Hd0 Hd1].
  pose proof Hwf as [? ? ? ? _ _]. unfold zlen in *.
  apply list_eq_same_length with (Z.to_nat n).
  { case_decide; rewrite ?length_app, ?length_take, ?length_subseq; lia. }
  { rewrite length_take, length_contents. lia. }
  intros i x y Hi Hx Hy. rewrite lookup_take_lt, contents_lookup in Hx by lia.
  injection Hx as <-. unfold slot. case_decide as Hc.
  - rewrite lookup_subseq in Hy by lia. rewrite decide_True by lia.
    by apply list_lookup_total_correct.
  - destruct (decide (i < Z.to_nat (buffer_size rb - read_index rb))%nat).
    + rewrite lookup_app_l in Hy by (rewrite length_subseq; lia).
      rewrite lookup_subseq in Hy by lia. rewrite decide_True by lia.
      by apply list_lookup_total_correct.
    + rewrite lookup_app_r, length_subseq in Hy by (rewrite ?length_subseq; lia).
      rewrite lookup_take_lt in Hy by lia. rewrite decide_False by lia.
      apply list_lookup_total_correct. rewrite <-Hy. f_equal. lia.
Qed.

Lemma array_set_ok l i v :
  0 ≤ i < zlen l → array_set l i v = Ok (<[Z.to_nat i := v]> l).
Proof. intros. unfold array_set. by rewrite decide_True. Qed.

(** ** The operations against the queue *)

Section Operations.
Context (rb : rt_ringbuffer) (Hwf : ring_wf rb).

Lemma put_spec ptr length :
  0 ≤ length ≤ RT_UINT16_MAX → length ≤ zlen ptr →
  wp (rt_ringbuffer_put ptr length) rb (λ r rb',
    ring_wf rb' ∧ buffer_size rb' = buffer_size rb
    ∧ r = length `min` (buffer_size rb - rt_ringbuffer_data_len rb)
    ∧ contents rb' = contents rb ++ take (Z.to_nat r) ptr).
Proof.
  intros Hl Hp. destruct (data_len_range rb Hwf) as [Hd0 Hd1].
  pose proof Hwf as [? ? ? ? Ho _].
  unfold rt_ringbuffer_put. do 2 wp_step. unfold id.
  rewrite space_len_wf, wrapU_small by (try done; lia).
  set (r := length `min` (buffer_size rb - rt_ringbuffer_data_len rb)).
  wp_if as Hz.
  { wp_step. replace r with 0 by lia. split_and!; [done..|]. by rewrite app_nil_r. }
  replace (if decide _ then _ else length) with r by (case_decide; lia).
  assert (∀ rb', written rb ptr r rb' → ring_wf rb' ∧ buffer_size rb' = buffer_size rb
            ∧ r = r ∧ contents rb' = contents rb ++ take (Z.to_nat r) ptr) as Hfin.
  { intros rb' Hw. destruct (written_append rb ptr r rb' Hwf Hw) as [? ->]; [lia..|].
    split_and!; [done|apply Hw|done|done]. }
  wp_if as Hc; apply wp_bind.
  - wp_apply write_straight_spec; [done|lia..|]. intros ? rb' Hw. wp_step. auto.
  - wp_apply write_wrapped_spec; [done|lia..|]. intros ? rb' Hw. wp_step. auto.
Qed.

Lemma get_spec ptr length :
  0 ≤ length ≤ RT_UINT16_MAX → length ≤ zlen ptr →
  wp (rt_ringbuffer_get ptr length) rb (λ r rb',
    ring_wf rb' ∧ buffer_size rb' = buffer_size rb
    ∧ r.2 = length `min` rt_ringbuffer_data_len rb
    ∧ r.1 = take (Z.to_nat r.2) (contents rb) ++ drop (Z.to_nat r.2) ptr
    ∧ contents rb' = drop (Z.to_nat r.2) (contents rb)).
Proof.
  intros Hl Hp. destruct (data_len_range rb Hwf) as [Hd0 Hd1].
  pose proof Hwf as [? ? ? ? Ho _].
  unfold rt_ringbuffer_get. do 2 wp_step. unfold id.
  wp_if as Hz.
  { wp_step. simpl. rewrite Hz, Z.min_r by lia. done. }
  set (r := length `min` rt_ringbuffer_data_len rb).
  replace (if decide _ then _ else length) with r
    by (case_decide; rewrite ?wrapU_small; lia).
  assert (take (Z.to_nat r) (contents rb) = _) as Hpre
    by (apply contents_prefix; [done|lia]).
  unfold zlen in *. wp_if as Hc;
    [rewrite decide_True in Hpre by done|rewrite decide_False in Hpre by done].
  - eapply wp_bind, wp_lift_outcome.
    { apply memcpy_ok; unfold zlen; lia. }
    repeat wp_step. simpl. split_and!; [|done|done| |].
    1,3: apply (consumed_drop rb r); [done| |lia]; constructor; simpl;
         rewrite ?idx15_small by lia; first [done|lia].
    rewrite Hpre. unfold splice. rewrite length_subseq by lia. done.
  - rewrite (wrapU_small 32) by lia.
    eapply wp_bind, wp_lift_outcome.
    { apply memcpy_ok; unfold zlen; lia. }
    eapply wp_bind, wp_lift_outcome.
    { apply memcpy_ok; unfold zlen; rewrite ?length_memcpy; lia. }
    repeat wp_step. simpl. split_and!; [|done|done| |].
    1,3: apply (consumed_drop rb r); [done| |lia]; constructor; simpl;
         rewrite ?idx15_small by lia; first [done|lia].
    rewrite Z2Nat.inj_0, Hpre.
    replace (Z.to_nat (buffer_size rb - read_index rb)) with (List.length
      (subseq (buffer_ptr rb) (Z.to_nat (read_index rb))
         (Z.to_nat (buffer_size rb - read_index rb)))) at 2
      by (rewrite length_subseq; lia).
    rewrite splice_splice by (rewrite !length_subseq; lia).
    rewrite <-app_assoc. do 3 f_equal. rewrite !length_subseq by lia. lia.
Qed.

(** The bytes handed out by position are the oldest unread ones. *)
Lemma peak_prefix :
  wp rt_ringbuffer_peak rb (λ r rb',
    ring_wf rb' ∧
    contents rb' = drop (Z.to_nat r.2) (contents rb) ∧
    match r.1 with
    | Some i => 0 < r.2 ∧ i + r.2 ≤ buffer_size rb ∧
        subseq (buffer_ptr rb) (Z.to_nat i) (Z.to_nat r.2) = take (Z.to_nat r.2) (contents rb)
    | None => r.2 = 0 ∧ contents rb = []
    end).
Proof.
  destruct (data_len_range rb Hwf) as [Hd0 Hd1]. pose proof Hwf as [? ? ? ? Ho _].
  unfold rt_ringbuffer_peak. do 2 wp_step. unfold id. wp_if as Hz.
  { wp_step. simpl. split_and!; [done|done|done|]. unfold contents. by rewrite Hz. }
  pose proof (data_len_wf rb Hwf) as Hdl. wp_if as Hc; repeat wp_step; simpl.
  - assert (take (Z.to_nat (rt_ringbuffer_data_len rb)) (contents rb) = _) as Hpre
      by (apply contents_prefix; [done|lia]). rewrite decide_True in Hpre by done.
    split_and!; [| |lia|lia|done].
    all: apply (consumed_drop rb (rt_ringbuffer_data_len rb)); [done| |lia]; constructor; simpl;
      rewrite ?idx15_small by lia; first [done|lia].
  - assert (buffer_size rb - read_index rb ≤ rt_ringbuffer_data_len rb) as Hle by lia.
    assert (take (Z.to_nat (buffer_size rb - read_index rb)) (contents rb) = _) as Hpre
      by (apply contents_prefix; [done|lia]). rewrite decide_False in Hpre by lia.
    split_and!; [| |lia|lia|].
    1,2: apply (consumed_drop rb (buffer_size rb - read_index rb)); [done| |lia]; constructor; simpl;
      first [done|right; split_and!; lia || done].
    rewrite Hpre. rewrite Z.sub_diag. unfold subseq. rewrite take_0, app_nil_r. done.
Qed.

Lemma insert_written ch j :
  (j < capacity rb)%nat →
  <[Z.to_nat (write_index rb):=ch]> (buffer_ptr rb) !!! j =
    if decide (Z.of_nat (ahead rb j) < 1) then [ch] !!! ahead rb j else buffer_ptr rb !!! j.
Proof.
  intros Hj. destruct Hwf. unfold ahead, capacity, zlen in *.
  destruct (decide (j = Z.to_nat (write_index rb))) as [->|].
  - rewrite list_lookup_total_insert_eq by lia.
    repeat case_decide; try lia. by rewrite Nat.sub_diag.
  - rewrite list_lookup_total_insert_ne by done. repeat case_decide; try lia; done.
Qed.

Lemma putchar_spec ch :
  wp (rt_ringbuffer_putchar ch) rb (λ r rb',
    ring_wf rb' ∧ buffer_size rb' = buffer_size rb ∧
    if decide (rt_ringbuffer_data_len rb = buffer_size rb)
    then r = 0 ∧ rb' = rb
    else r = 1 ∧ contents rb' = contents rb ++ [ch]).
Proof.
  destruct (data_len_range rb Hwf) as [Hd0 Hd1]. pose proof Hwf as [? ? ? ? Ho _].
  unfold rt_ringbuffer_putchar. do 2 wp_step. unfold id. rewrite space_len_wf by done.
  destruct (decide (rt_ringbuffer_data_len rb = buffer_size rb)) as [e|n].
  { rewrite decide_True by lia. by wp_step. }
  rewrite decide_False by lia.
  eapply wp_bind, wp_lift_outcome; [apply array_set_ok; unfold zlen in *; lia|].
  do 2 wp_step. apply wp_bind.
  match goal with |- wp ?m ?s ?Q =>
    cut (wp m s (λ _ rb', written rb [ch] 1 rb')) end.
  { intros Hw. wp_apply Hw. intros ? rb' Hw'. wp_step.
    destruct (written_append _ _ _ _ Hwf Hw'); [lia|lia|done|].
    split_and!; [done|apply Hw'|done|done]. }
  pose proof (insert_written ch) as Hb.
  wp_if as Hc; wp_step; constructor; simpl; rewrite ?length_insert; auto.
  - right. lia.
  - left. rewrite idx15_small; lia.
Qed.

Lemma getchar_spec :
  wp rt_ringbuffer_getchar rb (λ r rb',
    ring_wf rb' ∧ buffer_size rb' = buffer_size rb ∧
    match contents rb with
    | [] => r = (None, 0) ∧ rb' = rb
    | ch :: rest => r = (Some ch, 1) ∧ contents rb' = rest
    end).
Proof.
  destruct (data_len_range rb Hwf) as [Hd0 Hd1]. pose proof Hwf as [? ? ? ? Ho _].
  pose proof (length_contents rb) as Hlen.
  unfold rt_ringbuffer_getchar. do 2 wp_step. unfold id. wp_if as Hz.
  { wp_step. rewrite Hz in Hlen. apply length_zero_iff_nil in Hlen.
    by rewrite Hlen. }
  assert (contents rb !! 0%nat = Some (buffer_ptr rb !!! Z.to_nat (read_index rb))) as H0.
  { rewrite contents_lookup by lia. unfold slot. rewrite decide_True by lia.
    by rewrite Nat.add_0_r. }
  destruct (contents rb) as [|ch rest] eqn:Hc; [done|].
  injection H0 as Hch.
  eapply wp_bind, wp_lift_outcome.
  { unfold array_get. rewrite decide_True by lia.
    destruct (lookup_lt_is_Some_2 (buffer_ptr rb) (Z.to_nat (read_index rb))) as [v Hv];
      [unfold zlen in *; lia|].
    rewrite Hv. rewrite (list_lookup_total_correct _ _ _ Hv) in Hch. by rewrite Hch. }
  apply wp_bind.
  match goal with |- wp ?m ?s ?Q => cut (wp m s (λ _ rb', consumed rb 1 rb')) end.
  { intros Hw. wp_apply Hw. intros ? rb' Hw'. wp_step.
    destruct (consumed_drop _ _ _ Hwf Hw') as [? Hd]; [lia|].
    rewrite Hc in Hd. split_and!; [done|apply Hw'|done|done]. }
  wp_if as Hlast; wp_step; constructor; simpl; auto.
  - right. lia.
  - left. rewrite idx15_small; lia.
Qed.
End Operations.

(** ** Forced writes: old bytes give way *)

(** State after an overlong write whose read side was dragged to the write side. *)
Lemma written_full rb ptr n rb' :
  ring_wf rb → written rb ptr n rb' → read_mirror rb ≠ write_mirror rb →
  buffer_size rb - rt_ringbuffer_data_len rb < n ≤ buffer_size rb → zlen ptr = n →
  let rb'' := rb' <| read_index := write_index rb' |>
                  <| read_mirror := not1 (write_mirror rb') |> in
  ring_wf rb'' ∧
  contents rb'' =
    drop (Z.to_nat (rt_ringbuffer_data_len rb + n - buffer_size rb)) (contents rb ++ ptr).
Proof.
  intros Hwf [Hb Hp [Hr Hrm] Hs Hw] Hm Hn Hlen rb''.
  pose proof (data_len_wf rb Hwf) as Hdl. rewrite decide_False in Hdl by done.
  pose proof Hwf as [? ? ? ? Ho [Hm1 Hm2]].
  assert (ring_wf rb'') as Hwf'.
  { constructor; simpl; unfold zlen in *; rewrite ?Hs, ?Hp; try lia.
    destruct Hw as [(_&_&->)|(_&_&->)]; destruct Hm2 as [->| ->];
      split; (by left) || (by right). }
  split; [done|].
  assert (rt_ringbuffer_data_len rb'' = buffer_size rb) as Hdl'.
  { rewrite data_len_wf by done. destruct Hwf' as [? ? ? ? _ _]. simpl in *.
    rewrite decide_False; [lia|].
    destruct Hw as [(_&_&->)|(_&_&->)]; destruct Hm2 as [->| ->]; done. }
  unfold zlen in *.
  apply list_eq_same_length with (length (contents rb'')); [|done|].
  { rewrite length_drop, length_app, !length_contents. lia. }
  rewrite length_contents, Hdl'. intros i x y Hi Hx Hy.
  rewrite contents_lookup in Hx by (rewrite Hdl'; lia). injection Hx as <-.
  rewrite lookup_drop in Hy.
  assert (slot rb'' i < capacity rb)%nat as Hslot.
  { pose proof (slot_lt rb'' Hwf' i) as Hl. unfold capacity in *. simpl in Hl.
    rewrite Hs in Hl. lia. }
  simpl buffer_ptr. rewrite Hb by done.
  assert (ahead rb (slot rb'' i) =
    if decide (Z.of_nat i + n < buffer_size rb)%Z then i + Z.to_nat n
    else (i + Z.to_nat n - Z.to_nat (buffer_size rb)))%nat as Ha.
  { unfold ahead, slot, capacity. simpl. rewrite Hs. clear Hy Hb Hdl Hm Ho Hslot Hwf' Hdl'.
    destruct Hw as [(?&->&_)|(?&->&_)]; repeat case_decide; lia. }
  rewrite Ha. destruct (decide (Z.of_nat i + n < buffer_size rb)) as [Hlt|Hge].
  - rewrite decide_False by lia.
    rewrite lookup_app_l in Hy by (rewrite length_contents; lia).
    rewrite contents_lookup in Hy by lia. injection Hy as <-. f_equal.
    unfold slot. simpl. rewrite Hs. clear Hb Ha Hslot Hwf' Hdl'.
    destruct Hw as [(?&->&_)|(?&->&_)]; repeat case_decide; lia.
  - rewrite decide_True by lia.
    rewrite lookup_app_r in Hy by (rewrite length_contents; lia).
    apply list_lookup_total_correct. rewrite <-Hy, length_contents. f_equal. lia.
Qed.

Section Forced.
Context (rb : rt_ringbuffer) (Hwf : ring_wf rb).

Lemma put_force_fits ptr length :
  zlen ptr = length → length ≤ buffer_size rb - rt_ringbuffer_data_len rb →
  wp (rt_ringbuffer_put_force ptr length) rb (λ r rb',
    ring_wf rb' ∧ r = length ∧ contents rb' = contents rb ++ ptr).
Proof.
  intros Hp Hl. destruct (data_len_range rb Hwf) as [Hd0 Hd1].
  pose proof Hwf as [? ? ? ? Ho _].
  unfold rt_ringbuffer_put_force. do 2 wp_step. unfold id.
  rewrite space_len_wf, wrapU_small by (unfold zlen in *; (done || lia)).
  destruct (decide (length > buffer_size rb)); [lia|].
  assert (∀ rb', written rb ptr length rb' → ring_wf rb' ∧ length = length ∧
            contents rb' = contents rb ++ ptr) as Hfin.
  { intros rb' Hw. destruct (written_append rb ptr length rb' Hwf Hw) as [? ->];
      [unfold zlen in *; lia..|].
    by rewrite take_ge by (unfold zlen in *; lia). }
  wp_if as Hc; apply wp_bind.
  - wp_apply write_straight_spec; [done|unfold zlen in *; lia..|]. intros ? rb' Hw.
    apply wp_bind, wp_when; [lia|]. intros _. wp_step. auto.
  - wp_apply write_wrapped_spec; [done|unfold zlen in *; lia..|]. intros ? rb' Hw.
    apply wp_bind, wp_when; [lia|]. intros _. wp_step. auto.
Qed.

(** Overflow: with the two sides in different mirrors, or into an empty
    buffer, the newest [buffer_size] bytes survive; with unread bytes in the
    same mirror both mirror bits flip and the buffer comes out empty. *)
Lemma put_force_overflows ptr length :
  zlen ptr = length → length ≤ RT_UINT16_MAX →
  buffer_size rb - rt_ringbuffer_data_len rb < length →
  wp (rt_ringbuffer_put_force ptr length) rb (λ r rb',
    ring_wf rb' ∧ r = length `min` buffer_size rb ∧
    contents rb' =
      if decide (read_mirror rb = write_mirror rb ∧ 0 < rt_ringbuffer_data_len rb) then []
      else drop (Z.to_nat (rt_ringbuffer_data_len rb + length - buffer_size rb))
             (contents rb ++ ptr)).
Proof.
  intros Hp Hmax Hl. destruct (data_len_range rb Hwf) as [Hd0 Hd1].
  pose proof Hwf as [? ? ? ? Ho [Hm1 Hm2]]. pose proof (data_len_wf rb Hwf) as Hdl.
  unfold rt_ringbuffer_put_force. do 2 wp_step. unfold id.
  rewrite space_len_wf, wrapU_small by (unfold zlen in *; (done || lia)).
  set (cut := decide (length > buffer_size rb)).
  set (p := if cut then _ else ptr). set (n := if cut then _ else length).
  assert (zlen p = n ∧ n = length `min` buffer_size rb ∧
    drop (Z.to_nat (rt_ringbuffer_data_len rb + length - buffer_size rb)) (contents rb ++ ptr)
    = drop (Z.to_nat (rt_ringbuffer_data_len rb + n - buffer_size rb)) (contents rb ++ p))
    as (Hpn & Hn & Hdrop).
  { unfold p, n, zlen in *. destruct cut; [|split_and!; [done|lia|done]].
    rewrite length_drop. split_and!; [lia|lia|].
    rewrite !drop_app, length_contents, drop_drop.
    rewrite !(drop_ge (contents rb)) by (rewrite length_contents; lia).
    do 2 f_equal. lia. }
  rewrite Hdrop, <-Hn. clearbody n p. clear Hdrop cut.
  wp_if as Hc; apply wp_bind.
  - destruct (decide (read_mirror rb = write_mirror rb)) as [e|Hm]; [lia|].
    rewrite decide_False by (by intros [??]).
    wp_apply write_straight_spec; [done|unfold zlen in *; lia..|]. intros ? rb' Hw.
    apply wp_bind, wp_when; [|lia]. intros _. repeat wp_step.
    destruct (written_full rb p n rb' Hwf Hw) as [Hwf' Hc']; [lia..|].
    destruct Hw as [_ _ [Hr Hrm] Hs Hwr].
    replace (rb' <| read_index := write_index rb' |>) with
      (rb' <| read_index := write_index rb' |> <| read_mirror := not1 (write_mirror rb') |>);
      [by split_and!|].
    destruct rb'; simpl in *. f_equal.
    destruct Hwr as [(_&_&->)|]; [|lia]. rewrite Hrm.
    destruct Hm1 as [e|e], Hm2 as [e'|e']; rewrite e, e' in *; done || lia.
  - wp_apply write_wrapped_spec; [done|unfold zlen in *; lia..|]. intros ? rb' Hw.
    apply wp_bind, wp_when.
    2:{ intros Hno. wp_step. rewrite decide_False by lia.
        destruct (written_append rb p n rb' Hwf Hw) as [? ->]; [unfold zlen in *; lia..|].
        rewrite take_ge by (unfold zlen in *; lia).
        replace (Z.to_nat _) with 0%nat by lia. by split_and!. }
    intros Hover. repeat wp_step.
    destruct (decide (_ ∧ _)) as [[Hm _]|Hm].
    + destruct Hw as [_ Hpl [Hr Hrm] Hs Hwr]. destruct Hwr as [|(_&Hwi&Hwm)]; [lia|].
      unfold contents, rt_ringbuffer_data_len, rt_ringbuffer_status. simpl.
      rewrite Hrm, Hwm, Hm. rewrite !decide_True by done. split_and!; [|done|done].
      constructor; simpl; unfold zlen in *; rewrite ?Hs, ?Hpl, ?Hrm, ?Hwm, ?Hm; try lia.
      destruct Hm2 as [->| ->]; split; (by left) || (by right).
    + assert (read_mirror rb ≠ write_mirror rb) as Hne by (intros e; apply Hm; lia).
      destruct (written_full rb p n rb' Hwf Hw) as [Hwf' Hc']; [done|lia|lia|].
      destruct Hw as [_ _ [Hr Hrm] Hs Hwr].
      replace (rb' <| read_mirror := not1 (read_mirror rb') |> <| read_index := write_index rb' |>)
        with (rb' <| read_index := write_index rb' |>
                  <| read_mirror := not1 (write_mirror rb') |>); [by split_and!|].
      destruct rb'; simpl in *. f_equal.
      destruct Hwr as [|(_&_&->)]; [lia|]. rewrite Hrm.
      destruct Hm1 as [e|e], Hm2 as [e'|e']; rewrite e, e' in *; done || lia.
Qed.

Lemma putchar_force_spec ch :
  wp (rt_ringbuffer_putchar_force ch) rb (λ r rb',
    ring_wf rb' ∧ r = 1 ∧
    contents rb' =
      if decide (rt_ringbuffer_data_len rb = buffer_size rb)
      then drop 1 (contents rb ++ [ch]) else contents rb ++ [ch]).
Proof.
  destruct (data_len_range rb Hwf) as [Hd0 Hd1]. pose proof Hwf as [? ? ? ? Ho [Hm1 Hm2]].
  pose proof (data_len_wf rb Hwf) as Hdl.
  unfold rt_ringbuffer_putchar_force. do 2 wp_step. unfold id.
  assert (rt_ringbuffer_status rb = RT_RINGBUFFER_FULL ↔
    rt_ringbuffer_data_len rb = buffer_size rb ∧ read_mirror rb ≠ write_mirror rb
    ∧ read_index rb = write_index rb) as Hfull.
  { unfold rt_ringbuffer_status. rewrite Hdl.
    repeat case_decide; split; try done; intros; lia || naive_solver lia. }
  eapply wp_bind, wp_lift_outcome; [apply array_set_ok; unfold zlen in *; lia|].
  do 2 wp_step. pose proof (insert_written rb Hwf ch) as Hb.
  assert (∀ rb', written rb [ch] 1 rb' → rt_ringbuffer_status rb ≠ RT_RINGBUFFER_FULL →
    ring_wf rb' ∧ 1 = 1 ∧ contents rb' = if decide (rt_ringbuffer_data_len rb = buffer_size rb)
      then drop 1 (contents rb ++ [ch]) else contents rb ++ [ch]) as Hno.
  { intros rb' Hw Hnf. rewrite decide_False.
    2:{ intros He. apply Hnf, Hfull. split; [done|]. destruct (decide _); lia. }
    destruct (written_append rb [ch] 1 rb' Hwf Hw); [lia| |done|done].
    cut (rt_ringbuffer_data_len rb ≠ buffer_size rb); [lia|].
    intros He. apply Hnf, Hfull. split; [done|]. destruct (decide _); lia. }
  assert (∀ rb' rb'', written rb [ch] 1 rb' → rt_ringbuffer_status rb = RT_RINGBUFFER_FULL →
    rb'' = rb' <| read_index := write_index rb' |> <| read_mirror := not1 (write_mirror rb') |> →
    ring_wf rb'' ∧ 1 = 1 ∧ contents rb'' = if decide (rt_ringbuffer_data_len rb = buffer_size rb)
      then drop 1 (contents rb ++ [ch]) else contents rb ++ [ch]) as Hyes.
  { intros rb' rb'' Hw Hf ->. apply Hfull in Hf as (He & Hne & _). rewrite decide_True by done.
    destruct (written_full rb [ch] 1 rb' Hwf Hw Hne) as [? Hc]; [lia|done|].
    split_and!; [done|done|]. rewrite Hc. f_equal. lia. }
  clear Hdl. apply wp_bind. wp_if as Hc; apply wp_bind; wp_step;
    match goal with |- wp _ ?s _ => assert (written rb [ch] 1 s) as Hw end.
  - constructor; simpl; rewrite ?length_insert; auto. right. split_and!; [lia| |done]. lia.
  - apply wp_when; intros Hs; repeat wp_step; [|by apply Hno].
    apply (Hyes _ _ Hw Hs). apply Hfull in Hs as (_ & Hne & Hri). simpl. f_equal.
    destruct Hm1 as [e|e], Hm2 as [e'|e']; rewrite e, e' in *; done.
  - constructor; simpl; rewrite ?length_insert; auto. left.
    rewrite idx15_small by lia. split_and!; [lia|done|done].
  - apply wp_when; intros Hs; repeat wp_step; [|by apply Hno].
    apply (Hyes _ _ Hw Hs). apply Hfull in Hs as (_ & Hne & Hri). simpl. f_equal.
    destruct Hm1 as [e|e], Hm2 as [e'|e']; rewrite e, e' in *; done.
Qed.
End Forced.

(** ** Refinement of a bounded queue *)

Inductive ring_op :=
  | OpPut (bs : list Z)
  | OpGet (n : nat)
  | OpPutchar (ch : Z)
  | OpGetchar
  | OpReset.

(** What the caller sees: the count that is returned and the bytes that are read. *)
Definition run_op (op : ring_op) : M rt_ringbuffer (Z * list Z) :=
  match op with
  | OpPut bs => r ← rt_ringbuffer_put bs (zlen bs); mret (r, [])
  | OpGet n =>
      '(out, r) ← rt_ringbuffer_get (replicate n 0) (Z.of_nat n);
      mret (r, take (Z.to_nat r) out)
  | OpPutchar ch => r ← rt_ringbuffer_putchar ch; mret (r, [])
  | OpGetchar => '(ch, r) ← rt_ringbuffer_getchar; mret (r, option_list ch)
  | OpReset => rt_ringbuffer_reset;; mret (0, [])
  end.

(** The same operations on a queue of at most [cap] bytes. *)
Definition queue_op (cap : nat) (op : ring_op) (q : list Z) : (Z * list Z) * list Z :=
  match op with
  | OpPut bs => let n := (length bs `min` (cap - length q))%nat in
                ((Z.of_nat n, []), q ++ take n bs)
  | OpGet n => let m := (n `min` length q)%nat in
               ((Z.of_nat m, take m q), drop m q)
  | OpPutchar ch =>
      if decide (length q < cap)%nat then ((1, []), q ++ [ch]) else ((0, []), q)
  | OpGetchar => match q with [] => ((0, []), []) | ch :: q => ((1, [ch]), q) end
  | OpReset => ((0, []), [])
  end.

Definition op_fits (op : ring_op) : Prop :=
  match op with
  | OpPut bs => zlen bs ≤ RT_UINT16_MAX
  | OpGet n => Z.of_nat n ≤ RT_UINT16_MAX
  | _ => True
  end.

Fixpoint run_ops (ops : list ring_op) : M rt_ringbuffer (list (Z * list Z)) :=
  match ops with
  | [] => mret []
  | op :: ops => o ← run_op op; os ← run_ops ops; mret (o :: os)
  end.

Fixpoint queue_ops (cap : nat) (ops : list ring_op) (q : list Z) : list (Z * list Z) * list Z :=
  match ops with
  | [] => ([], q)
  | op :: ops =>
      let '(o, q) := queue_op cap op q in
      let '(os, q) := queue_ops cap ops q in (o :: os, q)
  end.

Lemma run_op_refines rb op :
  ring_wf rb → op_fits op →
  wp (run_op op) rb (λ o rb', ring_wf rb' ∧ buffer_size rb' = buffer_size rb ∧
    queue_op (capacity rb) op (contents rb) = (o, contents rb')).
Proof.
  intros Hwf Hfit. destruct (data_len_range rb Hwf) as [Hd0 Hd1].
  pose proof (length_contents rb) as Hlen. unfold capacity.
  destruct op as [bs|n|ch| |]; simpl in *.
  - apply wp_bind. wp_apply put_spec; [done|unfold zlen in *; lia|done|].
    intros r rb' (Hwf' & Hs & Hr & Hc). wp_step. split_and!; [done|done|].
    rewrite Hc, Hlen, Hr. unfold zlen. do 2 f_equal; [f_equal; lia|f_equal; lia].
  - apply wp_bind. wp_apply get_spec; [done|lia|unfold zlen; rewrite length_replicate; lia|].
    intros [out r] rb' (Hwf' & Hs & Hr & Ho & Hc). simpl in *. wp_step.
    split_and!; [done|done|]. rewrite Hc, Ho, Hlen.
    rewrite take_app_length' by (rewrite length_take; lia).
    replace (Z.to_nat r) with (n `min` Z.to_nat (rt_ringbuffer_data_len rb))%nat by lia.
    do 2 f_equal. lia.
  - apply wp_bind. wp_apply putchar_spec; [done|].
    intros r rb' (Hwf' & Hs & Hr). wp_step. split_and!; [done|done|]. rewrite Hlen.
    destruct (decide (rt_ringbuffer_data_len rb = buffer_size rb)) as [e|ne].
    + destruct Hr as [-> ->]. by rewrite decide_False by lia.
    + destruct Hr as [-> ->]. by rewrite decide_True by lia.
  - apply wp_bind. wp_apply getchar_spec; [done|].
    intros [ch r] rb' (Hwf' & Hs & Hr). wp_step. split_and!; [done|done|].
    destruct (contents rb) as [|c rest].
    + destruct Hr as [[= -> ->] ->]. unfold contents in *.
      simpl in Hlen. by rewrite <-Hlen.
    + by destruct Hr as [[= -> ->] ->].
  - unfold rt_ringbuffer_reset. apply wp_bind. wp_step. wp_step. destruct Hwf as [? ? ? ? _ _].
    split_and!; [constructor; simpl; auto; lia|done|done].
Qed.

(** C33: any sequence of put, get, putchar, getchar and reset calls behaves like
    the same calls on a queue that holds at most [buffer_size] bytes. *)
Theorem ring_refines_queue rb ops :
  ring_wf rb → Forall op_fits ops →
  wp (run_ops ops) rb (λ os rb',
    ring_wf rb' ∧ queue_ops (capacity rb) ops (contents rb) = (os, contents rb')).
Proof.
  intros Hwf Hfit. revert rb Hwf. induction Hfit as [|op ops Hop _ IH]; intros rb Hwf; simpl.
  { by wp_step. }
  apply wp_bind. wp_apply run_op_refines; [done|done|].
  intros o rb' (Hwf' & Hs & Hq). apply wp_bind. wp_apply IH; [done|].
  intros os rb'' [Hwf'' Hqs]. wp_step. split; [done|]. rewrite Hq.
  unfold capacity in *. rewrite Hs in Hqs. by rewrite Hqs.
Qed.

Lemma init_empty rb pool size :
  4 ≤ size < 2 ^ 15 → size ≤ zlen pool →
  ∃ rb', rt_ringbuffer_init rb pool size = Ok rb' ∧ ring_wf rb' ∧ contents rb' = [] ∧
         Z.of_nat (capacity rb') = 4 * (size / 4).
Proof.
  intros Hs Hp. unfold rt_ringbuffer_init. rewrite decide_True by lia.
  rewrite RT_ALIGN_DOWN_4 by lia. eexists. split; [done|].
  assert (0 < size / 4 ≤ size / 4) by (split; [apply Z.div_str_pos; lia|lia]).
  assert (4 * (size / 4) ≤ size) by (apply Z.mul_div_le; lia).
  split_and!; [constructor; simpl; auto; lia|done|unfold capacity; simpl; lia].
Qed.

(** a forced put accepts everything.  What fits is appended; on overflow
    the newest [buffer_size] bytes survive when the two sides are in different
    mirrors or the buffer was empty, but with unread bytes in the same mirror
    both mirror bits flip and the buffer comes out empty. *)
Theorem put_force_spec rb ptr length :
  ring_wf rb → zlen ptr = length → length ≤ RT_UINT16_MAX →
  wp (rt_ringbuffer_put_force ptr length) rb (λ r rb',
    ring_wf rb' ∧ r = length `min` buffer_size rb ∧
    contents rb' =
      if decide (length ≤ buffer_size rb - rt_ringbuffer_data_len rb) then contents rb ++ ptr
      else if decide (read_mirror rb = write_mirror rb ∧ 0 < rt_ringbuffer_data_len rb) then []
      else drop (Z.to_nat (rt_ringbuffer_data_len rb + length - buffer_size rb)) (contents rb ++ ptr)).
Proof.
  intros Hwf Hp Hl. destruct (data_len_range rb Hwf) as [Hd0 Hd1].
  destruct (decide (length ≤ buffer_size rb - rt_ringbuffer_data_len rb)) as [Hfit|Hover].
  - wp_apply put_force_fits; [done|done|done|]. intros r rb' (? & -> & ?). split_and!; [done|lia|done].
  - wp_apply put_force_overflows; [done|done|done|lia|]. done.
Qed.

(** [rt_ringbuffer_peak] consumes a non-empty run of the oldest unread
    bytes and hands out their place in the pool, without crossing its end; an
    empty buffer yields no place. *)
Theorem peak_spec rb :
  ring_wf rb →
  wp rt_ringbuffer_peak rb (λ r rb', ring_wf rb' ∧
    contents rb' = drop (Z.to_nat r.2) (contents rb) ∧
    match r.1 with
    | Some i => 0 < r.2 ∧ i + r.2 ≤ buffer_size rb ∧
        subseq (buffer_ptr rb) (Z.to_nat i) (Z.to_nat r.2) = take (Z.to_nat r.2) (contents rb)
    | None => r.2 = 0 ∧ contents rb = []
    end).
Proof.
  intros Hwf. apply peak_prefix; done.
Qed.

(** ** Concrete instances *)

(** Eight bytes; three unread ones, of which the last has wrapped around. *)
Definition a_ring : rt_ringbuffer := mkRingbuffer [12; 1; 2; 3; 4; 5; 10; 11] 0 6 1 1 8.
Lemma a_ring_wf : ring_wf a_ring.
Proof. constructor; simpl; unfold zlen; simpl; lia. Qed.
(** The unread bytes in the middle of the pool. *)
Definition b_ring : rt_ringbuffer := mkRingbuffer [0; 1; 2; 3; 4; 5; 6; 7] 0 2 0 5 8.
Lemma b_ring_wf : ring_wf b_ring.
Proof. constructor; simpl; unfold zlen; simpl; lia. Qed.

Lemma ring_refines_queue_witness :
  wp (run_ops [OpPut [7; 8]; OpGet 4; OpGetchar; OpGetchar]) a_ring (λ os rb',
    ring_wf rb' ∧ queue_ops 8 [OpPut [7; 8]; OpGet 4; OpGetchar; OpGetchar] [10; 11; 12] = (os, contents rb')).
Proof.
  apply (ring_refines_queue a_ring [OpPut [7; 8]; OpGet 4; OpGetchar; OpGetchar]);
    [exact a_ring_wf|repeat constructor; done].
Defined.
Lemma put_force_spec_witness :
  wp (rt_ringbuffer_put_force [20; 21; 22; 23; 24; 25; 26] 7) b_ring (λ r rb',
    ring_wf rb' ∧ r = 7 ∧ contents rb' = []).
Proof. apply (put_force_spec b_ring [20; 21; 22; 23; 24; 25; 26] 7); [exact b_ring_wf|done|done]. Defined.
Lemma peak_spec_witness :
  wp rt_ringbuffer_peak a_ring (λ r rb', ring_wf rb' ∧
    contents rb' = drop (Z.to_nat r.2) [10; 11; 12] ∧
    match r.1 with
    | Some i => 0 < r.2 ∧ i + r.2 ≤ 8 ∧
        subseq (buffer_ptr a_ring) (Z.to_nat i) (Z.to_nat r.2) = take (Z.to_nat r.2) [10; 11; 12]
    | None => r.2 = 0 ∧ contents a_ring = []
    end).
Proof. apply (peak_spec a_ring). exact a_ring_wf. Defined.

End RingBuffer.
