(* ===== verification/Strings.v ===== *)
(** * Memory and string functions ([src/kservice.c])

    The kernel's own [rt_memset], [rt_memcpy] and their relatives, on a memory
    of bytes.  An address is an index into the memory; reading or writing
    outside it is a fault.  The word-at-a-time loops read and write four bytes,
    least significant first. *)
From S2P Require Import Prelude.

Abbreviation memory := (list Z).

(** ** Bytes and words *)
Fixpoint le_combine (bs : list Z) : Z :=
  match bs with [] => 0 | b :: bs => b + 256 * le_combine bs end.
Fixpoint le_split (n : nat) (w : Z) : list Z :=
  match n with O => [] | S n => w mod 256 :: le_split n (w / 256) end.

Definition load (a : Z) : M memory Z := m ← gets id; lift_outcome (array_get m a).
Definition store (a v : Z) : M memory unit :=
  m ← gets id; m ← lift_outcome (array_set m a (u8 v)); modify (λ _, m).
Definition load_word (a : Z) : M memory Z :=
  m ← gets id;
  if decide (0 ≤ a ∧ a + 4 ≤ zlen m) then mret (le_combine (subseq m (Z.to_nat a) 4)) else fail FBounds.
Definition store_word (a v : Z) : M memory unit :=
  m ← gets id;
  if decide (0 ≤ a ∧ a + 4 ≤ zlen m) then modify (λ _, splice m (Z.to_nat a) (le_split 4 v)) else fail FBounds.

(** A loop that moves on by at least one byte of the memory in every round. *)
Definition bounded {A} (loop : nat → M memory A) : M memory A := m ← gets id; loop (S (length m)).

(** ** [rt_memset] *)
Fixpoint memset_blocks (fuel : nat) (buffer a count : Z) : M memory (Z * Z) :=
  match fuel with
  | O => fail FFuel
  | S fuel =>
      if decide (16 ≤ count) then
        store_word a buffer;;
        store_word (a + 4) buffer;;
        store_word (a + 8) buffer;;
        store_word (a + 12) buffer;;
        memset_blocks fuel buffer (a + 16) (count - 16)
      else mret (a, count)
  end.
Fixpoint memset_words (fuel : nat) (buffer a count : Z) : M memory (Z * Z) :=
  match fuel with
  | O => fail FFuel
  | S fuel =>
      if decide (4 ≤ count) then store_word a buffer;; memset_words fuel buffer (a + 4) (count - 4)
      else mret (a, count)
  end.
Fixpoint memset_bytes (count : nat) (d m : Z) : M memory unit :=
  match count with
  | O => mret tt
  | S count => store m d;; memset_bytes count d (m + 1)
  end.
Definition memset_word (d : Z) : Z :=
  let buffer := Z.lor (Z.shiftl d 8) d in Z.lor buffer (u32 (Z.shiftl buffer 16)).
Definition rt_memset (s c count : Z) : M memory Z :=
  let d := Z.land c 0xff in
  r ← (if decide (4 ≤ count ∧ Z.land s 3 = 0) then
         r ← bounded (λ fuel, memset_blocks fuel (memset_word d) s count);
         bounded (λ fuel, memset_words fuel (memset_word d) r.1 r.2)
       else mret (s, count));
  memset_bytes (Z.to_nat r.2) d r.1;;
  mret s.

(** ** [rt_memcpy] *)
Definition copy_word (dst src : Z) : M memory unit := w ← load_word src; store_word dst w.
Fixpoint memcpy_blocks (fuel : nat) (dst src len : Z) : M memory (Z * Z * Z) :=
  match fuel with
  | O => fail FFuel
  | S fuel =>
      if decide (16 ≤ len) then
        copy_word dst src;;
        copy_word (dst + 4) (src + 4);;
        copy_word (dst + 8) (src + 8);;
        copy_word (dst + 12) (src + 12);;
        memcpy_blocks fuel (dst + 16) (src + 16) (len - 16)
      else mret (dst, src, len)
  end.
Fixpoint memcpy_words (fuel : nat) (dst src len : Z) : M memory (Z * Z * Z) :=
  match fuel with
  | O => fail FFuel
  | S fuel =>
      if decide (4 ≤ len) then copy_word dst src;; memcpy_words fuel (dst + 4) (src + 4) (len - 4)
      else mret (dst, src, len)
  end.
(** [while (n--) *tmp++ = *s++], shared with [rt_memmove]. *)
Fixpoint copy_up (n : nat) (tmp s : Z) : M memory unit :=
  match n with
  | O => mret tt
  | S n => c ← load s; store tmp c;; copy_up n (tmp + 1) (s + 1)
  end.
Definition rt_memcpy (dst src count : Z) : M memory Z :=
  r ← (if decide (16 ≤ count ∧ Z.lor (Z.land src 3) (Z.land dst 3) = 0) then
         r ← bounded (λ fuel, memcpy_blocks fuel dst src count);
         bounded (λ fuel, memcpy_words fuel r.1.1 r.1.2 r.2)
       else mret (dst, src, count));
  copy_up (Z.to_nat r.2) r.1.1 r.1.2;;
  mret dst.

(** ** [rt_memmove], [rt_memcmp] *)
Fixpoint copy_down (n : nat) (tmp s : Z) : M memory unit :=
  match n with
  | O => mret tt
  | S n => c ← load (s - 1); store (tmp - 1) c;; copy_down n (tmp - 1) (s - 1)
  end.
Definition rt_memmove (dest src n : Z) : M memory Z :=
  (if decide (src < dest ∧ dest < src + n) then copy_down (Z.to_nat n) (dest + n) (src + n)
   else copy_up (Z.to_nat n) dest src);;
  mret dest.

Fixpoint memcmp_loop (count : nat) (su1 su2 : Z) : M memory Z :=
  match count with
  | O => mret 0
  | S count =>
      c1 ← load su1;
      c2 ← load su2;
      if decide (c1 - c2 ≠ 0) then mret (c1 - c2)
      else memcmp_loop count (su1 + 1) (su2 + 1)
  end.
Definition rt_memcmp (cs ct count : Z) : M memory Z := memcmp_loop (Z.to_nat count) cs ct.

(** ** Strings *)
Fixpoint strlen_loop (fuel : nat) (sc : Z) : M memory Z :=
  match fuel with
  | O => fail FFuel
  | S fuel => c ← load sc; if decide (c ≠ 0) then strlen_loop fuel (sc + 1) else mret sc
  end.
Definition rt_strlen (s : Z) : M memory Z := sc ← bounded (λ fuel, strlen_loop fuel s); mret (sc - s).

Fixpoint strnlen_loop (fuel : nat) (s maxlen sc : Z) : M memory Z :=
  match fuel with
  | O => fail FFuel
  | S fuel =>
      c ← load sc;
      if decide (c ≠ 0 ∧ sc - s < maxlen) then strnlen_loop fuel s maxlen (sc + 1) else mret sc
  end.
Definition rt_strnlen (s maxlen : Z) : M memory Z :=
  sc ← bounded (λ fuel, strnlen_loop fuel s maxlen s); mret (sc - s).

Fixpoint strcmp_loop (fuel : nat) (cs ct : Z) : M memory Z :=
  match fuel with
  | O => fail FFuel
  | S fuel =>
      c ← load cs;
      d ← load ct;
      if decide (c ≠ 0 ∧ c = d) then strcmp_loop fuel (cs + 1) (ct + 1) else mret (c - d)
  end.
Definition rt_strcmp (cs ct : Z) : M memory Z := bounded (λ fuel, strcmp_loop fuel cs ct).

(** [__res] is a [signed char]. *)
Fixpoint strncmp_loop (count : nat) (cs ct : Z) : M memory Z :=
  match count with
  | O => mret 0
  | S count =>
      c ← load cs;
      d ← load ct;
      let __res := wrapS 8 (c - d) in
      if decide (__res ≠ 0 ∨ c = 0) then mret __res else strncmp_loop count (cs + 1) (ct + 1)
  end.
Definition rt_strncmp (cs ct count : Z) : M memory Z := strncmp_loop (Z.to_nat count) cs ct.

Definition to_lower (c : Z) : Z := if decide (65 ≤ c ≤ 90) then c + (97 - 65) else c.
Fixpoint strcasecmp_loop (fuel : nat) (a b : Z) : M memory Z :=
  match fuel with
  | O => fail FFuel
  | S fuel =>
      c ← load a;
      d ← load b;
      let ca := to_lower (Z.land c 0xff) in
      let cb := to_lower (Z.land d 0xff) in
      if decide (ca = cb ∧ ca ≠ 0) then strcasecmp_loop fuel (a + 1) (b + 1) else mret (ca - cb)
  end.
Definition rt_strcasecmp (a b : Z) : M memory Z := bounded (λ fuel, strcasecmp_loop fuel a b).

Fixpoint strncpy_pad (n : nat) (d : Z) : M memory unit :=
  match n with O => mret tt | S n => store d 0;; strncpy_pad n (d + 1) end.
(** The [do]-[while] loop with [S n] bytes to go. *)
Fixpoint strncpy_loop (n : nat) (d s : Z) : M memory unit :=
  match n with
  | O => mret tt
  | S n =>
      c ← load s;
      store d c;;
      if decide (c = 0) then strncpy_pad n (d + 1) else strncpy_loop n (d + 1) (s + 1)
  end.
Definition rt_strncpy (dst src n : Z) : M memory Z :=
  (if decide (n ≠ 0) then strncpy_loop (Z.to_nat n) dst src else mret tt);; mret dst.

Fixpoint strstr_loop (fuel : nat) (l1 l2 s1 s2 : Z) : M memory Z :=
  match fuel with
  | O => fail FFuel
  | S fuel =>
      if decide (l2 ≤ l1) then
        r ← rt_memcmp s1 s2 l2;
        if decide (r = 0) then mret s1 else strstr_loop fuel (l1 - 1) l2 (s1 + 1) s2
      else mret 0
  end.
Definition rt_strstr (s1 s2 : Z) : M memory Z :=
  l2 ← rt_strlen s2;
  if decide (l2 = 0) then mret s1
  else
    l1 ← rt_strlen s1;
    bounded (λ fuel, strstr_loop fuel l1 l2 s1 s2).

(** ** Words *)
Lemma le_split_combine bs : Forall (λ c, byte c) bs → le_split (length bs) (le_combine bs) = bs.
Proof.
  induction 1 as [|b bs Hb Hbs IH]; [done|]. cbn [length le_split le_combine].
  rewrite (Z.mul_comm 256), Z_mod_plus_full, Z.mod_small, Z.div_add, Z.div_small, Z.add_0_l by lia. by rewrite IH.
Qed.
Lemma length_le_split n w : length (le_split n w) = n.
Proof. revert w. induction n as [|n IH]; intros w; simpl; [done|]. by rewrite IH. Qed.
Lemma memset_word_bytes d : byte d → le_split 4 (memset_word d) = replicate 4 d.
Proof.
  intros Hd. assert (Forall (λ d, le_split 4 (memset_word d) = replicate 4 d) (seqZ 0 256)) as Hall.
  { apply (bool_decide_eq_true_1 _). by vm_compute. }
  rewrite Forall_forall in Hall. apply Hall, elem_of_seqZ. lia.
Qed.

(** ** Single accesses *)
Implicit Types m : memory.
Lemma load_ok m a c : 0 ≤ a → m !! Z.to_nat a = Some c → load a m = Ok (c, m).
Proof. intros Ha Hc. unfold load. erewrite bind_ok by reflexivity. apply lift_ok. unfold array_get, id. by rewrite decide_True, Hc. Qed.
Lemma store_ok m a v : 0 ≤ a < zlen m → byte v → store a v m = Ok (tt, <[Z.to_nat a := v]> m).
Proof.
  intros Ha Hv. unfold store. erewrite bind_ok by reflexivity. unfold id, array_set. rewrite decide_True by done.
  simpl. erewrite bind_ok by reflexivity. by rewrite u8_byte.
Qed.
Lemma store_word_ok m a v : 0 ≤ a → a + 4 ≤ zlen m → store_word a v m = Ok (tt, splice m (Z.to_nat a) (le_split 4 v)).
Proof. intros. unfold store_word. erewrite bind_ok by reflexivity. unfold id. by rewrite decide_True. Qed.
Lemma load_word_ok m a : 0 ≤ a → a + 4 ≤ zlen m → load_word a m = Ok (le_combine (subseq m (Z.to_nat a) 4), m).
Proof. intros. unfold load_word. erewrite bind_ok by reflexivity. unfold id. by rewrite decide_True. Qed.
Lemma copy_word_ok m dst src :
  Forall (λ c, byte c) m → 0 ≤ dst → dst + 4 ≤ zlen m → 0 ≤ src → src + 4 ≤ zlen m →
  copy_word dst src m = Ok (tt, splice m (Z.to_nat dst) (subseq m (Z.to_nat src) 4)).
Proof.
  intros Hm Hd1 Hd2 Hs1 Hs2. unfold copy_word. rewrite (bind_ok _ _ _ _ _ (load_word_ok m src Hs1 Hs2)).
  rewrite store_word_ok by done. do 3 f_equal.
  assert (length (subseq m (Z.to_nat src) 4) = 4%nat) as Hl by (apply length_subseq; unfold zlen in *; lia).
  rewrite <-Hl at 1. apply le_split_combine. unfold subseq. by apply Forall_take, Forall_drop.
Qed.

(** ** Filling *)

(** [fills p a n d]: [p] writes [n] times [d] from [a] on. *)
Definition filled m (a : Z) (n : nat) (d : Z) : memory := splice m (Z.to_nat a) (replicate n d).
Lemma length_filled m a n d : 0 ≤ a → a + Z.of_nat n ≤ zlen m → length (filled m a n d) = length m.
Proof. intros. unfold filled. apply length_splice. rewrite length_replicate. unfold zlen in *. lia. Qed.
Lemma filled_0 m a d : filled m a 0 d = m.
Proof. unfold filled. apply splice_nil. Qed.
Lemma filled_app m a n1 n2 d :
  0 ≤ a ≤ zlen m → filled (filled m a n1 d) (a + Z.of_nat n1) n2 d = filled m a (n1 + n2) d.
Proof.
  intros Ha. unfold filled. rewrite replicate_add, splice_app by (unfold zlen in *; lia). rewrite length_replicate.
  f_equal. lia.
Qed.

Section Memset.
Context (d : Z) (Hd : byte d).

Lemma memset_bytes_ok n : ∀ a m,
  0 ≤ a → a + Z.of_nat n ≤ zlen m → memset_bytes n d a m = Ok (tt, filled m a n d).
Proof.
  induction n as [|n IH]; intros a m Ha Hn; cbn [memset_bytes].
  { by rewrite filled_0. }
  rewrite (bind_ok _ _ _ _ _ (store_ok m a d ltac:(lia) Hd)).
  rewrite IH; [|lia|unfold zlen in *; rewrite length_insert; lia].
  unfold filled. simpl. rewrite splice_cons by (unfold zlen in *; lia). do 3 f_equal. f_equal. lia.
Qed.
Lemma store_fill m a : 0 ≤ a → a + 4 ≤ zlen m → store_word a (memset_word d) m = Ok (tt, filled m a 4 d).
Proof. intros. rewrite store_word_ok by done. by rewrite memset_word_bytes. Qed.

(** A loop that has filled some of the bytes. *)
Definition fills (p : M memory (Z * Z)) (a count : Z) m : Prop :=
  ∃ n, Z.of_nat n ≤ count ∧ p m = Ok ((a + Z.of_nat n, count - Z.of_nat n), filled m a n d).
Lemma fills_done a count m : 0 ≤ count → fills (mret (a, count)) a count m.
Proof. intros Hc. exists 0%nat. rewrite filled_0, Z.add_0_r, Z.sub_0_r. done. Qed.
Lemma fills_more p q a count m k :
  0 ≤ a → Z.of_nat k ≤ count → a + Z.of_nat k ≤ zlen m → p m = Ok (tt, filled m a k d) →
  (∀ m', zlen m' = zlen m → fills q (a + Z.of_nat k) (count - Z.of_nat k) m') →
  fills (p;; q) a count m.
Proof.
  intros Ha Hk Hl Ep Hq. destruct (Hq (filled m a k d)) as (n & Hn & Eq).
  { unfold zlen. by rewrite length_filled by lia. }
  exists (k + n)%nat. split; [lia|].
  rewrite (bind_ok _ _ _ _ _ Ep), Eq, filled_app by lia. do 3 f_equal; lia.
Qed.
Lemma fills_word q a b count m :
  b = a → 0 ≤ a → 4 ≤ count → a + count ≤ zlen m →
  (∀ m', zlen m' = zlen m → fills q (a + 4) (count - 4) m') →
  fills (store_word b (memset_word d);; q) a count m.
Proof. intros -> Ha Hc Hl Hq. apply (fills_more _ _ _ _ _ 4); [lia|lia|lia|by apply store_fill; lia|done]. Qed.

Lemma memset_words_ok fuel : ∀ a count m,
  0 ≤ a → 0 ≤ count → a + count ≤ zlen m → (Z.to_nat count < fuel)%nat →
  fills (memset_words fuel (memset_word d) a count) a count m.
Proof.
  induction fuel as [|fuel IH]; intros a count m Ha Hc Hn Hf; [lia|]. cbn [memset_words].
  case_decide; [|by apply fills_done]. apply fills_word; [lia..|]. intros m' Hl. apply IH; lia.
Qed.
Lemma memset_blocks_ok fuel : ∀ a count m,
  0 ≤ a → 0 ≤ count → a + count ≤ zlen m → (Z.to_nat count < fuel)%nat →
  fills (memset_blocks fuel (memset_word d) a count) a count m.
Proof.
  induction fuel as [|fuel IH]; intros a count m Ha Hc Hn Hf; [lia|]. cbn [memset_blocks].
  case_decide; [|by apply fills_done].
  do 4 (apply fills_word; [lia..|]; intros ? ?).
  replace (a + 16) with (a + 4 + 4 + 4 + 4) by lia. replace (count - 16) with (count - 4 - 4 - 4 - 4) by lia.
  apply IH; lia.
Qed.

(** The two word loops of [rt_memset] and its byte loop. *)
Lemma bounded_ok {A} (loop : nat → M memory A) m : bounded loop m = loop (S (length m)) m.
Proof. done. Qed.
Lemma memset_loops a count m :
  0 ≤ a → 0 ≤ count → a + count ≤ zlen m →
  ∃ n, Z.of_nat n ≤ count ∧
    (r ← bounded (λ fuel, memset_blocks fuel (memset_word d) a count);
     bounded (λ fuel, memset_words fuel (memset_word d) r.1 r.2)) m =
    Ok ((a + Z.of_nat n, count - Z.of_nat n), filled m a n d).
Proof.
  intros Ha Hc Hl.
  destruct (memset_blocks_ok (S (length m)) a count m) as (n1 & Hn1 & E1); [lia..|unfold zlen in *; lia|].
  rewrite (bind_ok _ (λ r, bounded (λ fuel, memset_words fuel (memset_word d) r.1 r.2)) _ _ _ (E1 : bounded _ m = _)). cbn [fst snd].
  assert (zlen (filled m a n1 d) = zlen m) as El by (unfold zlen; rewrite length_filled by lia; done).
  rewrite bounded_ok.
  destruct (memset_words_ok (S (length (filled m a n1 d))) (a + Z.of_nat n1) (count - Z.of_nat n1) (filled m a n1 d))
    as (n2 & Hn2 & E2); [lia|lia|lia|unfold zlen in *; lia|].
  exists (n1 + n2)%nat. split; [lia|]. rewrite E2, filled_app by lia. do 3 f_equal; lia.
Qed.
End Memset.

(** The word-at-a-time [rt_memset] fills bytes. *)
Lemma memset_run s c count m :
  0 ≤ s → 0 ≤ count → s + count ≤ zlen m →
  rt_memset s c count m = Ok (s, filled m s (Z.to_nat count) (u8 c)).
Proof.
  intros Hs Hc Hl. unfold rt_memset. rewrite (Z.land_ones c 8 ltac:(done) : Z.land c 0xff = u8 c).
  pose proof (u8_range c) as Hd. set (d := u8 c) in *.
  assert (∃ n, Z.of_nat n ≤ count ∧
    (if decide (4 ≤ count ∧ Z.land s 3 = 0) then
       r ← bounded (λ fuel, memset_blocks fuel (memset_word d) s count);
       bounded (λ fuel, memset_words fuel (memset_word d) r.1 r.2)
     else mret (s, count)) m = Ok ((s + Z.of_nat n, count - Z.of_nat n), filled m s n d)) as (n & Hn & E).
  { case_decide; [by apply memset_loops|]. exists 0%nat. rewrite filled_0, Z.add_0_r, Z.sub_0_r. done. }
  rewrite (bind_ok _ _ _ _ _ E). simpl.
  assert (zlen (filled m s n d) = zlen m) as El by (unfold zlen; rewrite length_filled by lia; done).
  rewrite (bind_ok _ _ _ _ _ (memset_bytes_ok d Hd (Z.to_nat (count - Z.of_nat n)) (s + Z.of_nat n) (filled m s n d)
    ltac:(lia) ltac:(rewrite El; lia))).
  rewrite filled_app by lia. by replace (n + Z.to_nat (count - Z.of_nat n))%nat with (Z.to_nat count) by lia.
Qed.

(** ** Copying *)

(** The reference: the bytes of the source, read before any is written. *)
Definition copied m (dst src : Z) (n : nat) : memory := splice m (Z.to_nat dst) (subseq m (Z.to_nat src) n).
Lemma zlen_copied m dst src n :
  0 ≤ dst → 0 ≤ src → dst + Z.of_nat n ≤ zlen m → src + Z.of_nat n ≤ zlen m → zlen (copied m dst src n) = zlen m.
Proof.
  intros. unfold copied, zlen in *. f_equal. rewrite length_splice; [done|]. rewrite length_subseq; lia.
Qed.
Lemma copied_0 m dst src : copied m dst src 0 = m.
Proof. apply splice_nil. Qed.
Lemma copied_bytes m dst src n : Forall (λ c, byte c) m → Forall (λ c, byte c) (copied m dst src n).
Proof.
  intros Hm. unfold copied, splice, subseq. repeat (apply Forall_app; split);
    first [by apply Forall_take, Forall_drop|by apply Forall_take|by apply Forall_drop].
Qed.
(** Copying upwards in two steps, where the first does not disturb the rest of
    the source. *)
Lemma copied_app m dst src a b :
  0 ≤ dst → 0 ≤ src → dst + Z.of_nat (a + b) ≤ zlen m → src + Z.of_nat (a + b) ≤ zlen m →
  dst ≤ src ∨ src + Z.of_nat (a + b) ≤ dst →
  copied (copied m dst src a) (dst + Z.of_nat a) (src + Z.of_nat a) b = copied m dst src (a + b).
Proof.
  intros Hd Hs Hdl Hsl Hor. unfold zlen in *. unfold copied.
  assert (length (subseq m (Z.to_nat src) a) = a) as El by (apply length_subseq; lia).
  replace (Z.to_nat (src + Z.of_nat a)) with (Z.to_nat src + a)%nat by lia.
  replace (Z.to_nat (dst + Z.of_nat a)) with (Z.to_nat dst + a)%nat by lia.
  rewrite subseq_splice_out by lia.
  rewrite subseq_app, splice_app, El by lia. done.
Qed.
(** And downwards. *)
Lemma copied_snoc m dst src n :
  0 ≤ src → src < dst → dst + Z.of_nat (S n) ≤ zlen m →
  copied (copied m (dst + Z.of_nat n) (src + Z.of_nat n) 1) dst src n = copied m dst src (S n).
Proof.
  intros Hs Hlt Hdl. unfold zlen in *. unfold copied.
  assert (length (subseq m (Z.to_nat src) n) = n) as El by (apply length_subseq; lia).
  assert (length (subseq m (Z.to_nat src + n) 1) = 1%nat) as E1 by (apply length_subseq; lia).
  replace (Z.to_nat (src + Z.of_nat n)) with (Z.to_nat src + n)%nat by lia.
  replace (Z.to_nat (dst + Z.of_nat n)) with (Z.to_nat dst + n)%nat by lia.
  rewrite subseq_splice_out by lia.
  rewrite <-(Nat.add_1_r n), subseq_app, splice_app_r, El by lia. done.
Qed.
Lemma copy_byte m dst src :
  Forall (λ c, byte c) m → 0 ≤ dst < zlen m → 0 ≤ src < zlen m →
  (c ← load src; store dst c) m = Ok (tt, copied m dst src 1).
Proof.
  intros Hm Hd Hs. destruct (lookup_lt_is_Some_2 m (Z.to_nat src)) as [c Hc]; [unfold zlen in *; lia|].
  rewrite (bind_ok _ _ _ _ _ (load_ok m src c ltac:(lia) Hc)), store_ok by (by eapply Forall_lookup_1 in Hm).
  unfold copied. rewrite (subseq_cons _ _ _ _ Hc), subseq_0, insert_splice by (unfold zlen in *; lia). done.
Qed.

Lemma copy_up_ok n : ∀ dst src m,
  Forall (λ c, byte c) m → 0 ≤ dst → 0 ≤ src → dst + Z.of_nat n ≤ zlen m → src + Z.of_nat n ≤ zlen m →
  dst ≤ src ∨ src + Z.of_nat n ≤ dst →
  copy_up n dst src m = Ok (tt, copied m dst src n).
Proof.
  induction n as [|n IH]; intros dst src m Hm Hd Hs Hdl Hsl Hor; cbn [copy_up]; [by rewrite copied_0|].
  pose proof (copy_byte m dst src Hm ltac:(lia) ltac:(lia)) as E.
  assert ((c ← load src; store dst c;; copy_up n (dst + 1) (src + 1)) m =
    ((c ← load src; store dst c);; copy_up n (dst + 1) (src + 1)) m) as ->.
  { unfold mbind, M_bind. destruct (load src m) as [[? ?]|]; [|done]. done. }
  rewrite (bind_ok _ _ _ _ _ E).
  assert (zlen (copied m dst src 1) = zlen m) as El by (apply zlen_copied; lia).
  rewrite IH; [|by apply copied_bytes|lia|lia|lia|lia|lia].
  change (dst + 1) with (dst + Z.of_nat 1). change (src + 1) with (src + Z.of_nat 1).
  rewrite (copied_app m dst src 1 n) by lia. done.
Qed.
Lemma copy_down_ok n : ∀ dst src m,
  Forall (λ c, byte c) m → 0 ≤ src → src < dst → dst + Z.of_nat n ≤ zlen m →
  copy_down n (dst + Z.of_nat n) (src + Z.of_nat n) m = Ok (tt, copied m dst src n).
Proof.
  induction n as [|n IH]; intros dst src m Hm Hs Hlt Hdl; cbn [copy_down]; [by rewrite copied_0|].
  replace (src + Z.of_nat (S n) - 1) with (src + Z.of_nat n) by lia.
  replace (dst + Z.of_nat (S n) - 1) with (dst + Z.of_nat n) by lia.
  pose proof (copy_byte m (dst + Z.of_nat n) (src + Z.of_nat n) Hm ltac:(lia) ltac:(lia)) as E.
  assert ((c ← load (src + Z.of_nat n); store (dst + Z.of_nat n) c;; copy_down n (dst + Z.of_nat n) (src + Z.of_nat n)) m =
    ((c ← load (src + Z.of_nat n); store (dst + Z.of_nat n) c);; copy_down n (dst + Z.of_nat n) (src + Z.of_nat n)) m) as ->.
  { unfold mbind, M_bind. destruct (load (src + Z.of_nat n) m) as [[? ?]|]; [|done]. done. }
  rewrite (bind_ok _ _ _ _ _ E).
  assert (zlen (copied m (dst + Z.of_nat n) (src + Z.of_nat n) 1) = zlen m) as El by (apply zlen_copied; lia).
  rewrite IH; [|by apply copied_bytes|lia|lia|lia].
  by rewrite copied_snoc.
Qed.
Lemma memmove_run dst src n m :
  Forall (λ c, byte c) m → 0 ≤ dst → 0 ≤ src → 0 ≤ n → dst + n ≤ zlen m → src + n ≤ zlen m →
  rt_memmove dst src n m = Ok (dst, copied m dst src (Z.to_nat n)).
Proof.
  intros Hm Hd Hs Hn Hdl Hsl. unfold rt_memmove.
  rewrite (bind_ok _ _ m tt (copied m dst src (Z.to_nat n))); [done|]. case_decide.
  - rewrite <-(Z2Nat.id n) at 2 3 by lia. apply copy_down_ok; [done|lia..].
  - apply copy_up_ok; [done|lia..].
Qed.

(** The word loops of [rt_memcpy]: a prefix has been copied. *)
Definition copies (p : M memory (Z * Z * Z)) (dst src len : Z) m : Prop :=
  ∃ n, Z.of_nat n ≤ len ∧
    p m = Ok ((dst + Z.of_nat n, src + Z.of_nat n, len - Z.of_nat n), copied m dst src n).
(** What the loops may assume: the ranges are inside the memory, and writing
    upwards does not meet bytes of the source that are still to be read. *)
Record copy_range m (dst src len : Z) : Prop := {
  cr_bytes : Forall (λ c, byte c) m;
  cr_dst : 0 ≤ dst ∧ dst + len ≤ zlen m;
  cr_src : 0 ≤ src ∧ src + len ≤ zlen m;
  cr_len : 0 ≤ len;
  cr_apart : dst ≤ src ∨ src + len ≤ dst
}.
Lemma copy_range_next m dst src len n :
  copy_range m dst src len → Z.of_nat n ≤ len →
  copy_range (copied m dst src n) (dst + Z.of_nat n) (src + Z.of_nat n) (len - Z.of_nat n).
Proof.
  intros [Hb [Hd1 Hd2] [Hs1 Hs2] Hl Ha] Hn.
  assert (zlen (copied m dst src n) = zlen m) as El by (apply zlen_copied; lia).
  split; [by apply copied_bytes|rewrite El; lia|rewrite El; lia|lia|lia].
Qed.

Lemma copies_done m dst src len : copy_range m dst src len → copies (mret (dst, src, len)) dst src len m.
Proof. intros []. exists 0%nat. rewrite copied_0, !Z.add_0_r, Z.sub_0_r. done. Qed.
Lemma copies_trans p q dst src len m n :
  copy_range m dst src len → Z.of_nat n ≤ len → p m = q (copied m dst src n) →
  copies q (dst + Z.of_nat n) (src + Z.of_nat n) (len - Z.of_nat n) (copied m dst src n) →
  copies p dst src len m.
Proof.
  intros [Hb [Hd1 Hd2] [Hs1 Hs2] Hl Ha] Hn Ep (n' & Hn' & Eq). exists (n + n')%nat. split; [lia|].
  rewrite Ep, Eq, copied_app by lia. do 3 f_equal; [f_equal|]; lia.
Qed.
Lemma copies_word q dst dst' src src' len m :
  dst' = dst → src' = src → copy_range m dst src len → 4 ≤ len →
  (∀ m', zlen m' = zlen m → copy_range m' (dst + 4) (src + 4) (len - 4) → copies q (dst + 4) (src + 4) (len - 4) m') →
  copies (copy_word dst' src';; q) dst src len m.
Proof.
  intros -> -> Hr Hl Hq. pose proof Hr as [Hb [Hd1 Hd2] [Hs1 Hs2] _ Ha].
  apply (copies_trans _ q _ _ _ _ 4); [done|done| |].
  - rewrite (bind_ok _ _ _ _ _ (copy_word_ok m dst src Hb ltac:(lia) ltac:(lia) ltac:(lia) ltac:(lia))). done.
  - apply Hq; [apply zlen_copied; lia|by apply (copy_range_next _ _ _ _ 4)].
Qed.

Lemma memcpy_words_ok fuel : ∀ dst src len m,
  copy_range m dst src len → (Z.to_nat len < fuel)%nat → copies (memcpy_words fuel dst src len) dst src len m.
Proof.
  induction fuel as [|fuel IH]; intros dst src len m Hr Hf; [lia|]. cbn [memcpy_words].
  case_decide; [|by apply copies_done].
  apply copies_word; [done..|]. intros m' _ Hr'. apply IH; [done|lia].
Qed.
Lemma memcpy_blocks_ok fuel : ∀ dst src len m,
  copy_range m dst src len → (Z.to_nat len < fuel)%nat → copies (memcpy_blocks fuel dst src len) dst src len m.
Proof.
  induction fuel as [|fuel IH]; intros dst src len m Hr Hf; [lia|]. cbn [memcpy_blocks].
  case_decide; [|by apply copies_done].
  do 4 (apply copies_word; [lia|lia|done|lia|]; intros ? _ ?).
  replace (dst + 16) with (dst + 4 + 4 + 4 + 4) by lia. replace (src + 16) with (src + 4 + 4 + 4 + 4) by lia.
  replace (len - 16) with (len - 4 - 4 - 4 - 4) by lia. apply IH; [done|lia].
Qed.
Lemma memcpy_loops dst src len m :
  copy_range m dst src len →
  copies (r ← bounded (λ fuel, memcpy_blocks fuel dst src len);
          bounded (λ fuel, memcpy_words fuel r.1.1 r.1.2 r.2)) dst src len m.
Proof.
  intros Hr. pose proof Hr as [Hb [Hd1 Hd2] [Hs1 Hs2] Hl Ha].
  destruct (memcpy_blocks_ok (S (length m)) dst src len m Hr) as (n & Hn & E); [unfold zlen in *; lia|].
  apply (copies_trans _ (bounded (λ fuel, memcpy_words fuel (dst + Z.of_nat n) (src + Z.of_nat n) (len - Z.of_nat n)))
    _ _ _ _ n Hr Hn).
  - by rewrite (bind_ok _ (λ r, bounded (λ fuel, memcpy_words fuel r.1.1 r.1.2 r.2)) _ _ _ (E : bounded _ m = _)).
  - pose proof (zlen_copied m dst src n ltac:(lia) ltac:(lia) ltac:(lia) ltac:(lia)) as El.
    apply (memcpy_words_ok (S (length (copied m dst src n)))); [by apply copy_range_next|unfold zlen in *; lia].
Qed.
Lemma memcpy_run dst src count m :
  copy_range m dst src count → rt_memcpy dst src count m = Ok (dst, copied m dst src (Z.to_nat count)).
Proof.
  intros Hr. unfold rt_memcpy.
  assert (copies (if decide (16 ≤ count ∧ Z.lor (Z.land src 3) (Z.land dst 3) = 0) then
      r ← bounded (λ fuel, memcpy_blocks fuel dst src count);
      bounded (λ fuel, memcpy_words fuel r.1.1 r.1.2 r.2)
    else mret (dst, src, count)) dst src count m) as (n & Hn & E).
  { case_decide; [by apply memcpy_loops|by apply copies_done]. }
  rewrite (bind_ok _ _ _ _ _ E). cbn [fst snd].
  pose proof (copy_range_next m dst src count n Hr Hn) as [Hb [Hd1 Hd2] [Hs1 Hs2] Hl Ha].
  rewrite (bind_ok _ _ _ _ _ (copy_up_ok (Z.to_nat (count - Z.of_nat n)) (dst + Z.of_nat n) (src + Z.of_nat n)
    (copied m dst src n) Hb Hd1 Hs1 ltac:(lia) ltac:(lia) ltac:(lia))).
  destruct Hr. rewrite copied_app by lia.
  by replace (n + Z.to_nat (count - Z.of_nat n))%nat with (Z.to_nat count) by lia.
Qed.

(** ** Strings in memory *)
Record string_at m (a : Z) (s : list Z) : Prop := {
  sa_addr : 0 ≤ a;
  sa_chars : Forall (λ c, 1 ≤ c < 256) s;
  sa_text i c : s !! i = Some c → m !! Z.to_nat (a + Z.of_nat i) = Some c;
  sa_end : m !! Z.to_nat (a + zlen s) = Some 0
}.
Lemma string_at_bound m a s : string_at m a s → a + zlen s < zlen m.
Proof. intros [Ha _ _ He]. apply lookup_lt_Some in He. unfold zlen in *. lia. Qed.
Lemma string_at_load m a s : string_at m a s → load a m = Ok (default 0 (head s), m).
Proof.
  intros [Ha _ Ht He]. apply load_ok; [done|]. destruct s as [|c s]; simpl.
  - unfold zlen in He. simpl in He. by rewrite Z.add_0_r in He.
  - specialize (Ht 0%nat c eq_refl). by rewrite Z.add_0_r in Ht.
Qed.
Lemma string_at_tail m a c s : string_at m a (c :: s) → string_at m (a + 1) s.
Proof.
  intros [Ha Hc Ht He]. apply Forall_cons in Hc as [_ Hc]. split; [lia|done| |].
  - intros i x Hx. rewrite <-(Ht (S i) x Hx). do 2 f_equal. lia.
  - rewrite <-He. do 2 f_equal. unfold zlen. simpl. lia.
Qed.
Lemma string_at_head m a c s : string_at m a (c :: s) → 1 ≤ c < 256.
Proof. intros [_ Hc _ _]. by apply Forall_cons in Hc as [? _]. Qed.

Lemma strlen_loop_ok s : ∀ fuel a m,
  string_at m a s → (length s < fuel)%nat → strlen_loop fuel a m = Ok (a + zlen s, m).
Proof.
  induction s as [|c s IH]; intros [|fuel] a m Hs Hf; [simpl in Hf; lia..| |simpl in Hf; lia|]; cbn [strlen_loop];
    rewrite (bind_ok _ _ _ _ _ (string_at_load _ _ _ Hs)); cbn [head from_option id].
  - rewrite decide_False by tauto. by rewrite Z.add_0_r.
  - pose proof (string_at_head _ _ _ _ Hs). rewrite decide_True by (simpl; lia).
    rewrite IH; [|by apply string_at_tail in Hs|simpl in Hf; lia]. do 2 f_equal. unfold zlen. simpl. lia.
Qed.
Lemma strlen_run m a s : string_at m a s → rt_strlen a m = Ok (zlen s, m).
Proof.
  intros Hs. pose proof (string_at_bound _ _ _ Hs) as Hb. pose proof (sa_addr _ _ _ Hs). unfold rt_strlen.
  pose proof (strlen_loop_ok s (S (length m)) a m Hs ltac:(unfold zlen in *; lia)) as E.
  rewrite (bind_ok _ _ _ _ _ (E : bounded (λ fuel, strlen_loop fuel a) m = _)).
  by replace (a + zlen s - a) with (zlen s) by lia.
Qed.

(** *** Comparison *)

(** The difference of the characters at the first place where two strings
    differ; the end of a string counts as a zero. *)
Fixpoint str_diff (s t : list Z) : Z :=
  match s, t with
  | [], [] => 0
  | [], d :: _ => - d
  | c :: _, [] => c
  | c :: s, d :: t => if decide (c = d) then str_diff s t else c - d
  end.
(** The order of a dictionary. *)
Inductive str_lt : list Z → list Z → Prop :=
| lt_end d t : str_lt [] (d :: t)
| lt_here c d s t : c < d → str_lt (c :: s) (d :: t)
| lt_later c s t : str_lt s t → str_lt (c :: s) (c :: t).

Lemma str_diff_0 s : ∀ t, Forall (λ c, 1 ≤ c < 256) s → Forall (λ c, 1 ≤ c < 256) t → str_diff s t = 0 ↔ s = t.
Proof.
  induction s as [|c s IH]; intros [|d t] Hs Ht; simpl; [done|split; [|done]..|].
  - apply Forall_cons in Ht as [? _]. lia.
  - apply Forall_cons in Hs as [? _]. lia.
  - apply Forall_cons in Hs as [? Hs]. apply Forall_cons in Ht as [? Ht]. case_decide as E.
    + rewrite IH by done. split; [by intros ->; rewrite E|naive_solver].
    + split; [lia|naive_solver].
Qed.
Lemma str_diff_neg s : ∀ t, Forall (λ c, 1 ≤ c < 256) s → Forall (λ c, 1 ≤ c < 256) t → str_diff s t < 0 ↔ str_lt s t.
Proof.
  induction s as [|c s IH]; intros [|d t] Hs Ht; simpl.
  - split; [lia|by inversion 1].
  - apply Forall_cons in Ht as [? _]. split; [intros; constructor|lia].
  - apply Forall_cons in Hs as [? _]. split; [lia|by inversion 1].
  - apply Forall_cons in Hs as [? Hs]. apply Forall_cons in Ht as [? Ht]. case_decide as E.
    + subst d. rewrite IH by done. split; [by constructor|]. inversion 1; [lia|done].
    + split; [intros; apply lt_here; lia|]. inversion 1; [lia|done].
Qed.

Lemma strcmp_loop_ok s : ∀ fuel t a b m,
  string_at m a s → string_at m b t → (length s < fuel)%nat → strcmp_loop fuel a b m = Ok (str_diff s t, m).
Proof.
  induction s as [|c s IH]; intros [|fuel] t a b m Hs Ht Hf; simpl in Hf; [lia..| |lia|]; cbn [strcmp_loop];
    rewrite (bind_ok _ _ _ _ _ (string_at_load _ _ _ Hs)), (bind_ok _ _ _ _ _ (string_at_load _ _ _ Ht)); cbn [head from_option id].
  - rewrite decide_False by (by intros [? _]). by destruct t.
  - pose proof (string_at_head _ _ _ _ Hs). destruct t as [|d t]; simpl.
    + rewrite decide_False by lia. by rewrite Z.sub_0_r.
    + destruct (decide (c = d)) as [E|E]; [rewrite decide_True by lia|by rewrite decide_False by lia].
      apply IH; [by apply string_at_tail in Hs|by apply string_at_tail in Ht|lia].
Qed.
Lemma strcmp_run m a b s t : string_at m a s → string_at m b t → rt_strcmp a b m = Ok (str_diff s t, m).
Proof.
  intros Hs Ht. pose proof (string_at_bound _ _ _ Hs). pose proof (sa_addr _ _ _ Hs).
  apply strcmp_loop_ok; [done|done|]. unfold zlen, id in *. lia.
Qed.

Lemma diff_char_range c d : 0 ≤ c < 256 → 0 ≤ d < 256 → c ≠ d → wrapS 8 (c - d) ≠ 0.
Proof.
  intros Hc Hd Hne E. unfold wrapS in E. change (2 ^ (8 - 1)) with 128 in E. change (2 ^ 8) with 256 in E.
  pose proof (Z.div_mod (c - d + 128) 256 ltac:(lia)) as Ed.
  assert ((c - d + 128) mod 256 = 128) as Em by lia.
  assert (c - d + 128 = 128 + (c - d)) by lia. rewrite Em in Ed. nia.
Qed.
Lemma strncmp_loop_ok n : ∀ s t a b m,
  string_at m a s → string_at m b t → strncmp_loop n a b m = Ok (wrapS 8 (str_diff (take n s) (take n t)), m).
Proof.
  induction n as [|n IH]; intros s t a b m Hs Ht; [by rewrite !take_0|]. cbn [strncmp_loop].
  rewrite (bind_ok _ _ _ _ _ (string_at_load _ _ _ Hs)), (bind_ok _ _ _ _ _ (string_at_load _ _ _ Ht)).
  destruct s as [|c s], t as [|d t]; cbn [head from_option id take str_diff].
  - by rewrite decide_True by tauto.
  - rewrite decide_True by tauto. by rewrite Z.sub_0_l.
  - pose proof (string_at_head _ _ _ _ Hs). rewrite Z.sub_0_r, decide_True; [done|]. left.
    rewrite <-(Z.sub_0_r c). apply diff_char_range; lia.
  - pose proof (string_at_head _ _ _ _ Hs). pose proof (string_at_head _ _ _ _ Ht).
    destruct (decide (c = d)) as [E|E].
    + subst d. rewrite Z.sub_diag. change (wrapS 8 0) with 0. rewrite decide_False by lia.
      apply IH; by eapply string_at_tail.
    + rewrite decide_True; [done|]. left. apply diff_char_range; lia.
Qed.
Lemma strncmp_run m a b s t n :
  string_at m a s → string_at m b t →
  rt_strncmp a b n m = Ok (wrapS 8 (str_diff (take (Z.to_nat n) s) (take (Z.to_nat n) t)), m).
Proof. apply strncmp_loop_ok. Qed.
Lemma str_diff_range lim s : ∀ t, Forall (λ c, 1 ≤ c < lim) s → Forall (λ c, 1 ≤ c < lim) t →
  - lim < str_diff s t < lim ∨ lim ≤ 0 ∨ str_diff s t = 0.
Proof.
  induction s as [|c s IH]; intros [|d t] Hs Ht; simpl; [by right; right|..].
  - apply Forall_cons in Ht as [? _]. lia.
  - apply Forall_cons in Hs as [? _]. lia.
  - apply Forall_cons in Hs as [? Hs]. apply Forall_cons in Ht as [? Ht]. case_decide; [by apply IH|]. lia.
Qed.
Lemma str_diff_ascii s t :
  Forall (λ c, 1 ≤ c < 128) s → Forall (λ c, 1 ≤ c < 128) t → wrapS 8 (str_diff s t) = str_diff s t.
Proof.
  intros Hs Ht. apply wrapS_small; [done|]. change (2 ^ (8 - 1)) with 128.
  pose proof (str_diff_range 128 s t Hs Ht). lia.
Qed.
Lemma wrapS_0_diff s t :
  Forall (λ c, 1 ≤ c < 256) s → Forall (λ c, 1 ≤ c < 256) t → wrapS 8 (str_diff s t) = 0 → str_diff s t = 0.
Proof.
  revert t. induction s as [|c s IH]; intros [|d t] Hs Ht; simpl; [done|..].
  - apply Forall_cons in Ht as [? _]. intros E. exfalso. apply (diff_char_range 0 d); [lia..|]. by rewrite Z.sub_0_l.
  - apply Forall_cons in Hs as [? _]. intros E. exfalso. apply (diff_char_range c 0); [lia..|]. by rewrite Z.sub_0_r.
  - apply Forall_cons in Hs as [? Hs]. apply Forall_cons in Ht as [? Ht]. case_decide; [by apply IH|].
    intros E. exfalso. apply (diff_char_range c d); [lia..|done].
Qed.

(** *** Searching *)
Lemma memcmp_loop_prefix t : ∀ s a b m,
  string_at m a s → string_at m b t →
  ∃ r, memcmp_loop (length t) a b m = Ok (r, m) ∧ (r = 0 ↔ t `prefix_of` s).
Proof.
  induction t as [|d t IH]; intros s a b m Hs Ht; cbn [memcmp_loop length].
  { exists 0. split; [done|]. split; [intros; apply prefix_nil|done]. }
  rewrite (bind_ok _ _ _ _ _ (string_at_load _ _ _ Hs)), (bind_ok _ _ _ _ _ (string_at_load _ _ _ Ht)).
  pose proof (string_at_head _ _ _ _ Ht). destruct s as [|c s]; cbn [head from_option id].
  - rewrite decide_True by lia. eexists. split; [reflexivity|]. split; [lia|]. intros Hp. by apply prefix_nil_not in Hp.
  - destruct (decide (c = d)) as [->|E].
    + rewrite Z.sub_diag, decide_False by tauto.
      destruct (IH s (a + 1) (b + 1) m) as (r & Er & Hr); [by eapply string_at_tail..|]. exists r. split; [done|].
      rewrite Hr. split; [by apply prefix_cons|]. apply prefix_cons_inv_2.
    + rewrite decide_True by lia. eexists. split; [reflexivity|]. split; [lia|].
      intros Hp. apply prefix_cons_inv_1 in Hp. congruence.
Qed.

(** [t] occurs in [s] after the first [i] characters. *)
Definition occurs (t s : list Z) (i : nat) : Prop := (i ≤ length s)%nat ∧ t `prefix_of` drop i s.
(** The first occurrence. *)
Definition first_occurrence (t s : list Z) (i : nat) : Prop := occurs t s i ∧ ∀ j, (j < i)%nat → ¬ occurs t s j.
Lemma occurs_shift t c s i : occurs t (c :: s) (S i) ↔ occurs t s i.
Proof. unfold occurs. simpl. rewrite <-Nat.succ_le_mono. done. Qed.

Lemma strstr_loop_ok s : ∀ fuel t a b m,
  string_at m a s → string_at m b t → t ≠ [] → (length s < fuel)%nat →
  (∃ i, first_occurrence t s i ∧ strstr_loop fuel (zlen s) (zlen t) a b m = Ok (a + Z.of_nat i, m)) ∨
  ((∀ i, ¬ occurs t s i) ∧ strstr_loop fuel (zlen s) (zlen t) a b m = Ok (0, m)).
Proof.
  induction s as [|c s IH]; intros [|fuel] t a b m Hs Ht Hne Hf; simpl in Hf; [lia| |lia|]; cbn [strstr_loop].
  - right. split.
    + intros i [_ Hp]. rewrite drop_nil in Hp. destruct t; [done|]. by apply prefix_nil_not in Hp.
    + rewrite decide_False; [done|]. destruct t; [done|]. unfold zlen. simpl. lia.
  - destruct (memcmp_loop_prefix t (c :: s) a b m Hs Ht) as (r & Er & Hr).
    case_decide as Hlen.
    + assert (rt_memcmp a b (zlen t) m = Ok (r, m)) as Er' by (unfold rt_memcmp, zlen; by rewrite Nat2Z.id).
      rewrite (bind_ok _ _ _ _ _ Er'). destruct (decide (r = 0)) as [E0|E0].
      * left. exists 0%nat. split; [|by rewrite Z.add_0_r]. split; [|lia].
        split; [simpl; lia|]. rewrite drop_0. by apply Hr.
      * assert (zlen (c :: s) - 1 = zlen s) as -> by (unfold zlen; simpl; lia).
        assert (¬ occurs t (c :: s) 0) as H0 by (intros [_ Hp]; apply E0, Hr; by rewrite drop_0 in Hp).
        destruct (IH fuel t (a + 1) b m) as [(i & [Hi Hfirst] & E)|[Hno E]]; [by eapply string_at_tail|done|done|lia|left|right].
        -- exists (S i). split; [|rewrite E; do 2 f_equal; lia]. split; [by apply occurs_shift|].
           intros [|j] Hj; [done|]. rewrite occurs_shift. apply Hfirst. lia.
        -- split; [|done]. intros [|i]; [done|]. by rewrite occurs_shift.
    + right. split; [|done]. intros i [Hi Hp]. apply prefix_length in Hp. rewrite length_drop in Hp.
      unfold zlen in Hlen. lia.
Qed.
Lemma strstr_run m a b s t :
  string_at m a s → string_at m b t →
  (∃ i, first_occurrence t s i ∧ rt_strstr a b m = Ok (a + Z.of_nat i, m)) ∨
  ((∀ i, ¬ occurs t s i) ∧ rt_strstr a b m = Ok (0, m)).
Proof.
  intros Hs Ht. pose proof (string_at_bound _ _ _ Hs). pose proof (sa_addr _ _ _ Hs). unfold rt_strstr.
  rewrite (bind_ok _ _ _ _ _ (strlen_run _ _ _ Ht)). destruct t as [|d t].
  { left. exists 0%nat. split; [|by rewrite decide_True, Z.add_0_r]. split; [|lia]. split; [lia|apply prefix_nil]. }
  rewrite decide_False by (unfold zlen; simpl; lia). rewrite (bind_ok _ _ _ _ _ (strlen_run _ _ _ Hs)).
  apply strstr_loop_ok; [done|done|done|]. unfold zlen, id in *. lia.
Qed.

(** *** Bounded copying *)
Lemma strncpy_pad_ok n : ∀ d m,
  0 ≤ d → d + Z.of_nat n ≤ zlen m → strncpy_pad n d m = Ok (tt, filled m d n 0).
Proof.
  induction n as [|n IH]; intros d m Hd Hn; cbn [strncpy_pad]; [by rewrite filled_0|].
  rewrite (bind_ok _ _ _ _ _ (store_ok m d 0 ltac:(lia) ltac:(lia))).
  rewrite IH; [|lia|unfold zlen in *; rewrite length_insert; lia].
  unfold filled. simpl. rewrite splice_cons by (unfold zlen in *; lia). do 3 f_equal. f_equal. lia.
Qed.
(** The [n] bytes [rt_strncpy] writes. *)
Definition padded (n : nat) (s : list Z) : list Z := take n s ++ replicate (n - length s) 0.

Lemma string_at_set m a s d v :
  string_at m a s → 0 ≤ d → a + zlen s < d ∨ d < a → string_at (<[Z.to_nat d := v]> m) a s.
Proof.
  intros [Ha Hc Ht He] Hd Ho. split; [done|done| |].
  - intros i c Hi. pose proof (lookup_lt_Some _ _ _ Hi). unfold zlen in *. rewrite list_lookup_insert_ne by lia. by apply Ht.
  - unfold zlen in *. by rewrite list_lookup_insert_ne by lia.
Qed.
Lemma strncpy_loop_ok n : ∀ s d a m,
  string_at m a s → 0 ≤ d → d + Z.of_nat n ≤ zlen m → a + zlen s < d ∨ d + Z.of_nat n ≤ a →
  strncpy_loop n d a m = Ok (tt, splice m (Z.to_nat d) (padded n s)).
Proof.
  induction n as [|n IH]; intros s d a m Hs Hd Hn Ho; cbn [strncpy_loop].
  { change (padded 0 s) with (@nil Z). by rewrite splice_nil. }
  rewrite (bind_ok _ _ _ _ _ (string_at_load _ _ _ Hs)). destruct s as [|c s]; cbn [head from_option id].
  - rewrite (bind_ok _ _ _ _ _ (store_ok m d 0 ltac:(lia) ltac:(lia))), decide_True by done.
    rewrite strncpy_pad_ok; [|lia|unfold zlen in *; rewrite length_insert; lia].
    unfold padded, filled. simpl. rewrite splice_cons by (unfold zlen in *; lia). do 3 f_equal. f_equal. lia.
  - pose proof (string_at_head _ _ _ _ Hs).
    rewrite (bind_ok _ _ _ _ _ (store_ok m d c ltac:(lia) ltac:(lia))), decide_False by lia.
    assert (string_at (<[Z.to_nat d := c]> m) (a + 1) s) as Hs'.
    { apply string_at_tail with c. apply string_at_set; [done|lia|]. lia. }
    rewrite (IH s); [|done|lia|unfold zlen in *; rewrite length_insert; lia|unfold zlen in *; simpl in *; lia].
    unfold padded. simpl. rewrite splice_cons by (unfold zlen in *; lia).
    by replace (Z.to_nat (d + 1)) with (S (Z.to_nat d)) by lia.
Qed.
Lemma strncpy_run m dst src s n :
  string_at m src s → 0 ≤ dst → 0 ≤ n → dst + n ≤ zlen m → src + zlen s < dst ∨ dst + n ≤ src →
  rt_strncpy dst src n m = Ok (dst, splice m (Z.to_nat dst) (padded (Z.to_nat n) s)).
Proof.
  intros Hs Hd Hn Hl Ho. unfold rt_strncpy.
  rewrite (bind_ok _ _ m tt (splice m (Z.to_nat dst) (padded (Z.to_nat n) s))); [done|].
  destruct (decide (n ≠ 0)) as [?|E]; [apply strncpy_loop_ok; [done|lia..]|].
  assert (n = 0) as -> by lia. change (padded (Z.to_nat 0) s) with (@nil Z). by rewrite splice_nil.
Qed.

(** C25: the functions that work a word at a time do what the byte loops do.
    [rt_memmove] copies as if through a buffer, whichever way the two areas
    overlap; [rt_memcpy] is [rt_memmove] on areas where writing upwards does
    not meet bytes still to be read; [rt_memset] fills with the low byte of its
    argument.  Alignment makes no difference, and nothing outside is touched. *)
Theorem memory_functions m dst src c n :
  Forall (λ c, byte c) m → 0 ≤ dst → 0 ≤ src → 0 ≤ n → dst + n ≤ zlen m → src + n ≤ zlen m →
  rt_memmove dst src n m = Ok (dst, copied m dst src (Z.to_nat n)) ∧
  (dst ≤ src ∨ src + n ≤ dst → rt_memcpy dst src n m = rt_memmove dst src n m) ∧
  rt_memset dst c n m = Ok (dst, filled m dst (Z.to_nat n) (u8 c)).
Proof.
  intros Hm Hd Hs Hn Hdl Hsl. split; [by apply memmove_run|]. split; [|by apply memset_run].
  intros Ho. rewrite memmove_run, memcpy_run; [done|by split|done..].
Qed.

(** [rt_strcmp] is zero on equal strings only, and negative exactly when the
    first string comes first in a dictionary.  [rt_strncmp] is zero exactly
    when the strings agree as far as it looks; its sign is the order of these
    prefixes when the characters are below 128, but not in general, as it is
    kept in a [signed char]. *)
Theorem string_order m a b s t n :
  string_at m a s → string_at m b t →
  (∃ r, rt_strcmp a b m = Ok (r, m) ∧ (r = 0 ↔ s = t) ∧ (r < 0 ↔ str_lt s t)) ∧
  ∃ r, rt_strncmp a b n m = Ok (r, m) ∧
    let s' := take (Z.to_nat n) s in let t' := take (Z.to_nat n) t in
    (r = 0 ↔ s' = t') ∧
    (Forall (λ c, c < 128) s' → Forall (λ c, c < 128) t' → r < 0 ↔ str_lt s' t').
Proof.
  intros Hs Ht. pose proof (sa_chars _ _ _ Hs) as Hcs. pose proof (sa_chars _ _ _ Ht) as Hct. split.
  - exists (str_diff s t). split; [by apply strcmp_run|]. split; [by apply str_diff_0|by apply str_diff_neg].
  - exists (wrapS 8 (str_diff (take (Z.to_nat n) s) (take (Z.to_nat n) t))). split; [by apply strncmp_run|].
    apply (Forall_take _ (Z.to_nat n)) in Hcs, Hct.
    set (s' := take _ s) in *. set (t' := take _ t) in *. cbv zeta. split.
    + rewrite <-str_diff_0 by done. split; [by apply wrapS_0_diff|by intros ->].
    + intros Hs' Ht'. rewrite str_diff_ascii, str_diff_neg; [done|done|done|..];
        apply Forall_forall; intros x Hx; rewrite Forall_forall in *; naive_solver lia.
Qed.

(** [rt_strstr] finds the first occurrence of a string in another, and
    returns null exactly if there is none. *)
Theorem strstr_first m a b s t :
  string_at m a s → string_at m b t → 0 < a →
  ∃ r, rt_strstr a b m = Ok (r, m) ∧
    ((r = 0 ∧ ∀ i, ¬ occurs t s i) ∨ (a ≤ r ∧ first_occurrence t s (Z.to_nat (r - a)))).
Proof.
  intros Hs Ht Ha. destruct (strstr_run m a b s t Hs Ht) as [(i & Hi & E)|[Hno E]].
  - exists (a + Z.of_nat i). split; [done|]. right. split; [lia|]. by replace (Z.to_nat (a + Z.of_nat i - a)) with i by lia.
  - exists 0. split; [done|]. by left.
Qed.

(** ** Concrete instances *)
Lemma string_at_intro pre s post :
  Forall (λ c, 1 ≤ c < 256) s → string_at (pre ++ s ++ 0 :: post) (zlen pre) s.
Proof.
  intros Hc. split; [unfold zlen; lia|done| |].
  - intros i c Hi. replace (Z.to_nat (zlen pre + Z.of_nat i)) with (length pre + i)%nat by (unfold zlen; lia).
    rewrite lookup_app_r by lia. replace (length pre + i - length pre)%nat with i by lia.
    by apply lookup_app_l_Some.
  - replace (Z.to_nat (zlen pre + zlen s)) with (length (pre ++ s)) by (unfold zlen; rewrite length_app; lia).
    by rewrite app_assoc, list_lookup_middle.
Qed.
(** [200 66 66 67] and [66 67], with a zero in front. *)
Definition text_memory : memory := [0; 200; 66; 66; 67; 0; 66; 67; 0; 9; 9].
Lemma text_1 : string_at text_memory 1 [200; 66; 66; 67].
Proof. apply (string_at_intro [0] [200; 66; 66; 67] [66; 67; 0; 9; 9]), (bool_decide_eq_true_1 _); by vm_compute. Qed.
Lemma text_6 : string_at text_memory 6 [66; 67].
Proof. apply (string_at_intro [0; 200; 66; 66; 67; 0] [66; 67] [9; 9]), (bool_decide_eq_true_1 _); by vm_compute. Qed.

(** An overlap by one byte, both areas aligned alike. *)
Lemma memory_functions_witness :
  let m := seqZ 0 64 in
  rt_memmove 21 1 21 m = Ok (21, copied m 21 1 21) ∧
  (21 ≤ 1 ∨ 1 + 21 ≤ 21 → rt_memcpy 21 1 21 m = rt_memmove 21 1 21 m) ∧
  rt_memset 21 (-1) 21 m = Ok (21, filled m 21 21 255).
Proof.
  apply (memory_functions (seqZ 0 64) 21 1 (-1) 21); [by_evaluation|done..].
Defined.
Lemma string_order_witness :
  (∃ r, rt_strcmp 1 6 text_memory = Ok (r, text_memory) ∧
    (r = 0 ↔ [200; 66; 66; 67] = [66; 67]) ∧ (r < 0 ↔ str_lt [200; 66; 66; 67] [66; 67])) ∧
  ∃ r, rt_strncmp 1 6 1 text_memory = Ok (r, text_memory) ∧
    (r = 0 ↔ [200] = [66]) ∧
    (Forall (λ c, c < 128) [200] → Forall (λ c, c < 128) [66] → r < 0 ↔ str_lt [200] [66]).
Proof. exact (string_order text_memory 1 6 [200; 66; 66; 67] [66; 67] 1 text_1 text_6). Defined.
Lemma strstr_first_witness :
  ∃ r, rt_strstr 1 6 text_memory = Ok (r, text_memory) ∧
    ((r = 0 ∧ ∀ i, ¬ occurs [66; 67] [200; 66; 66; 67] i) ∨
     (1 ≤ r ∧ first_occurrence [66; 67] [200; 66; 66; 67] (Z.to_nat (r - 1)))).
Proof. by apply (strstr_first text_memory 1 6 [200; 66; 66; 67] [66; 67] text_1 text_6). Defined.
(** [C8] comes after [B], but the [signed char] of their difference is negative. *)
Example strncmp_gbk : rt_strncmp 1 6 1 text_memory = Ok (-122, text_memory).
Proof. reflexivity. Qed.
