(* ===== verification/Format.v ===== *)
(** * Formatted output ([src/kservice.c], [rt_vsnprintf] and its helpers)

    As configured here: precisions are compiled in (RT_PRINTF_PRECISION), long
    long numbers and the [0x] prefix are not.  The destination is an array of
    cells with the offset of [str] in it; [limit] is [end - buf].  The offset is
    not reduced to 32 bits. *)
From S2P Require Import Prelude Strings.

(** ** Numbers *)
Definition ZEROPAD : Z := 1.
Definition SIGN : Z := 2.
Definition PLUS : Z := 4.
Definition SPACE : Z := 8.
Definition LEFT : Z := 16.
Definition SPECIAL : Z := 32.
Definition LARGE : Z := 64.
Abbreviation flag type f := (Z.land type f ≠ 0) (only parsing).

Definition small_digits : list Z := [48; 49; 50; 51; 52; 53; 54; 55; 56; 57; 97; 98; 99; 100; 101; 102].
Definition large_digits : list Z := [48; 49; 50; 51; 52; 53; 54; 55; 56; 57; 65; 66; 67; 68; 69; 70].

(** The digit and the new value of [*n]. *)
Definition divide (n base : Z) : Z * Z :=
  if decide (base = 10) then (u32 n mod 10, i32 (u32 n / 10)) else (u32 n mod 16, i32 (u32 n / 16)).

(** [_ISDIGIT(c)] *)
Abbreviation ISDIGIT c := (u32 (c - 48) < 10) (only parsing).
Fixpoint skip_atoi_loop (s : list Z) (i : Z) : outcome (Z * list Z) :=
  match s with
  | [] => Err FBounds
  | c :: s' => if decide (ISDIGIT c) then skip_atoi_loop s' (i32 (i * 10 + c - 48)) else Ok (i, s)
  end.
Definition skip_atoi (s : list Z) : outcome (Z * list Z) := skip_atoi_loop s 0.

(** ** The destination *)
Record sink := mkSink { cells : list Z; str : Z }.

Section Sink.
(** [end - buf] *)
Context (limit : Z).

(** [if (str < end) *str = c; ++str] *)
Definition put (c : Z) : M sink unit :=
  o ← gets id;
  cs ← lift_outcome (if decide (str o < limit) then array_set (cells o) (str o) c else Ok (cells o));
  modify (λ _, mkSink cs (str o + 1)).

(** [while (size-- > 0) put(c)]: the last value of [size]. *)
Fixpoint pad_loop (fuel : nat) (c size : Z) : M sink Z :=
  match fuel with
  | O => fail FFuel
  | S fuel =>
      if decide (0 < size) then put c;; pad_loop fuel c (i32 (size - 1)) else mret (i32 (size - 1))
  end.
Definition pad (c size : Z) : M sink Z := pad_loop (S (Z.to_nat size)) c size.
(** [while (--size > 0) put(' ')] *)
Fixpoint pad_before_loop (fuel : nat) (size : Z) : M sink Z :=
  match fuel with
  | O => fail FFuel
  | S fuel =>
      let size := i32 (size - 1) in
      if decide (0 < size) then put 32;; pad_before_loop fuel size else mret size
  end.
Definition pad_before (size : Z) : M sink Z := pad_before_loop (S (Z.to_nat size)) size.
(** [while (low < size--) put(c)] *)
Fixpoint pad_above_loop (fuel : nat) (c low size : Z) : M sink Z :=
  match fuel with
  | O => fail FFuel
  | S fuel =>
      if decide (low < size) then put c;; pad_above_loop fuel c low (i32 (size - 1)) else mret (i32 (size - 1))
  end.
Definition pad_above (c low size : Z) : M sink Z := pad_above_loop (S (Z.to_nat (size - low))) c low size.

(** *** [print_number] *)

(** The digits, the last one first, as in [tmp]. *)
Fixpoint digit_loop (fuel : nat) (digits : list Z) (num base : Z) (tmp : list Z) : outcome (list Z) :=
  match fuel with
  | O => Err FFuel
  | S fuel =>
      if decide (num ≠ 0) then
        let r := divide num base in
        match digits !! Z.to_nat r.1 with
        | Some c => if decide (zlen tmp < 16) then digit_loop fuel digits r.2 base (tmp ++ [c]) else Err FBounds
        | None => Err FBounds
        end
      else Ok tmp
  end.
(** [while (i-- > 0 && (precision_bak != 0)) put(tmp[i])] *)
Fixpoint put_digits (i : nat) (tmp : list Z) (precision_bak : Z) : M sink unit :=
  match i with
  | O => mret tt
  | S i =>
      if decide (precision_bak ≠ 0) then
        c ← lift_outcome (array_get tmp (Z.of_nat i)); put c;; put_digits i tmp precision_bak
      else mret tt
  end.
(** The sign character, zero if there is none, and the number without it. *)
Definition split_sign (type num : Z) : Z * Z :=
  if decide (flag type SIGN) then
    if decide (num < 0) then (45, i32 (- num))
    else if decide (flag type PLUS) then (43, num)
    else if decide (flag type SPACE) then (32, num)
    else (0, num)
  else (0, num).
(** [if (type & LEFT) type &= ~ZEROPAD] *)
Definition justified (type : Z) : Z := if decide (flag type LEFT) then Z.land type (Z.lnot ZEROPAD) else type.
Definition print_number (num base s precision type : Z) : M sink unit :=
  let digits := if decide (flag type LARGE) then large_digits else small_digits in
  let type := justified type in
  let c := if decide (flag type ZEROPAD) then 48 else 32 in
  let sn := split_sign type num in
  let sign := sn.1 in
  tmp ← lift_outcome (if decide (sn.2 = 0) then Ok [48] else digit_loop 33 digits sn.2 base []);
  let i := zlen tmp in
  let precision_bak := precision in
  let precision := if decide (precision < i) then i else precision in
  let size := i32 (s - precision) in
  size ← (if decide (Z.land type (Z.lor ZEROPAD LEFT) = 0) then
            pad 32 (if decide (sign ≠ 0 ∧ 0 < size) then size - 1 else size)
          else mret size);
  size ← (if decide (sign ≠ 0) then put sign;; mret (i32 (size - 1)) else mret size);
  size ← (if decide (¬ flag type LEFT) then pad c size else mret size);
  pad_above 48 i precision;;
  put_digits (length tmp) tmp precision_bak;;
  pad 32 size;;
  mret tt.
End Sink.

(** ** Directives *)

(** A variable argument: an [int] or [long], or a pointer to a string. *)
Inductive va := VInt (n : Z) | VStr (s : option (list Z)).
Definition va_int (args : list va) : outcome (Z * list va) :=
  match args with VInt n :: args => Ok (n, args) | _ => Err FBadPointer end.
Definition va_str (args : list va) : outcome (option (list Z) * list va) :=
  match args with VStr s :: args => Ok (s, args) | _ => Err FBadPointer end.

Definition flag_of (c : Z) : option Z :=
  if decide (c = 45) then Some LEFT
  else if decide (c = 43) then Some PLUS
  else if decide (c = 32) then Some SPACE
  else if decide (c = 35) then Some SPECIAL
  else if decide (c = 48) then Some ZEROPAD
  else None.
Fixpoint flags_loop (fmt : list Z) (flags : Z) : outcome (Z * list Z) :=
  match fmt with
  | [] => Err FBounds
  | c :: fmt' =>
      match flag_of c with Some f => flags_loop fmt' (Z.lor flags f) | None => Ok (flags, fmt) end
  end.
(** The field width, the new flags, and what is left of the format and the
    arguments. *)
Definition field_width (fmt : list Z) (args : list va) (flags : Z) : outcome (Z * Z * list Z * list va) :=
  match fmt with
  | [] => Err FBounds
  | c :: fmt' =>
      if decide (ISDIGIT c) then
        match skip_atoi fmt with Ok r => Ok (r.1, flags, r.2, args) | Err e => Err e end
      else if decide (c = 42) then
        match va_int args with
        | Ok r => if decide (r.1 < 0) then Ok (i32 (- r.1), Z.lor flags LEFT, fmt', r.2) else Ok (r.1, flags, fmt', r.2)
        | Err e => Err e
        end
      else Ok (-1, flags, fmt, args)
  end.
Definition precision_of (fmt : list Z) (args : list va) : outcome (Z * list Z * list va) :=
  match fmt with
  | [] => Err FBounds
  | c :: fmt' =>
      if decide (c = 46) then
        match fmt' with
        | [] => Err FBounds
        | c' :: fmt'' =>
            match (if decide (ISDIGIT c') then
                     match skip_atoi fmt' with Ok r => Ok (r.1, r.2, args) | Err e => Err e end
                   else if decide (c' = 42) then
                     match va_int args with Ok r => Ok (r.1, fmt'', r.2) | Err e => Err e end
                   else Ok (-1, fmt', args)) with
            | Ok (p, fmt, args) => Ok (if decide (p < 0) then 0 else p, fmt, args)
            | Err e => Err e
            end
        end
      else Ok (-1, fmt, args)
  end.
Definition qualifier_of (fmt : list Z) : outcome (Z * list Z) :=
  match fmt with
  | [] => Err FBounds
  | c :: fmt' => if decide (c = 104 ∨ c = 108) then Ok (c, fmt') else Ok (0, fmt)
  end.
(** The argument as [print_number] gets it. *)
Definition qualified (qualifier flags v : Z) : Z :=
  if decide (qualifier = 104) then (if decide (flag flags SIGN) then i16 v else u16 v) else i32 v.

(** What stands between the percent sign and the conversion character. *)
Record directive := mkDirective { d_flags : Z; d_width : Z; d_precision : Z; d_qualifier : Z }.
Definition directive_of (fmt : list Z) (args : list va) : outcome (directive * list Z * list va) :=
  match flags_loop fmt 0 with
  | Err e => Err e
  | Ok (flags, fmt) =>
      match field_width fmt args flags with
      | Err e => Err e
      | Ok (width, flags, fmt, args) =>
          match precision_of fmt args with
          | Err e => Err e
          | Ok (precision, fmt, args) =>
              match qualifier_of fmt with
              | Err e => Err e
              | Ok (qualifier, fmt) => Ok (mkDirective flags width precision qualifier, fmt, args)
              end
          end
      end
  end.

Section Conversions.
Context (limit : Z).
#[local] Abbreviation put := (put limit).

Definition convert_c (d : directive) (args : list va) : M sink (list va) :=
  width ← (if decide (¬ flag (d_flags d) LEFT) then pad_before limit (d_width d) else mret (d_width d));
  a ← lift_outcome (va_int args);
  put (u8 a.1);;
  pad_before limit width;;
  mret a.2.

(** "(NULL)" *)
Definition NULL_text : list Z := [40; 78; 85; 76; 76; 41; 0].
(** [for (i = 0; i < len; ++i)]: the characters of [s]. *)
Fixpoint put_chars (len : nat) (s : list Z) : M sink unit :=
  match len with
  | O => mret tt
  | S len => match s with c :: s => put c;; put_chars len s | [] => fail FBounds end
  end.
Definition convert_s (d : directive) (args : list va) : M sink (list va) :=
  a ← lift_outcome (va_str args);
  let s := default NULL_text a.1 in
  l ← lift_outcome (rt_strlen 0 s);
  let len := if decide (0 < d_precision d ∧ d_precision d < l.1) then d_precision d else l.1 in
  width ← (if decide (¬ flag (d_flags d) LEFT) then pad_above limit 32 len (d_width d) else mret (d_width d));
  put_chars (Z.to_nat len) s;;
  pad_above limit 32 len width;;
  mret a.2.

Definition convert_p (d : directive) (args : list va) : M sink (list va) :=
  a ← lift_outcome (va_int args);
  (if decide (d_width d = -1) then
     print_number limit (i32 a.1) 16 8 (d_precision d) (Z.lor (d_flags d) ZEROPAD)
   else print_number limit (i32 a.1) 16 (d_width d) (d_precision d) (d_flags d));;
  mret a.2.

Definition convert_number (d : directive) (base flags : Z) (args : list va) : M sink (list va) :=
  a ← lift_outcome (va_int args);
  print_number limit (qualified (d_qualifier d) flags a.1) base (d_width d) (d_precision d) flags;;
  mret a.2.

(** The [switch]: from the format at the conversion character to the format
    with which the next round begins. *)
Definition convert (d : directive) (fmt : list Z) (args : list va) : M sink (list Z * list va) :=
  match fmt with
  | [] => fail FBounds
  | c :: fmt' =>
      let flags := d_flags d in
      if decide (c = 99) then args ← convert_c d args; mret (fmt', args)
      else if decide (c = 115) then args ← convert_s d args; mret (fmt', args)
      else if decide (c = 112) then args ← convert_p d args; mret (fmt', args)
      else if decide (c = 37) then put 37;; mret (fmt', args)
      else if decide (c = 111) then args ← convert_number d 8 flags args; mret (fmt', args)
      else if decide (c = 88) then args ← convert_number d 16 (Z.lor flags LARGE) args; mret (fmt', args)
      else if decide (c = 120) then args ← convert_number d 16 flags args; mret (fmt', args)
      else if decide (c = 100 ∨ c = 105) then args ← convert_number d 10 (Z.lor flags SIGN) args; mret (fmt', args)
      else if decide (c = 117) then args ← convert_number d 10 flags args; mret (fmt', args)
      else
        put 37;;
        if decide (c ≠ 0) then put c;; mret (fmt', args) else mret (fmt, args)
  end.

Fixpoint vsnprintf_loop (fuel : nat) (fmt : list Z) (args : list va) : M sink unit :=
  match fuel with
  | O => fail FFuel
  | S fuel =>
      match fmt with
      | [] => fail FBounds
      | c :: fmt =>
          if decide (c = 0) then mret tt
          else if decide (c ≠ 37) then put c;; vsnprintf_loop fuel fmt args
          else
            d ← lift_outcome (directive_of fmt args);
            r ← convert d.1.1 d.1.2 d.2;
            vsnprintf_loop fuel r.1 r.2
      end
  end.
End Conversions.

(** [end] is kept above [buf]. *)
Definition vsnprintf_limit (buf size : Z) : Z := if decide (2 ^ 32 ≤ buf + size) then 2 ^ 32 - 1 - buf else size.
Definition rt_vsnprintf (buf size : Z) (fmt : list Z) (args : list va) : M (list Z) Z :=
  let limit := vsnprintf_limit buf size in
  cs ← gets id;
  r ← lift_outcome (vsnprintf_loop limit (S (length fmt)) fmt args (mkSink cs 0));
  let o := r.2 in
  cs ← lift_outcome (if decide (0 < limit) then
                       array_set (cells o) (if decide (str o < limit) then str o else limit - 1) 0
                     else Ok (cells o));
  modify (λ _, cs);;
  mret (i32 (str o)).
Definition rt_snprintf (buf size : Z) (format : list Z) (args : list va) : M (list Z) Z :=
  rt_vsnprintf buf size format args.
Definition rt_vsprintf (buf : Z) (format : list Z) (args : list va) : M (list Z) Z :=
  rt_vsnprintf buf (u32 (-1)) format args.
Definition rt_sprintf (buf : Z) (format : list Z) (args : list va) : M (list Z) Z := rt_vsprintf buf format args.

(** ** What a directive means *)

(** The digits of a number, the last one first. *)
Fixpoint digits_up (fuel : nat) (digits : list Z) (base n : Z) : list Z :=
  match fuel with
  | O => []
  | S fuel => if decide (n = 0) then [] else (digits !!! Z.to_nat (n mod base)) :: digits_up fuel digits base (n / base)
  end.
Definition numeral (digits : list Z) (base n : Z) : list Z :=
  if decide (n = 0) then [48] else reverse (digits_up 33 digits base n).
Definition decimal : Z → list Z := numeral small_digits 10.

(** A sign and digits in a field. *)
Definition layout (lft zero : bool) (width : Z) (sign body : list Z) : list Z :=
  let n := Z.to_nat (width - zlen (sign ++ body)) in
  if lft then sign ++ body ++ replicate n 32
  else if zero then sign ++ replicate n 48 ++ body
  else replicate n 32 ++ sign ++ body.

Inductive number_kind := Signed | Unsigned | HexLower | HexUpper.
#[global] Instance number_kind_eq_dec : EqDecision number_kind.
Proof. solve_decision. Defined.
Record style := mkStyle { st_left : bool; st_plus : bool; st_space : bool; st_zero : bool }.
Inductive piece :=
| PLit (c : Z)
| PPercent
| PChar (lft : bool) (width : option Z) (c : Z)
| PText (lft : bool) (width precision : option Z) (s : list Z)
| PNumber (st : style) (width precision : option Z) (k : number_kind) (v : Z).

Definition flag_syntax (st : style) : list Z :=
  (if st_left st then [45] else []) ++ (if st_plus st then [43] else []) ++
  (if st_space st then [32] else []) ++ (if st_zero st then [48] else []).
Definition left_style (lft : bool) : style := mkStyle lft false false false.
Definition field_syntax (st : style) (width precision : option Z) : list Z :=
  flag_syntax st ++ match width with Some w => decimal w | None => [] end ++
  match precision with Some p => 46 :: decimal p | None => [] end.
Definition kind_char (k : number_kind) : Z :=
  match k with Signed => 100 | Unsigned => 117 | HexLower => 120 | HexUpper => 88 end.
(** The characters that write a piece in a format. *)
Definition syntax (p : piece) : list Z :=
  match p with
  | PLit c => [c]
  | PPercent => [37; 37]
  | PChar lft width _ => 37 :: field_syntax (left_style lft) width None ++ [99]
  | PText lft width precision _ => 37 :: field_syntax (left_style lft) width precision ++ [115]
  | PNumber st width precision k _ => 37 :: field_syntax st width precision ++ [kind_char k]
  end.
Definition arguments (p : piece) : list va :=
  match p with
  | PLit _ | PPercent => []
  | PChar _ _ c => [VInt c]
  | PText _ _ _ s => [VStr (Some (s ++ [0]))]
  | PNumber _ _ _ _ v => [VInt v]
  end.
Definition sign_text (st : style) (v : Z) : list Z :=
  if decide (v < 0) then [45] else if st_plus st then [43] else if st_space st then [32] else [].
Definition at_least (n : Z) (ds : list Z) : list Z := replicate (Z.to_nat (n - zlen ds)) 48 ++ ds.
(** The characters it stands for. *)
Definition text (p : piece) : list Z :=
  match p with
  | PLit c => [c]
  | PPercent => [37]
  | PChar lft width c => layout lft false (default 0 width) [] [c]
  | PText lft width precision s =>
      layout lft false (default 0 width) [] (match precision with Some p => take (Z.to_nat p) s | None => s end)
  | PNumber st width precision k v =>
      let put := layout (st_left st) (st_zero st) (default 0 width) in
      let least := at_least (default 0 precision) in
      match k with
      | Signed => put (sign_text st v) (least (numeral small_digits 10 (Z.abs v)))
      | Unsigned => put [] (least (numeral small_digits 10 v))
      | HexLower => put [] (least (numeral small_digits 16 v))
      | HexUpper => put [] (least (numeral large_digits 16 v))
      end
  end.

(** Field sizes this small never bring the [int]s of the code to their limits. *)
Definition field_ok (o : option Z) : Prop := match o with Some n => 1 ≤ n < 2 ^ 24 | None => True end.
Definition piece_ok (p : piece) : Prop :=
  match p with
  | PLit c => 1 ≤ c < 256 ∧ c ≠ 37
  | PPercent => True
  | PChar _ width c => field_ok width ∧ byte c
  | PText _ width precision s => field_ok width ∧ field_ok precision ∧ Forall (λ c, 1 ≤ c < 256) s ∧ zlen s < 2 ^ 24
  | PNumber _ width precision k v =>
      field_ok width ∧ field_ok precision ∧
      match k with Signed => - 2 ^ 31 ≤ v < 2 ^ 31 | _ => 0 ≤ v < 2 ^ 32 end
  end.
#[global] Instance field_ok_dec o : Decision (field_ok o).
Proof. destruct o; apply _. Defined.
#[global] Instance piece_ok_dec p : Decision (piece_ok p).
Proof. destruct p as [| | | |st w pr [] v]; apply _. Defined.

(** ** Writing text *)
Section Emits.
Context (limit : Z).
Implicit Types (o : sink) (t : list Z).

Definition push (c : Z) (o : sink) : sink :=
  mkSink (if decide (str o < limit) then <[Z.to_nat (str o) := c]> (cells o) else cells o) (str o + 1).
Fixpoint pushes (t : list Z) (o : sink) : sink := match t with [] => o | c :: t => pushes t (push c o) end.
Definition sink_ok o : Prop := limit ≤ zlen (cells o) ∧ 0 ≤ str o.
Lemma push_ok c o : sink_ok o → sink_ok (push c o).
Proof. intros [Hl Hs]. split; simpl; [|lia]. case_decide; [|done]. unfold zlen in *. by rewrite length_insert. Qed.
Lemma pushes_ok t : ∀ o, sink_ok o → sink_ok (pushes t o).
Proof. induction t; intros o Ho; simpl; [done|]. auto using push_ok. Qed.
Lemma pushes_app t1 : ∀ t2 o, pushes (t1 ++ t2) o = pushes t2 (pushes t1 o).
Proof. induction t1; intros; simpl; auto. Qed.

(** [m] writes the text [t] and returns [a]. *)
Definition emits {A} (m : M sink A) (a : A) (t : list Z) : Prop := ∀ o, sink_ok o → m o = Ok (a, pushes t o).

Lemma emits_ret {A} (a : A) : emits (mret a) a [].
Proof. done. Qed.
Lemma emits_bind {A B} (m : M sink A) (f : A → M sink B) a b t1 t2 t :
  emits m a t1 → emits (f a) b t2 → t = t1 ++ t2 → emits (m ≫= f) b t.
Proof.
  intros Hm Hf -> o Ho. rewrite (bind_ok _ _ _ _ _ (Hm o Ho)), pushes_app. apply Hf. by apply pushes_ok.
Qed.
Lemma emits_lift {A B} (r : outcome A) (f : A → M sink B) a b t :
  r = Ok a → emits (f a) b t → emits (lift_outcome r ≫= f) b t.
Proof. intros -> Hf. by eapply emits_bind; [apply emits_ret|exact Hf|]. Qed.
Lemma emits_put c : emits (put limit c) tt [c].
Proof.
  intros o [Hl Hs]. unfold put. erewrite bind_ok by reflexivity. unfold id.
  erewrite bind_ok; [reflexivity|]. apply lift_ok. unfold push. simpl. case_decide; [|done].
  unfold array_set. by rewrite decide_True by lia.
Qed.
Lemma emits_eq {A} (m : M sink A) a a' t t' : emits m a t → a = a' → t = t' → emits m a' t'.
Proof. by intros ? -> ->. Qed.
Lemma emits_if {A} (P : Prop) `{Decision P} (m1 m2 : M sink A) a1 a2 t1 t2 :
  emits m1 a1 t1 → emits m2 a2 t2 →
  emits (if decide P then m1 else m2) (if decide P then a1 else a2) (if decide P then t1 else t2).
Proof. by case_decide. Qed.

(** *** The padding loops *)
Abbreviation small n := (- 2 ^ 26 < n < 2 ^ 26) (only parsing).
Lemma i32_small n : - 2 ^ 30 < n < 2 ^ 30 → i32 n = n.
Proof. intros. apply wrapS_small; [done|]. change (2 ^ (32 - 1)) with (2 ^ 31). lia. Qed.

Lemma pad_loop_emits fuel c : ∀ size,
  - 2 ^ 29 < size < 2 ^ 29 → (Z.to_nat size < fuel)%nat →
  emits (pad_loop limit fuel c size) (Z.min size 0 - 1) (replicate (Z.to_nat size) c).
Proof.
  induction fuel as [|fuel IH]; intros size Hs Hf; [lia|]. cbn [pad_loop]. rewrite i32_small by lia. case_decide.
  - eapply emits_bind; [apply emits_put| |].
    + eapply emits_eq; [apply IH; lia|lia|reflexivity].
    + by replace (Z.to_nat size) with (S (Z.to_nat (size - 1))) by lia.
  - replace (Z.to_nat size) with 0%nat by lia. eapply emits_eq; [apply emits_ret|lia|done].
Qed.
Lemma pad_emits c size :
  - 2 ^ 29 < size < 2 ^ 29 → emits (pad limit c size) (Z.min size 0 - 1) (replicate (Z.to_nat size) c).
Proof. intros. apply pad_loop_emits; lia. Qed.
Lemma pad_before_emits size :
  - 2 ^ 29 < size < 2 ^ 29 →
  emits (pad_before limit size) (Z.min (size - 1) 0) (replicate (Z.to_nat (size - 1)) 32).
Proof.
  intros Hs. unfold pad_before. assert (Z.to_nat size < S (Z.to_nat size))%nat as Hf by lia. revert Hf.
  generalize (S (Z.to_nat size)) as fuel. intros fuel. revert size Hs.
  induction fuel as [|fuel IH]; intros size Hs Hf; [lia|]. cbn [pad_before_loop]. rewrite i32_small by lia. cbv zeta. case_decide.
  - eapply emits_bind; [apply emits_put| |].
    + eapply emits_eq; [apply IH; lia|lia|reflexivity].
    + by replace (Z.to_nat (size - 1)) with (S (Z.to_nat (size - 1 - 1))) by lia.
  - replace (Z.to_nat (size - 1)) with 0%nat by lia. eapply emits_eq; [apply emits_ret|lia|done].
Qed.
Lemma pad_above_emits c low size :
  - 2 ^ 29 < size < 2 ^ 29 → 0 ≤ low →
  emits (pad_above limit c low size) (Z.min size low - 1) (replicate (Z.to_nat (size - low)) c).
Proof.
  intros Hs Hl. unfold pad_above. assert (Z.to_nat (size - low) < S (Z.to_nat (size - low)))%nat as Hf by lia. revert Hf.
  generalize (S (Z.to_nat (size - low))) as fuel. intros fuel. revert size Hs.
  induction fuel as [|fuel IH]; intros size Hs Hf; [lia|]. cbn [pad_above_loop]. rewrite i32_small by lia. case_decide.
  - eapply emits_bind; [apply emits_put| |].
    + eapply emits_eq; [apply IH; lia|lia|reflexivity].
    + by replace (Z.to_nat (size - low)) with (S (Z.to_nat (size - 1 - low))) by lia.
  - replace (Z.to_nat (size - low)) with 0%nat by lia. eapply emits_eq; [apply emits_ret|lia|done].
Qed.
End Emits.

(** ** Digits *)
Definition base_ok (digits : list Z) (base : Z) : Prop :=
  (base = 10 ∨ base = 16) ∧ (digits = small_digits ∨ digits = large_digits).
Lemma u32_i32 n : u32 (i32 n) = u32 n.
Proof.
  unfold wrapU, wrapS. change (2 ^ (32 - 1)) with (2 ^ 31). rewrite Zminus_mod, Zmod_mod, <-Zminus_mod. f_equal. lia.
Qed.
Lemma divide_ok num base :
  (base = 10 ∨ base = 16) → divide num base = (u32 num mod base, i32 (u32 num / base)) ∧
  u32 (i32 (u32 num / base)) = u32 num / base.
Proof.
  intros Hb. pose proof (wrapU_range 32 num ltac:(done)) as Hr. split; [unfold divide; destruct Hb as [-> | ->]; done|].
  rewrite u32_i32. apply wrapU_small. pose proof (Z.div_le_upper_bound (u32 num) base (u32 num)).
  split; [apply Z.div_pos; lia|]. apply Z.div_lt_upper_bound; lia.
Qed.

Lemma digits_up_length fuel digits base : ∀ n k,
  1 < base → 0 ≤ n < base ^ Z.of_nat k → (length (digits_up fuel digits base n) ≤ k)%nat.
Proof.
  induction fuel as [|fuel IH]; intros n k Hb Hn; simpl; [lia|]. case_decide as H0; [simpl; lia|].
  destruct k as [|k]; [change (base ^ Z.of_nat 0) with 1 in Hn; lia|]. simpl. apply le_n_S, IH; [done|].
  split; [apply Z.div_pos; lia|]. apply Z.div_lt_upper_bound; [lia|].
  rewrite Nat2Z.inj_succ, Z.pow_succ_r in Hn by lia. lia.
Qed.
Lemma digits_up_16 digits base n :
  (base = 10 ∨ base = 16) → 0 ≤ n < 2 ^ 32 → (length (digits_up 33 digits base n) ≤ 10)%nat.
Proof. intros Hb Hn. apply digits_up_length; [lia|]. destruct Hb as [-> | ->]; simpl Z.of_nat; lia. Qed.

Lemma i32_zero num : i32 num = num → num = 0 ↔ u32 num = 0.
Proof.
  intros Hi. split; [by intros ->|]. intros E. apply Z.mod_divide in E as [q Eq]; [|done].
  rewrite <-Hi. unfold wrapS. rewrite Eq, Z.add_comm, Z.mod_add by done. done.
Qed.
Lemma digit_loop_ok digits base fuel : ∀ num tmp,
  base_ok digits base → (length tmp + length (digits_up fuel digits base (u32 num)) ≤ 16)%nat →
  i32 num = num → u32 num < 2 ^ (Z.of_nat fuel - 1) →
  digit_loop fuel digits num base tmp = Ok (tmp ++ digits_up fuel digits base (u32 num)).
Proof.
  induction fuel as [|fuel IH]; intros num tmp Hok Hlen Hi Hf.
  { simpl in Hf. pose proof (wrapU_range 32 num ltac:(done)). change (2 ^ (0 - 1)) with 0 in Hf. lia. }
  cbn [digit_loop digits_up] in *. pose proof (wrapU_range 32 num ltac:(done)) as Hr.
  pose proof (i32_zero num Hi) as H0.
  destruct (decide (num ≠ 0)) as [Hn|Hn]; [|by rewrite decide_True, app_nil_r by (apply H0; lia)].
  rewrite decide_False in * by tauto. destruct Hok as [Hb Hd]. destruct (divide_ok num base Hb) as [-> E]. cbn [fst snd].
  assert (0 ≤ u32 num mod base < 16) as Hm.
  { pose proof (Z.mod_pos_bound (u32 num) base ltac:(lia)). lia. }
  assert (digits !! Z.to_nat (u32 num mod base) = Some (digits !!! Z.to_nat (u32 num mod base))) as ->.
  { apply list_lookup_lookup_total_lt. destruct Hd as [-> | ->]; simpl; lia. }
  simpl length in Hlen. rewrite decide_True by (unfold zlen; lia). rewrite IH; rewrite ?E.
  - by rewrite <-app_assoc.
  - done.
  - rewrite length_app. simpl. lia.
  - unfold wrapS. rewrite Z.sub_add, Zmod_mod. done.
  - apply Z.div_lt_upper_bound; [lia|]. rewrite Nat2Z.inj_succ in Hf.
    replace (Z.succ (Z.of_nat fuel) - 1) with (Z.of_nat fuel) in Hf by lia.
    destruct fuel as [|fuel]; [change (2 ^ Z.of_nat 0) with 1 in Hf; lia|].
    rewrite Nat2Z.inj_succ in *. replace (Z.succ (Z.of_nat fuel) - 1) with (Z.of_nat fuel) by lia.
    rewrite Z.pow_succ_r in Hf by lia. nia.
Qed.

Definition number_tmp (digits : list Z) (num base : Z) : outcome (list Z) :=
  if decide (num = 0) then Ok [48] else digit_loop 33 digits num base [].
Lemma number_tmp_ok digits num base :
  base_ok digits base → i32 num = num →
  number_tmp digits num base = Ok (reverse (numeral digits base (u32 num))).
Proof.
  intros Hok Hi. unfold number_tmp, numeral. pose proof (wrapU_range 32 num ltac:(done)).
  pose proof (i32_zero num Hi) as H0. destruct (decide (num = 0)) as [->|Hn]; [done|]. rewrite decide_False by tauto.
  pose proof (digits_up_16 digits base (u32 num) (proj1 Hok) ltac:(lia)) as Hl.
  rewrite (digit_loop_ok digits base 33 num [] Hok), reverse_involutive; [done| |done|].
  - change (length []) with 0%nat. lia.
  - change (2 ^ (Z.of_nat 33 - 1)) with (2 ^ 32). lia.
Qed.
Lemma numeral_length digits base n :
  (base = 10 ∨ base = 16) → 0 ≤ n < 2 ^ 32 → (1 ≤ length (numeral digits base n) ≤ 10)%nat.
Proof.
  intros Hb Hn. unfold numeral. case_decide as H0; [simpl; lia|]. rewrite length_reverse.
  pose proof (digits_up_16 digits base n Hb Hn). split; [|done].
  change 33%nat with (S 32). cbn [digits_up]. rewrite decide_False by done. apply le_n_S, le_0_n.
Qed.

(** Reading digits back. *)
Definition no_digit (rest : list Z) : Prop := ∃ c rest', rest = c :: rest' ∧ ¬ ISDIGIT c.
Lemma small_digit d : 0 ≤ d < 10 → small_digits !!! Z.to_nat d = 48 + d.
Proof.
  intros Hd. assert (Forall (λ d, small_digits !!! Z.to_nat d = 48 + d) (seqZ 0 10)) as Hall by by_evaluation.
  rewrite Forall_forall in Hall. apply Hall, elem_of_seqZ. lia.
Qed.
Lemma is_digit d : 0 ≤ d < 10 → u32 (48 + d - 48) = d.
Proof. intros. replace (48 + d - 48) with d by lia. apply wrapU_small. lia. Qed.
Lemma skip_digits fuel : ∀ n rest i,
  0 ≤ n → n < 10 ^ Z.of_nat fuel → 0 ≤ i →
  let ds := digits_up fuel small_digits 10 n in
  i * 10 ^ Z.of_nat (length ds) + n < 2 ^ 30 →
  skip_atoi_loop (reverse ds ++ rest) i = skip_atoi_loop rest (i * 10 ^ Z.of_nat (length ds) + n).
Proof.
  induction fuel as [|fuel IH]; intros n rest i Hn Hf Hi; cbn [digits_up].
  { change (10 ^ Z.of_nat 0) with 1 in Hf. cbv zeta. simpl. intros. f_equal. lia. }
  case_decide as H0; cbv zeta; [subst n; simpl; intros; f_equal; lia|].
  set (ds := digits_up fuel small_digits 10 (n / 10)). intros Hlt. simpl length in *.
  pose proof (Z.mod_pos_bound n 10 ltac:(done)) as Hm. pose proof (Z.div_mod n 10 ltac:(done)) as Ed.
  assert (0 < 10 ^ Z.of_nat (length ds)) as Hp by (apply Z.pow_pos_nonneg; lia).
  rewrite Nat2Z.inj_succ, Z.pow_succ_r in Hlt |- * by lia.
  assert (0 ≤ n / 10) as Hq by (apply Z.div_pos; lia).
  assert (n / 10 < 10 ^ Z.of_nat fuel) as Hq'.
  { apply Z.div_lt_upper_bound; [lia|]. rewrite Nat2Z.inj_succ, Z.pow_succ_r in Hf by lia. lia. }
  specialize (IH (n / 10) ([small_digits !!! Z.to_nat (n mod 10)] ++ rest) i Hq Hq' Hi). cbv zeta in IH. fold ds in IH.
  rewrite reverse_cons, <-app_assoc, IH by nia.
  simpl. rewrite small_digit, is_digit by done. rewrite decide_True by lia. f_equal.
  rewrite i32_small by nia. nia.
Qed.
Lemma skip_decimal n rest :
  0 ≤ n < 2 ^ 24 → no_digit rest → skip_atoi (decimal n ++ rest) = Ok (n, rest).
Proof.
  intros Hn (c & rest' & -> & Hc). unfold skip_atoi, decimal, numeral. destruct (decide (n = 0)) as [->|H0].
  - simpl. rewrite (decide_False (P := ISDIGIT c)) by done. done.
  - pose proof (skip_digits 33 n (c :: rest') 0 ltac:(lia)) as E. cbv zeta in E. rewrite Z.mul_0_l, Z.add_0_l in E.
    rewrite E; [|change (10 ^ Z.of_nat 33) with (10 ^ 33); lia|done|lia]. simpl. by rewrite decide_False.
Qed.

(** ** [print_number] *)
Section Numbers.
Context (limit : Z).
Abbreviation emits := (emits limit).

Lemma put_digits_emits tmp p :
  p ≠ 0 → ∀ i, (i ≤ length tmp)%nat → emits (put_digits limit i tmp p) tt (reverse (take i tmp)).
Proof.
  intros Hp. induction i as [|i IH]; intros Hi; cbn [put_digits]; [apply emits_ret|]. rewrite decide_True by done.
  destruct (lookup_lt_is_Some_2 tmp i) as [c Hc]; [lia|].
  eapply emits_lift; [unfold array_get; rewrite decide_True, Nat2Z.id, Hc by lia; reflexivity|].
  eapply emits_bind; [apply emits_put|apply IH; lia|]. by rewrite (take_S_r _ _ _ Hc), reverse_app.
Qed.

(** The flags as the code tests them. *)
Lemma cleared_flags type :
  0 ≤ type < 128 →
  (flag (justified type) LEFT ↔ flag type LEFT) ∧
  (flag (justified type) ZEROPAD ↔ flag type ZEROPAD ∧ ¬ flag type LEFT) ∧
  (Z.land (justified type) (Z.lor ZEROPAD LEFT) = 0 ↔ ¬ flag type ZEROPAD ∧ ¬ flag type LEFT).
Proof.
  intros Ht.
  assert (Forall (λ type,
    (flag (justified type) LEFT ↔ flag type LEFT) ∧
    (flag (justified type) ZEROPAD ↔ flag type ZEROPAD ∧ ¬ flag type LEFT) ∧
    (Z.land (justified type) (Z.lor ZEROPAD LEFT) = 0 ↔ ¬ flag type ZEROPAD ∧ ¬ flag type LEFT)) (seqZ 0 128)) as Hall by by_evaluation.
  rewrite Forall_forall in Hall. apply (Hall type), elem_of_seqZ. lia.
Qed.

Lemma justified_sign type num : 0 ≤ type < 128 → split_sign (justified type) num = split_sign type num.
Proof.
  intros Ht.
  assert (Forall (λ type, Z.land (justified type) SIGN = Z.land type SIGN ∧ Z.land (justified type) PLUS = Z.land type PLUS ∧
    Z.land (justified type) SPACE = Z.land type SPACE) (seqZ 0 128)) as Hall by by_evaluation.
  rewrite Forall_forall in Hall. destruct (Hall type) as (E1 & E2 & E3); [apply elem_of_seqZ; lia|].
  unfold split_sign. by rewrite E1, E2, E3.
Qed.

(** The characters of the sign. *)
Definition sign_chars (sign : Z) : list Z := if decide (sign ≠ 0) then [sign] else [].

Lemma sign_emits sign size :
  - 2 ^ 28 < size < 2 ^ 28 →
  emits (if decide (sign ≠ 0) then put limit sign;; mret (i32 (size - 1)) else mret size)
    (size - zlen (sign_chars sign)) (sign_chars sign).
Proof.
  intros Hs. unfold sign_chars. case_decide.
  - rewrite i32_small by lia. eapply emits_bind; [apply emits_put|apply emits_ret|done].
  - eapply emits_eq; [apply emits_ret|unfold zlen; simpl; lia|done].
Qed.
(** Leading zeros, digits, and the spaces after them. *)
Lemma number_tail_emits p ds size :
  p ≠ 0 → - 1 ≤ p < 2 ^ 24 → (length ds ≤ 10)%nat → - 2 ^ 28 < size < 2 ^ 28 →
  let P := if decide (p < zlen ds) then zlen ds else p in
  emits (pad_above limit 48 (zlen ds) P;; put_digits limit (length ds) (reverse ds) p;; pad limit 32 size;; mret tt) tt
    (at_least p ds ++ replicate (Z.to_nat size) 32).
Proof.
  intros Hp Hp' Hds Hs P. assert (0 ≤ P < 2 ^ 25 ∧ P - zlen ds = Z.max (p - zlen ds) 0) as [HP EP].
  { unfold P, zlen. case_decide; lia. }
  eapply emits_bind; [apply pad_above_emits; [lia|unfold zlen; lia]| |].
  - eapply emits_bind; [apply put_digits_emits; [done|by rewrite length_reverse]| |reflexivity].
    eapply emits_bind; [apply pad_emits; lia|apply emits_ret|reflexivity].
  - rewrite take_ge, reverse_involutive, app_nil_r by (by rewrite length_reverse). unfold at_least.
    rewrite <-app_assoc. do 2 f_equal. lia.
Qed.

Lemma print_number_emits num base s p type ds :
  let digits := if decide (flag type LARGE) then large_digits else small_digits in
  let sn := split_sign type num in
  number_tmp digits sn.2 base = Ok (reverse ds) → (1 ≤ length ds ≤ 10)%nat →
  - 1 ≤ s < 2 ^ 24 → - 1 ≤ p < 2 ^ 24 → p ≠ 0 → 0 ≤ type < 128 →
  emits (print_number limit num base s p type) tt
    (layout (bool_decide (flag type LEFT)) (bool_decide (flag type ZEROPAD)) s (sign_chars sn.1) (at_least p ds)).
Proof.
  intros digits sn Etmp Hds Hs Hp Hp0 Ht. unfold print_number. fold digits. rewrite justified_sign by done. fold sn.
  destruct (cleared_flags type Ht) as (HL & HZ & HN).
  eapply emits_lift; [exact Etmp|].
  assert (zlen (reverse ds) = zlen ds) as -> by (unfold zlen; by rewrite length_reverse). rewrite length_reverse.
  pose proof (number_tail_emits p ds) as Htail. cbv zeta in Htail |- *.
  set (P := if decide (p < zlen ds) then zlen ds else p) in *.
  assert (1 ≤ zlen ds ≤ P ∧ P < 2 ^ 25) as HP by (unfold P, zlen in *; case_decide; lia).
  rewrite (i32_small (s - P)) by (clear - Hs HP; lia). set (sg := sn.1).
  assert (zlen (sign_chars sg ++ at_least p ds) = zlen (sign_chars sg) + P) as Elen.
  { unfold at_least, zlen. rewrite !length_app, length_replicate. unfold P, zlen in *. clear - Hds Hp. case_decide; lia. }
  set (n := zlen (sign_chars sg)) in *.
  set (k := if decide (sg ≠ 0 ∧ 0 < s - P) then s - P - 1 else s - P).
  assert (0 ≤ n ≤ 1 ∧ Z.to_nat k = Z.to_nat (s - (n + P)) ∧ - 2 ^ 26 < k < 2 ^ 26) as (Hn & Ek & Hk).
  { unfold k, n, sign_chars. clear - Hs HP. destruct (decide (sg ≠ 0)) as [H0|H0]; unfold zlen; simpl length.
    - destruct (decide (0 < s - P)); [rewrite decide_True by done|rewrite decide_False by tauto]; lia.
    - rewrite decide_False by tauto. lia. }
  assert ((length ds ≤ 10)%nat) as Hds' by apply Hds.
  unfold layout. rewrite Elen. clear Etmp Elen Hds. clearbody P k.
  destruct (decide (flag type LEFT)) as [Hleft|Hleft].
  - rewrite bool_decide_eq_true_2, (decide_False (P := Z.land _ _ = 0)) by tauto.
    eapply emits_bind; [apply emits_ret| |reflexivity].
    eapply emits_bind; [apply sign_emits; clear - Hs HP; lia| |reflexivity]. fold n.
    rewrite decide_False by tauto. eapply emits_bind; [apply emits_ret| |reflexivity].
    replace (s - (n + P)) with (s - P - n) by (clear; lia). apply Htail; [done..|]. clear - Hs HP Hn. lia.
  - rewrite bool_decide_eq_false_2 by tauto.
    destruct (decide (flag type ZEROPAD)) as [Hzero|Hzero].
    + rewrite bool_decide_eq_true_2, (decide_False (P := Z.land _ _ = 0)) by tauto.
      eapply emits_bind; [apply emits_ret| |reflexivity].
      eapply emits_bind; [apply sign_emits; clear - Hs HP; lia| |reflexivity]. fold n.
      rewrite (decide_True (P := ¬ flag (justified type) LEFT)), (decide_True (P := flag (justified type) ZEROPAD)) by tauto.
      replace (s - (n + P)) with (s - P - n) by (clear; lia).
      eapply emits_bind; [apply pad_emits; clear - Hs HP Hn; lia| |].
      * apply Htail; [done..|]. clear - Hs HP Hn. lia.
      * rewrite (Z2Nat.nonpos (Z.min _ 0 - 1)) by (clear; lia). by rewrite app_nil_r.
    + rewrite bool_decide_eq_false_2, (decide_True (P := Z.land _ _ = 0)) by tauto. rewrite <-Ek.
      eapply emits_bind; [apply pad_emits; clear - Hk; lia| |reflexivity].
      eapply emits_bind; [apply sign_emits; clear - Hk; lia| |reflexivity]. fold n.
      rewrite (decide_True (P := ¬ flag (justified type) LEFT)), (decide_False (P := flag (justified type) ZEROPAD)) by tauto.
      eapply emits_bind; [apply pad_emits; clear - Hk Hn; lia| |].
      * apply Htail; [done..|]. clear - Hk Hn. lia.
      * rewrite (Z2Nat.nonpos (Z.min k 0 - 1 - n)), (Z2Nat.nonpos (Z.min _ 0 - 1)) by (clear - Hn; lia). by rewrite app_nil_r.
Qed.
End Numbers.

(** ** Directives are read back *)
Definition style_flags (st : style) : Z :=
  Z.lor (Z.lor (if st_left st then LEFT else 0) (if st_plus st then PLUS else 0))
    (Z.lor (if st_space st then SPACE else 0) (if st_zero st then ZEROPAD else 0)).
(** The conversion characters of the pieces. *)
Definition conversion (c : Z) : Prop := c ∈ [37; 99; 115; 100; 117; 120; 88].

Lemma flags_syntax st c rest :
  flag_of c = None → flags_loop (flag_syntax st ++ c :: rest) 0 = Ok (style_flags st, c :: rest).
Proof. intros Hc. destruct st as [[] [] [] []]; simpl; by rewrite Hc. Qed.

Lemma leading_digit fuel : ∀ n,
  0 < n < 10 ^ Z.of_nat fuel → ∃ ds d, digits_up fuel small_digits 10 n = ds ++ [48 + d] ∧ 1 ≤ d < 10.
Proof.
  induction fuel as [|fuel IH]; intros n Hn; [change (10 ^ Z.of_nat 0) with 1 in Hn; lia|]. cbn [digits_up].
  rewrite decide_False by lia. pose proof (Z.mod_pos_bound n 10 ltac:(done)). rewrite small_digit by done.
  pose proof (Z.div_mod n 10 ltac:(done)). destruct (decide (n < 10)) as [Hlt|Hge].
  - exists [], (n mod 10). rewrite Z.div_small by lia. split; [|rewrite Z.mod_small; lia]. by destruct fuel.
  - destruct (IH (n / 10)) as (ds & d & E & Hd).
    { rewrite Nat2Z.inj_succ, Z.pow_succ_r in Hn by lia. split; [lia|]. apply Z.div_lt_upper_bound; lia. }
    exists ((48 + n mod 10) :: ds), d. by rewrite E.
Qed.
Lemma decimal_head n : 1 ≤ n < 2 ^ 24 → ∃ d ds, decimal n = (48 + d) :: ds ∧ 1 ≤ d < 10.
Proof.
  intros Hn. unfold decimal, numeral. rewrite decide_False by lia.
  destruct (leading_digit 33 n) as (ds & d & -> & Hd); [change (10 ^ Z.of_nat 33) with (10 ^ 33); lia|].
  rewrite reverse_snoc. by eexists _, _.
Qed.

Lemma conversion_plain c : conversion c → flag_of c = None ∧ ¬ ISDIGIT c ∧ c ≠ 42 ∧ c ≠ 46 ∧ c ≠ 104 ∧ c ≠ 108.
Proof.
  intros Hc. assert (Forall (λ c, flag_of c = None ∧ ¬ ISDIGIT c ∧ c ≠ 42 ∧ c ≠ 46 ∧ c ≠ 104 ∧ c ≠ 108)
    [37; 99; 115; 100; 117; 120; 88]) as Hall by by_evaluation.
  rewrite Forall_forall in Hall. by apply Hall.
Qed.
Lemma digit_plain d : 1 ≤ d < 10 → flag_of (48 + d) = None.
Proof.
  intros Hd. assert (Forall (λ d, flag_of (48 + d) = None) (seqZ 1 9)) as Hall by by_evaluation.
  rewrite Forall_forall in Hall. apply Hall, elem_of_seqZ. lia.
Qed.

Definition precision_syntax (precision : option Z) : list Z := match precision with Some p => 46 :: decimal p | None => [] end.
Lemma width_syntax width precision c fmt args flags :
  field_ok width → conversion c →
  field_width (match width with Some w => decimal w | None => [] end ++ precision_syntax precision ++ c :: fmt) args flags =
  Ok (default (-1) width, flags, precision_syntax precision ++ c :: fmt, args).
Proof.
  intros Hw Hc. destruct (conversion_plain c Hc) as (_ & Hd & H42 & _).
  assert (no_digit (precision_syntax precision ++ c :: fmt)) as Hno.
  { destruct precision as [p|]; simpl; by eexists _, _. }
  destruct width as [w|]; simpl.
  - pose proof (skip_decimal w _ ltac:(simpl in Hw; lia) Hno) as E.
    destruct (decimal_head w Hw) as (d & ds & Edec & Hdig). rewrite Edec in E |- *. simpl in E |- *.
    rewrite is_digit by lia. rewrite decide_True by lia. by rewrite E.
  - destruct precision as [p|]; simpl; [done|]. by rewrite !decide_False.
Qed.
Lemma precision_read precision c fmt args :
  field_ok precision → conversion c →
  precision_of (precision_syntax precision ++ c :: fmt) args = Ok (default (-1) precision, c :: fmt, args).
Proof.
  intros Hp Hc. destruct (conversion_plain c Hc) as (_ & Hd & _ & H46 & _).
  assert (no_digit (c :: fmt)) as Hno by by eexists _, _.
  destruct precision as [p|]; simpl.
  - pose proof (skip_decimal p _ ltac:(simpl in Hp; lia) Hno) as E.
    destruct (decimal_head p Hp) as (d & ds & Edec & Hdig). rewrite Edec in E |- *. simpl in E |- *.
    rewrite is_digit by lia. rewrite decide_True by lia. rewrite E. simpl in *. by rewrite decide_False by lia.
  - by rewrite decide_False.
Qed.

Lemma directive_syntax st width precision c fmt args :
  field_ok width → field_ok precision → conversion c →
  directive_of (field_syntax st width precision ++ c :: fmt) args =
  Ok (mkDirective (style_flags st) (default (-1) width) (default (-1) precision) 0, c :: fmt, args).
Proof.
  intros Hw Hp Hc. destruct (conversion_plain c Hc) as (Hf & Hd & H42 & H46 & H104 & H108).
  pose proof (width_syntax width precision c fmt args (style_flags st) Hw Hc) as Ew.
  unfold directive_of, field_syntax. rewrite <-!app_assoc. fold (precision_syntax precision).
  assert (∃ c' rest, match width with Some w => decimal w | None => [] end ++ precision_syntax precision ++ c :: fmt = c' :: rest ∧
    flag_of c' = None) as (c' & rest & Er & Hf').
  { destruct width as [w|]; [|destruct precision as [p|]; by eexists _, _].
    destruct (decimal_head w Hw) as (d & ds & -> & Hdig). eexists _, _. split; [reflexivity|by apply digit_plain]. }
  rewrite Er in Ew |- *. rewrite flags_syntax by done. rewrite Ew, precision_read by done. simpl.
  by rewrite decide_False by tauto.
Qed.

(** ** Every piece is written as it should be *)
Section Pieces.
Context (limit : Z).
Abbreviation emits := (emits limit).
Implicit Types args : list va.

Lemma bool_decide_is (P : Prop) `{Decision P} b : (P ↔ b = true) → bool_decide P = b.
Proof. destruct b; intros; [apply bool_decide_eq_true_2|apply bool_decide_eq_false_2]; naive_solver. Qed.
Lemma layout_default lft zero width sign body :
  layout lft zero (default (-1) width) sign body = layout lft zero (default 0 width) sign body.
Proof.
  destruct width as [w|]; [done|]. unfold layout. simpl.
  by rewrite !(Z2Nat.nonpos (_ - zlen (sign ++ body))) by (unfold zlen; lia).
Qed.
Lemma at_least_default p ds : at_least (default (-1) p) ds = at_least (default 0 p) ds.
Proof.
  destruct p as [p|]; [done|]. unfold at_least. simpl. by rewrite !(Z2Nat.nonpos (_ - zlen ds)) by (unfold zlen; lia).
Qed.
Lemma field_default o : field_ok o → - 1 ≤ default (-1) o < 2 ^ 24 ∧ default (-1) o ≠ 0.
Proof. destruct o; simpl; lia. Qed.

Lemma style_flags_range st : 0 ≤ style_flags st < 32.
Proof. destruct st as [[] [] [] []]; done. Qed.
(** The flags of a number conversion. *)
Definition kind_flag (k : number_kind) : Z := match k with Signed => SIGN | HexUpper => LARGE | _ => 0 end.
Lemma kind_flags st k :
  let type := Z.lor (style_flags st) (kind_flag k) in
  0 ≤ type < 128 ∧ (flag type LEFT ↔ st_left st = true) ∧ (flag type ZEROPAD ↔ st_zero st = true) ∧
  (flag type LARGE ↔ k = HexUpper) ∧
  ∀ num, split_sign type num =
    if decide (k = Signed) then
      if decide (num < 0) then (45, i32 (- num)) else (if st_plus st then 43 else if st_space st then 32 else 0, num)
    else (0, num).
Proof.
  destruct st as [[] [] [] []], k; (split; [done|]); (split; [done|]); (split; [done|]); (split; [done|]); intros num;
    unfold split_sign; simpl; repeat case_decide; done.
Qed.

Lemma i32_id v : - 2 ^ 31 ≤ v < 2 ^ 31 → i32 v = v.
Proof. apply (wrapS_small 32). done. Qed.
Definition kind_base (k : number_kind) : Z := match k with Signed | Unsigned => 10 | _ => 16 end.
Lemma i32_idemp v : i32 (i32 v) = i32 v.
Proof. unfold wrapS. by rewrite Z.sub_add, Zmod_mod. Qed.

Lemma emits_number st width precision k v args :
  field_ok width → field_ok precision →
  match k with Signed => - 2 ^ 31 ≤ v < 2 ^ 31 | _ => 0 ≤ v < 2 ^ 32 end →
  emits (convert_number limit (mkDirective (style_flags st) (default (-1) width) (default (-1) precision) 0) (kind_base k)
           (Z.lor (style_flags st) (kind_flag k)) (VInt v :: args)) args
    (text (PNumber st width precision k v)).
Proof.
  intros Hw Hp Hv. unfold convert_number. eapply emits_lift; [reflexivity|]. cbn [fst snd d_qualifier d_width d_precision].
  unfold qualified. rewrite decide_False by done.
  destruct (kind_flags st k) as (Ht & HL & HZ & HX & Hsign). set (type := Z.lor (style_flags st) (kind_flag k)) in *.
  destruct (field_default width Hw) as [Hw1 _]. destruct (field_default precision Hp) as [Hp1 Hp2].
  set (digits := if decide (flag type LARGE) then large_digits else small_digits).
  set (sn := split_sign type (i32 v)).
  assert (i32 sn.2 = sn.2 ∧ 0 ≤ u32 sn.2 < 2 ^ 32) as [Hsn Hrange].
  { split; [|by apply wrapU_range]. unfold sn. rewrite Hsign. repeat case_decide; apply i32_idemp. }
  assert (base_ok digits (kind_base k)) as Hbase.
  { split; [destruct k; simpl; tauto|]. unfold digits. destruct (decide (flag type LARGE)); [by right|by left]. }
  eapply emits_bind; [|apply emits_ret|symmetry; apply app_nil_r].
  pose proof (print_number_emits limit (i32 v) (kind_base k) (default (-1) width) (default (-1) precision) type
    (numeral digits (kind_base k) (u32 sn.2)) (number_tmp_ok _ _ _ Hbase Hsn)
    (numeral_length _ _ _ (proj1 Hbase) Hrange) Hw1 Hp1 Hp2 Ht) as Hemit. fold sn in Hemit.
  eapply emits_eq; [exact Hemit|done|]. rewrite layout_default, at_least_default.
  assert (bool_decide (flag type LEFT) = st_left st) as -> by (by apply bool_decide_is).
  assert (bool_decide (flag type ZEROPAD) = st_zero st) as -> by (by apply bool_decide_is).
  assert (digits = if decide (k = HexUpper) then large_digits else small_digits) as ->.
  { unfold digits. by apply decide_ext. }
  unfold sn. rewrite Hsign. clear - Hv. destruct k; simpl; [|by rewrite u32_i32, wrapU_small..].
  rewrite (i32_id v Hv). unfold sign_text. case_decide.
  - simpl. rewrite u32_i32, wrapU_small by lia. by replace (- v) with (Z.abs v) by lia.
  - simpl. rewrite wrapU_small, Z.abs_eq by lia. by destruct (st_plus st), (st_space st).
Qed.

Lemma emits_char lft width c args :
  field_ok width → byte c →
  emits (convert_c limit (mkDirective (style_flags (left_style lft)) (default (-1) width) (-1) 0) (VInt c :: args)) args
    (text (PChar lft width c)).
Proof.
  intros Hw Hc. destruct (field_default width Hw) as [Hw1 _]. unfold convert_c. cbn [d_flags d_width text].
  rewrite <-layout_default. unfold layout, zlen. simpl length. destruct lft; simpl app.
  - rewrite decide_False by (by intros []). eapply emits_bind; [apply emits_ret| |reflexivity].
    eapply emits_lift; [reflexivity|]. cbn [fst snd]. rewrite u8_byte by done.
    eapply emits_bind; [apply emits_put| |reflexivity].
    eapply emits_bind; [apply pad_before_emits; lia|apply emits_ret|]. by rewrite app_nil_r.
  - rewrite decide_True by (intros H; by apply H). eapply emits_bind; [apply pad_before_emits; lia| |reflexivity].
    eapply emits_lift; [reflexivity|]. cbn [fst snd]. rewrite u8_byte by done.
    eapply emits_bind; [apply emits_put| |reflexivity].
    eapply emits_bind; [apply pad_before_emits; lia|apply emits_ret|]. rewrite Z2Nat.nonpos by lia. done.
Qed.

Lemma put_chars_emits n : ∀ s rest, (n ≤ length s)%nat → emits (put_chars limit n (s ++ rest)) tt (take n s).
Proof.
  induction n as [|n IH]; intros [|c s] rest Hn; simpl in Hn; [apply emits_ret|apply emits_ret|lia|]. simpl.
  eapply emits_bind; [apply emits_put|apply IH; lia|done].
Qed.
Lemma strlen_argument s : Forall (λ c, 1 ≤ c < 256) s → rt_strlen 0 (s ++ [0]) = Ok (zlen s, s ++ [0]).
Proof. intros Hs. apply strlen_run, (string_at_intro [] s []), Hs. Qed.
Lemma emits_text lft width precision s args :
  field_ok width → field_ok precision → Forall (λ c, 1 ≤ c < 256) s → zlen s < 2 ^ 24 →
  emits (convert_s limit (mkDirective (style_flags (left_style lft)) (default (-1) width) (default (-1) precision) 0)
           (VStr (Some (s ++ [0])) :: args)) args (text (PText lft width precision s)).
Proof.
  intros Hw Hp Hs Hl. destruct (field_default width Hw) as [Hw1 _]. destruct (field_default precision Hp) as [Hp1 Hp2].
  unfold convert_s. eapply emits_lift; [reflexivity|]. cbn [fst snd from_option d_flags d_width d_precision text].
  eapply emits_lift; [by apply strlen_argument|]. cbn [fst].
  set (len := if decide (0 < default (-1) precision ∧ default (-1) precision < zlen s) then default (-1) precision else zlen s).
  set (t := match precision with Some p => take (Z.to_nat p) s | None => s end).
  assert (0 ≤ len ≤ zlen s ∧ t = take (Z.to_nat len) s) as [Hlen Et].
  { unfold len, t. destruct precision as [p|]; simpl in *.
    - case_decide; [split; [lia|done]|]. unfold zlen in *. split; [lia|]. rewrite Nat2Z.id, !take_ge by lia. done.
    - split; [unfold zlen; lia|]. unfold zlen. by rewrite Nat2Z.id, take_ge. }
  clearbody len. assert (zlen t = len) as Elt by (rewrite Et; unfold zlen in *; rewrite length_take; lia).
  rewrite <-layout_default. unfold layout. simpl app. rewrite Elt. rewrite Et. clear - Hw1 Hlen Hl.
  destruct lft.
  - rewrite decide_False by (by intros []). eapply emits_bind; [apply emits_ret| |reflexivity].
    eapply emits_bind; [apply put_chars_emits; unfold zlen in *; lia| |reflexivity].
    eapply emits_bind; [apply pad_above_emits; lia|apply emits_ret|]. by rewrite app_nil_r.
  - rewrite decide_True by (intros H; by apply H). eapply emits_bind; [apply pad_above_emits; lia| |reflexivity].
    eapply emits_bind; [apply put_chars_emits; unfold zlen in *; lia| |].
    + eapply emits_bind; [apply pad_above_emits; lia|apply emits_ret|reflexivity].
    + rewrite (Z2Nat.nonpos (Z.min _ len - 1 - len)) by lia. by rewrite !app_nil_r.
Qed.
End Pieces.

(** ** The whole format *)
Section Whole.
Context (limit : Z).
Abbreviation emits := (emits limit).

(** The directive of a piece other than a literal. *)
Lemma emits_convert width precision st c fmt args args' t m :
  field_ok width → field_ok precision → conversion c →
  let d := mkDirective (style_flags st) (default (-1) width) (default (-1) precision) 0 in
  convert limit d (c :: fmt) args = (args ← m; mret (fmt, args)) → emits m args' t →
  emits (d ← lift_outcome (directive_of (field_syntax st width precision ++ c :: fmt) args);
         convert limit d.1.1 d.1.2 d.2) (fmt, args') t.
Proof.
  intros Hw Hp Hc d E Hm. eapply emits_lift; [by apply directive_syntax|]. cbn [fst snd]. fold d. rewrite E.
  eapply emits_bind; [exact Hm|apply emits_ret|by rewrite app_nil_r].
Qed.
Lemma emits_assoc {A B C} (m : M sink A) (f : A → M sink B) (g : B → M sink C) b c t1 t2 :
  emits (m ≫= f) b t1 → emits (g b) c t2 → emits (a ← m; b ← f a; g b) c (t1 ++ t2).
Proof.
  intros Hm Hg o Ho. specialize (Hm o Ho). unfold mbind, M_bind in *.
  destruct (m o) as [[a o']|]; [|done]. destruct (f a o') as [[b' o'']|]; [|done].
  injection Hm as -> ->. rewrite (Hg _ (pushes_ok _ _ _ Ho)). by rewrite pushes_app.
Qed.

Lemma emits_directive p fmt args :
  piece_ok p → (∀ c, p ≠ PLit c) →
  ∃ spec, syntax p = 37 :: spec ∧
    emits (d ← lift_outcome (directive_of (spec ++ fmt) (arguments p ++ args)); convert limit d.1.1 d.1.2 d.2) (fmt, args) (text p).
Proof.
  intros Hp Hlit. destruct p as [c| |lft w c|lft w pr s|st w pr k v]; [by destruct (Hlit c)|..]; cbn [syntax arguments];
    (eexists; split; [reflexivity|]); rewrite <-?app_assoc; cbn [app].
  - eapply emits_lift; [apply (directive_syntax (left_style false) None None 37); [done|done|by left]|].
    eapply emits_bind; [apply emits_put|apply emits_ret|done].
  - destruct Hp as [Hw Hc]. eapply emits_convert; [done|done|by apply (bool_decide_eq_true_1 _)|reflexivity|].
    by apply emits_char.
  - destruct Hp as (Hw & Hpr & Hs & Hl). eapply emits_convert; [done|done|by apply (bool_decide_eq_true_1 _)|reflexivity|].
    by apply emits_text.
  - destruct Hp as (Hw & Hpr & Hv).
    eapply emits_convert; [done|done|destruct k; by apply (bool_decide_eq_true_1 _)| |by apply (emits_number limit st w pr k v)].
    destruct k; cbn [kind_char]; unfold kind_flag; rewrite ?Z.lor_0_r; reflexivity.
Qed.

Lemma loop_emits ps : ∀ fuel,
  Forall piece_ok ps → (length ps < fuel)%nat →
  emits (vsnprintf_loop limit fuel (concat (syntax <$> ps) ++ [0]) (concat (arguments <$> ps))) tt (concat (text <$> ps)).
Proof.
  induction ps as [|p ps IH]; intros [|fuel] Hok Hf; simpl in Hf; [lia|apply emits_ret|lia|].
  apply Forall_cons in Hok as [Hp Hok]. rewrite !fmap_cons. cbn [concat]. rewrite <-app_assoc.
  assert (length ps < fuel)%nat as Hf' by lia. specialize (IH fuel Hok Hf').
  set (fmt := concat (syntax <$> ps) ++ [0]) in *. set (args := concat (arguments <$> ps)) in *.
  assert ((∃ c, p = PLit c) ∨ ∀ c, p ≠ PLit c) as [[c ->]|Hlit] by (destruct p; [left; by eexists|by right..]).
  - destruct Hp as [Hc H37]. simpl. rewrite decide_False by lia. rewrite decide_True by done.
    eapply emits_bind; [apply emits_put|exact IH|done].
  - destruct (emits_directive p fmt args Hp Hlit) as (spec & -> & Hd). cbn [app vsnprintf_loop].
    rewrite decide_False by done. rewrite (decide_False (P := 37 ≠ 37)) by (intros H; by apply H).
    by apply (emits_assoc _ _ (λ r, vsnprintf_loop limit fuel r.1 r.2) (fmt, args)).
Qed.

Lemma pushes_cells t : ∀ cs i,
  (Z.to_nat limit ≤ length cs)%nat →
  pushes limit t (mkSink cs (Z.of_nat i)) =
  mkSink (splice cs i (take (Z.to_nat limit - i) t)) (Z.of_nat i + zlen t).
Proof.
  induction t as [|c t IH]; intros cs i Hl; simpl.
  - rewrite take_nil, splice_nil. f_equal. unfold zlen. simpl. lia.
  - unfold push. simpl. replace (Z.of_nat i + 1) with (Z.of_nat (S i)) by lia. rewrite IH by (case_decide; [by rewrite length_insert|done]).
    f_equal; [|unfold zlen; simpl; lia]. case_decide as Hi.
    + replace (Z.to_nat limit - i)%nat with (S (Z.to_nat limit - S i)) by lia. cbn [take]. rewrite Nat2Z.id.
      by rewrite splice_cons by lia.
    + replace (Z.to_nat limit - S i)%nat with 0%nat by lia. replace (Z.to_nat limit - i)%nat with 0%nat by lia.
      by rewrite !take_0, !splice_nil.
Qed.
(** The zero behind the text. *)
Lemma terminated (T cs : list Z) size :
  0 < size ≤ zlen cs → let n := Z.to_nat (Z.min (zlen T) (size - 1)) in
  <[n := 0]> (splice cs 0 (take (Z.to_nat size) T)) = take n T ++ 0 :: drop (S n) cs.
Proof.
  intros Hs n. unfold zlen in *. rewrite splice_0.
  assert (n < length (take (Z.to_nat size) T ++ drop (length (take (Z.to_nat size) T)) cs))%nat as Hn.
  { rewrite length_app, length_drop, length_take. unfold n. lia. }
  rewrite insert_take_drop by done. f_equal; [|f_equal].
  - destruct (decide (Z.of_nat (length T) < size)) as [Hlt|Hge].
    + assert (n = length T) as -> by (unfold n; lia). rewrite (take_ge T (Z.to_nat size)) by lia.
      by rewrite take_app_length, take_ge.
    + rewrite take_app_le by (rewrite length_take; unfold n; lia). rewrite take_take. f_equal. unfold n. lia.
  - destruct (decide (Z.of_nat (length T) < size)) as [Hlt|Hge].
    + assert (n = length T) as -> by (unfold n; lia). rewrite (take_ge T (Z.to_nat size)) by lia.
      rewrite drop_app_ge, drop_drop by lia. f_equal. lia.
    + rewrite drop_app_ge, drop_drop by (rewrite length_take; unfold n; lia).
      rewrite length_take. f_equal. unfold n. lia.
Qed.
End Whole.

(** C24: [rt_snprintf] prints what its format says.  A format put together from
    literals, percent signs, and conversions of characters, strings and decimal
    and hexadecimal numbers, with flags, widths and precisions, prints the
    texts of its pieces: justified in their fields, padded with spaces or
    zeros, signed, and with at least as many digits as the precision asks for.
    The result is the length of the whole text; the array holds the text, or as
    much of it as there is room for, with a zero behind it; no cell behind
    that is written; and the call neither runs on nor leaves its array. *)
Theorem snprintf_correct ps buf size cs :
  Forall piece_ok ps → 0 ≤ buf → 0 ≤ size ≤ zlen cs → buf + size < 2 ^ 32 →
  let T := concat (text <$> ps) in
  zlen T < 2 ^ 31 →
  rt_snprintf buf size (concat (syntax <$> ps) ++ [0]) (concat (arguments <$> ps)) cs =
  Ok (zlen T, if decide (size = 0) then cs
              else let n := Z.to_nat (Z.min (zlen T) (size - 1)) in take n T ++ 0 :: drop (S n) cs).
Proof.
  intros Hok Hbuf Hsize Hend T HT. unfold rt_snprintf, rt_vsnprintf.
  assert (vsnprintf_limit buf size = size) as -> by (unfold vsnprintf_limit; by rewrite decide_False by lia).
  erewrite bind_ok by reflexivity. unfold id.
  assert (sink_ok size (mkSink cs 0)) as Hsink by (split; simpl; lia).
  assert (length ps < S (length (concat (syntax <$> ps) ++ [0%Z])))%nat as Hfuel.
  { rewrite length_app. apply Nat.lt_succ_r. transitivity (length (concat (syntax <$> ps))); [|lia]. clear.
    induction ps as [|p ps IH]; cbn [fmap list_fmap length concat]; [lia|].
    rewrite length_app. assert (1 ≤ length (syntax p))%nat by (destruct p; cbn [syntax length]; lia). unfold fmap in *. lia. }
  pose proof (loop_emits size ps _ Hok Hfuel (mkSink cs 0) Hsink) as E. fold T in E.
  change (mkSink cs 0) with (mkSink cs (Z.of_nat 0)) in E at 2. rewrite pushes_cells in E by (unfold zlen in *; lia).
  rewrite (bind_ok _ _ _ _ _ (lift_ok _ _ _ E)). cbn [fst snd cells str]. rewrite Z.add_0_l, Nat.sub_0_r.
  assert (i32 (zlen T) = zlen T) as Ei by (apply i32_id; unfold zlen in *; lia).
  destruct (decide (size = 0)) as [->|H0].
  - rewrite decide_False by lia. change (take (Z.to_nat 0) T) with (@nil Z). rewrite splice_nil. erewrite bind_ok by reflexivity. by rewrite Ei.
  - rewrite decide_True by lia. set (n := Z.to_nat (Z.min (zlen T) (size - 1))).
    assert ((if decide (zlen T < size) then zlen T else size - 1) = Z.of_nat n) as -> by (unfold n, zlen; case_decide; lia).
    erewrite bind_ok; [|apply lift_ok; unfold array_set; rewrite decide_True; [reflexivity|]].
    + erewrite bind_ok by reflexivity. rewrite Ei, Nat2Z.id. unfold modify.
      pose proof (terminated T cs size ltac:(lia)) as Et. cbv zeta in Et. fold n in Et. by rewrite Et.
    + unfold zlen in *. rewrite length_splice; rewrite ?length_take; unfold n; lia.
Qed.

(** ** Concrete instances *)

(** [%-6sT%+.3d|%04x], and what is kept of it in eight cells. *)
Definition some_pieces : list piece :=
  [PText true (Some 6) None [65; 66]; PLit 84; PNumber (mkStyle false true false false) None (Some 3) Signed (-7);
   PLit 124; PNumber (mkStyle false false false true) (Some 4) None HexLower 255].
Lemma snprintf_correct_witness :
  let T := concat (text <$> some_pieces) in
  T = [65; 66; 32; 32; 32; 32; 84; 45; 48; 48; 55; 124; 48; 48; 102; 102] ∧
  rt_snprintf 0x20004000 8 (concat (syntax <$> some_pieces) ++ [0]) (concat (arguments <$> some_pieces)) (replicate 10 46) =
  Ok (16, [65; 66; 32; 32; 32; 32; 84; 0; 46; 46]).
Proof.
  split; [by vm_compute|].
  rewrite (snprintf_correct some_pieces 0x20004000 8 (replicate 10 46)).
  - by vm_compute.
  - by_evaluation.
  - lia.
  - by_evaluation.
  - lia.
  - by vm_compute.
Defined.
