(* ===== verification/Kernel.v ===== *)
(** * Kernel state ([include/rtdef.h], [include/rtservice.h], [libcpu/arm/cortex-m3])

    The memory of the kernel as one record: the kernel objects by address, the
    intrusive lists as sequences of the objects linked into them, and the
    global variables of scheduler.c, timer.c, clock.c and irq.c.  Pointers are
    [Z] with [0] for [RT_NULL].  [RtList] justifies the sequence view of the
    lists. *)
From S2P Require Import Prelude.

(** ** Error codes and constants *)
Definition RT_EOK : Z := 0.
Definition RT_ERROR : Z := 1.
Definition RT_ETIMEOUT : Z := 2.
Definition RT_EFULL : Z := 3.
Definition RT_EEMPTY : Z := 4.
Definition RT_ENOMEM : Z := 5.
Definition RT_ENOSYS : Z := 6.
Definition RT_EBUSY : Z := 7.
Definition RT_EINVAL : Z := 10.

Definition RT_NULL : Z := 0.
Definition RT_NAME_MAX : Z := 8.
Definition RT_TICK_MAX : Z := 4294967295.
Definition RT_THREAD_PRIORITY_MAX : Z := 32.

Definition RT_SEM_VALUE_MAX : Z := RT_UINT16_MAX.
Definition RT_MUTEX_VALUE_MAX : Z := RT_UINT16_MAX.
Definition RT_MUTEX_HOLD_MAX : Z := RT_UINT8_MAX.
Definition RT_MB_ENTRY_MAX : Z := RT_UINT16_MAX.
Definition RT_MQ_ENTRY_MAX : Z := RT_UINT16_MAX.

Definition RT_THREAD_INIT : Z := 0.
Definition RT_THREAD_READY : Z := 1.
Definition RT_THREAD_SUSPEND : Z := 2.
Definition RT_THREAD_RUNNING : Z := 3.
Definition RT_THREAD_CLOSE : Z := 4.
Definition RT_THREAD_STAT_MASK : Z := 7.
Definition RT_THREAD_STAT_YIELD : Z := 8.
Definition RT_THREAD_STAT_YIELD_MASK : Z := RT_THREAD_STAT_YIELD.

Definition RT_THREAD_CTRL_STARTUP : Z := 0.
Definition RT_THREAD_CTRL_CLOSE : Z := 1.
Definition RT_THREAD_CTRL_CHANGE_PRIORITY : Z := 2.

Definition RT_TIMER_FLAG_DEACTIVATED : Z := 0.
Definition RT_TIMER_FLAG_ACTIVATED : Z := 1.
Definition RT_TIMER_FLAG_ONE_SHOT : Z := 0.
Definition RT_TIMER_FLAG_PERIODIC : Z := 2.
Definition RT_TIMER_FLAG_SOFT_TIMER : Z := 4.

Definition RT_TIMER_CTRL_SET_TIME : Z := 0.
Definition RT_TIMER_CTRL_GET_TIME : Z := 1.
Definition RT_TIMER_CTRL_SET_ONESHOT : Z := 2.
Definition RT_TIMER_CTRL_SET_PERIODIC : Z := 3.
Definition RT_TIMER_CTRL_GET_STATE : Z := 4.

Definition RT_SOFT_TIMER_IDLE : Z := 1.
Definition RT_SOFT_TIMER_BUSY : Z := 0.

Definition RT_IPC_FLAG_FIFO : Z := 0.
Definition RT_IPC_FLAG_PRIO : Z := 1.
Definition RT_IPC_CMD_RESET : Z := 1.
Definition RT_WAITING_FOREVER : Z := -1.
Definition RT_WAITING_NO : Z := 0.

Definition RT_EVENT_FLAG_AND : Z := 1.
Definition RT_EVENT_FLAG_OR : Z := 2.
Definition RT_EVENT_FLAG_CLEAR : Z := 4.

(** [enum rt_object_class_type] *)
Definition RT_Object_Class_Null : Z := 0.
Definition RT_Object_Class_Thread : Z := 1.
Definition RT_Object_Class_Semaphore : Z := 2.
Definition RT_Object_Class_Mutex : Z := 3.
Definition RT_Object_Class_Event : Z := 4.
Definition RT_Object_Class_MailBox : Z := 5.
Definition RT_Object_Class_MessageQueue : Z := 6.
Definition RT_Object_Class_MemPool : Z := 8.
Definition RT_Object_Class_Device : Z := 9.
Definition RT_Object_Class_Timer : Z := 10.
Definition RT_Object_Class_Static : Z := 128.

(** ** Kernel objects *)
Abbreviation addr := Z.

(** A kernel object is reached by its address; the timer embedded in a thread
    is the object [&thread->thread_timer]. *)
Inductive ref := Obj (a : addr) | ThreadTimer (thread : addr).

#[global] Instance ref_eq_dec : EqDecision ref.
Proof. solve_decision. Defined.
#[global] Instance ref_countable : Countable ref.
Proof.
  apply (inj_countable' (λ r, match r with Obj a => inl a | ThreadTimer a => inr a end)
           (λ s, match s with inl a => Obj a | inr a => ThreadTimer a end)).
  by intros [].
Defined.

(** [struct rt_object]: the name is the [RT_NAME_MAX]-byte array. *)
Record rt_object := mkObject {
  obj_name : list Z;
  obj_type : Z;
  obj_flag : Z
}.
#[global] Instance eta_rt_object : EtaRecord rt_object := λ o,
  mkObject (obj_name o) (obj_type o) (obj_flag o).

Inductive timer_fn := Fn_rt_thread_timeout | Fn_user (f : Z).
#[global] Instance timer_fn_eq_dec : EqDecision timer_fn.
Proof. solve_decision. Defined.

(** [struct rt_timer] with [RT_TIMER_SKIP_LIST_LEVEL = 1]; the list node
    [row[0]] is in [timer_queues]. *)
Record rt_timer := mkTimer {
  tm_parent : rt_object;
  timeout_func : timer_fn;
  tm_parameter : Z;
  tm_init_tick : Z;
  timeout_tick : Z
}.
#[global] Instance eta_rt_timer : EtaRecord rt_timer := λ t,
  mkTimer (tm_parent t) (timeout_func t) (tm_parameter t) (tm_init_tick t) (timeout_tick t).

(** [struct rt_thread].  The node [tlist] is in [queues], [thread_timer] is
    [timers !! ThreadTimer t]; [stack_mark] is the byte at [stack_addr]. *)
Record rt_thread := mkThread {
  th_parent : rt_object;
  sp : Z;
  entry : Z;
  parameter : Z;
  stack_addr : Z;
  stack_size : Z;
  stack_mark : Z;
  error : Z;
  stat : Z;
  current_priority : Z;
  init_priority : Z;
  number_mask : Z;
  event_set : Z;
  event_info : Z;
  init_tick : Z;
  remaining_tick : Z;
  cleanup : Z;
  user_data : Z
}.
#[global] Instance eta_rt_thread : EtaRecord rt_thread := λ t,
  mkThread (th_parent t) (sp t) (entry t) (parameter t) (stack_addr t) (stack_size t)
    (stack_mark t) (error t) (stat t) (current_priority t) (init_priority t)
    (number_mask t) (event_set t) (event_info t) (init_tick t) (remaining_tick t)
    (cleanup t) (user_data t).

(** The IPC objects; their wait lists are in [queues]. *)
Record rt_semaphore := mkSemaphore { sem_parent : rt_object; sem_value : Z }.
#[global] Instance eta_rt_semaphore : EtaRecord rt_semaphore := λ s,
  mkSemaphore (sem_parent s) (sem_value s).

Record rt_mutex := mkMutex {
  mutex_parent : rt_object;
  mutex_value : Z;
  original_priority : Z;
  hold : Z;
  owner : addr
}.
#[global] Instance eta_rt_mutex : EtaRecord rt_mutex := λ m,
  mkMutex (mutex_parent m) (mutex_value m) (original_priority m) (hold m) (owner m).

Record rt_event := mkEvent { event_parent : rt_object; evset : Z }.
#[global] Instance eta_rt_event : EtaRecord rt_event := λ e,
  mkEvent (event_parent e) (evset e).

Record rt_mailbox := mkMailbox {
  mb_parent : rt_object;
  mb_msg_pool : list Z;
  mb_size : Z;
  mb_entry : Z;
  in_offset : Z;
  out_offset : Z
}.
#[global] Instance eta_rt_mailbox : EtaRecord rt_mailbox := λ m,
  mkMailbox (mb_parent m) (mb_msg_pool m) (mb_size m) (mb_entry m) (in_offset m) (out_offset m).

(** A message slot of a queue: the header's [next] and the bytes after it.
    Slots are named by their index in the pool; [None] is [RT_NULL]. *)
Record rt_mq_message := mkMessage { msg_next : option nat; msg_data : list Z }.
#[global] Instance eta_rt_mq_message : EtaRecord rt_mq_message := λ m,
  mkMessage (msg_next m) (msg_data m).

Record rt_messagequeue := mkMq {
  mq_parent : rt_object;
  mq_msg_pool : list rt_mq_message;
  mq_msg_size : Z;
  mq_max_msgs : Z;
  mq_entry : Z;
  msg_queue_head : option nat;
  msg_queue_tail : option nat;
  msg_queue_free : option nat
}.
#[global] Instance eta_rt_messagequeue : EtaRecord rt_messagequeue := λ m,
  mkMq (mq_parent m) (mq_msg_pool m) (mq_msg_size m) (mq_max_msgs m) (mq_entry m)
    (msg_queue_head m) (msg_queue_tail m) (msg_queue_free m).

(** [struct rt_mempool]; its blocks are in [pool_words] of the kernel. *)
Record rt_mempool := mkMempool {
  mp_parent : rt_object;
  mp_start_address : addr;
  mp_size : Z;
  mp_block_size : Z;
  mp_block_list : addr;
  block_total_count : Z;
  block_free_count : Z
}.
#[global] Instance eta_rt_mempool : EtaRecord rt_mempool := λ m,
  mkMempool (mp_parent m) (mp_start_address m) (mp_size m) (mp_block_size m) (mp_block_list m)
    (block_total_count m) (block_free_count m).

(** [struct rt_device], but for the driver's functions and private data. *)
Record rt_device := mkDevice {
  dev_parent : rt_object;
  dev_flag : Z;
  open_flag : Z;
  ref_count : Z;
  rx_indicate : Z;
  tx_complete : Z
}.
#[global] Instance eta_rt_device : EtaRecord rt_device := λ d,
  mkDevice (dev_parent d) (dev_flag d) (open_flag d) (ref_count d) (rx_indicate d) (tx_complete d).

(** ** Lists *)

(** Heads of the lists that link [thread->tlist] nodes. *)
Inductive qid :=
  | QReady (prio : Z)        (* rt_thread_priority_table[prio] *)
  | QDefunct                 (* rt_thread_defunct *)
  | QSuspend (ipc : addr)    (* ipc->suspend_thread *)
  | QSender (ipc : addr).    (* mb->suspend_sender_thread, mq->suspend_sender_thread *)

#[global] Instance qid_eq_dec : EqDecision qid.
Proof. solve_decision. Defined.
#[global] Instance qid_countable : Countable qid.
Proof.
  apply (inj_countable'
    (λ q, match q with QReady p => inl (inl p) | QDefunct => inl (inr ())
          | QSuspend a => inr (inl a) | QSender a => inr (inr a) end)
    (λ s, match s with inl (inl p) => QReady p | inl (inr _) => QDefunct
          | inr (inl a) => QSuspend a | inr (inr a) => QSender a end)).
  by intros [].
Defined.

(** Heads of the lists that link [timer->row[0]] nodes; the last two are the
    local [list] of [rt_timer_check] and of [rt_soft_timer_check]. *)
Inductive tqid := QTimer | QSoftTimer | QCheck | QSoftCheck.
#[global] Instance tqid_eq_dec : EqDecision tqid.
Proof. solve_decision. Defined.
#[global] Instance tqid_countable : Countable tqid.
Proof.
  apply (inj_countable'
    (λ q, match q with QTimer => 0 | QSoftTimer => 1 | QCheck => 2 | QSoftCheck => 3 end)%nat
    (λ n, match n with 0 => QTimer | 1 => QSoftTimer | 2 => QCheck | _ => QSoftCheck end)%nat).
  by intros [].
Defined.

(** ** The kernel *)
Record kernel := mkKernel {
  threads : gmap addr rt_thread;
  timers : gmap ref rt_timer;
  queues : gmap qid (list addr);
  timer_queues : gmap tqid (list ref);
  object_lists : gmap Z (list ref);
  semaphores : gmap addr rt_semaphore;
  mutexes : gmap addr rt_mutex;
  events : gmap addr rt_event;
  mailboxes : gmap addr rt_mailbox;
  mqueues : gmap addr rt_messagequeue;
  mempools : gmap addr rt_mempool;
  pool_words : gmap addr Z;  (* the word in front of each memory pool block *)
  devices : gmap addr rt_device;
  rt_errno : Z;
  rt_thread_ready_priority_group : Z;
  rt_current_thread : addr;
  rt_current_priority : Z;
  rt_scheduler_lock_nest : Z;
  rt_interrupt_nest : Z;
  rt_tick : Z;
  primask : Z;
  soft_timer_status : Z;
  timer_thread : addr
}.
#[global] Instance eta_kernel : EtaRecord kernel := λ k,
  mkKernel (threads k) (timers k) (queues k) (timer_queues k) (object_lists k)
    (semaphores k) (mutexes k) (events k) (mailboxes k) (mqueues k)
    (mempools k) (pool_words k) (devices k) (rt_errno k)
    (rt_thread_ready_priority_group k) (rt_current_thread k) (rt_current_priority k)
    (rt_scheduler_lock_nest k) (rt_interrupt_nest k) (rt_tick k) (primask k)
    (soft_timer_status k) (timer_thread k).

Definition queue (k : kernel) (q : qid) : list addr := default [] (queues k !! q).
Definition tqueue (k : kernel) (q : tqid) : list ref := default [] (timer_queues k !! q).

(** Access through a pointer: a fault when it names no such object. *)
Definition get_thread (t : addr) : M kernel rt_thread :=
  th ← gets (λ k, threads k !! t); of_option FBadPointer th.
Definition put_thread (t : addr) (th : rt_thread) : M kernel unit :=
  modify (λ k, k <| threads := <[t := th]> (threads k) |>).
Definition upd_thread (t : addr) (f : rt_thread → rt_thread) : M kernel unit :=
  th ← get_thread t; put_thread t (f th).
Definition get_timer (r : ref) : M kernel rt_timer :=
  tm ← gets (λ k, timers k !! r); of_option FBadPointer tm.
Definition put_timer (r : ref) (tm : rt_timer) : M kernel unit :=
  modify (λ k, k <| timers := <[r := tm]> (timers k) |>).
Definition upd_timer (r : ref) (f : rt_timer → rt_timer) : M kernel unit :=
  tm ← get_timer r; put_timer r (f tm).

(** [rt_object_get_type] and [rt_object_is_systemobject] on an object header. *)
Definition rt_object_get_type (o : rt_object) : Z :=
  Z.land (obj_type o) (notU 8 RT_Object_Class_Static).
Definition rt_object_is_systemobject (o : rt_object) : bool :=
  bool_decide (Z.land (obj_type o) RT_Object_Class_Static ≠ 0).

(** ** Interrupt masking: [MRS R0, PRIMASK; CPSID I] and [MSR PRIMASK, R0] *)
Definition rt_hw_interrupt_disable : M kernel Z :=
  level ← gets primask;
  modify (λ k, k <| primask := 1 |>);;
  mret level.
Definition rt_hw_interrupt_enable (level : Z) : M kernel unit :=
  modify (λ k, k <| primask := level |>).

(** ** List primitives on [tlist] nodes *)

(** [rt_list_remove(&thread->tlist)]: out of whichever list it is in. *)
Definition remove_from_queues (t : addr) (qs : gmap qid (list addr)) : gmap qid (list addr) :=
  filter (.≠ t) <$> qs.
Definition rt_list_remove (t : addr) : M kernel unit :=
  modify (λ k, k <| queues := remove_from_queues t (queues k) |>).

Definition unlinked (k : kernel) (t : addr) : Prop :=
  map_Forall (λ (_ : qid) (l : list addr), t ∉ l) (queues k).

(** Linking a node that is still linked elsewhere corrupts both lists: a fault. *)
Definition require_unlinked (t : addr) : M kernel unit :=
  k ← gets id;
  if decide (map_Forall (λ (_ : qid) (l : list addr), t ∉ l) (queues k))
  then mret tt else fail FLinked.

Definition set_queue (q : qid) (l : list addr) : M kernel unit :=
  modify (λ k, k <| queues := <[q := l]> (queues k) |>).

(** [rt_list_insert_before(head, node)] and [rt_list_insert_after(head, node)]. *)
Definition rt_list_insert_tail (q : qid) (t : addr) : M kernel unit :=
  require_unlinked t;; k ← gets id; set_queue q (queue k q ++ [t]).
Definition rt_list_insert_head (q : qid) (t : addr) : M kernel unit :=
  require_unlinked t;; k ← gets id; set_queue q (t :: queue k q).
(** [rt_list_init(&thread->tlist)] *)
Definition rt_list_init_node (t : addr) : M kernel unit := require_unlinked t.
(** [rt_list_init(head)] *)
Definition rt_list_init_head (q : qid) : M kernel unit := set_queue q [].

Definition rt_thread_self : M kernel addr := gets rt_current_thread.
Definition rt_tick_get : M kernel Z := gets rt_tick.

(** ** Symbolic execution of the accessors *)
Section KernelWp.
Implicit Types (k : kernel) (t : addr) (r : ref).

Lemma wp_get_thread t th k Q :
  threads k !! t = Some th → Q th k → wp (get_thread t) k Q.
Proof. intros Ht HQ. unfold get_thread. by wp_steps. Qed.
Lemma wp_put_thread t th k (Q : unit → kernel → Prop) :
  Q tt (k <| threads := <[t := th]> (threads k) |>) → wp (put_thread t th) k Q.
Proof. done. Qed.
Lemma wp_upd_thread t th f k (Q : unit → kernel → Prop) :
  threads k !! t = Some th →
  Q tt (k <| threads := <[t := f th]> (threads k) |>) → wp (upd_thread t f) k Q.
Proof. intros Ht HQ. unfold upd_thread. wp_steps. by eapply wp_get_thread. Qed.
Lemma wp_get_timer r tm k Q :
  timers k !! r = Some tm → Q tm k → wp (get_timer r) k Q.
Proof. intros Ht HQ. unfold get_timer. by wp_steps. Qed.
Lemma wp_put_timer r tm k (Q : unit → kernel → Prop) :
  Q tt (k <| timers := <[r := tm]> (timers k) |>) → wp (put_timer r tm) k Q.
Proof. done. Qed.
Lemma wp_upd_timer r tm f k (Q : unit → kernel → Prop) :
  timers k !! r = Some tm →
  Q tt (k <| timers := <[r := f tm]> (timers k) |>) → wp (upd_timer r f) k Q.
Proof. intros Ht HQ. unfold upd_timer. wp_steps. by eapply wp_get_timer. Qed.
Lemma wp_disable k (Q : Z → kernel → Prop) :
  Q (primask k) (k <| primask := 1 |>) → wp rt_hw_interrupt_disable k Q.
Proof. done. Qed.
Lemma wp_enable level k (Q : unit → kernel → Prop) :
  Q tt (k <| primask := level |>) → wp (rt_hw_interrupt_enable level) k Q.
Proof. done. Qed.
Lemma wp_list_remove t k (Q : unit → kernel → Prop) :
  Q tt (k <| queues := remove_from_queues t (queues k) |>) → wp (rt_list_remove t) k Q.
Proof. done. Qed.
Lemma wp_insert_tail q t k (Q : unit → kernel → Prop) :
  (∀ q, t ∉ default [] (queues k !! q)) →
  Q tt (k <| queues := <[q := queue k q ++ [t]]> (queues k) |>) →
  wp (rt_list_insert_tail q t) k Q.
Proof.
  intros Hout HQ. unfold rt_list_insert_tail, require_unlinked. wp_steps.
  rewrite decide_True; [done|]. intros q' l Hl Hin. apply (Hout q'). by rewrite (Hl : queues k !! q' = _).
Qed.
Lemma wp_insert_head q t k (Q : unit → kernel → Prop) :
  (∀ q, t ∉ default [] (queues k !! q)) →
  Q tt (k <| queues := <[q := t :: queue k q]> (queues k) |>) →
  wp (rt_list_insert_head q t) k Q.
Proof.
  intros Hout HQ. unfold rt_list_insert_head, require_unlinked. wp_steps.
  rewrite decide_True; [done|]. intros q' l Hl Hin. apply (Hout q'). by rewrite (Hl : queues k !! q' = _).
Qed.
End KernelWp.

(** Read a field of an updated kernel. *)
Ltac ksimpl :=
  cbn [update_field threads timers queues timer_queues object_lists semaphores mutexes events
       mailboxes mqueues mempools pool_words devices rt_errno rt_thread_ready_priority_group rt_current_thread rt_current_priority
       rt_scheduler_lock_nest rt_interrupt_nest rt_tick primask soft_timer_status timer_thread].

(** One step of a kernel operation. *)
Ltac kstep :=
  cbv beta;
  lazymatch goal with
  | |- wp (get_thread _) _ _ => eapply wp_get_thread; [ksimpl; eassumption|]
  | |- wp (put_thread _ _) _ _ => apply wp_put_thread
  | |- wp (upd_thread _ _) _ _ => eapply wp_upd_thread; [ksimpl; eassumption|]
  | |- wp (get_timer _) _ _ => eapply wp_get_timer; [ksimpl; eassumption|]
  | |- wp (put_timer _ _) _ _ => apply wp_put_timer
  | |- wp (upd_timer _ _) _ _ => eapply wp_upd_timer; [ksimpl; eassumption|]
  | |- wp rt_hw_interrupt_disable _ _ => apply wp_disable
  | |- wp (rt_hw_interrupt_enable _) _ _ => apply wp_enable
  | |- wp (rt_list_remove _) _ _ => apply wp_list_remove
  | |- wp (rt_list_insert_tail _ _) _ _ => apply wp_insert_tail; [ksimpl; assumption|]
  | |- wp (rt_list_insert_head _ _) _ _ => apply wp_insert_head; [ksimpl; assumption|]
  | |- wp rt_thread_self _ _ => apply wp_gets
  | |- wp rt_tick_get _ _ => apply wp_gets
  | _ => wp_step
  end.
Ltac ksteps := repeat kstep.
