(* ===== verification/Scheduler.v ===== *)
(** * The scheduler ([src/scheduler.c])

    Ready lists and ready bitmap, [rt_schedule], scheduler lock.  The
    invariant [SchedInv] ties the bitmap, the ready lists, the thread states
    and the running thread together; it is stated with an optional thread
    that an operation has taken out of the books and not yet put back. *)
From S2P Require Import Prelude Kernel.

(** ** Operations *)

(** [__builtin_ffs], which [__rt_ffs] of cpuport.c calls: the least set bit
    counted from one, 0 for 0. *)
Fixpoint ffs_from (n : nat) (i value : Z) : Z :=
  match n with
  | O => 0
  | S n => if Z.testbit value i then i + 1 else ffs_from n (i + 1) value
  end.
Definition __rt_ffs (value : Z) : Z := ffs_from 32 0 value.

Definition stat_of (th : rt_thread) : Z := Z.land (stat th) RT_THREAD_STAT_MASK.

(** [thread->stat = s | (thread->stat & ~RT_THREAD_STAT_MASK)] *)
Definition with_stat (s : Z) (th : rt_thread) : rt_thread :=
  th <| stat := u8 (Z.lor s (Z.land (stat th) (Z.lnot RT_THREAD_STAT_MASK))) |>.

Definition yields (th : rt_thread) : bool :=
  bool_decide (Z.land (stat th) RT_THREAD_STAT_YIELD_MASK ≠ 0).
Definition clear_yield (th : rt_thread) : rt_thread :=
  th <| stat := u8 (Z.land (stat th) (Z.lnot RT_THREAD_STAT_YIELD_MASK)) |>.

(** The stack was overrun: [while (level);] hangs when interrupts were off. *)
Definition stack_ok (th : rt_thread) : Prop :=
  stack_mark th = 35 ∧ stack_addr th < sp th ≤ stack_addr th + stack_size th.
#[global] Instance stack_ok_dec th : Decision (stack_ok th).
Proof. unfold stack_ok. apply _. Defined.

Definition _rt_scheduler_stack_check (thread : addr) : M kernel unit :=
  RT_ASSERT (thread ≠ RT_NULL);;
  th ← get_thread thread;
  if decide (stack_ok th) then mret tt
  else
    level ← rt_hw_interrupt_disable;
    if decide (level ≠ 0) then fail FFuel else mret tt.

Definition _get_highest_priority_thread : M kernel (addr * Z) :=
  k ← gets id;
  let highest_ready_priority := __rt_ffs (rt_thread_ready_priority_group k) - 1 in
  to_thread ← of_option FBadPointer (head (queue k (QReady highest_ready_priority)));
  mret (to_thread, highest_ready_priority).

Definition rt_schedule_insert_thread (thread : addr) : M kernel unit :=
  RT_ASSERT (thread ≠ RT_NULL);;
  temp ← rt_hw_interrupt_disable;
  cur ← rt_thread_self;
  th ← get_thread thread;
  (if decide (thread = cur) then put_thread thread (with_stat RT_THREAD_RUNNING th)
   else
     put_thread thread (with_stat RT_THREAD_READY th);;
     rt_list_insert_tail (QReady (current_priority th)) thread;;
     modify (λ k, k <| rt_thread_ready_priority_group :=
                         Z.lor (rt_thread_ready_priority_group k) (number_mask th) |>));;
  rt_hw_interrupt_enable temp.

Definition rt_schedule_remove_thread (thread : addr) : M kernel unit :=
  RT_ASSERT (thread ≠ RT_NULL);;
  level ← rt_hw_interrupt_disable;
  rt_list_remove thread;;
  th ← get_thread thread;
  k ← gets id;
  when (queue k (QReady (current_priority th)) = [])
    (modify (λ k, k <| rt_thread_ready_priority_group :=
                         Z.land (rt_thread_ready_priority_group k)
                                (notU 32 (number_mask th)) |>));;
  rt_hw_interrupt_enable level.

(** The choice between the running thread and the best ready one; the second
    component is [need_insert_from_thread]. *)
Definition choose_next (cur : addr) (th : rt_thread) (to_thread : addr) (highest : Z)
  : addr * bool :=
  if decide (stat_of th = RT_THREAD_RUNNING) then
    if decide (current_priority th < highest) then (cur, false)
    else if decide (current_priority th = highest ∧ yields th = false) then (cur, false)
    else (to_thread, true)
  else (to_thread, false).

Definition rt_schedule : M kernel unit :=
  level ← rt_hw_interrupt_disable;
  k ← gets id;
  (if decide (rt_scheduler_lock_nest k = 0 ∧ rt_thread_ready_priority_group k ≠ 0) then
     '(best, highest_ready_priority) ← _get_highest_priority_thread;
     cur ← rt_thread_self;
     th ← get_thread cur;
     let '(to_thread, need_insert_from_thread) :=
       choose_next cur th best highest_ready_priority in
     when (stat_of th = RT_THREAD_RUNNING) (put_thread cur (clear_yield th));;
     if decide (to_thread ≠ cur) then
       modify (λ k, k <| rt_current_priority := u8 highest_ready_priority |>
                      <| rt_current_thread := to_thread |>);;
       when (need_insert_from_thread = true) (rt_schedule_insert_thread cur);;
       rt_schedule_remove_thread to_thread;;
       upd_thread to_thread (with_stat RT_THREAD_RUNNING);;
       _rt_scheduler_stack_check to_thread
     else
       rt_schedule_remove_thread cur;;
       upd_thread cur (with_stat RT_THREAD_RUNNING)
   else mret tt);;
  rt_hw_interrupt_enable level.

(** [for (offset = 0; offset < RT_THREAD_PRIORITY_MAX; offset ++)] *)
Fixpoint init_priority_table (n : nat) (offset : Z) : M kernel unit :=
  match n with
  | O => mret tt
  | S n => rt_list_init_head (QReady offset);; init_priority_table n (offset + 1)
  end.
Definition rt_system_scheduler_init : M kernel unit :=
  modify (λ k, k <| rt_scheduler_lock_nest := 0 |>);;
  init_priority_table 32 0;;
  modify (λ k, k <| rt_thread_ready_priority_group := 0 |>);;
  rt_list_init_head QDefunct.

(** [rt_hw_context_switch_to] of context_gcc.S: when the first thread is set up,
    [CPSIE I] lets interrupts in. *)
Definition rt_hw_context_switch_to : M kernel unit := modify (λ k, k <| primask := 0 |>).
Definition rt_system_scheduler_start : M kernel unit :=
  '(to_thread, _) ← _get_highest_priority_thread;
  modify (λ k, k <| rt_current_thread := to_thread |>);;
  rt_schedule_remove_thread to_thread;;
  upd_thread to_thread (λ th, th <| stat := RT_THREAD_RUNNING |>);;
  rt_hw_context_switch_to.

Definition rt_enter_critical : M kernel unit :=
  level ← rt_hw_interrupt_disable;
  modify (λ k, k <| rt_scheduler_lock_nest := i16 (rt_scheduler_lock_nest k + 1) |>);;
  rt_hw_interrupt_enable level.

Definition rt_exit_critical : M kernel unit :=
  level ← rt_hw_interrupt_disable;
  modify (λ k, k <| rt_scheduler_lock_nest := i16 (rt_scheduler_lock_nest k - 1) |>);;
  k ← gets id;
  if decide (rt_scheduler_lock_nest k ≤ 0) then
    modify (λ k, k <| rt_scheduler_lock_nest := 0 |>);;
    rt_hw_interrupt_enable level;;
    when (rt_current_thread k ≠ RT_NULL) rt_schedule
  else rt_hw_interrupt_enable level.

Definition rt_critical_level : M kernel Z := n ← gets rt_scheduler_lock_nest; mret (u16 n).

(** ** The invariant *)

Abbreviation qof qs q := (default [] (qs !! q)).

(** A thread that was started and not closed. *)
Definition live (th : rt_thread) : Prop :=
  stat_of th = RT_THREAD_READY ∨ stat_of th = RT_THREAD_SUSPEND ∨ stat_of th = RT_THREAD_RUNNING.

Record thread_ok (th : rt_thread) : Prop := {
  ok_prio : 0 ≤ current_priority th < RT_THREAD_PRIORITY_MAX;
  ok_mask : number_mask th = 2 ^ current_priority th;
  ok_stack : stack_ok th;
  ok_type : rt_object_get_type (th_parent th) = RT_Object_Class_Thread
}.

(** Threads in the wait list of an IPC object are suspended. *)
Definition waiting (q : qid) : Prop :=
  match q with QSuspend _ | QSender _ => True | _ => False end.

Record SchedInv (x : option addr) (ths : gmap addr rt_thread) (qs : gmap qid (list addr))
    (group : Z) (cur : addr) : Prop := {
  si_out : ∀ t q, x = Some t → t ∉ qof qs q;
  si_group_range : 0 ≤ group < 2 ^ 32;
  si_group : ∀ p, 0 ≤ p < RT_THREAD_PRIORITY_MAX →
    Z.testbit group p = true ↔ qof qs (QReady p) ≠ [];
  si_ready : ∀ t p, x ≠ Some t →
    t ∈ qof qs (QReady p) ↔
    ∃ th, ths !! t = Some th ∧ stat_of th = RT_THREAD_READY ∧ current_priority th = p;
  si_waiting : ∀ t q, waiting q → t ∈ qof qs q →
    ∃ th, ths !! t = Some th ∧ stat_of th = RT_THREAD_SUSPEND;
  si_defunct : ∀ t, t ∈ qof qs QDefunct →
    ∃ th, ths !! t = Some th ∧ stat_of th = RT_THREAD_CLOSE;
  si_nodup : ∀ q, NoDup (qof qs q);
  si_disjoint : ∀ q1 q2 t, t ∈ qof qs q1 → t ∈ qof qs q2 → q1 = q2;
  si_ok : ∀ t th, x ≠ Some t → ths !! t = Some th → live th → thread_ok th;
  si_running : ∀ t th, x ≠ Some t → ths !! t = Some th →
    stat_of th = RT_THREAD_RUNNING → t = cur;
  si_null : ths !! RT_NULL = None
}.

Abbreviation sched_inv x k :=
  (SchedInv x (threads k) (queues k) (rt_thread_ready_priority_group k) (rt_current_thread k)).

(** The thread on the processor is never marked ready. *)
Definition current_ok (k : kernel) : Prop :=
  ∃ th, threads k !! rt_current_thread k = Some th ∧ stat_of th ≠ RT_THREAD_READY
        ∧ stat_of th ≠ RT_THREAD_INIT.

(** What [rt_schedule] leaves alone: everything but the four scheduler fields
    and [rt_current_priority]; of a thread, everything but the yield bit and
    the difference between ready and running; of the lists, all but the ready
    ones. *)
Definition erase_sched (k : kernel) : kernel :=
  k <| threads := ∅ |> <| queues := ∅ |> <| rt_thread_ready_priority_group := 0 |>
    <| rt_current_thread := 0 |> <| rt_current_priority := 0 |>.
Definition stat_class (th : rt_thread) : Z :=
  if decide (stat_of th = RT_THREAD_RUNNING) then RT_THREAD_READY else stat_of th.
Definition thread_core (th : rt_thread) : rt_thread := th <| stat := stat_class th |>.
Definition ready_list (q : qid) : Prop := match q with QReady _ => True | _ => False end.
Record sched_frame (k k' : kernel) : Prop := {
  fr_rest : erase_sched k' = erase_sched k;
  fr_core : thread_core <$> threads k' = thread_core <$> threads k;
  fr_queues : ∀ q, ¬ ready_list q → qof (queues k') q = qof (queues k) q;
  fr_heads : ∀ q, ¬ ready_list q → queues k' !! q = None ↔ queues k !! q = None
}.

(** ** Facts about states and bits *)
Lemma stat_of_with_stat s th : 0 ≤ s < 8 → stat_of (with_stat s th) = s.
Proof.
  intros Hs. unfold stat_of, with_stat, RT_THREAD_STAT_MASK; simpl.
  unfold wrapU. change 7 with (Z.ones 3). rewrite <-(Z.land_ones _ 8) by lia.
  rewrite <-Z.land_assoc. change (Z.land (Z.ones 8) (Z.ones 3)) with (Z.ones 3).
  rewrite Z.land_lor_distr_l, <-Z.land_assoc, (Z.land_comm (Z.lnot _)), Z.land_lnot_diag.
  rewrite Z.land_0_r, Z.lor_0_r, Z.land_ones by lia. apply Z.mod_small. lia.
Qed.

Lemma stat_of_clear_yield th : stat_of (clear_yield th) = stat_of th.
Proof.
  unfold stat_of, clear_yield, RT_THREAD_STAT_MASK; simpl. unfold wrapU.
  change 7 with (Z.ones 3). rewrite <-(Z.land_ones _ 8) by lia.
  rewrite <-!Z.land_assoc. reflexivity.
Qed.

Lemma core_with_stat s th :
  s = RT_THREAD_READY ∨ s = RT_THREAD_RUNNING →
  stat_of th = RT_THREAD_READY ∨ stat_of th = RT_THREAD_RUNNING →
  thread_core (with_stat s th) = thread_core th.
Proof.
  intros Hs Hth.
  assert (stat_class (with_stat s th) = stat_class th) as Hc.
  { unfold stat_class. destruct Hs as [-> | ->], Hth as [-> | ->];
      by rewrite stat_of_with_stat. }
  unfold thread_core. by rewrite Hc.
Qed.
Lemma core_clear_yield th : thread_core (clear_yield th) = thread_core th.
Proof.
  assert (stat_class (clear_yield th) = stat_class th) as Hc.
  { unfold stat_class. by rewrite stat_of_clear_yield. }
  unfold thread_core. by rewrite Hc.
Qed.

Lemma thread_ok_same th th' :
  th <| stat := 0 |> = th' <| stat := 0 |> → thread_ok th → thread_ok th'.
Proof.
  intros H [Hp Hm Hs Ht].
  pose proof (f_equal current_priority H) as E1. pose proof (f_equal number_mask H) as E2.
  pose proof (f_equal stack_mark H) as E3. pose proof (f_equal stack_addr H) as E4.
  pose proof (f_equal sp H) as E5. pose proof (f_equal stack_size H) as E6.
  pose proof (f_equal th_parent H) as E7. simpl in *. clear H.
  constructor; unfold stack_ok in *; rewrite <-?E1, <-?E2, <-?E3, <-?E4, <-?E5, <-?E6, <-?E7; done.
Qed.

#[global] Instance sched_frame_refl : Reflexive sched_frame.
Proof. by constructor. Qed.
#[global] Instance sched_frame_trans : Transitive sched_frame.
Proof.
  intros k1 k2 k3 [H1 H2 H3 H7] [H4 H5 H6 H8]. constructor; [congruence|congruence| |].
  - intros q Hq. by rewrite H6, H3.
  - intros q Hq. by rewrite H8, H7.
Qed.

Lemma core_insert (ths : gmap addr rt_thread) t th th' :
  ths !! t = Some th → thread_core th' = thread_core th →
  thread_core <$> <[t := th']> ths = thread_core <$> ths.
Proof.
  intros Ht Hc. rewrite fmap_insert, Hc. apply insert_id. by rewrite lookup_fmap, Ht.
Qed.

Lemma qof_remove t qs q : qof (remove_from_queues t qs) q = filter (.≠ t) (qof qs q).
Proof. unfold remove_from_queues. rewrite lookup_fmap. by destruct (qs !! q). Qed.

Lemma qof_insert_eq (qs : gmap qid (list addr)) q l : qof (<[q := l]> qs) q = l.
Proof. by rewrite lookup_insert_eq. Qed.
Lemma qof_insert_ne (qs : gmap qid (list addr)) q q' l : q ≠ q' → qof (<[q := l]> qs) q' = qof qs q'.
Proof. intros. by rewrite lookup_insert_ne. Qed.

Lemma testbit_lor_pow2 g p n :
  0 ≤ p → Z.testbit (Z.lor g (2 ^ p)) n = Z.testbit g n || bool_decide (n = p).
Proof.
  intros Hp. rewrite Z.lor_spec. f_equal. destruct (decide (n = p)) as [->|].
  - rewrite Z.pow2_bits_true by lia. symmetry. by apply bool_decide_eq_true.
  - rewrite Z.pow2_bits_false by lia. symmetry. by apply bool_decide_eq_false.
Qed.

Lemma testbit_clear_pow2 g p n :
  0 ≤ p < 32 → 0 ≤ n < 32 →
  Z.testbit (Z.land g (notU 32 (2 ^ p))) n = Z.testbit g n && negb (bool_decide (n = p)).
Proof.
  intros Hp Hn. rewrite Z.land_spec. f_equal. unfold notU, wrapU.
  rewrite Z.mod_pow2_bits_low, Z.lnot_spec by lia. f_equal.
  destruct (decide (n = p)) as [->|].
  - rewrite Z.pow2_bits_true by lia. symmetry. by apply bool_decide_eq_true.
  - rewrite Z.pow2_bits_false by lia. symmetry. by apply bool_decide_eq_false.
Qed.

Lemma lor_pow2_range g p : 0 ≤ g < 2 ^ 32 → 0 ≤ p < 32 → 0 ≤ Z.lor g (2 ^ p) < 2 ^ 32.
Proof.
  intros Hg Hp. split; [apply Z.lor_nonneg; lia|].
  rewrite <-(Z.mod_small g (2 ^ 32)) by done.
  assert (2 ^ p < 2 ^ 32) by (apply Z.pow_lt_mono_r; lia).
  rewrite <-(Z.mod_small (2 ^ p) (2 ^ 32)) by lia.
  rewrite <-!Z.land_ones, <-Z.land_lor_distr_l, Z.land_ones by lia.
  apply Z.mod_pos_bound. lia.
Qed.

Lemma land_range g m : 0 ≤ g < 2 ^ 32 → 0 ≤ Z.land g (notU 32 m) < 2 ^ 32.
Proof.
  intros Hg. pose proof (wrapU_range 32 (Z.lnot m)).
  assert (0 ≤ notU 32 m < 2 ^ 32) as Hm by (apply wrapU_range; lia).
  split; [apply Z.land_nonneg; lia|].
  rewrite <-(Z.mod_small g (2 ^ 32)) by done.
  rewrite <-Z.land_ones, <-Z.land_assoc, (Z.land_comm (Z.ones 32)), Z.land_assoc, Z.land_ones by lia.
  apply Z.mod_pos_bound. lia.
Qed.

(** ** Bookkeeping steps on the invariant *)
Section Books.
Context (ths : gmap addr rt_thread) (qs : gmap qid (list addr)) (g : Z) (c : addr).

Lemma queued_stat x t q :
  SchedInv x ths qs g c → t ∈ qof qs q → x ≠ Some t ∧
  ∃ th, ths !! t = Some th ∧
    match q with
    | QReady p => stat_of th = RT_THREAD_READY ∧ current_priority th = p
    | QDefunct => stat_of th = RT_THREAD_CLOSE
    | _ => stat_of th = RT_THREAD_SUSPEND
    end.
Proof.
  intros H Ht. assert (x ≠ Some t) as Hx by (intros ->; by eapply si_out in Ht).
  split; [done|]. destruct q as [p| |o|o].
  - by apply (si_ready _ _ _ _ _ H).
  - by apply (si_defunct _ _ _ _ _ H).
  - by apply (si_waiting _ _ _ _ _ H) in Ht.
  - by apply (si_waiting _ _ _ _ _ H) in Ht.
Qed.

Lemma inv_remove x t th :
  SchedInv x ths qs g c → (x = None ∨ x = Some t) → ths !! t = Some th →
  0 ≤ current_priority th < RT_THREAD_PRIORITY_MAX →
  number_mask th = 2 ^ current_priority th →
  SchedInv (Some t) ths (remove_from_queues t qs)
    (if decide (qof (remove_from_queues t qs) (QReady (current_priority th)) = [])
     then Z.land g (notU 32 (number_mask th)) else g) c.
Proof.
  intros H Hx Ht Hp Hm. unfold RT_THREAD_PRIORITY_MAX in *.
  assert (∀ q, t ∉ qof (remove_from_queues t qs) q) as Hout.
  { intros q. rewrite qof_remove, list_elem_of_filter. naive_solver. }
  assert (∀ t' q, t' ∈ qof (remove_from_queues t qs) q → t' ≠ t ∧ t' ∈ qof qs q) as Hin.
  { intros t' q. rewrite qof_remove, list_elem_of_filter. naive_solver. }
  constructor.
  - intros ? q [= <-]. apply Hout.
  - case_decide; [apply land_range|]; apply H.
  - intros p Hp'. destruct (decide (p = current_priority th)) as [->|Hne].
    + destruct (decide (qof (remove_from_queues t qs) (QReady (current_priority th)) = []))
        as [He|He].
      * rewrite Hm, testbit_clear_pow2 by done. rewrite bool_decide_true by done.
        rewrite andb_false_r. naive_solver.
      * rewrite (si_group _ _ _ _ _ H) by done. split; [by intros _|]. intros _ Hnil.
        apply He. by rewrite qof_remove, Hnil.
    + assert (t ∉ qof qs (QReady p)) as Hnp.
      { intros Hq. destruct (queued_stat _ _ _ H Hq) as (_ & th' & ? & _ & ?). congruence. }
      rewrite (qof_remove _ _ (QReady p)), list_filter_ne_id by done.
      rewrite <-(si_group _ _ _ _ _ H) by done. case_decide; [|done].
      rewrite Hm, testbit_clear_pow2 by done. rewrite bool_decide_false by done.
      by rewrite andb_true_r.
  - intros t' p Hne. rewrite qof_remove, list_elem_of_filter.
    rewrite (si_ready _ _ _ _ _ H) by naive_solver. naive_solver.
  - intros t' q Hq Ht'. apply Hin in Ht' as [_ Ht']. by eapply si_waiting.
  - intros t' Ht'. apply Hin in Ht' as [_ Ht']. by eapply si_defunct.
  - intros q. rewrite qof_remove. apply NoDup_filter, H.
  - intros q1 q2 t' H1 H2. apply Hin in H1 as [_ H1], H2 as [_ H2]. by eapply si_disjoint.
  - intros t' th' Hne. apply H. naive_solver.
  - intros t' th' Hne. apply H. naive_solver.
  - apply H.
Qed.

(** Unlinking a thread that is not ready leaves the bitmap right. *)
Lemma inv_dequeue t th :
  SchedInv None ths qs g c → ths !! t = Some th → stat_of th ≠ RT_THREAD_READY →
  SchedInv (Some t) ths (remove_from_queues t qs) g c.
Proof.
  intros H Ht Hs.
  assert (∀ t' q, t' ∈ qof (remove_from_queues t qs) q ↔ t' ≠ t ∧ t' ∈ qof qs q) as Hin.
  { intros t' q. by rewrite qof_remove, list_elem_of_filter. }
  constructor.
  - intros ? q [= <-] [? _]%Hin. done.
  - apply H.
  - intros p Hp. rewrite qof_remove, list_filter_ne_id; [by apply H|]. intros Hq.
    destruct (queued_stat _ _ _ H Hq) as (_ & th' & ? & ? & _). congruence.
  - intros t' p Hne. rewrite Hin, (si_ready _ _ _ _ _ H) by done. naive_solver.
  - intros t' q Hq [_ Ht']%Hin. by eapply si_waiting.
  - intros t' [_ Ht']%Hin. by eapply si_defunct.
  - intros q. rewrite qof_remove. apply NoDup_filter, H.
  - intros q1 q2 t' [_ H1]%Hin [_ H2]%Hin. by eapply si_disjoint.
  - intros t' th' _. by apply H.
  - intros t' th' _. by apply H.
  - apply H.
Qed.

(** The thread that is out of the books may change in any way. *)
Lemma inv_update t th :
  SchedInv (Some t) ths qs g c → t ≠ RT_NULL → SchedInv (Some t) (<[t := th]> ths) qs g c.
Proof.
  intros H Hnull. assert (∀ q t', t' ∈ qof qs q → t' ≠ t) as Hne.
  { intros q t' Hq ->. by eapply si_out in Hq. }
  constructor; try apply H.
  - intros t' p ?. rewrite lookup_insert_ne by congruence. by apply H.
  - intros t' q Hq Ht'. rewrite lookup_insert_ne by (symmetry; eauto). by eapply si_waiting.
  - intros t' Ht'. rewrite lookup_insert_ne by (symmetry; eauto). by eapply si_defunct.
  - intros t' th' ?. rewrite lookup_insert_ne by congruence. by apply H.
  - intros t' th' ?. rewrite lookup_insert_ne by congruence. by apply H.
  - rewrite lookup_insert_ne by done. apply H.
Qed.

(** Taking out a thread that is in no list. *)
Lemma inv_out t : SchedInv None ths qs g c → (∀ q, t ∉ qof qs q) → SchedInv (Some t) ths qs g c.
Proof.
  intros H Ht. constructor; try apply H; try done.
  - intros ? q [= <-]. apply Ht.
  - intros t' p _. by apply (si_ready _ _ _ _ _ H).
  - intros t' th _. by apply (si_ok _ _ _ _ _ H).
  - intros t' th _. by apply (si_running _ _ _ _ _ H).
Qed.

(** Putting a thread back that belongs in no ready list. *)
Lemma inv_back t th :
  SchedInv (Some t) ths qs g c → ths !! t = Some th → stat_of th ≠ RT_THREAD_READY →
  (live th → thread_ok th) → (stat_of th = RT_THREAD_RUNNING → t = c) →
  SchedInv None ths qs g c.
Proof.
  intros H Ht Hr Hok Hrun. constructor; try apply H; try done.
  - intros t' p _. destruct (decide (t' = t)) as [->|].
    + split; [intros Hq; by eapply si_out in Hq|]. intros (th' & ? & ? & _). congruence.
    + apply H. congruence.
  - intros t' th' _ Ht' Hl. destruct (decide (t' = t)) as [->|].
    + rewrite Ht in Ht'. injection Ht' as <-. auto.
    + eapply si_ok; [done| |done|done]. congruence.
  - intros t' th' _ Ht' Hl. destruct (decide (t' = t)) as [->|].
    + rewrite Ht in Ht'. injection Ht' as <-. auto.
    + eapply si_running; [done| |done|done]. congruence.
Qed.

(** Linking the thread at the tail of its ready list. *)
Lemma inv_ready t th :
  SchedInv (Some t) ths qs g c → ths !! t = Some th → stat_of th = RT_THREAD_READY →
  thread_ok th →
  SchedInv None ths
    (<[QReady (current_priority th) := qof qs (QReady (current_priority th)) ++ [t]]> qs)
    (Z.lor g (number_mask th)) c.
Proof.
  intros H Ht Hs Hok. destruct Hok as [Hp Hm Hst Hty].
  set (p0 := current_priority th) in *.
  assert (∀ t' q, t' ∈ qof (<[QReady p0 := qof qs (QReady p0) ++ [t]]> qs) q ↔
            t' ∈ qof qs q ∨ t' = t ∧ q = QReady p0) as Hin.
  { intros t' q. destruct (decide (q = QReady p0)) as [->|].
    - rewrite qof_insert_eq, elem_of_app, list_elem_of_singleton. naive_solver.
    - rewrite qof_insert_ne by done. naive_solver. }
  assert (∀ q, t ∉ qof qs q) as Hout by (intros q; by eapply si_out).
  constructor; try apply H; try done.
  - rewrite Hm. apply lor_pow2_range; [apply H|done].
  - intros p Hp'. rewrite Hm, testbit_lor_pow2 by (unfold p0; lia).
    destruct (decide (p = p0)) as [->|].
    + rewrite qof_insert_eq, bool_decide_true, orb_true_r by done.
      split; [|done]. intros _ Hnil. by apply app_eq_nil in Hnil as [_ ?].
    + rewrite qof_insert_ne by congruence. rewrite bool_decide_false, orb_false_r by done.
      by apply H.
  - intros t' p _. rewrite Hin. destruct (decide (t' = t)) as [->|].
    + split; [|naive_solver].
      intros [Hq|[_ [= ->]]]; [by apply Hout in Hq|naive_solver].
    + rewrite (si_ready _ _ _ _ _ H) by congruence. naive_solver.
  - intros t' q Hq [Ht'|[-> ->]]%Hin; [by eapply si_waiting|done].
  - intros t' [Ht'|[-> ?]]%Hin; [by eapply si_defunct|done].
  - intros q. destruct (decide (q = QReady p0)) as [->|].
    + rewrite qof_insert_eq. apply NoDup_app. split_and!; [apply H| |apply NoDup_singleton].
      intros t' Hq ->%list_elem_of_singleton. by apply Hout in Hq.
    + rewrite qof_insert_ne by done. apply H.
  - intros q1 q2 t' [H1|[H1 ->]]%Hin [H2|[H2 ->]]%Hin; subst; try done.
    + by eapply si_disjoint.
    + by apply Hout in H1.
    + by apply Hout in H2.
  - intros t' th' _ Ht' Hl. destruct (decide (t' = t)) as [->|].
    + rewrite Ht in Ht'. injection Ht' as <-. by constructor.
    + eapply si_ok; [done| |done|done]. congruence.
  - intros t' th' _ Ht' Hl. destruct (decide (t' = t)) as [->|].
    + rewrite Ht in Ht'. injection Ht' as <-. by rewrite Hs in Hl.
    + eapply si_running; [done| |done|done]. congruence.
Qed.

(** Linking a suspended thread that is in no list into a wait list. *)
Lemma inv_wait t th q l1 l2 :
  SchedInv None ths qs g c → ths !! t = Some th → stat_of th = RT_THREAD_SUSPEND →
  (∀ q, t ∉ qof qs q) → waiting q → qof qs q = l1 ++ l2 →
  SchedInv None ths (<[q := l1 ++ t :: l2]> qs) g c.
Proof.
  intros H Ht Hs Hout Hw Hq.
  assert (∀ t' q', t' ∈ qof (<[q := l1 ++ t :: l2]> qs) q' ↔
            t' ∈ qof qs q' ∨ t' = t ∧ q' = q) as Hin.
  { intros t' q'. destruct (decide (q' = q)) as [->|].
    - rewrite qof_insert_eq, Hq, !elem_of_app, elem_of_cons. naive_solver.
    - rewrite qof_insert_ne by done. naive_solver. }
  assert (∀ p, qof (<[q := l1 ++ t :: l2]> qs) (QReady p) = qof qs (QReady p)) as Hr.
  { intros p. apply qof_insert_ne. by intros ->. }
  constructor; try apply H; try done.
  - intros p Hp. rewrite Hr. by apply H.
  - intros t' p _. rewrite Hr. by apply H.
  - intros t' q' Hw' [Ht'|[-> ->]]%Hin; [by eapply si_waiting|eauto].
  - intros t' [Ht'|[-> <-]]%Hin; [by eapply si_defunct|done].
  - intros q'. destruct (decide (q' = q)) as [->|].
    + rewrite qof_insert_eq. pose proof (si_nodup _ _ _ _ _ H q) as Hn. rewrite Hq in Hn.
      specialize (Hout q). rewrite Hq in Hout. by apply NoDup_middle.
    + rewrite qof_insert_ne by done. apply H.
  - intros q1 q2 t' [H1|[H1 ->]]%Hin [H2|[H2 ->]]%Hin; subst; try done.
    + by eapply si_disjoint.
    + by apply Hout in H1.
    + by apply Hout in H2.
Qed.

(** Changing fields the invariant does not read. *)
Lemma inv_fields t th th' :
  SchedInv None ths qs g c → ths !! t = Some th → stat_of th' = stat_of th →
  (thread_ok th → thread_ok th') → current_priority th' = current_priority th →
  SchedInv None (<[t := th']> ths) qs g c.
Proof.
  intros H Ht Hs Hok Hp.
  assert (∀ t1 (P : rt_thread → Prop), (P th ↔ P th') →
    (∃ th1, <[t := th']> ths !! t1 = Some th1 ∧ P th1) ↔ (∃ th1, ths !! t1 = Some th1 ∧ P th1))
    as Hex.
  { intros t1 P HP. destruct (decide (t1 = t)) as [->|].
    - rewrite lookup_insert_eq, Ht. naive_solver.
    - by rewrite lookup_insert_ne. }
  constructor; try apply H; try done.
  - intros t1 p _. rewrite Hex by (by rewrite Hs, Hp). by apply H.
  - intros t1 q Hw Hq. rewrite Hex by (by rewrite Hs). by eapply si_waiting.
  - intros t1 Hq. rewrite Hex by (by rewrite Hs). by eapply si_defunct.
  - intros t1 th1 _ Ht1 Hl. destruct (decide (t1 = t)) as [->|].
    + rewrite lookup_insert_eq in Ht1. injection Ht1 as <-. apply Hok.
      eapply si_ok; [done|done|done|]. unfold live in *. by rewrite <-Hs.
    + rewrite lookup_insert_ne in Ht1 by done. by eapply si_ok.
  - intros t1 th1 _ Ht1 Hl. destruct (decide (t1 = t)) as [->|].
    + rewrite lookup_insert_eq in Ht1. injection Ht1 as <-.
      eapply si_running; [done|done|done|]. by rewrite <-Hs.
    + rewrite lookup_insert_ne in Ht1 by done. by eapply si_running.
  - rewrite lookup_insert_ne; [apply H|]. intros ->. by rewrite (si_null _ _ _ _ _ H) in Ht.
Qed.
End Books.

(** ** What the operations do *)

Definition removed (t : addr) (th : rt_thread) (k : kernel) : kernel :=
  k <| queues := remove_from_queues t (queues k) |>
    <| rt_thread_ready_priority_group :=
         if decide (qof (remove_from_queues t (queues k)) (QReady (current_priority th)) = [])
         then Z.land (rt_thread_ready_priority_group k) (notU 32 (number_mask th))
         else rt_thread_ready_priority_group k |>.

Lemma remove_thread_eq t th k :
  t ≠ RT_NULL → threads k !! t = Some th →
  rt_schedule_remove_thread t k = Ok (tt, removed t th k).
Proof.
  intros Hnull Ht. apply wp_exact. unfold rt_schedule_remove_thread, removed. ksteps.
  unfold queue. destruct k. apply wp_when; intros Hq; ksteps; simpl in Hq.
  - split; [done|]. simpl. by rewrite decide_True.
  - split; [done|]. simpl. by rewrite decide_False.
Qed.

Definition made_ready (t : addr) (th : rt_thread) (k : kernel) : kernel :=
  k <| threads := <[t := with_stat RT_THREAD_READY th]> (threads k) |>
    <| queues := <[QReady (current_priority th) :=
                     queue k (QReady (current_priority th)) ++ [t]]> (queues k) |>
    <| rt_thread_ready_priority_group :=
         Z.lor (rt_thread_ready_priority_group k) (number_mask th) |>.

Lemma insert_thread_eq t th k :
  t ≠ RT_NULL → threads k !! t = Some th → t ≠ rt_current_thread k →
  (∀ q, t ∉ qof (queues k) q) →
  rt_schedule_insert_thread t k = Ok (tt, made_ready t th k).
Proof.
  intros Hnull Ht Hc Hq. apply wp_exact. unfold rt_schedule_insert_thread. ksteps.
  wp_if as Hcur; [by destruct Hc|]. ksteps. by destruct k.
Qed.

Lemma insert_thread_current_eq th k :
  rt_current_thread k ≠ RT_NULL → threads k !! rt_current_thread k = Some th →
  rt_schedule_insert_thread (rt_current_thread k) k =
  Ok (tt, k <| threads := <[rt_current_thread k := with_stat RT_THREAD_RUNNING th]> (threads k) |>).
Proof.
  intros Hnull Ht. apply wp_exact. unfold rt_schedule_insert_thread. ksteps.
  wp_if as Hcur; [|by destruct Hcur]. ksteps. by destruct k.
Qed.

(** *** The highest ready priority *)
Lemma ffs_from_spec n i v :
  0 ≤ i →
  (ffs_from n i v = 0 ∧ ∀ j, i ≤ j < i + Z.of_nat n → Z.testbit v j = false) ∨
  (i < ffs_from n i v ≤ i + Z.of_nat n ∧ Z.testbit v (ffs_from n i v - 1) = true ∧
   ∀ j, i ≤ j < ffs_from n i v - 1 → Z.testbit v j = false).
Proof.
  revert i. induction n as [|n IH]; intros i Hi; simpl; [left; split; [done|lia]|].
  destruct (Z.testbit v i) eqn:Hb.
  - right. replace (i + 1 - 1) with i by lia. split_and!; [lia|lia|done|lia].
  - destruct (IH (i + 1)) as [[-> Hz]|(Hr & Ht & Hz)]; [lia|left|right].
    + split; [done|]. intros j Hj. destruct (decide (j = i)) as [->|]; [done|]. apply Hz. lia.
    + split_and!; [lia|lia|done|]. intros j Hj.
      destruct (decide (j = i)) as [->|]; [done|]. apply Hz. lia.
Qed.

Lemma bits_zero v : 0 ≤ v < 2 ^ 32 → (∀ j, 0 ≤ j < 32 → Z.testbit v j = false) → v = 0.
Proof.
  intros Hv H. apply Z.bits_inj_0. intros j. destruct (decide (j < 0)); [by apply Z.testbit_neg_r|].
  destruct (decide (j < 32)); [apply H; lia|].
  rewrite <-(Z.mod_small v (2 ^ 32)) by done. apply Z.mod_pow2_bits_high. lia.
Qed.

(** [t] is the first thread of the best non-empty ready list, [p]. *)
Definition best_ready (k : kernel) (t : addr) (p : Z) : Prop :=
  0 ≤ p < RT_THREAD_PRIORITY_MAX ∧ head (queue k (QReady p)) = Some t ∧
  ∀ p', 0 ≤ p' < p → queue k (QReady p') = [].

Lemma highest_spec x k :
  sched_inv x k → rt_thread_ready_priority_group k ≠ 0 →
  ∃ t p, _get_highest_priority_thread k = Ok ((t, p), k) ∧ best_ready k t p.
Proof.
  intros H Hg. pose proof (si_group_range _ _ _ _ _ H) as Hr.
  destruct (ffs_from_spec 32 0 (rt_thread_ready_priority_group k)) as [[_ Hz]|(Hf & Hb & Hz)];
    [done|by destruct Hg; apply bits_zero|].
  set (p := __rt_ffs (rt_thread_ready_priority_group k) - 1).
  assert (0 ≤ p < RT_THREAD_PRIORITY_MAX) as Hp.
  { unfold p, __rt_ffs, RT_THREAD_PRIORITY_MAX. lia. }
  assert (queue k (QReady p) ≠ []) as Hne by by apply (si_group _ _ _ _ _ H).
  destruct (queue k (QReady p)) as [|t l] eqn:Hq; [done|].
  exists t, p. split.
  - apply wp_exact. unfold _get_highest_priority_thread. wp_steps.
    eapply wp_of_option; [unfold id; fold p; by rewrite Hq|]. by wp_steps.
  - split; [done|]. split; [by rewrite Hq|]. intros p' Hp'.
    destruct (queue k (QReady p')) eqn:Hq'; [done|].
    assert (Z.testbit (rt_thread_ready_priority_group k) p' = true) as Ht.
    { apply (si_group _ _ _ _ _ H); [lia|]. fold (queue k (QReady p')). by rewrite Hq'. }
    rewrite Hz in Ht; [done|]. unfold p, __rt_ffs in Hp'. lia.
Qed.

(** *** [rt_schedule] *)

(** A thread that is running, or is the processor's thread, is in no list
    unless it was closed. *)
Lemma running_unlinked x k t th q :
  sched_inv x k → threads k !! t = Some th → stat_of th = RT_THREAD_RUNNING →
  t ∉ qof (queues k) q.
Proof.
  intros H Ht Hs Hq. destruct (queued_stat _ _ _ _ _ _ _ H Hq) as (_ & th' & Ht' & Hst).
  rewrite Ht in Ht'. injection Ht' as <-. rewrite Hs in Hst. by destruct q; naive_solver.
Qed.

Lemma best_in_queue k t p : best_ready k t p → t ∈ queue k (QReady p).
Proof.
  intros (_ & Hh & _). destruct (queue k (QReady p)); [done|]. simpl in Hh.
  injection Hh as ->. left.
Qed.

Lemma best_thread x k t p :
  sched_inv x k → best_ready k t p →
  ∃ th, threads k !! t = Some th ∧ stat_of th = RT_THREAD_READY ∧ current_priority th = p
        ∧ t ≠ RT_NULL ∧ thread_ok th.
Proof.
  intros H Hb. destruct (queued_stat _ _ _ _ _ _ _ H (best_in_queue _ _ _ Hb))
    as (Hx & th & Ht & Hs & Hp).
  exists th. split_and!; try done.
  - intros ->. by rewrite (si_null _ _ _ _ _ H) in Ht.
  - eapply si_ok; [done|done|done|]. by left.
Qed.

Lemma inv_current x ths qs g c c' :
  SchedInv x ths qs g c →
  (x ≠ Some c → ∀ th, ths !! c = Some th → stat_of th ≠ RT_THREAD_RUNNING) →
  SchedInv x ths qs g c'.
Proof.
  intros H Hc. constructor; try apply H.
  intros t th Hx Ht Hs. pose proof (si_running _ _ _ _ _ H _ _ Hx Ht Hs) as ->.
  by destruct (Hc Hx th).
Qed.

Definition dispatched (t : addr) (th : rt_thread) (k : kernel) : kernel :=
  removed t th k <| threads := <[t := with_stat RT_THREAD_RUNNING th]> (threads k) |>.

Lemma dispatched_inv k t th :
  sched_inv None k → threads k !! t = Some th → thread_ok th → rt_current_thread k = t →
  sched_inv None (dispatched t th k).
Proof.
  intros H Ht Hok Hc. unfold dispatched, removed. ksimpl.
  assert (t ≠ RT_NULL) by (intros ->; by rewrite (si_null _ _ _ _ _ H) in Ht).
  eapply inv_back; [apply inv_update; [eapply inv_remove; [done|by left|done|apply Hok|apply Hok]|done]
    |apply lookup_insert_eq| |intros _|done].
  - by rewrite stat_of_with_stat.
  - eapply thread_ok_same; [|exact Hok]. done.
Qed.

Lemma qof_remove_id t qs q : t ∉ qof qs q → qof (remove_from_queues t qs) q = qof qs q.
Proof. intros. by rewrite qof_remove, list_filter_ne_id. Qed.

Lemma dispatched_frame k t th :
  sched_inv None k → threads k !! t = Some th →
  stat_of th = RT_THREAD_READY ∨ stat_of th = RT_THREAD_RUNNING →
  sched_frame k (dispatched t th k).
Proof.
  intros H Ht Hs. constructor.
  - by destruct k.
  - apply core_insert with th; [done|]. apply core_with_stat; auto.
  - intros q Hq. apply qof_remove_id. intros Hin.
    destruct (queued_stat _ _ _ _ _ _ _ H Hin) as (_ & th' & Ht' & Hst).
    rewrite Ht in Ht'. injection Ht' as <-.
    destruct q; [done| | |]; rewrite Hst in Hs; by destruct Hs.
  - intros q Hq. unfold dispatched, removed. ksimpl. unfold remove_from_queues. by rewrite lookup_fmap, fmap_None.
Qed.

(** The thread that runs next: the current one keeps the processor when it is
    running and strictly better than every ready thread, or as good as the
    best one and not yielding. *)
Definition keeps (th : rt_thread) (p : Z) : Prop :=
  stat_of th = RT_THREAD_RUNNING ∧
  (current_priority th < p ∨ current_priority th = p ∧ yields th = false).
#[global] Instance keeps_dec th p : Decision (keeps th p).
Proof. unfold keeps. apply _. Defined.

Lemma choose_keep cur th best p : keeps th p → choose_next cur th best p = (cur, false).
Proof.
  intros [Hs Hk]. unfold choose_next. rewrite decide_True by done.
  destruct Hk as [?|[? ?]]; [by rewrite decide_True|].
  rewrite decide_False by lia. by rewrite decide_True.
Qed.
Lemma choose_switch cur th best p :
  ¬ keeps th p →
  choose_next cur th best p = (best, bool_decide (stat_of th = RT_THREAD_RUNNING)).
Proof.
  intros Hk. unfold choose_next, keeps in *.
  destruct (decide (stat_of th = RT_THREAD_RUNNING)) as [Hs|Hs].
  - rewrite bool_decide_true by done. rewrite decide_False by tauto.
    by rewrite decide_False by tauto.
  - by rewrite bool_decide_false by done.
Qed.

Lemma stack_check_ok t th k Q :
  t ≠ RT_NULL → threads k !! t = Some th → stack_ok th → Q tt k →
  wp (_rt_scheduler_stack_check t) k Q.
Proof.
  intros Hn Ht Hs HQ. unfold _rt_scheduler_stack_check. ksteps. by rewrite decide_True.
Qed.

(** The state after a scheduling decision in favour of [best]. *)
Definition preempted (cur : addr) (th : rt_thread) (best : addr) (p : Z) (k : kernel) : kernel :=
  let k1 := k <| rt_current_priority := u8 p |> <| rt_current_thread := best |> in
  if decide (stat_of th = RT_THREAD_RUNNING) then
    made_ready cur (clear_yield th)
      (k1 <| threads := <[cur := clear_yield th]> (threads k) |>)
  else k1.

Lemma rt_schedule_eq k cur th :
  sched_inv None k → cur = rt_current_thread k → threads k !! cur = Some th →
  stat_of th ≠ RT_THREAD_READY → rt_scheduler_lock_nest k = 0 →
  rt_thread_ready_priority_group k ≠ 0 →
  ∃ best p bth, best_ready k best p ∧ threads k !! best = Some bth ∧ best ≠ cur ∧
    rt_schedule k = Ok (tt,
      if decide (keeps th p) then
        dispatched cur (clear_yield th) (k <| threads := <[cur := clear_yield th]> (threads k) |>)
      else dispatched best bth (preempted cur th best p k)).
Proof.
  intros H -> Ht Hs Hl Hg. set (cur := rt_current_thread k) in *.
  pose (k <| primask := 1 |>) as k1.
  destruct (highest_spec None k1 H Hg) as (best & p & Hhigh & Hb).
  destruct (best_thread _ _ _ _ H Hb) as (bth & Hbt & Hbs & Hbp & Hbn & Hbok).
  exists best, p, bth. split; [done|]. split; [done|].
  assert (best ≠ cur) as Hne by congruence.
  assert (cur ≠ RT_NULL) as Hcn by (intros E; by rewrite E, (si_null _ _ _ _ _ H) in Ht).
  split; [done|]. apply wp_exact. unfold rt_schedule. ksteps.
  wp_if as Hd; [|by destruct Hd]. ksteps.
  eapply wp_eq; [exact Hhigh|]. ksteps. ksimpl. fold cur. ksteps.
  destruct (decide (keeps th p)) as [Hk|Hk].
  - rewrite choose_keep by done. ksteps. rewrite (decide_True _ _ (proj1 Hk)) || idtac.
    apply wp_when; [intros _|by destruct Hk]. ksteps. rewrite decide_False by naive_solver. ksteps.
    eapply wp_eq; [apply remove_thread_eq with (th := clear_yield th); [done|apply lookup_insert_eq]|].
    cbv beta. eapply wp_upd_thread; [unfold removed; ksimpl; apply lookup_insert_eq|]. ksteps.
    split; [done|]. unfold dispatched, removed. by destruct k.
  - rewrite choose_switch by done. ksteps. unfold preempted.
    destruct (decide (stat_of th = RT_THREAD_RUNNING)) as [Hr|Hr].
    + rewrite bool_decide_true by done. apply wp_when; [intros _|done]. ksteps.
      rewrite decide_True by done. ksteps. apply wp_when; [intros _|done].
      eapply wp_eq; [apply insert_thread_eq with (th := clear_yield th)|].
      * done.
      * apply lookup_insert_eq.
      * by intros E; destruct Hne.
      * ksimpl. intros q. by eapply running_unlinked.
      * ksteps. eapply wp_eq; [apply remove_thread_eq with (th := bth); [done|]|].
        { unfold made_ready; ksimpl. by rewrite !lookup_insert_ne by done. }
        ksteps. eapply wp_upd_thread.
        { unfold removed, made_ready; ksimpl. by rewrite !lookup_insert_ne by done. }
        ksteps. eapply stack_check_ok; [done|apply lookup_insert_eq|apply Hbok|]. ksteps.
        split; [done|]. by destruct k.
    + rewrite bool_decide_false by done. apply wp_when; [done|intros _]. ksteps.
      rewrite decide_True by done. ksteps. apply wp_when; [done|intros _]. ksteps.
      eapply wp_eq; [apply remove_thread_eq with (th := bth); done|].
      ksteps. eapply stack_check_ok; [done|apply lookup_insert_eq|apply Hbok|]. ksteps.
      split; [done|]. by destruct k.
Qed.

Lemma preempted_inv k cur th best p :
  sched_inv None k → cur = rt_current_thread k → threads k !! cur = Some th →
  stat_of th ≠ RT_THREAD_READY → best ≠ cur →
  sched_inv None (preempted cur th best p k).
Proof.
  intros H -> Ht Hs Hne. set (cur := rt_current_thread k) in *.
  assert (cur ≠ RT_NULL) as Hcn by (intros E; by rewrite E, (si_null _ _ _ _ _ H) in Ht).
  unfold preempted. case_decide as Hr; ksimpl.
  - assert (∀ q, cur ∉ qof (queues k) q) as Hout by (intros q; by eapply running_unlinked).
    assert (thread_ok th) as Hok by (eapply si_ok; [done|done|done|by right; right]).
    unfold made_ready. ksimpl. unfold queue. ksimpl.
    apply (inv_out _ _ _ _ cur) in H; [|done].
    eapply (inv_current _ _ _ _ _ best) in H; [|done].
    apply (inv_update _ _ _ _ cur (clear_yield th)), (inv_update _ _ _ _ cur
      (with_stat RT_THREAD_READY (clear_yield th))) in H; [|done..].
    apply (inv_ready _ _ _ _ _ (with_stat RT_THREAD_READY (clear_yield th)) H).
    + apply lookup_insert_eq.
    + by rewrite stat_of_with_stat.
    + eapply thread_ok_same; [|exact Hok]. done.
  - eapply inv_current; [done|]. intros _ th' Ht'. fold cur in Ht'. congruence.
Qed.

Lemma preempted_frame k cur th best p :
  threads k !! cur = Some th →
  sched_frame k (preempted cur th best p k).
Proof.
  intros Ht. unfold preempted. case_decide as Hr; [|by constructor].
  constructor; [done| | |].
  - unfold made_ready. ksimpl. rewrite insert_insert_eq. apply core_insert with th; [done|].
    rewrite <-(core_clear_yield th). apply core_with_stat; [by left|].
    right. by rewrite stat_of_clear_yield.
  - intros q Hq. unfold made_ready. ksimpl. apply qof_insert_ne. by intros <-.
  - intros q Hq. unfold made_ready. ksimpl. rewrite lookup_insert_ne; [done|]. by intros <-.
Qed.

(** What a call of [rt_schedule] achieves. *)
Record scheduled (k k' : kernel) : Prop := {
  sc_inv : sched_inv None k';
  sc_cur : current_ok k';
  sc_frame : sched_frame k k';
  sc_idle : rt_scheduler_lock_nest k ≠ 0 ∨ rt_thread_ready_priority_group k = 0 → k' = k;
  sc_switch : ∀ th, rt_scheduler_lock_nest k = 0 → rt_thread_ready_priority_group k ≠ 0 →
    threads k !! rt_current_thread k = Some th →
    ∃ best p, best_ready k best p ∧
      rt_current_thread k' = if decide (keeps th p) then rt_current_thread k else best
}.

Section Scheduled.
Context (k : kernel) (th : rt_thread) (best : addr) (p : Z).
Context (H : sched_inv None k) (Ht : threads k !! rt_current_thread k = Some th).
Context (Hl : rt_scheduler_lock_nest k = 0) (Hg : rt_thread_ready_priority_group k ≠ 0).
Context (Hb : best_ready k best p).

Lemma scheduled_keep :
  keeps th p →
  scheduled k (dispatched (rt_current_thread k) (clear_yield th)
    (k <| threads := <[rt_current_thread k := clear_yield th]> (threads k) |>)).
Proof.
  intros Hk. set (k1 := k <| threads := _ |>).
  assert (thread_ok th) as Hok by (eapply si_ok; [done|done|done|right; right; apply Hk]).
  assert (thread_ok (clear_yield th)) as Hok1 by by eapply thread_ok_same; [|exact Hok].
  assert (sched_inv None k1) as H1.
  { eapply inv_fields; [exact H|exact Ht|apply stat_of_clear_yield|by intros _|done]. }
  assert (threads k1 !! rt_current_thread k = Some (clear_yield th)) as Ht1
    by apply lookup_insert_eq.
  constructor; [by apply dispatched_inv| | |by intros [?|?]|].
  - eexists; split; [apply lookup_insert_eq|]. by rewrite stat_of_with_stat.
  - transitivity k1.
    + constructor; [done| |done|done]. apply core_insert with th; [done|apply core_clear_yield].
    + apply dispatched_frame; [done|done|]. right. rewrite stat_of_clear_yield. apply Hk.
  - intros th' _ _ Ht'. exists best, p. split; [done|].
    assert (th' = th) as -> by congruence. by rewrite decide_True.
Qed.

Lemma scheduled_switch bth :
  ¬ keeps th p → stat_of th ≠ RT_THREAD_READY → best ≠ rt_current_thread k →
  threads k !! best = Some bth → stat_of bth = RT_THREAD_READY → thread_ok bth →
  scheduled k (dispatched best bth (preempted (rt_current_thread k) th best p k)).
Proof.
  intros Hk Hs Hne Hbt Hbs Hbok. set (k1 := preempted _ _ _ _ _).
  assert (threads k1 !! best = Some bth) as Hbt1.
  { unfold k1, preempted, made_ready. case_decide; ksimpl; [|done].
    by rewrite !lookup_insert_ne by done. }
  assert (rt_current_thread k1 = best) as Hc1.
  { unfold k1, preempted. by case_decide. }
  assert (sched_inv None k1) as H1 by by apply preempted_inv.
  constructor; [by apply dispatched_inv| | |by intros [?|?]|].
  - exists (with_stat RT_THREAD_RUNNING bth). unfold dispatched, removed. ksimpl.
    rewrite Hc1, stat_of_with_stat by done. split; [apply lookup_insert_eq|done].
  - transitivity k1; [by apply preempted_frame|]. apply dispatched_frame; [done|done|by left].
  - intros th' _ _ Ht'. exists best, p. split; [done|].
    assert (th' = th) as -> by congruence. rewrite decide_False by done. apply Hc1.
Qed.
End Scheduled.

Lemma scheduled_refl k :
  sched_inv None k → current_ok k →
  rt_scheduler_lock_nest k ≠ 0 ∨ rt_thread_ready_priority_group k = 0 → scheduled k k.
Proof. intros H Hc Hn. constructor; try done. intros ? ? ?. by destruct Hn. Qed.

Theorem rt_schedule_spec k :
  sched_inv None k → current_ok k → wp rt_schedule k (λ _ k', scheduled k k').
Proof.
  intros H (th & Ht & Hs & Hi).
  destruct (decide (rt_scheduler_lock_nest k = 0 ∧ rt_thread_ready_priority_group k ≠ 0))
    as [[Hl Hg]|Hn].
  - destruct (rt_schedule_eq k _ th H eq_refl Ht Hs Hl Hg)
      as (best & p & bth & Hb & Hbt & Hne & Heq).
    destruct (best_thread _ _ _ _ H Hb) as (bth' & Hbt' & Hbs & Hbp & Hbn & Hbok).
    assert (bth' = bth) as -> by congruence.
    eapply wp_eq; [exact Heq|]. case_decide.
    + by apply (scheduled_keep _ _ best p).
    + by apply scheduled_switch.
  - apply wp_eq with (a := tt) (s' := k).
    + apply wp_exact. unfold rt_schedule. ksteps. wp_if as Hd; [by destruct Hn|].
      ksteps. by destruct k.
    + apply scheduled_refl; [done|by exists th|].
      destruct (decide (rt_scheduler_lock_nest k = 0)); [|by left].
      right. destruct (decide (rt_thread_ready_priority_group k = 0)); [done|]. by destruct Hn.
Qed.
