(* ===== verification/Object.v ===== *)
(** * Kernel objects ([src/object.c])

    The object containers, one list per class, and the operations on static
    objects.  An object's header lives in the map of its class. *)
From S2P Require Import Prelude Kernel Scheduler.

(** [rt_object_container[].type] in index order. *)
Definition rt_object_container : list Z :=
  [RT_Object_Class_Thread; RT_Object_Class_Semaphore; RT_Object_Class_Mutex;
   RT_Object_Class_Event; RT_Object_Class_MailBox; RT_Object_Class_MessageQueue;
   RT_Object_Class_MemPool; RT_Object_Class_Device; RT_Object_Class_Timer].

(** The container of a class, named by the class; [None] is [RT_NULL]. *)
Definition rt_object_get_information (type : Z) : option Z :=
  snd <$> list_find (.= type) rt_object_container.

Definition object_list (k : kernel) (type : Z) : list ref := default [] (object_lists k !! type).

(** ** Object headers *)
Definition header_at {T} (proj : T → rt_object) (m : gmap addr T) (r : ref) : option rt_object :=
  match r with Obj a => proj <$> m !! a | ThreadTimer _ => None end.
Definition object_header (k : kernel) (type : Z) (r : ref) : option rt_object :=
  if decide (type = RT_Object_Class_Thread) then header_at th_parent (threads k) r
  else if decide (type = RT_Object_Class_Timer) then tm_parent <$> timers k !! r
  else if decide (type = RT_Object_Class_Semaphore) then header_at sem_parent (semaphores k) r
  else if decide (type = RT_Object_Class_Mutex) then header_at mutex_parent (mutexes k) r
  else if decide (type = RT_Object_Class_Event) then header_at event_parent (events k) r
  else if decide (type = RT_Object_Class_MailBox) then header_at mb_parent (mailboxes k) r
  else if decide (type = RT_Object_Class_MessageQueue) then header_at mq_parent (mqueues k) r
  else if decide (type = RT_Object_Class_MemPool) then header_at mp_parent (mempools k) r
  else if decide (type = RT_Object_Class_Device) then header_at dev_parent (devices k) r
  else None.

Definition alter_at {T} (f : T → T) (r : ref) (m : gmap addr T) : gmap addr T :=
  match r with Obj a => alter f a m | ThreadTimer _ => m end.
Definition set_header (type : Z) (r : ref) (o : rt_object) (k : kernel) : kernel :=
  if decide (type = RT_Object_Class_Thread) then
    k <| threads := alter_at (λ x, x <| th_parent := o |>) r (threads k) |>
  else if decide (type = RT_Object_Class_Timer) then
    k <| timers := alter (λ x, x <| tm_parent := o |>) r (timers k) |>
  else if decide (type = RT_Object_Class_Semaphore) then
    k <| semaphores := alter_at (λ x, x <| sem_parent := o |>) r (semaphores k) |>
  else if decide (type = RT_Object_Class_Mutex) then
    k <| mutexes := alter_at (λ x, x <| mutex_parent := o |>) r (mutexes k) |>
  else if decide (type = RT_Object_Class_Event) then
    k <| events := alter_at (λ x, x <| event_parent := o |>) r (events k) |>
  else if decide (type = RT_Object_Class_MailBox) then
    k <| mailboxes := alter_at (λ x, x <| mb_parent := o |>) r (mailboxes k) |>
  else if decide (type = RT_Object_Class_MessageQueue) then
    k <| mqueues := alter_at (λ x, x <| mq_parent := o |>) r (mqueues k) |>
  else if decide (type = RT_Object_Class_MemPool) then
    k <| mempools := alter_at (λ x, x <| mp_parent := o |>) r (mempools k) |>
  else k <| devices := alter_at (λ x, x <| dev_parent := o |>) r (devices k) |>.

Definition upd_header (type : Z) (r : ref) (f : rt_object → rt_object) : M kernel unit :=
  o ← gets (λ k, object_header k type r);
  o ← of_option FBadPointer o;
  modify (set_header type r (f o)).

(** [rt_strncpy(object->name, name, RT_NAME_MAX)]: the first [RT_NAME_MAX]
    bytes, zero-filled after the end of the string. *)
Definition object_name (name : list Z) : list Z :=
  take 8 (take 8 name ++ replicate 8 0).

(** ** Operations *)

(** The container list is scanned with the scheduler locked. *)
Definition rt_object_init (r : ref) (type : Z) (name : list Z) : M kernel unit :=
  cls ← gets (λ _, rt_object_get_information type);
  RT_ASSERT (cls ≠ None);;
  rt_enter_critical;;
  k ← gets id;
  RT_ASSERT (r ∉ object_list k type);;
  rt_exit_critical;;
  upd_header type r (λ o, mkObject (object_name name) (u8 (Z.lor type RT_Object_Class_Static)) (obj_flag o));;
  temp ← rt_hw_interrupt_disable;
  modify (λ k, k <| object_lists := <[type := r :: object_list k type]> (object_lists k) |>);;
  rt_hw_interrupt_enable temp.

Definition remove_from_objects (r : ref) (ls : gmap Z (list ref)) : gmap Z (list ref) :=
  filter (.≠ r) <$> ls.

(** [rt_object_detach]; [type] names the class whose struct holds the object. *)
Definition rt_object_detach (type : Z) (r : ref) : M kernel unit :=
  RT_ASSERT (r ≠ Obj RT_NULL);;
  upd_header type r (λ o, o <| obj_type := 0 |>);;
  temp ← rt_hw_interrupt_disable;
  modify (λ k, k <| object_lists := remove_from_objects r (object_lists k) |>);;
  rt_hw_interrupt_enable temp.

Definition rt_object_get_length (type : Z) : M kernel Z :=
  match rt_object_get_information type with
  | None => mret 0
  | Some type =>
      level ← rt_hw_interrupt_disable;
      k ← gets id;
      rt_hw_interrupt_enable level;;
      mret (zlen (object_list k type))
  end.

(** The pointers stored and their number. *)
Definition rt_object_get_pointers (type maxlen : Z) : M kernel (list ref * Z) :=
  if decide (maxlen ≤ 0) then mret ([], 0)
  else match rt_object_get_information type with
  | None => mret ([], 0)
  | Some type =>
      level ← rt_hw_interrupt_disable;
      k ← gets id;
      let pointers := take (Z.to_nat maxlen) (object_list k type) in
      rt_hw_interrupt_enable level;;
      mret (pointers, zlen pointers)
  end.

(** [rt_strncmp(object->name, name, RT_NAME_MAX) == 0] on a stored name. *)
Fixpoint name_match (n : nat) (stored name : list Z) : bool :=
  match n with
  | O => true
  | S n =>
      let a := hd 0 stored in let b := hd 0 name in
      if decide (a = b) then if decide (a = 0) then true else name_match n (tl stored) (tl name)
      else false
  end.

(** [RT_DEBUG_NOT_IN_INTERRUPT] *)
Definition RT_DEBUG_NOT_IN_INTERRUPT : M kernel unit :=
  nest ← gets rt_interrupt_nest; RT_ASSERT (nest = 0).

Fixpoint find_named (type : Z) (name : list Z) (l : list ref) : M kernel (option ref) :=
  match l with
  | [] => mret None
  | r :: l =>
      o ← gets (λ k, object_header k type r);
      o ← of_option FBadPointer o;
      if name_match 8 (obj_name o) name then mret (Some r) else find_named type name l
  end.
(** A null [name] is [None]. *)
Definition rt_object_find (name : option (list Z)) (type : Z) : M kernel (option ref) :=
  match name, rt_object_get_information type with
  | Some name, Some type =>
      RT_DEBUG_NOT_IN_INTERRUPT;;
      rt_enter_critical;;
      k ← gets id;
      object ← find_named type name (object_list k type);
      rt_exit_critical;;
      mret object
  | _, _ => mret None
  end.
