(* ===== verification/Timer.v ===== *)
(** * Timers ([src/timer.c], with [RT_TIMER_SKIP_LIST_LEVEL = 1])

    Everything of timer.c that does not run a callback or start a thread:
    initialisation, removal, stopping, control, the next timeout and the
    sorted insertion of [rt_timer_start].  [rt_timer_start] itself, the two
    check loops and the timer thread are in [Clock]. *)
From stdpp Require Import sorting.
From S2P Require Import Prelude Kernel Scheduler.

(** ** List primitives on [row[0]] nodes *)
Definition remove_from_tqueues (r : ref) (qs : gmap tqid (list ref)) : gmap tqid (list ref) :=
  filter (.≠ r) <$> qs.

(** [_rt_timer_remove] and [rt_list_remove(&t->row[0])]. *)
Definition _rt_timer_remove (r : ref) : M kernel unit :=
  modify (λ k, k <| timer_queues := remove_from_tqueues r (timer_queues k) |>).

Definition require_unlinked_timer (r : ref) : M kernel unit :=
  k ← gets id;
  if decide (map_Forall (λ (_ : tqid) (l : list ref), r ∉ l) (timer_queues k))
  then mret tt else fail FLinked.

Definition set_tqueue (q : tqid) (l : list ref) : M kernel unit :=
  modify (λ k, k <| timer_queues := <[q := l]> (timer_queues k) |>).

(** [rt_list_insert_after(&list, &t->row[0])] *)
Definition timer_insert_head (q : tqid) (r : ref) : M kernel unit :=
  require_unlinked_timer r;; k ← gets id; set_tqueue q (r :: tqueue k q).

(** ** Flags *)
Definition tm_flag (tm : rt_timer) : Z := obj_flag (tm_parent tm).
Definition set_flag (tm : rt_timer) (f : Z) : rt_timer :=
  tm <| tm_parent := (tm_parent tm) <| obj_flag := f |> |>.
Definition has_flag (tm : rt_timer) (bit : Z) : bool := bool_decide (Z.land (tm_flag tm) bit ≠ 0).
(** [flag &= ~bit], [flag |= bit] on the [rt_uint8_t] flag. *)
Definition flag_clear (tm : rt_timer) (bit : Z) : rt_timer :=
  set_flag tm (u8 (Z.land (tm_flag tm) (Z.lnot bit))).
Definition flag_set (tm : rt_timer) (bit : Z) : rt_timer :=
  set_flag tm (u8 (Z.lor (tm_flag tm) bit)).

(** ** Operations *)
Definition _rt_timer_init (r : ref) (timeout : timer_fn) (param time flag : Z) : M kernel unit :=
  upd_timer r (λ tm,
    (flag_clear (set_flag tm (u8 flag)) RT_TIMER_FLAG_ACTIVATED)
      <| timeout_func := timeout |> <| tm_parameter := param |>
      <| timeout_tick := 0 |> <| tm_init_tick := u32 time |>);;
  require_unlinked_timer r.

Definition rt_timer_list_next_timeout (q : tqid) : M kernel Z :=
  level ← rt_hw_interrupt_disable;
  k ← gets id;
  timeout ← match tqueue k q with
            | [] => mret RT_TICK_MAX
            | r :: _ => tm ← get_timer r; mret (timeout_tick tm)
            end;
  rt_hw_interrupt_enable level;;
  mret timeout.

Definition rt_timer_next_timeout_tick : M kernel Z := rt_timer_list_next_timeout QTimer.

Definition assert_timer (r : ref) : M kernel unit :=
  RT_ASSERT (r ≠ Obj RT_NULL);;
  tm ← get_timer r;
  RT_ASSERT (rt_object_get_type (tm_parent tm) = RT_Object_Class_Timer).

Definition rt_timer_stop (r : ref) : M kernel Z :=
  assert_timer r;;
  tm ← get_timer r;
  if has_flag tm RT_TIMER_FLAG_ACTIVATED then
    level ← rt_hw_interrupt_disable;
    _rt_timer_remove r;;
    upd_timer r (λ tm, flag_clear tm RT_TIMER_FLAG_ACTIVATED);;
    rt_hw_interrupt_enable level;;
    mret RT_EOK
  else mret (- RT_ERROR).

(** [rt_timer_control]: [arg] is the value the argument points to; the result
    is the return code and the value left there. *)
Definition rt_timer_control (r : ref) (cmd arg : Z) : M kernel (Z * Z) :=
  assert_timer r;;
  level ← rt_hw_interrupt_disable;
  tm ← get_timer r;
  out ← (if decide (cmd = RT_TIMER_CTRL_GET_TIME) then mret (tm_init_tick tm)
         else if decide (cmd = RT_TIMER_CTRL_SET_TIME) then
           put_timer r (tm <| tm_init_tick := u32 arg |>);; mret arg
         else if decide (cmd = RT_TIMER_CTRL_SET_ONESHOT) then
           put_timer r (flag_clear tm RT_TIMER_FLAG_PERIODIC);; mret arg
         else if decide (cmd = RT_TIMER_CTRL_SET_PERIODIC) then
           put_timer r (flag_set tm RT_TIMER_FLAG_PERIODIC);; mret arg
         else if decide (cmd = RT_TIMER_CTRL_GET_STATE) then
           mret (if has_flag tm RT_TIMER_FLAG_ACTIVATED then RT_TIMER_FLAG_ACTIVATED
                 else RT_TIMER_FLAG_DEACTIVATED)
         else mret arg);
  rt_hw_interrupt_enable level;;
  mret (RT_EOK, out).

(** The search of [rt_timer_start]: the new timer goes in front of the first
    one whose timeout lies strictly after its own, in the half-range order of
    the wrapping tick counter. *)
Definition later (timeout_tick' timeout_tick : Z) : bool :=
  bool_decide (u32 (timeout_tick' - timeout_tick) ≠ 0 ∧
               u32 (timeout_tick' - timeout_tick) < RT_TICK_MAX / 2).
Fixpoint timer_place (tms : gmap ref rt_timer) (r : ref) (timeout : Z) (l : list ref)
  : option (list ref) :=
  match l with
  | [] => Some [r]
  | r' :: l' =>
      tm ← tms !! r';
      if later (timeout_tick tm) timeout then Some (r :: l)
      else rest ← timer_place tms r timeout l'; Some (r' :: rest)
  end.

(** Lines 325-411 of [rt_timer_start]: everything up to the soft-timer wakeup. *)
Definition timer_activate (r : ref) : M kernel unit :=
  assert_timer r;;
  level ← rt_hw_interrupt_disable;
  _rt_timer_remove r;;
  upd_timer r (λ tm, flag_clear tm RT_TIMER_FLAG_ACTIVATED);;
  tm ← get_timer r;
  RT_ASSERT (tm_init_tick tm < RT_TICK_MAX / 2);;
  now ← rt_tick_get;
  let timeout := u32 (now + tm_init_tick tm) in
  put_timer r (tm <| timeout_tick := timeout |>);;
  let q := if has_flag tm RT_TIMER_FLAG_SOFT_TIMER then QSoftTimer else QTimer in
  k ← gets id;
  l ← of_option FBadPointer (timer_place (timers k) r timeout (tqueue k q));
  require_unlinked_timer r;;
  set_tqueue q l;;
  upd_timer r (λ tm, flag_set tm RT_TIMER_FLAG_ACTIVATED);;
  rt_hw_interrupt_enable level.

Definition rt_system_timer_init : M kernel unit := set_tqueue QTimer [].

(** ** Flag arithmetic *)
Lemma land_u8 z b : 0 ≤ b < 256 → Z.land (u8 z) b = Z.land z b.
Proof.
  intros Hb. unfold wrapU. rewrite <-Z.land_ones by lia.
  rewrite <-Z.land_assoc, (Z.land_comm (Z.ones 8)), Z.land_ones by lia.
  by rewrite Z.mod_small.
Qed.
Lemma land_lnot_disjoint z b b' : Z.land b b' = 0 → Z.land (Z.land z (Z.lnot b)) b' = Z.land z b'.
Proof.
  intros Hb. rewrite <-Z.land_assoc. f_equal. apply Z.bits_inj'. intros n Hn.
  rewrite Z.land_spec, Z.lnot_spec by done.
  assert (Z.testbit (Z.land b b') n = false) as E by (rewrite Hb; apply Z.bits_0).
  rewrite Z.land_spec in E. by destruct (Z.testbit b n), (Z.testbit b' n).
Qed.

Section Flags.
Context (tm : rt_timer) (b : Z) (Hb : 0 ≤ b < 256).

Lemma has_clear_same : has_flag (flag_clear tm b) b = false.
Proof.
  apply bool_decide_eq_false. unfold flag_clear, tm_flag. simpl. intros []. fold (tm_flag tm).
  rewrite land_u8 by done.
  by rewrite <-Z.land_assoc, (Z.land_comm (Z.lnot b)), Z.land_lnot_diag, Z.land_0_r.
Qed.
Lemma has_clear_other b' :
  0 ≤ b' < 256 → Z.land b b' = 0 → has_flag (flag_clear tm b) b' = has_flag tm b'.
Proof.
  intros Hb' Hd. unfold has_flag. apply bool_decide_ext.
  unfold flag_clear, tm_flag. simpl. by rewrite land_u8, land_lnot_disjoint.
Qed.
Lemma has_set_same : b ≠ 0 → has_flag (flag_set tm b) b = true.
Proof.
  intros Hn. apply bool_decide_eq_true. unfold flag_set, tm_flag. simpl.
  rewrite land_u8, Z.land_lor_distr_l, Z.land_diag by done. intros E.
  apply Z.lor_eq_0_iff in E as [_ E]. done.
Qed.
Lemma has_set_other b' :
  0 ≤ b' < 256 → Z.land b b' = 0 → has_flag (flag_set tm b) b' = has_flag tm b'.
Proof.
  intros Hb' Hd. unfold has_flag. apply bool_decide_ext.
  unfold flag_set, tm_flag. simpl. by rewrite land_u8, Z.land_lor_distr_l, Hd, Z.lor_0_r.
Qed.
End Flags.

(** ** The invariant *)
Abbreviation active tm := (has_flag tm RT_TIMER_FLAG_ACTIVATED = true).
Definition timer_home (tm : rt_timer) : tqid :=
  if has_flag tm RT_TIMER_FLAG_SOFT_TIMER then QSoftTimer else QTimer.
(** The list a timer sits in while its callback runs. *)
Definition check_list (q : tqid) : Prop := q = QCheck ∨ q = QSoftCheck.

(** The timer embedded in thread [t], as [_rt_thread_init] sets it up. *)
Record thread_timer_ok (t : addr) (tm : rt_timer) : Prop := {
  tt_type : rt_object_get_type (tm_parent tm) = RT_Object_Class_Timer;
  tt_static : rt_object_is_systemobject (tm_parent tm) = true;
  tt_func : timeout_func tm = Fn_rt_thread_timeout;
  tt_param : tm_parameter tm = t;
  tt_hard : has_flag tm RT_TIMER_FLAG_SOFT_TIMER = false;
  tt_oneshot : has_flag tm RT_TIMER_FLAG_PERIODIC = false
}.

Record TimerInv (ths : gmap addr rt_thread) (tms : gmap ref rt_timer)
    (tqs : gmap tqid (list ref)) : Prop := {
  ti_nodup : ∀ q, NoDup (qof tqs q);
  ti_disjoint : ∀ q1 q2 r, r ∈ qof tqs q1 → r ∈ qof tqs q2 → q1 = q2;
  ti_listed : ∀ q r, r ∈ qof tqs q → is_Some (tms !! r);
  ti_home : ∀ q r tm, r ∈ qof tqs q → ¬ check_list q → tms !! r = Some tm →
    active tm ∧ q = timer_home tm;
  ti_active : ∀ r tm, tms !! r = Some tm → active tm → ∃ q, r ∈ qof tqs q;
  ti_thread : ∀ t th, ths !! t = Some th → live th →
    ∃ tm, tms !! ThreadTimer t = Some tm ∧ thread_timer_ok t tm;
  ti_susp : ∀ t, ThreadTimer t ∈ qof tqs QTimer →
    ∃ th, ths !! t = Some th ∧ stat_of th = RT_THREAD_SUSPEND;
  ti_firing : ∀ q t tm, check_list q → ThreadTimer t ∈ qof tqs q →
    tms !! ThreadTimer t = Some tm → ¬ active tm;
  ti_null : tms !! Obj RT_NULL = None
}.
Abbreviation timer_inv k := (TimerInv (threads k) (timers k) (timer_queues k)).

Lemma tqof_remove r qs q : qof (remove_from_tqueues r qs) q = filter (.≠ r) (qof qs q).
Proof. unfold remove_from_tqueues. rewrite lookup_fmap. by destruct (qs !! q). Qed.
Lemma tqof_insert_eq (qs : gmap tqid (list ref)) q l : qof (<[q := l]> qs) q = l.
Proof. by rewrite lookup_insert_eq. Qed.
Lemma tqof_insert_ne (qs : gmap tqid (list ref)) q q' l :
  q ≠ q' → qof (<[q := l]> qs) q' = qof qs q'.
Proof. intros. by rewrite lookup_insert_ne. Qed.
Lemma elem_tqof_remove r r' qs q :
  r' ∈ qof (remove_from_tqueues r qs) q ↔ r' ≠ r ∧ r' ∈ qof qs q.
Proof. by rewrite tqof_remove, list_elem_of_filter. Qed.

Lemma tq_removed_out r qs q : r ∉ qof (remove_from_tqueues r qs) q.
Proof. by intros [? _]%elem_tqof_remove. Qed.

Lemma wp_require_unlinked_timer r k (Q : unit → kernel → Prop) :
  (∀ q, r ∉ qof (timer_queues k) q) → Q tt k → wp (require_unlinked_timer r) k Q.
Proof.
  intros Hout HQ. unfold require_unlinked_timer. ksteps. rewrite decide_True; [done|].
  intros q l Hl Hin. apply (Hout q). by rewrite (Hl : timer_queues k !! q = _).
Qed.

(** Two timers that differ in nothing a thread timer promises. *)
Definition same_kind (tm tm' : rt_timer) : Prop :=
  ∀ t, thread_timer_ok t tm → thread_timer_ok t tm'.

Section TimerBooks.
Context (ths : gmap addr rt_thread) (tms : gmap ref rt_timer) (tqs : gmap tqid (list ref)).

Lemma ti_set_thread_timers r tm tm' :
  TimerInv ths tms tqs → tms !! r = Some tm → same_kind tm tm' →
  ∀ t th, ths !! t = Some th → live th →
    ∃ tm1, <[r := tm']> tms !! ThreadTimer t = Some tm1 ∧ thread_timer_ok t tm1.
Proof.
  intros H Hr Hk t th Ht Hl. destruct (ti_thread _ _ _ H _ _ Ht Hl) as (tm1 & Htm & Hok).
  destruct (decide (r = ThreadTimer t)) as [->|].
  - rewrite lookup_insert_eq. exists tm'. split; [done|]. apply Hk. congruence.
  - rewrite lookup_insert_ne by done. eauto.
Qed.

(** Taking a timer out of its list and marking it inactive. *)
Lemma ti_unlink r tm tm' :
  TimerInv ths tms tqs → tms !! r = Some tm → same_kind tm tm' → ¬ active tm' →
  TimerInv ths (<[r := tm']> tms) (remove_from_tqueues r tqs).
Proof.
  intros H Hr Hk Ha.
  assert (r ≠ Obj RT_NULL) as Hn by (intros ->; by rewrite (ti_null _ _ _ H) in Hr).
  constructor.
  - intros q. rewrite tqof_remove. apply NoDup_filter, H.
  - intros q1 q2 r' [_ H1]%elem_tqof_remove [_ H2]%elem_tqof_remove.
    by eapply (ti_disjoint _ _ _ H).
  - intros q r' [Hne H1]%elem_tqof_remove. rewrite lookup_insert_ne by done.
    by eapply (ti_listed _ _ _ H).
  - intros q r' tm1 [Hne H1]%elem_tqof_remove. rewrite lookup_insert_ne by done.
    by eapply (ti_home _ _ _ H).
  - intros r' tm1 Hr' Ha'. destruct (decide (r' = r)) as [->|].
    + rewrite lookup_insert_eq in Hr'. congruence.
    + rewrite lookup_insert_ne in Hr' by done.
      destruct (ti_active _ _ _ H _ _ Hr' Ha') as [q Hq]. exists q. by apply elem_tqof_remove.
  - by eapply ti_set_thread_timers.
  - intros t [_ H1]%elem_tqof_remove. by apply (ti_susp _ _ _ H).
  - intros q t tm1 Hq [Hne H1]%elem_tqof_remove. rewrite lookup_insert_ne by done.
    by eapply (ti_firing _ _ _ H).
  - rewrite lookup_insert_ne by done. apply H.
Qed.

(** Changing fields that no list depends on. *)
Lemma ti_touch r tm tm' :
  TimerInv ths tms tqs → tms !! r = Some tm → same_kind tm tm' →
  (active tm' ↔ active tm) → timer_home tm' = timer_home tm →
  TimerInv ths (<[r := tm']> tms) tqs.
Proof.
  intros H Hr Hk Ha Hh.
  assert (r ≠ Obj RT_NULL) as Hn by (intros ->; by rewrite (ti_null _ _ _ H) in Hr).
  constructor; try apply H.
  - intros q r' Hq. destruct (decide (r' = r)) as [->|].
    + rewrite lookup_insert_eq. eauto.
    + rewrite lookup_insert_ne by done. by eapply (ti_listed _ _ _ H).
  - intros q r' tm1 Hq Hc Hr'. destruct (decide (r' = r)) as [->|].
    + rewrite lookup_insert_eq in Hr'. injection Hr' as <-. rewrite Ha, Hh.
      by eapply (ti_home _ _ _ H).
    + rewrite lookup_insert_ne in Hr' by done. by eapply (ti_home _ _ _ H).
  - intros r' tm1 Hr' Ha'. destruct (decide (r' = r)) as [->|].
    + rewrite lookup_insert_eq in Hr'. injection Hr' as <-. apply Ha in Ha'.
      by eapply (ti_active _ _ _ H).
    + rewrite lookup_insert_ne in Hr' by done. by eapply (ti_active _ _ _ H).
  - by eapply ti_set_thread_timers.
  - intros q t tm1 Hq Hin Ht. destruct (decide (ThreadTimer t = r)) as [<-|].
    + rewrite lookup_insert_eq in Ht. injection Ht as <-. rewrite Ha.
      by eapply (ti_firing _ _ _ H).
    + rewrite lookup_insert_ne in Ht by done. by eapply (ti_firing _ _ _ H).
  - rewrite lookup_insert_ne by done. apply H.
Qed.

(** Linking an unlinked timer into its own list, activated, or into a
    check list. *)
Lemma ti_link r tm tm' q l1 l2 :
  TimerInv ths tms tqs → tms !! r = Some tm → same_kind tm tm' →
  (∀ q, r ∉ qof tqs q) → qof tqs q = l1 ++ l2 →
  (check_list q ∨ active tm' ∧ q = timer_home tm') →
  (∀ t, r = ThreadTimer t → q = QTimer →
     ∃ th, ths !! t = Some th ∧ stat_of th = RT_THREAD_SUSPEND) →
  (∀ t, r = ThreadTimer t → check_list q → ¬ active tm') →
  TimerInv ths (<[r := tm']> tms) (<[q := l1 ++ r :: l2]> tqs).
Proof.
  intros H Hr Hk Hout Hq Hc Hs Hf.
  assert (r ≠ Obj RT_NULL) as Hn by (intros ->; by rewrite (ti_null _ _ _ H) in Hr).
  assert (∀ r' q', r' ∈ qof (<[q := l1 ++ r :: l2]> tqs) q' ↔
            r' ∈ qof tqs q' ∨ r' = r ∧ q' = q) as Hin.
  { intros r' q'. destruct (decide (q' = q)) as [->|].
    - rewrite tqof_insert_eq, Hq, !elem_of_app, elem_of_cons. naive_solver.
    - rewrite tqof_insert_ne by done. naive_solver. }
  assert (∀ r' q', r' ∈ qof tqs q' → r' ≠ r) as Hne by (intros r' q' H1 ->; by apply Hout in H1).
  constructor.
  - intros q'. destruct (decide (q' = q)) as [->|]; [|rewrite tqof_insert_ne by done; apply H].
    rewrite tqof_insert_eq. pose proof (ti_nodup _ _ _ H q) as Hnd. rewrite Hq in Hnd.
    specialize (Hout q). rewrite Hq in Hout.
    by apply NoDup_middle.
  - intros q1 q2 r' [H1|[H1 ->]]%Hin [H2|[H2 ->]]%Hin; subst; try done.
    + by eapply (ti_disjoint _ _ _ H).
    + by apply Hout in H1.
    + by apply Hout in H2.
  - intros q' r' [H1|[-> ->]]%Hin; [|rewrite lookup_insert_eq; eauto].
    rewrite lookup_insert_ne by (symmetry; eauto). by eapply (ti_listed _ _ _ H).
  - intros q' r' tm1 [H1|[-> ->]]%Hin Hnc Hr'.
    + rewrite lookup_insert_ne in Hr' by (symmetry; eauto). by eapply (ti_home _ _ _ H).
    + rewrite lookup_insert_eq in Hr'. injection Hr' as <-. by destruct Hc.
  - intros r' tm1 Hr' Ha'. destruct (decide (r' = r)) as [->|].
    + exists q. apply Hin. by right.
    + rewrite lookup_insert_ne in Hr' by done.
      destruct (ti_active _ _ _ H _ _ Hr' Ha') as [q' Hq']. exists q'. apply Hin. by left.
  - by eapply ti_set_thread_timers.
  - intros t [H1|[<- <-]]%Hin; [by apply (ti_susp _ _ _ H)|by apply Hs].
  - intros q' t tm1 Hq' [H1|[<- ->]]%Hin Ht.
    + rewrite lookup_insert_ne in Ht by (symmetry; eauto). by eapply (ti_firing _ _ _ H).
    + rewrite lookup_insert_eq in Ht. injection Ht as <-. by eapply Hf.
  - rewrite lookup_insert_ne by done. apply H.
Qed.

(** Changing a thread: a thread whose timer is pending must stay suspended. *)
Lemma ti_thread_change t th th' :
  TimerInv ths tms tqs → ths !! t = Some th →
  (live th' → live th ∨ ∃ tm, tms !! ThreadTimer t = Some tm ∧ thread_timer_ok t tm) →
  (stat_of th' = RT_THREAD_SUSPEND ∨ ThreadTimer t ∉ qof tqs QTimer) →
  TimerInv (<[t := th']> ths) tms tqs.
Proof.
  intros H Ht Hl Hs. constructor; try apply H.
  - intros t' th1 Ht' Hlive. destruct (decide (t' = t)) as [->|].
    + rewrite lookup_insert_eq in Ht'. injection Ht' as <-.
      destruct (Hl Hlive) as [Hl'|?]; [|done]. by eapply (ti_thread _ _ _ H).
    + rewrite lookup_insert_ne in Ht' by done. by eapply (ti_thread _ _ _ H).
  - intros t' Hin. destruct (decide (t' = t)) as [->|].
    + rewrite lookup_insert_eq. exists th'. by destruct Hs.
    + rewrite lookup_insert_ne by done. by apply (ti_susp _ _ _ H).
Qed.

(** A thread that is not suspended has no pending timer. *)
Lemma ti_not_pending t th :
  TimerInv ths tms tqs → ths !! t = Some th → live th → stat_of th ≠ RT_THREAD_SUSPEND →
  ThreadTimer t ∉ qof tqs QTimer.
Proof.
  intros H Ht Hl Hs Hin. destruct (ti_susp _ _ _ H _ Hin) as (th' & ? & ?). congruence.
Qed.

Lemma ti_inactive t th tm :
  TimerInv ths tms tqs → ths !! t = Some th → stat_of th ≠ RT_THREAD_SUSPEND →
  tms !! ThreadTimer t = Some tm → thread_timer_ok t tm →
  has_flag tm RT_TIMER_FLAG_ACTIVATED = false.
Proof.
  intros H Ht Hs Htm Hok. destruct (has_flag tm _) eqn:Ha; [|done].
  destruct (ti_active _ _ _ H _ _ Htm Ha) as [q Hq].
  destruct (decide (q = QCheck ∨ q = QSoftCheck)) as [Hc|Hc].
  - by destruct (ti_firing _ _ _ H _ _ _ Hc Hq Htm).
  - destruct (ti_home _ _ _ H _ _ _ Hq Hc Htm) as [_ ->].
    unfold timer_home in Hq. rewrite (tt_hard _ _ Hok) in Hq.
    destruct (ti_susp _ _ _ H _ Hq) as (th' & ? & ?). congruence.
Qed.
End TimerBooks.

(** ** What the operations do *)
Lemma same_kind_refl tm : same_kind tm tm.
Proof. by intros t. Qed.
Lemma same_kind_trans tm1 tm2 tm3 : same_kind tm1 tm2 → same_kind tm2 tm3 → same_kind tm1 tm3.
Proof. intros H1 H2 t ?. by apply H2, H1. Qed.
Lemma same_kind_clear tm : same_kind tm (flag_clear tm RT_TIMER_FLAG_ACTIVATED).
Proof. intros t []. constructor; try done; by rewrite has_clear_other. Qed.
Lemma same_kind_set tm : same_kind tm (flag_set tm RT_TIMER_FLAG_ACTIVATED).
Proof. intros t []. constructor; try done; by rewrite has_set_other. Qed.
Lemma same_kind_init tm z : same_kind tm (tm <| tm_init_tick := z |>).
Proof. intros t []. by constructor. Qed.
Lemma same_kind_timeout tm z : same_kind tm (tm <| timeout_tick := z |>).
Proof. intros t []. by constructor. Qed.
Lemma home_clear tm : timer_home (flag_clear tm RT_TIMER_FLAG_ACTIVATED) = timer_home tm.
Proof. unfold timer_home. by rewrite has_clear_other. Qed.
Lemma home_set tm : timer_home (flag_set tm RT_TIMER_FLAG_ACTIVATED) = timer_home tm.
Proof. unfold timer_home. by rewrite has_set_other. Qed.
Create HintDb timers.
#[export] Hint Resolve same_kind_refl same_kind_clear same_kind_set same_kind_init
  same_kind_timeout : timers.

Abbreviation timer_type tm := (rt_object_get_type (tm_parent tm) = RT_Object_Class_Timer).

Lemma assert_timer_ok r tm k Q :
  timers k !! r = Some tm → timer_type tm → r ≠ Obj RT_NULL → Q tt k → wp (assert_timer r) k Q.
Proof. intros. unfold assert_timer. by ksteps. Qed.

Definition stopped (r : ref) (tm : rt_timer) (k : kernel) : kernel :=
  if has_flag tm RT_TIMER_FLAG_ACTIVATED then
    k <| timer_queues := remove_from_tqueues r (timer_queues k) |>
      <| timers := <[r := flag_clear tm RT_TIMER_FLAG_ACTIVATED]> (timers k) |>
  else k.

Lemma timer_stop_eq r tm k :
  timers k !! r = Some tm → timer_type tm → r ≠ Obj RT_NULL →
  rt_timer_stop r k =
  Ok (if has_flag tm RT_TIMER_FLAG_ACTIVATED then RT_EOK else - RT_ERROR, stopped r tm k).
Proof.
  intros Hr Hty Hn. apply wp_exact. unfold rt_timer_stop. ksteps.
  eapply assert_timer_ok; [done..|]. ksteps. unfold stopped.
  destruct (has_flag tm _); [|by ksteps].
  unfold _rt_timer_remove. ksteps. by destruct k.
Qed.

Lemma stopped_inv ths r tm k :
  TimerInv ths (timers k) (timer_queues k) → timers k !! r = Some tm →
  TimerInv ths (timers (stopped r tm k)) (timer_queues (stopped r tm k)).
Proof.
  intros H Hr. unfold stopped. destruct (has_flag tm _); [|done]. ksimpl.
  eapply ti_unlink; [done|done|auto with timers|]. by rewrite has_clear_same.
Qed.

Lemma stopped_not_pending ths r tm k q :
  TimerInv ths (timers k) (timer_queues k) → timers k !! r = Some tm → ¬ check_list q →
  r ∉ qof (timer_queues (stopped r tm k)) q.
Proof.
  intros H Hr Hq Hin. unfold stopped in Hin. destruct (has_flag tm _) eqn:Ha; simpl in Hin.
  - by apply elem_tqof_remove in Hin as [? _].
  - destruct (ti_home _ _ _ H _ _ _ Hin Hq Hr) as [? _]. congruence.
Qed.

Lemma control_set_time_eq r tm k arg :
  timers k !! r = Some tm → timer_type tm → r ≠ Obj RT_NULL →
  rt_timer_control r RT_TIMER_CTRL_SET_TIME arg k =
  Ok ((RT_EOK, arg), k <| timers := <[r := tm <| tm_init_tick := u32 arg |>]> (timers k) |>).
Proof.
  intros Hr Hty Hn. apply wp_exact. unfold rt_timer_control. ksteps.
  eapply assert_timer_ok; [done..|]. ksteps. by destruct k.
Qed.

Lemma timer_place_spec tms r timeout l :
  (∀ r', r' ∈ l → is_Some (tms !! r')) →
  ∃ l1 l2, l = l1 ++ l2 ∧ timer_place tms r timeout l = Some (l1 ++ r :: l2) ∧
    (∀ r' tm, r' ∈ l1 → tms !! r' = Some tm → later (timeout_tick tm) timeout = false) ∧
    (∀ r' tm, head l2 = Some r' → tms !! r' = Some tm → later (timeout_tick tm) timeout = true).
Proof.
  induction l as [|r1 l IH]; intros Hl; simpl.
  { exists [], []. repeat split; [|done]. by intros ? ? ?%not_elem_of_nil. }
  destruct (Hl r1) as [tm1 Htm1]; [by left|]. rewrite Htm1. simpl.
  destruct (later (timeout_tick tm1) timeout) eqn:Hlat.
  - exists [], (r1 :: l). repeat split; [by intros ? ? ?%not_elem_of_nil|].
    intros r' tm [= <-]. congruence.
  - destruct IH as (l1 & l2 & -> & -> & H1 & H2); [intros; apply Hl; by right|].
    exists (r1 :: l1), l2. repeat split; [|done].
    intros r' tm [->|Hin]%elem_of_cons; [congruence|by apply H1].
Qed.

(** The timer as [rt_timer_start] leaves it. *)
Definition started (now : Z) (tm : rt_timer) : rt_timer :=
  flag_set ((flag_clear tm RT_TIMER_FLAG_ACTIVATED)
              <| timeout_tick := u32 (now + tm_init_tick tm) |>) RT_TIMER_FLAG_ACTIVATED.

Lemma same_kind_started now tm : same_kind tm (started now tm).
Proof.
  eapply same_kind_trans; [apply same_kind_clear|].
  eapply same_kind_trans; [apply same_kind_timeout|apply same_kind_set].
Qed.
Lemma active_started now tm : active (started now tm).
Proof. by apply has_set_same. Qed.
Lemma home_started now tm : timer_home (started now tm) = timer_home tm.
Proof. unfold started. rewrite home_set. apply home_clear. Qed.

Lemma timer_activate_spec r tm k :
  timer_inv k → timers k !! r = Some tm → timer_type tm →
  tm_init_tick tm < RT_TICK_MAX / 2 →
  (∀ t, r = ThreadTimer t → ∃ th, threads k !! t = Some th ∧ stat_of th = RT_THREAD_SUSPEND) →
  ∃ l1 l2, filter (.≠ r) (tqueue k (timer_home tm)) = l1 ++ l2 ∧
    let k' := k <| timers := <[r := started (rt_tick k) tm]> (timers k) |>
                <| timer_queues := <[timer_home tm := l1 ++ r :: l2]>
                                     (remove_from_tqueues r (timer_queues k)) |> in
    timer_activate r k = Ok (tt, k') ∧ timer_inv k' ∧
    (∀ r' tm', r' ∈ l1 → timers k !! r' = Some tm' →
       later (timeout_tick tm') (timeout_tick (started (rt_tick k) tm)) = false) ∧
    (∀ r' tm', head l2 = Some r' → timers k !! r' = Some tm' →
       later (timeout_tick tm') (timeout_tick (started (rt_tick k) tm)) = true).
Proof.
  intros H Hr Hty Hi Hs.
  assert (r ≠ Obj RT_NULL) as Hn by (intros ->; by rewrite (ti_null _ _ _ H) in Hr).
  set (tm2 := (flag_clear tm RT_TIMER_FLAG_ACTIVATED)
                <| timeout_tick := u32 (rt_tick k + tm_init_tick tm) |>).
  destruct (timer_place_spec (<[r := tm2]> (<[r := flag_clear tm RT_TIMER_FLAG_ACTIVATED]> (timers k)))
     r (u32 (rt_tick k + tm_init_tick tm))
     (qof (remove_from_tqueues r (timer_queues k)) (timer_home tm)))
    as (l1 & l2 & Hl & Hplace & H1 & H2).
  { intros r' [Hne Hin]%elem_tqof_remove. rewrite !lookup_insert_ne by done.
    by eapply (ti_listed _ _ _ H). }
  rewrite insert_insert_eq in Hplace, H1, H2.
  exists l1, l2. unfold tqueue at 1. rewrite <-tqof_remove. split; [done|]. cbn zeta.
  assert (∀ r', r' ∈ l1 ++ l2 → r' ≠ r) as Hne.
  { intros r'. rewrite <-Hl. by intros [? _]%elem_tqof_remove. }
  split_and!.
  - apply wp_exact. unfold timer_activate, _rt_timer_remove. ksteps.
    eapply assert_timer_ok; [done..|]. ksteps.
    eapply wp_get_timer; [apply lookup_insert_eq|]. ksteps. ksimpl.
    change (if has_flag (flag_clear tm _) _ then QSoftTimer else QTimer)
      with (timer_home (flag_clear tm RT_TIMER_FLAG_ACTIVATED)).
    rewrite home_clear, insert_insert_eq. fold tm2.
    unfold tqueue, id. ksimpl. eapply wp_of_option; [exact Hplace|]. ksteps.
    apply wp_require_unlinked_timer; [intros q; apply tq_removed_out|].
    unfold set_tqueue. ksteps. eapply wp_upd_timer; [apply lookup_insert_eq|]. ksteps.
    split; [done|]. ksimpl. rewrite insert_insert_eq. by destruct k.
  - ksimpl. rewrite <-(insert_insert_eq (timers k) r (started (rt_tick k) tm) tm2).
    eapply ti_link.
    + eapply ti_unlink; [done|done|..].
      * eapply same_kind_trans; [apply same_kind_clear|apply same_kind_timeout].
      * unfold tm2. change (has_flag _ _) with
          (has_flag (flag_clear tm RT_TIMER_FLAG_ACTIVATED) RT_TIMER_FLAG_ACTIVATED).
        by rewrite has_clear_same.
    + apply lookup_insert_eq.
    + apply same_kind_set.
    + intros q. apply tq_removed_out.
    + done.
    + right. split; [apply active_started|by rewrite home_started].
    + intros t ->. eauto.
    + intros t -> [E|E]; unfold timer_home in E; by destruct (has_flag _ _).
  - intros r' tm' Hin Hr'. apply H1 with r'; [done|].
    rewrite lookup_insert_ne; [done|]. symmetry. apply Hne. apply elem_of_app; by left.
  - intros r' tm' Hh Hr'. apply H2 with r'; [done|].
    rewrite lookup_insert_ne; [done|]. symmetry. apply Hne. apply elem_of_app; right.
    destruct l2; simplify_eq/=. left.
Qed.

(** ** Order of the pending timers

    Ticks left until the timer fires, on the wrapping 32-bit counter. *)
Definition remaining (now : Z) (tm : rt_timer) : Z := u32 (timeout_tick tm - now).

Lemma later_remaining now a b :
  u32 (a - now) < RT_TICK_MAX / 2 → u32 (b - now) < RT_TICK_MAX / 2 →
  later a b = bool_decide (u32 (b - now) < u32 (a - now)).
Proof.
  intros Ha Hb. unfold later, RT_TICK_MAX, wrapU in *. change (2 ^ 32) with 4294967296 in *.
  change (4294967295 / 2) with 2147483647 in *.
  pose proof (Z.mod_pos_bound (a - now) 4294967296 ltac:(lia)) as Ha0.
  pose proof (Z.mod_pos_bound (b - now) 4294967296 ltac:(lia)) as Hb0.
  replace ((a - b) mod 4294967296)
    with (((a - now) mod 4294967296 - (b - now) mod 4294967296) mod 4294967296).
  2:{ rewrite <-Zminus_mod. f_equal. lia. }
  set (x := (a - now) mod 4294967296) in *. set (y := (b - now) mod 4294967296) in *.
  apply bool_decide_ext. destruct (decide (y ≤ x)).
  - rewrite Z.mod_small by lia. lia.
  - rewrite <-(Z.mod_add _ 1), Z.mod_small by lia. lia.
Qed.

(** The pending list is sorted by the ticks left, none of which reaches half
    the counter's range. *)
Definition remains (tms : gmap ref rt_timer) (now : Z) (r : ref) : Z :=
  match tms !! r with Some tm => remaining now tm | None => 0 end.
Definition timers_sorted (tms : gmap ref rt_timer) (now : Z) (l : list ref) : Prop :=
  StronglySorted (λ r1 r2, remains tms now r1 ≤ remains tms now r2) l ∧
  Forall (λ r, remains tms now r < RT_TICK_MAX / 2) l.

Lemma StronglySorted_middle {A} (R : A → A → Prop) l1 l2 x :
  StronglySorted R (l1 ++ l2) → Forall (λ y, R y x) l1 → Forall (R x) l2 →
  StronglySorted R (l1 ++ x :: l2).
Proof.
  induction l1 as [|y l1 IH]; simpl; intros Hs H1 H2; [by constructor|].
  apply StronglySorted_inv in Hs as [Hs Hy]. apply Forall_cons in H1 as [? ?].
  constructor; [by apply IH|]. apply Forall_app in Hy as [? ?]. apply Forall_app. split; [done|].
  by constructor.
Qed.

Lemma StronglySorted_head {A} (R : A → A → Prop) l y x :
  StronglySorted R (y :: l) → (∀ z, R y z → R x z) → R x y → Forall (R x) (y :: l).
Proof.
  intros [Hs Hy]%StronglySorted_inv Ht Hxy. constructor; [done|].
  eapply Forall_impl; [exact Hy|]. auto.
Qed.

Lemma StronglySorted_filter {A} (R : A → A → Prop) (P : A → Prop) `{∀ x, Decision (P x)} l :
  StronglySorted R l → StronglySorted R (filter P l).
Proof.
  induction l as [|y l IH]; intros Hs; [done|]. apply StronglySorted_inv in Hs as [Hs Hy].
  rewrite filter_cons. case_decide; [|by apply IH]. constructor; [by apply IH|].
  apply Forall_forall. intros z [_ Hz]%list_elem_of_filter. by eapply Forall_forall in Hy.
Qed.

Lemma timers_sorted_ext tms tms' now l :
  (∀ r, r ∈ l → tms !! r = tms' !! r) → timers_sorted tms now l → timers_sorted tms' now l.
Proof.
  intros He [Hs Hf].
  assert (∀ r, r ∈ l → remains tms' now r = remains tms now r) as Hr.
  { intros r Hr. unfold remains. by rewrite He. }
  split.
  - clear Hf He. induction Hs as [|r l Hs IH Hr']; [constructor|].
    constructor; [apply IH; intros; apply Hr; by right|].
    apply Forall_forall. intros r' Hin. rewrite !Hr by (by right + left).
    by eapply Forall_forall in Hr'.
  - apply Forall_forall. intros r Hin. rewrite Hr by done. by eapply Forall_forall in Hf.
Qed.

Lemma timers_sorted_place tms now r l1 l2 :
  timers_sorted tms now (l1 ++ l2) → remains tms now r < RT_TICK_MAX / 2 →
  (∀ r', r' ∈ l1 → remains tms now r' ≤ remains tms now r) →
  (∀ r', head l2 = Some r' → remains tms now r < remains tms now r') →
  timers_sorted tms now (l1 ++ r :: l2).
Proof.
  intros [Hs Hf] Hr H1 H2. split.
  - apply StronglySorted_middle; [done|by apply Forall_forall|].
    destruct l2 as [|y l2]; [constructor|].
    apply StronglySorted_app_1_r in Hs. specialize (H2 y eq_refl).
    apply (StronglySorted_head (λ r1 r2, remains tms now r1 ≤ remains tms now r2) l2 y r);
      [done| |lia]. intros z Hz. lia.
  - apply Forall_app in Hf as [? ?]. apply Forall_app. split; [done|by constructor].
Qed.

Lemma timers_sorted_filter tms now r l :
  timers_sorted tms now l → timers_sorted tms now (filter (.≠ r) l).
Proof.
  intros [Hs Hf]. split; [by apply StronglySorted_filter|].
  apply Forall_forall. intros z [_ Hz]%list_elem_of_filter. by eapply Forall_forall in Hf.
Qed.

Lemma remaining_started now tm :
  0 ≤ tm_init_tick tm < 2 ^ 32 → remaining now (started now tm) = tm_init_tick tm.
Proof.
  intros Hi. unfold remaining, started, wrapU. simpl. rewrite Zminus_mod_idemp_l.
  replace (now + tm_init_tick tm - now) with (tm_init_tick tm) by lia. by apply Z.mod_small.
Qed.

(** Starting a timer keeps its list sorted: it lands behind every timer that
    fires no later and ahead of every one that fires later. *)
Theorem timer_activate_sorted r tm k :
  timer_inv k → timers k !! r = Some tm → timer_type tm →
  0 ≤ tm_init_tick tm < RT_TICK_MAX / 2 →
  (∀ t, r = ThreadTimer t → ∃ th, threads k !! t = Some th ∧ stat_of th = RT_THREAD_SUSPEND) →
  timers_sorted (timers k) (rt_tick k) (tqueue k (timer_home tm)) →
  wp (timer_activate r) k (λ _ k',
    timer_inv k' ∧ r ∈ tqueue k' (timer_home tm) ∧ remains (timers k') (rt_tick k') r = tm_init_tick tm ∧
    timers_sorted (timers k') (rt_tick k') (tqueue k' (timer_home tm))).
Proof.
  intros H Hr Hty Hi Hs Hsorted.
  destruct (timer_activate_spec _ _ _ H Hr Hty) as (l1 & l2 & Hl & Heq & Hinv & H1 & H2); [lia|done|].
  eapply wp_eq; [exact Heq|]. split; [exact Hinv|]. clear Heq Hinv. ksimpl. unfold tqueue in *. ksimpl.
  rewrite tqof_insert_eq. set (tms' := <[r := _]> (timers k)).
  assert (remains tms' (rt_tick k) r = tm_init_tick tm) as Hrem.
  { unfold remains, tms'. rewrite lookup_insert_eq. apply remaining_started.
    change (RT_TICK_MAX / 2) with 2147483647 in Hi. change (2 ^ 32) with 4294967296. lia. }
  apply (timers_sorted_filter _ _ r) in Hsorted. rewrite Hl in Hsorted.
  assert (∀ r', r' ∈ l1 ++ l2 → r' ≠ r ∧ timers k !! r' = tms' !! r' ∧ is_Some (timers k !! r')) as Hin.
  { intros r'. rewrite <-Hl. intros [Hne Hq]%list_elem_of_filter. split; [done|].
    split; [unfold tms'; by rewrite lookup_insert_ne|]. by eapply (ti_listed _ _ _ H). }
  assert (timers_sorted tms' (rt_tick k) (l1 ++ l2)) as Hsorted'.
  { eapply timers_sorted_ext; [|exact Hsorted]. intros r' Hr'. by apply Hin. }
  assert (∀ r' tm', r' ∈ l1 ++ l2 → timers k !! r' = Some tm' →
     later (timeout_tick tm') (timeout_tick (started (rt_tick k) tm)) =
     bool_decide (remains tms' (rt_tick k) r < remains tms' (rt_tick k) r')) as Hlater.
  { intros r' tm' Hr' Htm'. destruct (Hin _ Hr') as (_ & He & _). rewrite Htm' in He.
    destruct Hsorted' as [_ Hf]. eapply Forall_forall in Hf; [|exact Hr'].
    unfold remains in *. rewrite <-He in *. unfold tms'. rewrite lookup_insert_eq.
    apply later_remaining; [done|]. fold (remaining (rt_tick k) (started (rt_tick k) tm)).
    unfold tms' in Hrem. rewrite lookup_insert_eq in Hrem. lia. }
  split; [apply elem_of_app; right; left|]. split; [done|].
  apply timers_sorted_place; [done|lia| |].
  - intros r' Hr'. assert (r' ∈ l1 ++ l2) as Hin' by (apply elem_of_app; by left).
    destruct (Hin _ Hin') as (_ & _ & tm' & Htm').
    pose proof (H1 _ _ Hr' Htm') as Hf. rewrite (Hlater _ _ Hin' Htm') in Hf.
    apply bool_decide_eq_false in Hf. lia.
  - intros r' Hr'. assert (r' ∈ l1 ++ l2) as Hin'.
    { apply elem_of_app; right. destruct l2; simplify_eq/=. left. }
    destruct (Hin _ Hin') as (_ & _ & tm' & Htm').
    pose proof (H2 _ _ Hr' Htm') as Hf. rewrite (Hlater _ _ Hin' Htm') in Hf.
    by apply bool_decide_eq_true in Hf.
Qed.
