(* ===== verification/Thread.v ===== *)
(** * Threads ([src/thread.c])

    A call that gives up the processor is split at its [rt_schedule()]: the
    first part ends in [Park] with the locals that are live across the
    switch, and the [_resume] definition is the code the thread runs when it
    gets the processor back. *)
From S2P Require Import Prelude Kernel Scheduler Object Timer.

Inductive call (R L : Type) := Return (r : R) | Park (locals : L).
Arguments Return {R L} r.
Arguments Park {R L} locals.

Definition th_type (th : rt_thread) : Z := rt_object_get_type (th_parent th).

(** ** [rt_thread_suspend], [rt_thread_resume], [rt_thread_timeout] *)
Definition assert_thread (t : addr) : M kernel unit :=
  RT_ASSERT (t ≠ RT_NULL);;
  th ← get_thread t;
  RT_ASSERT (th_type th = RT_Object_Class_Thread).

Definition rt_thread_suspend (t : addr) : M kernel Z :=
  assert_thread t;;
  th ← get_thread t;
  let st := stat_of th in
  if decide (st ≠ RT_THREAD_READY ∧ st ≠ RT_THREAD_RUNNING) then mret (- RT_ERROR)
  else
    temp ← rt_hw_interrupt_disable;
    self ← rt_thread_self;
    when (st = RT_THREAD_RUNNING) (RT_ASSERT (t = self));;
    rt_schedule_remove_thread t;;
    upd_thread t (with_stat RT_THREAD_SUSPEND);;
    rt_timer_stop (ThreadTimer t);;
    rt_hw_interrupt_enable temp;;
    mret RT_EOK.

Definition rt_thread_resume (t : addr) : M kernel Z :=
  assert_thread t;;
  th ← get_thread t;
  if decide (stat_of th ≠ RT_THREAD_SUSPEND) then mret (- RT_ERROR)
  else
    temp ← rt_hw_interrupt_disable;
    rt_list_remove t;;
    rt_timer_stop (ThreadTimer t);;
    rt_hw_interrupt_enable temp;;
    rt_schedule_insert_thread t;;
    mret RT_EOK.

Definition rt_thread_timeout (t : addr) : M kernel unit :=
  RT_ASSERT (t ≠ RT_NULL);;
  th ← get_thread t;
  RT_ASSERT (stat_of th = RT_THREAD_SUSPEND);;
  RT_ASSERT (th_type th = RT_Object_Class_Thread);;
  put_thread t (th <| error := - RT_ETIMEOUT |>);;
  rt_list_remove t;;
  rt_schedule_insert_thread t;;
  rt_schedule.

(** ** [rt_timer_start] *)
Definition rt_timer_start (r : ref) : M kernel Z :=
  timer_activate r;;
  tm ← get_timer r;
  k ← gets id;
  (if has_flag tm RT_TIMER_FLAG_SOFT_TIMER then
     tt_ ← get_thread (timer_thread k);
     when (soft_timer_status k = RT_SOFT_TIMER_IDLE ∧ stat_of tt_ = RT_THREAD_SUSPEND)
       (rt_thread_resume (timer_thread k);; rt_schedule)
   else mret tt);;
  mret RT_EOK.

(** ** Sleeping *)

(** The two calls that arm a thread's own timer, in [rt_thread_sleep], in
    [rt_thread_delay_until] and in every blocking call of ipc.c. *)
Definition start_thread_timer (thread : addr) (time : Z) : M kernel unit :=
  rt_timer_control (ThreadTimer thread) RT_TIMER_CTRL_SET_TIME time;;
  rt_timer_start (ThreadTimer thread);;
  mret tt.
Definition rt_thread_sleep (tick : Z) : M kernel (call Z addr) :=
  thread ← rt_thread_self;
  assert_thread thread;;
  temp ← rt_hw_interrupt_disable;
  rt_thread_suspend thread;;
  start_thread_timer thread tick;;
  rt_hw_interrupt_enable temp;;
  rt_schedule;;
  mret (Park thread).
(** [if (thread->error == -RT_ETIMEOUT) thread->error = RT_EOK;] *)
Definition clear_timeout (th : rt_thread) : rt_thread :=
  if decide (error th = - RT_ETIMEOUT) then th <| error := RT_EOK |> else th.
Definition rt_thread_sleep_resume (thread : addr) : M kernel Z :=
  upd_thread thread clear_timeout;;
  mret RT_EOK.

Definition rt_thread_delay (tick : Z) : M kernel (call Z addr) := rt_thread_sleep tick.

(** [rt_tick_from_millisecond] of clock.c *)
Definition RT_TICK_PER_SECOND : Z := 1000.
Definition rt_tick_from_millisecond (ms : Z) : Z :=
  if decide (ms < 0) then u32 RT_WAITING_FOREVER
  else
    let tick := u32 (RT_TICK_PER_SECOND * (ms / 1000)) in
    u32 (tick + (RT_TICK_PER_SECOND * (ms mod 1000) + 999) / 1000).
Definition rt_thread_mdelay (ms : Z) : M kernel (call Z addr) :=
  rt_thread_sleep (rt_tick_from_millisecond ms).

(** [rt_thread_delay_until]: [tick] is the value the pointer holds; the result
    carries the value left there. *)
Definition rt_thread_delay_until (tick inc_tick : Z) : M kernel (call (Z * Z) addr) :=
  thread ← rt_thread_self;
  assert_thread thread;;
  level ← rt_hw_interrupt_disable;
  now ← rt_tick_get;
  if decide (u32 (now - tick) < inc_tick) then
    let tick := u32 (u32 (tick + inc_tick) - now) in
    rt_thread_suspend thread;;
    start_thread_timer thread tick;;
    rt_hw_interrupt_enable level;;
    rt_schedule;;
    mret (Park thread)
  else
    rt_hw_interrupt_enable level;;
    now ← rt_tick_get;
    mret (Return (RT_EOK, now)).
Definition rt_thread_delay_until_resume (thread : addr) : M kernel (Z * Z) :=
  upd_thread thread clear_timeout;;
  now ← rt_tick_get;
  mret (RT_EOK, now).

(** [remaining_tick = init_tick; stat |= RT_THREAD_STAT_YIELD] *)
Definition slice_over (th : rt_thread) : rt_thread :=
  th <| remaining_tick := init_tick th |>
     <| stat := u8 (Z.lor (stat th) RT_THREAD_STAT_YIELD) |>.
Definition rt_thread_yield : M kernel Z :=
  thread ← rt_thread_self;
  lock ← rt_hw_interrupt_disable;
  upd_thread thread slice_over;;
  rt_schedule;;
  rt_hw_interrupt_enable lock;;
  mret RT_EOK.

(** ** Creating and starting *)

(** [rt_hw_stack_init] of cpuport.c: the stack pointer below the first frame. *)
Definition rt_hw_stack_init (stack_addr : Z) : Z :=
  u32 (RT_ALIGN_DOWN (u32 (stack_addr + 4)) 8 - 64).

Definition rt_timer_init (r : ref) (name : list Z) (timeout : timer_fn) (param time flag : Z)
  : M kernel unit :=
  RT_ASSERT (r ≠ Obj RT_NULL);;
  rt_object_init r RT_Object_Class_Timer name;;
  _rt_timer_init r timeout param time flag.

(** Of the stack's contents only the guard byte at [stack_addr] is kept. *)
Definition _rt_thread_init (t : addr) (entry_ parameter_ stack_start stack_size_ priority tick : Z)
  : M kernel Z :=
  rt_list_init_node t;;
  upd_thread t (λ th, th <| entry := entry_ |> <| parameter := parameter_ |>
    <| stack_addr := stack_start |> <| stack_size := u32 stack_size_ |>
    <| stack_mark := if decide (u32 stack_size_ = 0) then stack_mark th else 35 |>
    <| sp := rt_hw_stack_init (u32 (stack_start + stack_size_ - 4)) |>);;
  RT_ASSERT (priority < RT_THREAD_PRIORITY_MAX);;
  upd_thread t (λ th, th <| init_priority := u8 priority |> <| current_priority := u8 priority |>
    <| number_mask := 0 |> <| init_tick := u32 tick |> <| remaining_tick := u32 tick |>
    <| error := RT_EOK |> <| stat := RT_THREAD_INIT |> <| cleanup := 0 |> <| user_data := 0 |>);;
  th ← get_thread t;
  rt_timer_init (ThreadTimer t) (obj_name (th_parent th)) Fn_rt_thread_timeout t 0
    RT_TIMER_FLAG_ONE_SHOT;;
  mret RT_EOK.

Definition rt_thread_init (t : addr) (name : list Z)
    (entry_ parameter_ stack_start stack_size_ priority tick : Z) : M kernel Z :=
  RT_ASSERT (t ≠ RT_NULL);;
  RT_ASSERT (stack_start ≠ RT_NULL);;
  rt_object_init (Obj t) RT_Object_Class_Thread name;;
  _rt_thread_init t entry_ parameter_ stack_start stack_size_ priority tick.

Definition rt_thread_startup (t : addr) : M kernel Z :=
  RT_ASSERT (t ≠ RT_NULL);;
  th ← get_thread t;
  RT_ASSERT (stat_of th = RT_THREAD_INIT);;
  RT_ASSERT (th_type th = RT_Object_Class_Thread);;
  put_thread t (th <| current_priority := init_priority th |>
                   <| number_mask := u32 (Z.shiftl 1 (init_priority th)) |>
                   <| stat := RT_THREAD_SUSPEND |>);;
  rt_thread_resume t;;
  self ← rt_thread_self;
  when (self ≠ RT_NULL) rt_schedule;;
  mret RT_EOK.

(** ** Ending a thread *)
Definition rt_timer_detach (r : ref) : M kernel Z :=
  assert_timer r;;
  tm ← get_timer r;
  RT_ASSERT (rt_object_is_systemobject (tm_parent tm) = true);;
  level ← rt_hw_interrupt_disable;
  _rt_timer_remove r;;
  upd_timer r (λ tm, flag_clear tm RT_TIMER_FLAG_ACTIVATED);;
  rt_hw_interrupt_enable level;;
  rt_object_detach RT_Object_Class_Timer r;;
  mret RT_EOK.

(** [current_priority = arg; number_mask = 1 << current_priority] *)
Definition with_priority (arg : Z) (th : rt_thread) : rt_thread :=
  th <| current_priority := u8 arg |> <| number_mask := u32 (Z.shiftl 1 (u8 arg)) |>.

Section Cleanup.
(** [thread->cleanup(thread)]: the function the pointer names is not part of
    the kernel. *)
Context (run_cleanup : Z → addr → M kernel unit).

Definition _thread_cleanup_execute (t : addr) : M kernel unit :=
  level ← rt_hw_interrupt_disable;
  th ← get_thread t;
  when (cleanup th ≠ RT_NULL) (run_cleanup (cleanup th) t);;
  rt_hw_interrupt_enable level.

Definition rt_thread_exit : M kernel unit :=
  thread ← rt_thread_self;
  level ← rt_hw_interrupt_disable;
  _thread_cleanup_execute thread;;
  rt_schedule_remove_thread thread;;
  upd_thread thread (λ th, th <| stat := RT_THREAD_CLOSE |>);;
  rt_timer_detach (ThreadTimer thread);;
  th ← get_thread thread;
  (if rt_object_is_systemobject (th_parent th)
   then rt_object_detach RT_Object_Class_Thread (Obj thread)
   else rt_list_insert_head QDefunct thread);;
  rt_schedule;;
  rt_hw_interrupt_enable level.

Definition rt_thread_detach (t : addr) : M kernel Z :=
  assert_thread t;;
  th ← get_thread t;
  RT_ASSERT (rt_object_is_systemobject (th_parent th) = true);;
  if decide (stat_of th = RT_THREAD_CLOSE) then mret RT_EOK
  else
    when (stat_of th ≠ RT_THREAD_INIT) (rt_schedule_remove_thread t);;
    _thread_cleanup_execute t;;
    rt_timer_detach (ThreadTimer t);;
    upd_thread t (λ th, th <| stat := RT_THREAD_CLOSE |>);;
    th ← get_thread t;
    (if rt_object_is_systemobject (th_parent th)
     then rt_object_detach RT_Object_Class_Thread (Obj t)
     else
       lock ← rt_hw_interrupt_disable;
       rt_list_insert_head QDefunct t;;
       rt_hw_interrupt_enable lock);;
    mret RT_EOK.

Definition rt_thread_delete (t : addr) : M kernel Z :=
  assert_thread t;;
  th ← get_thread t;
  RT_ASSERT (rt_object_is_systemobject (th_parent th) = false);;
  if decide (stat_of th = RT_THREAD_CLOSE) then mret RT_EOK
  else
    when (stat_of th ≠ RT_THREAD_INIT) (rt_schedule_remove_thread t);;
    _thread_cleanup_execute t;;
    rt_timer_detach (ThreadTimer t);;
    lock ← rt_hw_interrupt_disable;
    upd_thread t (λ th, th <| stat := RT_THREAD_CLOSE |>);;
    rt_list_insert_head QDefunct t;;
    rt_hw_interrupt_enable lock;;
    mret RT_EOK.

(** [arg] is the byte the argument points to. *)
Definition rt_thread_control (t : addr) (cmd arg : Z) : M kernel Z :=
  assert_thread t;;
  if decide (cmd = RT_THREAD_CTRL_CHANGE_PRIORITY) then
    temp ← rt_hw_interrupt_disable;
    th ← get_thread t;
    (if decide (stat_of th = RT_THREAD_READY) then
       rt_schedule_remove_thread t;;
       upd_thread t (with_priority arg);;
       rt_schedule_insert_thread t
     else upd_thread t (with_priority arg));;
    rt_hw_interrupt_enable temp;;
    mret RT_EOK
  else if decide (cmd = RT_THREAD_CTRL_STARTUP) then rt_thread_startup t
  else if decide (cmd = RT_THREAD_CTRL_CLOSE) then
    th ← get_thread t;
    if rt_object_is_systemobject (th_parent th) then rt_thread_detach t else rt_thread_delete t
  else mret RT_EOK.
End Cleanup.

Definition rt_thread_find (name : list Z) : M kernel (option ref) :=
  rt_object_find (Some name) RT_Object_Class_Thread.

(** ** The kernel invariant *)
Record kernel_inv (k : kernel) : Prop := {
  ki_sched : sched_inv None k;
  ki_timer : timer_inv k
}.

Lemma kernel_inv_ext k k' :
  kernel_inv k → threads k' = threads k → queues k' = queues k →
  rt_thread_ready_priority_group k' = rt_thread_ready_priority_group k →
  rt_current_thread k' = rt_current_thread k → timers k' = timers k →
  timer_queues k' = timer_queues k → kernel_inv k'.
Proof. intros [] E1 E2 E3 E4 E5 E6. constructor; [by rewrite E1, E2, E3, E4|by rewrite E1, E5, E6]. Qed.

(** *** Suspending *)
Definition suspended (t : addr) (th : rt_thread) (k : kernel) : kernel :=
  removed t th (k <| threads := <[t := with_stat RT_THREAD_SUSPEND th]> (threads k) |>).

Lemma assert_thread_ok t th k (Q : unit → kernel → Prop) :
  t ≠ RT_NULL → threads k !! t = Some th → th_type th = RT_Object_Class_Thread →
  Q tt k → wp (assert_thread t) k Q.
Proof. intros. unfold assert_thread. by ksteps. Qed.

Lemma live_not_null k t th : kernel_inv k → threads k !! t = Some th → t ≠ RT_NULL.
Proof. intros H Ht ->. by rewrite (si_null _ _ _ _ _ (ki_sched _ H)) in Ht. Qed.

Section Running.
Context (k : kernel) (t : addr) (th : rt_thread).
Context (H : kernel_inv k) (Ht : threads k !! t = Some th) (Hl : live th).

Lemma live_ok : thread_ok th.
Proof. by eapply (si_ok _ _ _ _ _ (ki_sched _ H)). Qed.
Lemma live_type : th_type th = RT_Object_Class_Thread.
Proof. apply live_ok. Qed.
Lemma live_timer : ∃ tm, timers k !! ThreadTimer t = Some tm ∧ thread_timer_ok t tm.
Proof. by eapply (ti_thread _ _ _ (ki_timer _ H)). Qed.
End Running.

Lemma timer_stop_idle t tm k :
  timers k !! ThreadTimer t = Some tm → thread_timer_ok t tm →
  has_flag tm RT_TIMER_FLAG_ACTIVATED = false →
  rt_timer_stop (ThreadTimer t) k = Ok (- RT_ERROR, k).
Proof.
  intros Htm Hok Ha. rewrite (timer_stop_eq _ tm); [|done|apply Hok|done].
  unfold stopped. by rewrite Ha.
Qed.

Lemma suspend_eq t th k :
  kernel_inv k → threads k !! t = Some th →
  stat_of th = RT_THREAD_READY ∨ stat_of th = RT_THREAD_RUNNING →
  rt_thread_suspend t k = Ok (RT_EOK, suspended t th k).
Proof.
  intros H Ht Hs. assert (live th) as Hl by (destruct Hs; unfold live; auto).
  pose proof (live_not_null _ _ _ H Ht) as Hn.
  destruct (live_timer _ _ _ H Ht Hl) as (tm & Htm & Htok).
  assert (has_flag tm RT_TIMER_FLAG_ACTIVATED = false) as Hna.
  { eapply ti_inactive; [apply H|done| |done|done]. by destruct Hs as [-> | ->]. }
  apply wp_exact. unfold rt_thread_suspend. ksteps.
  eapply assert_thread_ok; [done|done|by eapply live_type|]. ksteps. wp_if as Hd; [naive_solver|].
  ksteps. apply wp_when.
  - intros Hr. ksteps; [ksimpl; by eapply (si_running _ _ _ _ _ (ki_sched _ H))|].
    eapply wp_eq; [by apply remove_thread_eq with (th := th)|]. ksteps.
    eapply wp_eq; [by apply timer_stop_idle with tm|]. ksteps. by destruct k.
  - intros Hr. ksteps. eapply wp_eq; [by apply remove_thread_eq with (th := th)|]. ksteps.
    eapply wp_eq; [by apply timer_stop_idle with tm|]. ksteps. by destruct k.
Qed.

Lemma suspended_inv t th k :
  kernel_inv k → threads k !! t = Some th → live th → stat_of th ≠ RT_THREAD_SUSPEND →
  kernel_inv (suspended t th k).
Proof.
  intros H Ht Hl Hs. pose proof (live_ok _ _ _ H Ht Hl) as Hok.
  pose proof (live_not_null _ _ _ H Ht) as Hn.
  constructor; unfold suspended, removed; ksimpl.
  - eapply inv_back.
    + apply inv_update; [|done]. eapply inv_remove; [apply H|by left|done|apply Hok|apply Hok].
    + apply lookup_insert_eq.
    + by rewrite stat_of_with_stat.
    + intros _. by eapply thread_ok_same; [|exact Hok].
    + by rewrite stat_of_with_stat.
  - eapply ti_thread_change; [apply H|done|by left|]. left. by rewrite stat_of_with_stat.
Qed.

(** *** Resuming *)
Lemma removed_out t qs q : t ∉ qof (remove_from_queues t qs) q.
Proof. rewrite qof_remove, list_elem_of_filter. naive_solver. Qed.

Lemma stopped_sched r tm k :
  threads (stopped r tm k) = threads k ∧ queues (stopped r tm k) = queues k ∧
  rt_current_thread (stopped r tm k) = rt_current_thread k ∧
  rt_thread_ready_priority_group (stopped r tm k) = rt_thread_ready_priority_group k.
Proof. unfold stopped. by destruct (has_flag _ _). Qed.

Lemma stopped_primask r tm k p :
  stopped r tm (k <| primask := p |>) = (stopped r tm k) <| primask := p |>.
Proof. unfold stopped. by destruct (has_flag _ _). Qed.

(** [rt_schedule_insert_thread] on a thread that is in no list. *)
Definition inserted (t : addr) (th : rt_thread) (k : kernel) : kernel :=
  if decide (t = rt_current_thread k)
  then k <| threads := <[t := with_stat RT_THREAD_RUNNING th]> (threads k) |>
  else made_ready t th k.
Lemma insert_eq t th k :
  t ≠ RT_NULL → threads k !! t = Some th → (∀ q, t ∉ qof (queues k) q) →
  rt_schedule_insert_thread t k = Ok (tt, inserted t th k).
Proof.
  intros Hn Ht Hout. unfold inserted. case_decide as Hc.
  - subst t. by apply insert_thread_current_eq.
  - by apply insert_thread_eq.
Qed.

Definition resumed (t : addr) (th : rt_thread) (tm : rt_timer) (k : kernel) : kernel :=
  inserted t th (stopped (ThreadTimer t) tm
    (k <| queues := remove_from_queues t (queues k) |>)).

Lemma inserted_inv t th k :
  sched_inv (Some t) k → threads k !! t = Some th → thread_ok th →
  sched_inv None (inserted t th k).
Proof.
  intros H Ht Hok.
  assert (t ≠ RT_NULL) as Hn by (intros ->; by rewrite (si_null _ _ _ _ _ H) in Ht).
  unfold inserted. case_decide as Hc; ksimpl.
  - eapply inv_back; [by apply inv_update|apply lookup_insert_eq|by rewrite stat_of_with_stat| |done].
    intros _. by eapply thread_ok_same; [|exact Hok].
  - unfold made_ready. ksimpl. unfold queue. ksimpl.
    apply (inv_update _ _ _ _ _ (with_stat RT_THREAD_READY th)) in H; [|done].
    apply (inv_ready _ _ _ _ _ (with_stat RT_THREAD_READY th) H).
    + apply lookup_insert_eq.
    + by rewrite stat_of_with_stat.
    + by eapply thread_ok_same; [|exact Hok].
Qed.

Lemma resume_eq t th k :
  kernel_inv k → threads k !! t = Some th → stat_of th = RT_THREAD_SUSPEND →
  ∃ tm, timers k !! ThreadTimer t = Some tm ∧ thread_timer_ok t tm ∧
    rt_thread_resume t k = Ok (RT_EOK, resumed t th tm k).
Proof.
  intros H Ht Hs. assert (live th) as Hl by (right; by left).
  pose proof (live_not_null _ _ _ H Ht) as Hn.
  destruct (live_timer _ _ _ H Ht Hl) as (tm & Htm & Htok). exists tm. split; [done|].
  split; [done|]. apply wp_exact. unfold rt_thread_resume. ksteps.
  eapply assert_thread_ok; [done|done|by eapply live_type|]. ksteps. wp_if as Hd; [done|].
  ksteps. eapply wp_eq; [apply timer_stop_eq with (tm := tm); [done|apply Htok|done]|]. ksteps.
  set (k1 := k <| queues := remove_from_queues t (queues k) |>).
  assert (∀ p, (stopped (ThreadTimer t) tm (k <| primask := 1 |>
    <| queues := remove_from_queues t (queues (k <| primask := 1 |>)) |>)) <| primask := p |>
    = (stopped (ThreadTimer t) tm k1) <| primask := p |>) as ->.
  { intros p. unfold stopped. by destruct (has_flag _ _). }
  destruct (stopped_sched (ThreadTimer t) tm k1) as (E1 & E2 & E3 & E4).
  eapply wp_eq; [apply insert_eq with (th := th)|].
  - done.
  - ksimpl. by rewrite E1.
  - ksimpl. rewrite E2. intros q. apply removed_out.
  - ksteps. split; [done|]. unfold resumed. fold k1. unfold inserted. ksimpl.
    rewrite E3. unfold made_ready, queue, stopped.
    case_decide; destruct (has_flag tm _); by destruct k.
Qed.

Definition inserted_stat (c t : addr) : Z :=
  if decide (t = c) then RT_THREAD_RUNNING else RT_THREAD_READY.

Lemma inserted_threads t th k :
  threads (inserted t th k) =
  <[t := with_stat (inserted_stat (rt_current_thread k) t) th]> (threads k).
Proof. unfold inserted, inserted_stat. by case_decide. Qed.
Lemma inserted_rest t th k :
  timers (inserted t th k) = timers k ∧ timer_queues (inserted t th k) = timer_queues k ∧
  rt_current_thread (inserted t th k) = rt_current_thread k.
Proof. unfold inserted. by case_decide. Qed.
Lemma inserted_queue t th k q :
  ¬ ready_list q → qof (queues (inserted t th k)) q = qof (queues k) q.
Proof.
  intros Hq. unfold inserted. case_decide; [done|]. apply qof_insert_ne. by intros <-.
Qed.
Lemma inserted_stat_of c t th :
  stat_of (with_stat (inserted_stat c t) th) = inserted_stat c t.
Proof. unfold inserted_stat. case_decide; by rewrite stat_of_with_stat. Qed.
Lemma inserted_stat_live c t :
  inserted_stat c t = RT_THREAD_RUNNING ∨ inserted_stat c t = RT_THREAD_READY.
Proof. unfold inserted_stat. case_decide; auto. Qed.

Lemma resumed_inv t th tm k :
  kernel_inv k → threads k !! t = Some th → stat_of th = RT_THREAD_SUSPEND →
  timers k !! ThreadTimer t = Some tm → kernel_inv (resumed t th tm k).
Proof.
  intros H Ht Hs Htm. assert (live th) as Hl by (right; by left).
  pose proof (live_ok _ _ _ H Ht Hl) as Hok. unfold resumed.
  set (k0 := k <| queues := _ |>). set (k1 := stopped _ _ k0).
  destruct (stopped_sched (ThreadTimer t) tm k0) as (E1 & E2 & E3 & E4). fold k1 in E1, E2, E3, E4.
  constructor.
  - apply inserted_inv; [|by rewrite E1|done]. rewrite E1, E2, E3, E4. unfold k0. ksimpl.
    eapply inv_dequeue; [apply H|done|by rewrite Hs].
  - destruct (inserted_rest t th k1) as (-> & -> & _). rewrite inserted_threads.
    assert (TimerInv (threads k) (timers k1) (timer_queues k1)) as H1.
    { apply stopped_inv; [apply H|done]. }
    rewrite E1. eapply ti_thread_change; [done|done|by left|]. right.
    eapply stopped_not_pending; [apply H|done|]. by intros [?|?].
Qed.

(** *** Fields of a thread that the invariant does not read *)
Lemma kernel_inv_thread k t th th' :
  kernel_inv k → threads k !! t = Some th → stat_of th' = stat_of th →
  current_priority th' = current_priority th → (thread_ok th → thread_ok th') →
  kernel_inv (k <| threads := <[t := th']> (threads k) |>).
Proof.
  intros H Ht Hs Hp Hok. constructor; ksimpl.
  - by eapply inv_fields; [apply H|..].
  - eapply ti_thread_change; [apply H|done|..].
    + unfold live. rewrite Hs. by left.
    + rewrite Hs. destruct (decide (stat_of th = RT_THREAD_SUSPEND)) as [|Hn]; [by left|right].
      intros Hin. destruct (ti_susp _ _ _ (ki_timer _ H) _ Hin) as (th1 & ? & ?). congruence.
Qed.

Lemma current_ok_thread k t th th' :
  current_ok k → threads k !! t = Some th → stat_of th' = stat_of th →
  current_ok (k <| threads := <[t := th']> (threads k) |>).
Proof.
  intros (cth & Hc & Hs) Ht He. unfold current_ok. ksimpl.
  destruct (decide (rt_current_thread k = t)) as [<-|].
  - rewrite lookup_insert_eq. assert (cth = th) as -> by congruence. exists th'. by rewrite He.
  - rewrite lookup_insert_ne by done. eauto.
Qed.

(** *** Rescheduling keeps the whole invariant *)
Lemma frame_fields k k' :
  sched_frame k k' →
  timers k' = timers k ∧ timer_queues k' = timer_queues k ∧ object_lists k' = object_lists k ∧
  semaphores k' = semaphores k ∧ mutexes k' = mutexes k ∧ events k' = events k ∧
  mailboxes k' = mailboxes k ∧ mqueues k' = mqueues k ∧ rt_tick k' = rt_tick k ∧
  primask k' = primask k ∧ rt_scheduler_lock_nest k' = rt_scheduler_lock_nest k ∧
  rt_interrupt_nest k' = rt_interrupt_nest k ∧ soft_timer_status k' = soft_timer_status k ∧
  timer_thread k' = timer_thread k.
Proof.
  intros [He _ _]. destruct k, k'. unfold erase_sched in He. simpl in *.
  injection He. intros. subst. by repeat split.
Qed.

Lemma frame_thread k k' t th :
  sched_frame k k' → threads k !! t = Some th →
  ∃ th', threads k' !! t = Some th' ∧ thread_core th' = thread_core th.
Proof.
  intros [_ Hc _] Ht. apply (f_equal (.!! t)) in Hc. rewrite !lookup_fmap, Ht in Hc.
  destruct (threads k' !! t) as [th'|]; [|done]. apply (inj Some) in Hc. eauto.
Qed.
Lemma frame_thread_back k k' t th' :
  sched_frame k k' → threads k' !! t = Some th' →
  ∃ th, threads k !! t = Some th ∧ thread_core th' = thread_core th.
Proof.
  intros [_ Hc _] Ht. apply (f_equal (.!! t)) in Hc. rewrite !lookup_fmap, Ht in Hc.
  destruct (threads k !! t) as [th|]; [|done]. apply (inj Some) in Hc. eauto.
Qed.

Lemma core_class th th' : thread_core th' = thread_core th → stat_class th' = stat_class th.
Proof. intros H. by apply (f_equal stat) in H. Qed.
Lemma class_suspend th : stat_class th = RT_THREAD_SUSPEND ↔ stat_of th = RT_THREAD_SUSPEND.
Proof. unfold stat_class. case_decide as Hd; [|done]. by rewrite Hd. Qed.
Lemma class_live th :
  live th ↔ stat_class th = RT_THREAD_READY ∨ stat_class th = RT_THREAD_SUSPEND.
Proof. unfold live, stat_class. case_decide as Hd; [rewrite Hd|]; naive_solver. Qed.
Lemma core_suspend th th' :
  thread_core th' = thread_core th →
  stat_of th' = RT_THREAD_SUSPEND ↔ stat_of th = RT_THREAD_SUSPEND.
Proof. intros Hc%core_class. by rewrite <-!class_suspend, Hc. Qed.
Lemma core_live th th' : thread_core th' = thread_core th → live th' ↔ live th.
Proof. intros Hc%core_class. by rewrite !class_live, Hc. Qed.

Lemma timer_inv_frame k k' : sched_frame k k' → timer_inv k → timer_inv k'.
Proof.
  intros Hf H. destruct (frame_fields _ _ Hf) as (-> & -> & _).
  constructor; try apply H.
  - intros t th' Ht Hl. destruct (frame_thread_back _ _ _ _ Hf Ht) as (th & Ht' & Hc).
    apply (core_live _ _ Hc) in Hl. by eapply (ti_thread _ _ _ H).
  - intros t Hin. destruct (ti_susp _ _ _ H _ Hin) as (th & Ht & Hs).
    destruct (frame_thread _ _ _ _ Hf Ht) as (th' & Ht' & Hc). exists th'. split; [done|].
    by apply (core_suspend _ _ Hc).
Qed.

Lemma schedule_keeps k :
  kernel_inv k → current_ok k → wp rt_schedule k (λ _ k', scheduled k k' ∧ kernel_inv k').
Proof.
  intros H Hc. eapply wp_mono; [apply rt_schedule_spec; [apply H|done]|].
  intros ? k' Hs. split; [done|]. constructor; [apply Hs|].
  eapply timer_inv_frame; [apply Hs|apply H].
Qed.

(** *** [rt_thread_timeout] *)
Definition timed_out (t : addr) (th : rt_thread) (k : kernel) : kernel :=
  inserted t (th <| error := - RT_ETIMEOUT |>)
    (k <| threads := <[t := th <| error := - RT_ETIMEOUT |>]> (threads k) |>
       <| queues := remove_from_queues t (queues k) |>).

Lemma timed_out_inv t th k :
  kernel_inv k → threads k !! t = Some th → stat_of th = RT_THREAD_SUSPEND →
  ThreadTimer t ∉ tqueue k QTimer → kernel_inv (timed_out t th k).
Proof.
  intros H Ht Hs Hp. assert (live th) as Hl by (right; by left).
  pose proof (live_ok _ _ _ H Ht Hl) as Hok. pose proof (live_not_null _ _ _ H Ht) as Hn.
  unfold timed_out. set (k1 := k <| threads := _ |> <| queues := _ |>). constructor.
  - apply inserted_inv.
    + unfold k1. ksimpl. apply inv_update; [|done].
      eapply inv_dequeue; [apply H|done|by rewrite Hs].
    + apply lookup_insert_eq.
    + by destruct Hok.
  - destruct (inserted_rest t (th <| error := - RT_ETIMEOUT |>) k1) as (-> & -> & _).
    rewrite inserted_threads. unfold k1. ksimpl. rewrite insert_insert_eq.
    eapply ti_thread_change; [apply H|done|by left|by right].
Qed.

Lemma current_ok_inserted t th k :
  current_ok k → (t = rt_current_thread k → threads k !! t = Some th) →
  current_ok (inserted t th k).
Proof.
  intros (cth & Hc & Hs & Hi) Ht. unfold current_ok.
  destruct (inserted_rest t th k) as (_ & _ & ->). rewrite inserted_threads.
  destruct (decide (t = rt_current_thread k)) as [->|].
  - rewrite lookup_insert_eq. eexists; split; [done|]. rewrite inserted_stat_of.
    unfold inserted_stat. by rewrite decide_True.
  - rewrite lookup_insert_ne by done. eauto.
Qed.

Lemma thread_timeout_spec t th k :
  kernel_inv k → current_ok k → threads k !! t = Some th → stat_of th = RT_THREAD_SUSPEND →
  ThreadTimer t ∉ tqueue k QTimer →
  wp (rt_thread_timeout t) k (λ _ k',
    current_ok (timed_out t th k) ∧ scheduled (timed_out t th k) k' ∧ kernel_inv k').
Proof.
  intros H Hc Ht Hs Hp. assert (live th) as Hl by (right; by left).
  pose proof (live_not_null _ _ _ H Ht) as Hn.
  assert (current_ok (timed_out t th k)) as Hc'.
  { apply current_ok_inserted; [|intros _; apply lookup_insert_eq].
    destruct Hc as (cth & Hct & Hcs & Hci). unfold current_ok. ksimpl.
    destruct (decide (rt_current_thread k = t)) as [E|].
    - rewrite <-E, lookup_insert_eq. eexists; split; [done|].
      rewrite E in Hct. assert (cth = th) as -> by congruence. done.
    - rewrite lookup_insert_ne by done. eauto. }
  unfold rt_thread_timeout. ksteps; [by eapply live_type|]. ksteps.
  eapply wp_eq; [apply insert_eq with (th := th <| error := - RT_ETIMEOUT |>)|].
  - done.
  - apply lookup_insert_eq.
  - ksimpl. intros q. apply removed_out.
  - eapply wp_mono; [apply (schedule_keeps (timed_out t th k))|auto]; [by apply timed_out_inv|done].
Qed.

(** *** Arming a suspended thread's timer *)
Record armed (t : addr) (time : Z) (k k' : kernel) : Prop := {
  ar_inv : kernel_inv k';
  ar_rest : k' <| timers := ∅ |> <| timer_queues := ∅ |> = k <| timers := ∅ |> <| timer_queues := ∅ |>;
  ar_pending : ThreadTimer t ∈ tqueue k' QTimer;
  ar_remains : remains (timers k') (rt_tick k') (ThreadTimer t) = time;
  ar_others : ∀ r, r ≠ ThreadTimer t → timers k' !! r = timers k !! r;
  ar_sorted : timers_sorted (timers k) (rt_tick k) (tqueue k QTimer) →
    timers_sorted (timers k') (rt_tick k') (tqueue k' QTimer);
  ar_listed : ∀ r, r ≠ ThreadTimer t → r ∈ tqueue k' QTimer ↔ r ∈ tqueue k QTimer;
  ar_check : tqueue k QCheck = [] → tqueue k' QCheck = []
}.

Lemma timer_start_hard r tm k k' :
  timer_activate r k = Ok (tt, k') → timers k' !! r = Some tm →
  has_flag tm RT_TIMER_FLAG_SOFT_TIMER = false → rt_timer_start r k = Ok (RT_EOK, k').
Proof.
  intros Heq Hr Hh. apply wp_exact. unfold rt_timer_start. ksteps.
  eapply wp_eq; [exact Heq|]. ksteps. rewrite Hh. by ksteps.
Qed.

Lemma started_hard now tm :
  has_flag (started now tm) RT_TIMER_FLAG_SOFT_TIMER = has_flag tm RT_TIMER_FLAG_SOFT_TIMER.
Proof.
  unfold started. rewrite has_set_other by done.
  transitivity (has_flag (flag_clear tm RT_TIMER_FLAG_ACTIVATED) RT_TIMER_FLAG_SOFT_TIMER);
    [done|]. by rewrite has_clear_other.
Qed.

Lemma timers_sorted_touch tms r tm tm' now l :
  tms !! r = Some tm → timeout_tick tm' = timeout_tick tm →
  timers_sorted tms now l → timers_sorted (<[r := tm']> tms) now l.
Proof.
  intros Hr Ht. unfold timers_sorted.
  assert (∀ r', remains (<[r := tm']> tms) now r' = remains tms now r') as He.
  { intros r'. unfold remains. destruct (decide (r' = r)) as [->|].
    - rewrite lookup_insert_eq, Hr. unfold remaining. by rewrite Ht.
    - by rewrite lookup_insert_ne. }
  intros [Hs Hf]. split.
  - clear Hf. induction Hs; constructor; [done|]. eapply Forall_impl; [done|].
    intros r'. by rewrite !He.
  - eapply Forall_impl; [done|]. intros r'. by rewrite He.
Qed.

Lemma arm_timer_spec t th time k :
  kernel_inv k → threads k !! t = Some th → stat_of th = RT_THREAD_SUSPEND →
  0 ≤ time < RT_TICK_MAX / 2 →
  wp (start_thread_timer t time) k (λ _ k', armed t time k k').
Proof.
  intros H Ht Hs Htime. destruct (live_timer _ _ _ H Ht) as (tm & Htm & Hok); [by right; left|].
  assert (u32 time = time) as Hu.
  { apply wrapU_small. change (RT_TICK_MAX / 2) with 2147483647 in Htime.
    change (2 ^ 32) with 4294967296. lia. }
  set (tm1 := tm <| tm_init_tick := time |>).
  assert (thread_timer_ok t tm1) as Hok1 by by destruct Hok.
  set (k1 := k <| timers := <[ThreadTimer t := tm1]> (timers k) |>).
  assert (timers k1 !! ThreadTimer t = Some tm1) as Htm1 by apply lookup_insert_eq.
  assert (timer_inv k1) as H1.
  { eapply ti_touch; [apply H|done|apply same_kind_init|done|done]. }
  assert (timer_home tm1 = QTimer) as Hh by (unfold timer_home; by rewrite (tt_hard _ _ Hok1)).
  destruct (timer_activate_spec _ _ _ H1 Htm1) as (l1 & l2 & Hl & Heq & Hinv & _);
    [apply Hok1|apply Htime|intros t' [= <-]; eauto|].
  unfold start_thread_timer. ksteps.
  eapply wp_eq; [apply control_set_time_eq with (tm := tm); [done|apply Hok|done]|].
  rewrite Hu. fold tm1 k1. ksteps.
  eapply wp_eq; [eapply timer_start_hard; [exact Heq|apply lookup_insert_eq|]|].
  { rewrite started_hard. apply Hok1. }
  ksteps. rewrite Hh in *. constructor.
  - constructor; [apply H|exact Hinv].
  - done.
  - unfold tqueue. ksimpl. rewrite tqof_insert_eq. apply elem_of_app. right. left.
  - ksimpl. unfold remains. rewrite lookup_insert_eq. apply remaining_started.
    simpl. change (RT_TICK_MAX / 2) with 2147483647 in Htime. change (2 ^ 32) with 4294967296. lia.
  - intros r Hr. unfold k1. ksimpl. by rewrite !lookup_insert_ne.
  - intros Hsorted. apply (timers_sorted_touch _ (ThreadTimer t) tm tm1) in Hsorted; [|done|done].
    epose proof (timer_activate_sorted _ _ k1 H1 Htm1 (tt_type _ _ Hok1) Htime _) as Hw.
    rewrite Hh in Hw. specialize (Hw Hsorted). unfold wp in Hw. rewrite Heq in Hw. apply Hw.
  - intros r Hne. unfold tqueue. ksimpl. rewrite tqof_insert_eq, elem_of_app, elem_of_cons.
    assert (r ∈ l1 ++ l2 ↔ r ∈ filter (.≠ ThreadTimer t) (tqueue k QTimer)) as Hin by by rewrite <-Hl.
    rewrite elem_of_app, list_elem_of_filter in Hin. unfold tqueue in Hin. tauto.
  - intros E. unfold tqueue. ksimpl. rewrite tqof_insert_ne, tqof_remove by done.
    unfold k1, tqueue in *. ksimpl. by rewrite E.
    Unshelve. intros t' [= <-]. eauto.
Qed.

(** *** Blocking the running thread *)

(** The thread on the processor, running. *)
Definition running (k : kernel) (th : rt_thread) : Prop :=
  threads k !! rt_current_thread k = Some th ∧ stat_of th = RT_THREAD_RUNNING.

Lemma running_ok k th : running k th → current_ok k.
Proof. intros [Ht Hs]. exists th. by rewrite Hs. Qed.
Lemma running_live k th : running k th → live th.
Proof. intros [_ Hs]. by right; right. Qed.

(** *** The best ready thread runs *)
Section Best.
Context (k k' : kernel) (th : rt_thread).
Context (H : sched_inv None k) (Hsc : scheduled k k').
Context (Ht : threads k !! rt_current_thread k = Some th).
Context (Hl : rt_scheduler_lock_nest k = 0) (Hg : rt_thread_ready_priority_group k ≠ 0).

(** The chosen thread is running, and its priority is at least as good as
    that of the best ready list and as the previous thread's. *)
Lemma chosen_running :
  ∃ th' p, running k' th' ∧ current_priority th' ≤ p ∧
    (∀ p', 0 ≤ p' < p → queue k (QReady p') = []) ∧
    (stat_of th = RT_THREAD_RUNNING → current_priority th' ≤ current_priority th).
Proof.
  destruct (sc_switch _ _ Hsc th Hl Hg Ht) as (best & p & Hb & Hcur).
  destruct (sc_cur _ _ Hsc) as (th' & Ht' & Hnr & Hni).
  destruct (best_thread _ _ _ _ H Hb) as (bth & Hbt & Hbs & Hbp & _).
  destruct (frame_thread_back _ _ _ _ (sc_frame _ _ Hsc) Ht') as (th0 & Ht0 & Hc).
  pose proof (f_equal current_priority Hc) as Hp. simpl in Hp.
  pose proof (core_class _ _ Hc) as Hcl. unfold stat_class in Hcl.
  exists th', p. destruct Hb as (_ & _ & Hlow).
  assert (stat_of th' = RT_THREAD_RUNNING ∧ current_priority th' ≤ p ∧
    (stat_of th = RT_THREAD_RUNNING → current_priority th' ≤ current_priority th)) as (? & ? & ?).
  { rewrite Hcur in Ht0. destruct (decide (keeps th p)) as [[Hs Hk]|Hk].
    - assert (th0 = th) as -> by congruence. rewrite (decide_True _ _ Hs) in Hcl.
      split; [|lia]. destruct (decide (stat_of th' = RT_THREAD_RUNNING)); congruence.
    - assert (th0 = bth) as -> by congruence.
      rewrite Hbs in Hcl. rewrite (decide_False (P := RT_THREAD_READY = RT_THREAD_RUNNING)) in Hcl by done.
      split; [destruct (decide (stat_of th' = RT_THREAD_RUNNING)); congruence|].
      split; [lia|]. intros Hs. unfold keeps in Hk.
      destruct (decide (current_priority th < p)); [tauto|]. lia. }
  split_and!; try done.
Qed.

Lemma chosen_best :
  ∃ th', running k' th' ∧ ∀ t tht, threads k' !! t = Some tht →
    stat_of tht = RT_THREAD_READY → current_priority th' ≤ current_priority tht.
Proof.
  destruct chosen_running as (th' & p & Hr & Hp & Hlow & Hth). exists th'. split; [done|].
  intros t tht Ht' Hs. destruct (frame_thread_back _ _ _ _ (sc_frame _ _ Hsc) Ht') as (th0 & Ht0 & Hc).
  pose proof (f_equal current_priority Hc) as Hpr. simpl in Hpr. rewrite Hpr.
  pose proof (core_class _ _ Hc) as Hcl. unfold stat_class in Hcl.
  rewrite (decide_False (P := stat_of tht = RT_THREAD_RUNNING)) in Hcl by by rewrite Hs. rewrite Hs in Hcl.
  destruct (decide (stat_of th0 = RT_THREAD_RUNNING)) as [Hrun|Hrun].
  - pose proof (si_running _ _ _ _ _ H _ _ (λ e, match e with end) Ht0 Hrun) as ->.
    assert (th0 = th) as -> by congruence. by apply Hth.
  - assert (live th0) as Hlive by by left.
    pose proof (ok_prio _ (si_ok _ _ _ _ _ H _ _ (λ e, match e with end) Ht0 Hlive)) as [Hpos _].
    destruct (decide (current_priority th0 < p)) as [Hlt|]; [|lia].
    assert (t ∈ queue k (QReady (current_priority th0))) as Hin.
    { apply (si_ready _ _ _ _ _ H); [done|]. by exists th0. }
    rewrite Hlow in Hin by lia. by apply not_elem_of_nil in Hin.
Qed.
End Best.

(** No thread that is ready outranks the one on the processor. *)
Definition foremost (k : kernel) : Prop :=
  ∀ th t tht, threads k !! rt_current_thread k = Some th → threads k !! t = Some tht → stat_of tht = RT_THREAD_READY →
    stat_of th = RT_THREAD_RUNNING ∧ current_priority th ≤ current_priority tht.

Lemma scheduled_foremost k k' :
  kernel_inv k → current_ok k → scheduled k k' → rt_scheduler_lock_nest k = 0 → foremost k'.
Proof.
  intros H (th & Ht & _) Hsc Hl. destruct (decide (rt_thread_ready_priority_group k = 0)) as [Hg|Hg].
  - rewrite (sc_idle _ _ Hsc (or_intror Hg)). intros th' t tht _ Htt Hs. exfalso.
    pose proof (ki_sched _ H) as Hi. assert (live tht) as Hlive by by left.
    pose proof (ok_prio _ (si_ok _ _ _ _ _ Hi _ _ (λ e, match e with end) Htt Hlive)) as Hp.
    assert (t ∈ queue k (QReady (current_priority tht))) as Hin.
    { apply (si_ready _ _ _ _ _ Hi); [done|]. by exists tht. }
    assert (queue k (QReady (current_priority tht)) ≠ []) as Hne by (intros E; rewrite E in Hin; by apply not_elem_of_nil in Hin).
    apply (si_group _ _ _ _ _ Hi) in Hne; [|done]. rewrite Hg, Z.testbit_0_l in Hne. done.
  - destruct (chosen_best k k' th (ki_sched _ H) Hsc Ht Hl Hg) as (th' & [Ht' Hs'] & Hbest).
    intros th0 t tht Ht0 Htt Hs. assert (th0 = th') as -> by congruence. split; [done|by apply (Hbest t)].
Qed.
(** The order depends on states and priorities only. *)
Lemma foremost_ext k k' :
  rt_current_thread k' = rt_current_thread k →
  (∀ t th', threads k' !! t = Some th' → ∃ th, threads k !! t = Some th ∧ stat_of th' = stat_of th ∧
    current_priority th' = current_priority th) → foremost k → foremost k'.
Proof.
  intros Ec Hth Hf th t tht Ht Htt Hs. rewrite Ec in Ht.
  destruct (Hth _ _ Ht) as (th0 & Ht0 & Es0 & Ep0). destruct (Hth _ _ Htt) as (th1 & Ht1 & Es1 & Ep1).
  rewrite Es0, Ep0, Ep1. rewrite Es1 in Hs. by apply (Hf th0 t th1).
Qed.
Lemma foremost_update k th th' :
  threads k !! rt_current_thread k = Some th → stat_of th' = stat_of th → current_priority th' = current_priority th →
  foremost k → foremost (k <| threads := <[rt_current_thread k := th']> (threads k) |>).
Proof.
  intros Ht Es Ep. apply foremost_ext; [done|]. intros t tht Htt. simpl in Htt.
  apply lookup_insert_Some in Htt as [[<- <-]|[_ Htt]]; eauto.
Qed.

Lemma suspended_thread t th k :
  threads (suspended t th k) !! t = Some (with_stat RT_THREAD_SUSPEND th).
Proof. apply lookup_insert_eq. Qed.

Lemma current_ok_suspended k th :
  current_ok (suspended (rt_current_thread k) th k).
Proof. eexists; split; [apply suspended_thread|]. by rewrite stat_of_with_stat. Qed.

Lemma armed_fields t time k k' :
  armed t time k k' →
  threads k' = threads k ∧ queues k' = queues k ∧ rt_current_thread k' = rt_current_thread k ∧
  rt_tick k' = rt_tick k ∧ rt_scheduler_lock_nest k' = rt_scheduler_lock_nest k ∧
  rt_thread_ready_priority_group k' = rt_thread_ready_priority_group k ∧
  semaphores k' = semaphores k ∧ mutexes k' = mutexes k ∧ events k' = events k ∧
  mailboxes k' = mailboxes k ∧ mqueues k' = mqueues k ∧ rt_interrupt_nest k' = rt_interrupt_nest k ∧
  primask k' = primask k ∧ timer_thread k' = timer_thread k.
Proof.
  intros [_ He _ _ _ _ _ _]. destruct k, k'. simpl in *. injection He. intros. subst. by repeat split.
Qed.

Lemma current_ok_armed t time k k' : armed t time k k' → current_ok k → current_ok k'.
Proof.
  intros Ha. destruct (armed_fields _ _ _ _ Ha) as (Et & _ & Ec & _).
  unfold current_ok. by rewrite Et, Ec.
Qed.

(** A thread that [rt_schedule] did not choose keeps its suspended state. *)
Lemma scheduled_suspended k k' t th :
  scheduled k k' → threads k !! t = Some th → stat_of th = RT_THREAD_SUSPEND →
  ∃ th', threads k' !! t = Some th' ∧ stat_of th' = RT_THREAD_SUSPEND ∧
    thread_core th' = thread_core th.
Proof.
  intros Hs Ht Hst. destruct (frame_thread _ _ _ _ (sc_frame _ _ Hs) Ht) as (th' & Ht' & Hc).
  exists th'. split; [done|]. split; [|done]. by apply (core_suspend _ _ Hc).
Qed.

(** ** What scheduling leaves alone: the IPC objects and the counters *)
Definition erase_threads (k : kernel) : kernel :=
  k <| threads := ∅ |> <| timers := ∅ |> <| queues := ∅ |> <| timer_queues := ∅ |>
    <| rt_thread_ready_priority_group := 0 |> <| rt_current_thread := 0 |>
    <| rt_current_priority := 0 |>.
Definition objs_same (k k' : kernel) : Prop := erase_threads k' = erase_threads k.
#[global] Instance objs_same_equiv : Equivalence objs_same.
Proof.
  unfold objs_same. split; [done|by intros ? ? ?|]. intros ? ? ? H1 H2. by rewrite H2, H1.
Qed.

Lemma objs_fields k k' :
  objs_same k k' →
  semaphores k' = semaphores k ∧ mutexes k' = mutexes k ∧ events k' = events k ∧
  mailboxes k' = mailboxes k ∧ mqueues k' = mqueues k ∧ rt_tick k' = rt_tick k ∧
  primask k' = primask k ∧ rt_scheduler_lock_nest k' = rt_scheduler_lock_nest k ∧
  rt_interrupt_nest k' = rt_interrupt_nest k ∧ object_lists k' = object_lists k ∧
  soft_timer_status k' = soft_timer_status k ∧ timer_thread k' = timer_thread k.
Proof.
  unfold objs_same, erase_threads. intros He. destruct k, k'. simpl in *.
  injection He. intros. subst. by repeat split.
Qed.

Lemma objs_fields_rest k k' :
  objs_same k k' →
  mempools k' = mempools k ∧ devices k' = devices k ∧ pool_words k' = pool_words k ∧ rt_errno k' = rt_errno k.
Proof.
  unfold objs_same, erase_threads. intros He. destruct k, k'. simpl in *.
  injection He. intros. subst. by repeat split.
Qed.

Lemma objs_scheduled k k' : scheduled k k' → objs_same k k'.
Proof.
  intros Hs. destruct (sc_frame _ _ Hs) as [He _ _ _]. unfold objs_same, erase_threads.
  unfold erase_sched in He. destruct k, k'. simpl in *. injection He. intros. by subst.
Qed.
Lemma objs_armed t time k k' : armed t time k k' → objs_same k k'.
Proof.
  intros [_ He _ _ _ _]. unfold objs_same, erase_threads. destruct k, k'. simpl in *.
  injection He. intros. by subst.
Qed.
Lemma objs_inserted t th k : objs_same k (inserted t th k).
Proof. unfold inserted. by case_decide. Qed.
Lemma objs_stopped r tm k : objs_same k (stopped r tm k).
Proof. unfold stopped. by destruct (has_flag _ _). Qed.
Lemma objs_resumed t th tm k : objs_same k (resumed t th tm k).
Proof.
  unfold resumed. etransitivity; [|apply objs_inserted]. etransitivity; [|apply objs_stopped]. done.
Qed.

Lemma objs_primask k k' p : objs_same k k' → objs_same (k <| primask := p |>) (k' <| primask := p |>).
Proof.
  unfold objs_same, erase_threads. intros He. destruct k, k'. simpl in *.
  injection He. intros. by subst.
Qed.

Lemma suspended_queue k th q :
  kernel_inv k → running k th → 
  queue (suspended (rt_current_thread k) th k) q = queue k q.
Proof.
  intros H [Ht Hs]. unfold queue, suspended, removed. ksimpl. apply qof_remove_id.
  by eapply running_unlinked; [apply H|..].
Qed.

(** The caller of [rt_thread_sleep] ends up suspended, its timer pending for
    exactly [tick] ticks among the timers that were pending before. *)
Record asleep (tick : Z) (k k' : kernel) : Prop := {
  as_inv : kernel_inv k';
  as_cur : current_ok k';
  as_tick : rt_tick k' = rt_tick k;
  as_thread : ∃ th', threads k' !! rt_current_thread k = Some th' ∧ stat_of th' = RT_THREAD_SUSPEND;
  as_pending : ThreadTimer (rt_current_thread k) ∈ tqueue k' QTimer;
  as_remains : remains (timers k') (rt_tick k') (ThreadTimer (rt_current_thread k)) = tick;
  as_sorted : timers_sorted (timers k) (rt_tick k) (tqueue k QTimer) →
    timers_sorted (timers k') (rt_tick k') (tqueue k' QTimer);
  as_listed : ∀ r, r ≠ ThreadTimer (rt_current_thread k) → r ∈ tqueue k' QTimer ↔ r ∈ tqueue k QTimer;
  as_timers : ∀ r, r ≠ ThreadTimer (rt_current_thread k) → timers k' !! r = timers k !! r;
  as_check : tqueue k QCheck = [] → tqueue k' QCheck = [];
  as_objs : objs_same k k';
  as_queues : ∀ q, ¬ ready_list q → queue k' q = queue k q;
  as_threads : ∀ t t_th, t ≠ rt_current_thread k → threads k !! t = Some t_th →
    ∃ th', threads k' !! t = Some th' ∧ thread_core th' = thread_core t_th;
  as_foremost : rt_scheduler_lock_nest k = 0 → foremost k'
}.

Lemma sleep_spec k th tick :
  kernel_inv k → running k th → 0 ≤ tick < RT_TICK_MAX / 2 →
  wp (rt_thread_sleep tick) k (λ r k', r = Park (rt_current_thread k) ∧ asleep tick k k').
Proof.
  intros H Hr Htick. pose proof Hr as [Ht Hs]. set (cur := rt_current_thread k) in *.
  pose proof (running_live _ _ Hr) as Hl. pose proof (live_not_null _ _ _ H Ht) as Hn.
  set (k0 := k <| primask := 1 |>). assert (kernel_inv k0) as H0 by by destruct H.
  set (k1 := suspended cur th k0).
  assert (kernel_inv k1) as H1 by (apply suspended_inv; [done..|by rewrite Hs]).
  unfold rt_thread_sleep. ksteps. fold cur.
  eapply assert_thread_ok; [done|done|by eapply (live_type k)|]. ksteps. fold k0.
  eapply wp_eq; [apply (suspend_eq cur th k0 H0 Ht); by right|]. fold k1. ksteps.
  eapply wp_mono; [eapply arm_timer_spec; [done|apply suspended_thread|by rewrite stat_of_with_stat|done]|].
  intros ? k2 Ha. ksteps. set (k3 := k2 <| primask := _ |>).
  destruct (armed_fields _ _ _ _ Ha) as (Et & Eqs & Ec & Ek & El & _).
  assert (kernel_inv k3) as H3 by (destruct Ha as [[? ?] _ _ _ _ _ _ _]; by constructor).
  assert (current_ok k3) as Hc3 by apply (current_ok_armed _ _ _ _ Ha), (current_ok_suspended k0).
  eapply wp_mono; [by apply (schedule_keeps k3)|].
  - intros ? k4 [Hsc H4]. ksteps. split; [done|].
    destruct (frame_fields _ _ (sc_frame _ _ Hsc)) as (E1 & E2 & _ & _ & _ & _ & _ & _ & E3 & _).
    assert (∀ q, tqueue k4 q = tqueue k2 q) as Eq by (intros q; unfold tqueue; by rewrite E2).
    pose proof (sc_frame _ _ Hsc) as Hf.
    constructor; fold cur; rewrite ?Eq, ?E1, ?E3; try apply Ha; [done|apply Hsc|done|..].
    + destruct (scheduled_suspended _ _ cur (with_stat RT_THREAD_SUSPEND th) Hsc)
        as (th' & Ht' & Hs' & _); [|by rewrite stat_of_with_stat|by exists th'].
      unfold k3. ksimpl. rewrite Et. apply suspended_thread.
    + etransitivity; [|by apply objs_scheduled]. etransitivity; [|apply (objs_primask k1), (objs_armed _ _ _ _ Ha)].
      by destruct k.
    + intros q Hq. unfold queue. rewrite (fr_queues _ _ Hf) by done. unfold k3. ksimpl. rewrite Eqs.
      by apply (suspended_queue k0).
    + intros t t_th Hne Ht'. apply (frame_thread _ _ t t_th Hf). unfold k3. ksimpl. rewrite Et.
      unfold k1, suspended, removed. ksimpl. by rewrite lookup_insert_ne.
    + intros Hlock. apply (scheduled_foremost k3); [exact H3|exact Hc3|done|]. change (rt_scheduler_lock_nest k2 = 0). by rewrite El.
Qed.

(** *** [rt_thread_control] with [RT_THREAD_CTRL_CHANGE_PRIORITY] *)
Lemma with_priority_ok p th :
  0 ≤ p < RT_THREAD_PRIORITY_MAX → thread_ok th →
  thread_ok (with_priority p th) ∧ current_priority (with_priority p th) = p.
Proof.
  unfold RT_THREAD_PRIORITY_MAX. intros Hp [_ _ Hs Ht].
  assert (u8 p = p) as E by (apply wrapU_small; lia).
  assert (current_priority (with_priority p th) = p) as Ep by exact E. split; [|done].
  constructor; [by rewrite Ep| |done|done].
  rewrite Ep. unfold with_priority. simpl. rewrite E.
  rewrite Z.shiftl_mul_pow2, Z.mul_1_l by lia. apply wrapU_small. split; [lia|].
  apply Z.pow_lt_mono_r; lia.
Qed.

Definition reprioritized (t : addr) (th : rt_thread) (p : Z) (k : kernel) : kernel :=
  if decide (stat_of th = RT_THREAD_READY) then
    inserted t (with_priority p th)
      ((removed t th k) <| threads := <[t := with_priority p th]> (threads k) |>)
  else k <| threads := <[t := with_priority p th]> (threads k) |>.

Lemma change_priority_eq run_cleanup t th p k :
  kernel_inv k → threads k !! t = Some th → live th →
  rt_thread_control run_cleanup t RT_THREAD_CTRL_CHANGE_PRIORITY p k =
    Ok (RT_EOK, reprioritized t th p k).
Proof.
  intros H Ht Hl. pose proof (live_not_null _ _ _ H Ht) as Hn.
  apply wp_exact. unfold rt_thread_control. ksteps.
  eapply assert_thread_ok; [done|done|by eapply (live_type k)|]. ksteps.
  rewrite decide_True by done. ksteps. unfold reprioritized.
  destruct (decide (stat_of th = RT_THREAD_READY)) as [Hr|Hr].
  - ksteps. eapply wp_eq; [by apply remove_thread_eq with (th := th)|]. ksteps.
    eapply wp_eq; [apply insert_eq with (th := with_priority p th)|]; [done|apply lookup_insert_eq| |].
    { intros q. apply removed_out. }
    ksteps. split; [done|]. unfold inserted, made_ready, queue, removed.
    ksimpl. case_decide; by destruct k.
  - ksteps. by destruct k.
Qed.

Lemma inv_priority ths qs g c t th th' :
  SchedInv None ths qs g c → ths !! t = Some th → stat_of th' = stat_of th →
  stat_of th ≠ RT_THREAD_READY → (thread_ok th → thread_ok th') →
  SchedInv None (<[t := th']> ths) qs g c.
Proof.
  intros H Ht Hs Hr Hok.
  assert (t ≠ RT_NULL) by (intros ->; by rewrite (si_null _ _ _ _ _ H) in Ht).
  assert (∀ t1 (P : rt_thread → Prop), (P th ↔ P th') →
    (∃ th1, <[t := th']> ths !! t1 = Some th1 ∧ P th1) ↔ (∃ th1, ths !! t1 = Some th1 ∧ P th1)) as Hex.
  { intros t1 P HP. destruct (decide (t1 = t)) as [->|].
    - rewrite lookup_insert_eq, Ht. naive_solver.
    - by rewrite lookup_insert_ne. }
  constructor; try apply H; try done.
  - intros t1 p _. rewrite Hex by (rewrite Hs; naive_solver). by apply H.
  - intros t1 q Hw Hq. rewrite Hex by (by rewrite Hs). by eapply si_waiting.
  - intros t1 Hq. rewrite Hex by (by rewrite Hs). by eapply si_defunct.
  - intros t1 th1 _ Ht1 Hl. destruct (decide (t1 = t)) as [->|].
    + rewrite lookup_insert_eq in Ht1. injection Ht1 as <-. apply Hok.
      eapply si_ok; [done|done|done|]. unfold live in *. by rewrite <-Hs.
    + rewrite lookup_insert_ne in Ht1 by done. by eapply si_ok.
  - intros t1 th1 _ Ht1 Hl. destruct (decide (t1 = t)) as [->|].
    + rewrite lookup_insert_eq in Ht1. injection Ht1 as <-.
      eapply si_running; [done|done|done|]. by rewrite <-Hs.
    + rewrite lookup_insert_ne in Ht1 by done. by eapply si_running.
  - rewrite lookup_insert_ne by done. apply H.
Qed.

Lemma reprioritized_inv t th p k :
  kernel_inv k → threads k !! t = Some th → live th → 0 ≤ p < RT_THREAD_PRIORITY_MAX →
  kernel_inv (reprioritized t th p k).
Proof.
  intros H Ht Hl Hp. pose proof (live_ok _ _ _ H Ht Hl) as Hok.
  pose proof (live_not_null _ _ _ H Ht) as Hn.
  destruct (with_priority_ok p th Hp Hok) as [Hok' Hp']. unfold reprioritized.
  case_decide as Hr.
  - constructor.
    + apply inserted_inv; [|apply lookup_insert_eq|done]. unfold removed. ksimpl.
      apply inv_update; [|done]. eapply inv_remove; [apply H|by left|done|apply Hok|apply Hok].
    + destruct (inserted_rest t (with_priority p th)
        ((removed t th k) <| threads := <[t := with_priority p th]> (threads k) |>)) as (-> & -> & _).
      rewrite inserted_threads. ksimpl. rewrite insert_insert_eq.
      eapply ti_thread_change; [apply H|done|by left|]. right.
      eapply ti_not_pending; [apply H|done|done|by rewrite Hr].
  - constructor; ksimpl.
    + eapply inv_priority; [apply H|done|done|done|done].
    + eapply ti_thread_change; [apply H|done|by left|].
      destruct (decide (stat_of th = RT_THREAD_SUSPEND)) as [|Hns]; [by left|right].
      by eapply ti_not_pending; [apply H|..].
Qed.
