(* ===== verification/Clock.v ===== *)
(** * Ticks, timer expiry and interrupts ([src/clock.c], [src/timer.c], [src/irq.c])

    The tick handler, the two timer check loops with their callbacks, the
    timer thread's loop body and the interrupt nesting counter.  A user
    timeout function is not kernel code: it is a parameter. *)
From stdpp Require Import sorting.
From S2P Require Import Prelude Kernel Scheduler Object Timer Thread.

(** ** [src/irq.c] *)
Definition rt_interrupt_enter : M kernel unit :=
  level ← rt_hw_interrupt_disable;
  modify (λ k, k <| rt_interrupt_nest := u8 (rt_interrupt_nest k + 1) |>);;
  rt_hw_interrupt_enable level.
Definition rt_interrupt_leave : M kernel unit :=
  level ← rt_hw_interrupt_disable;
  modify (λ k, k <| rt_interrupt_nest := u8 (rt_interrupt_nest k - 1) |>);;
  rt_hw_interrupt_enable level.
Definition rt_interrupt_get_nest : M kernel Z :=
  level ← rt_hw_interrupt_disable;
  ret ← gets rt_interrupt_nest;
  rt_hw_interrupt_enable level;;
  mret ret.

(** ** Timer expiry *)
Definition rt_tick_set (tick : Z) : M kernel unit :=
  level ← rt_hw_interrupt_disable;
  modify (λ k, k <| rt_tick := u32 tick |>);;
  rt_hw_interrupt_enable level.

Definition rt_tick_get_millisecond : M kernel Z :=
  tick ← rt_tick_get; mret (u32 (tick * (1000 / RT_TICK_PER_SECOND))).

Section Callbacks.
Context (user_timeout : Z → Z → M kernel unit).

Definition run_timeout (f : timer_fn) (param : Z) : M kernel unit :=
  match f with
  | Fn_rt_thread_timeout => rt_thread_timeout param
  | Fn_user f => user_timeout f param
  end.

(** Taking an expired timer off its list, lines 557-563 and 639-645. *)
Definition timer_take_expired (check : tqid) (r : ref) (tm : rt_timer) : M kernel unit :=
  _rt_timer_remove r;;
  (if has_flag tm RT_TIMER_FLAG_PERIODIC then mret tt
   else upd_timer r (λ tm, flag_clear tm RT_TIMER_FLAG_ACTIVATED));;
  timer_insert_head check r.

(** After the callback, lines 578-585 and 666-673. *)
Definition timer_restart_periodic (r : ref) : M kernel unit :=
  _rt_timer_remove r;;
  tm ← get_timer r;
  if has_flag tm RT_TIMER_FLAG_PERIODIC && has_flag tm RT_TIMER_FLAG_ACTIVATED then
    upd_timer r (λ tm, flag_clear tm RT_TIMER_FLAG_ACTIVATED);;
    rt_timer_start r;;
    mret tt
  else mret tt.

Definition timer_expired (current_tick : Z) (tm : rt_timer) : bool :=
  bool_decide (u32 (current_tick - timeout_tick tm) < RT_TICK_MAX / 2).

Fixpoint timer_check_loop (fuel : nat) (current_tick : Z) : M kernel unit :=
  match fuel with
  | O => fail FFuel
  | S fuel =>
      k ← gets id;
      match tqueue k QTimer with
      | [] => mret tt
      | r :: _ =>
          tm ← get_timer r;
          if timer_expired current_tick tm then
            timer_take_expired QCheck r tm;;
            tm ← get_timer r;
            run_timeout (timeout_func tm) (tm_parameter tm);;
            current_tick ← rt_tick_get;
            k ← gets id;
            if decide (tqueue k QCheck = []) then timer_check_loop fuel current_tick
            else
              timer_restart_periodic r;;
              timer_check_loop fuel current_tick
          else mret tt
      end
  end.

Definition rt_timer_check (fuel : nat) : M kernel unit :=
  set_tqueue QCheck [];;
  current_tick ← rt_tick_get;
  level ← rt_hw_interrupt_disable;
  timer_check_loop fuel current_tick;;
  rt_hw_interrupt_enable level.

Fixpoint soft_timer_check_loop (fuel : nat) (level : Z) : M kernel Z :=
  match fuel with
  | O => fail FFuel
  | S fuel =>
      k ← gets id;
      match tqueue k QSoftTimer with
      | [] => mret level
      | r :: _ =>
          tm ← get_timer r;
          current_tick ← rt_tick_get;
          if timer_expired current_tick tm then
            timer_take_expired QSoftCheck r tm;;
            modify (λ k, k <| soft_timer_status := RT_SOFT_TIMER_BUSY |>);;
            rt_hw_interrupt_enable level;;
            tm ← get_timer r;
            run_timeout (timeout_func tm) (tm_parameter tm);;
            level ← rt_hw_interrupt_disable;
            modify (λ k, k <| soft_timer_status := RT_SOFT_TIMER_IDLE |>);;
            k ← gets id;
            if decide (tqueue k QSoftCheck = []) then soft_timer_check_loop fuel level
            else
              timer_restart_periodic r;;
              soft_timer_check_loop fuel level
          else mret level
      end
  end.

Definition rt_soft_timer_check (fuel : nat) : M kernel unit :=
  set_tqueue QSoftCheck [];;
  level ← rt_hw_interrupt_disable;
  level ← soft_timer_check_loop fuel level;
  rt_hw_interrupt_enable level.

(** One round of [rt_thread_timer_entry]'s endless loop up to the point where
    it gives up the processor: it suspended itself ([Some (Return _)]), it
    sleeps ([Some (Park _)]), or it goes straight on to
    [rt_soft_timer_check] ([None]). *)
Definition timer_entry_wait : M kernel (option (call Z addr)) :=
  next_timeout ← rt_timer_list_next_timeout QSoftTimer;
  if decide (next_timeout = RT_TICK_MAX) then
    self ← rt_thread_self;
    rt_thread_suspend self;;
    rt_schedule;;
    mret (Some (Return RT_EOK))
  else
    current_tick ← rt_tick_get;
    if decide (u32 (next_timeout - current_tick) < RT_TICK_MAX / 2) then
      c ← rt_thread_delay (u32 (next_timeout - current_tick));
      mret (Some c)
    else mret None.

(** Counting down the time slice, lines 70-85 of [rt_tick_increase]. *)
Definition tick_down (th : rt_thread) : rt_thread :=
  th <| remaining_tick := u32 (remaining_tick th - 1) |>.
Definition tick_slice : M kernel unit :=
  modify (λ k, k <| rt_tick := u32 (rt_tick k + 1) |>);;
  thread ← rt_thread_self;
  upd_thread thread tick_down;;
  th ← get_thread thread;
  when (remaining_tick th = 0) (put_thread thread (slice_over th);; rt_schedule).

(** [rt_tick_increase], the SysTick handler's work. *)
Definition rt_tick_increase (fuel : nat) : M kernel unit :=
  tick_slice;;
  rt_timer_check fuel.
End Callbacks.

(** ** Expiry of the thread timers

    [base] is the tick before the current one: the pending list was sorted by
    the ticks left at [base], and the clock has advanced by one. *)
Lemma expired_remaining base tm :
  remaining base tm < RT_TICK_MAX / 2 →
  timer_expired (u32 (base + 1)) tm = bool_decide (remaining base tm ≤ 1).
Proof.
  unfold timer_expired, remaining, wrapU. change (2 ^ 32) with 4294967296.
  change (RT_TICK_MAX / 2) with 2147483647. intros Hr. apply bool_decide_ext.
  set (x := (timeout_tick tm - base) mod 4294967296) in *.
  assert (0 ≤ x) by (apply Z.mod_pos_bound; lia).
  rewrite Zminus_mod_idemp_l.
  replace ((base + 1 - timeout_tick tm) mod 4294967296) with ((1 - x) mod 4294967296).
  2:{ unfold x. rewrite Zminus_mod_idemp_r. f_equal. lia. }
  destruct (decide (x ≤ 1)).
  - rewrite Z.mod_small by lia. lia.
  - rewrite <-(Z.mod_add _ 1), Z.mod_small by lia. lia.
Qed.

Lemma remaining_step base tm :
  1 ≤ remaining base tm → remaining (u32 (base + 1)) tm = remaining base tm - 1.
Proof.
  unfold remaining, wrapU. change (2 ^ 32) with 4294967296. intros Hr.
  set (x := (timeout_tick tm - base) mod 4294967296) in *.
  assert (0 ≤ x < 4294967296) by (apply Z.mod_pos_bound; lia).
  rewrite Zminus_mod_idemp_r.
  replace ((timeout_tick tm - (base + 1)) mod 4294967296) with ((x - 1) mod 4294967296).
  2:{ unfold x. rewrite Zminus_mod_idemp_l. f_equal. lia. }
  by rewrite Z.mod_small by lia.
Qed.

(** What the expiry of a set of thread timers does to the threads: those
    threads are made ready with [-RT_ETIMEOUT], the others keep their state. *)
Definition woken (fired : list ref) (k k' : kernel) : Prop :=
  ∀ t th, threads k !! t = Some th → ∃ th', threads k' !! t = Some th' ∧
    if decide (ThreadTimer t ∈ fired)
    then stat_class th' = RT_THREAD_READY ∧ error th' = - RT_ETIMEOUT
    else stat_class th' = stat_class th ∧ error th' = error th.

Lemma woken_refl k : woken [] k k.
Proof. intros t th Ht. exists th. split; [done|]. by rewrite decide_False by apply not_elem_of_nil. Qed.

Lemma woken_cons t l k k1 k2 :
  woken [ThreadTimer t] k k1 → woken l k1 k2 → ThreadTimer t ∉ l → woken (ThreadTimer t :: l) k k2.
Proof.
  intros H1 H2 Hn t' th Ht. destruct (H1 _ _ Ht) as (th1 & Ht1 & Hw1).
  destruct (H2 _ _ Ht1) as (th2 & Ht2 & Hw2). exists th2. split; [done|].
  destruct (decide (t' = t)) as [->|Hne].
  - rewrite decide_True in Hw1 by (left). rewrite decide_True by left.
    rewrite decide_False in Hw2 by done. destruct Hw1, Hw2. split; congruence.
  - rewrite decide_False in Hw1 by (rewrite list_elem_of_singleton; congruence).
    destruct (decide (ThreadTimer t' ∈ l)).
    + by rewrite decide_True by by right.
    + rewrite decide_False by (rewrite elem_of_cons; naive_solver).
      destruct Hw1, Hw2. split; congruence.
Qed.

Definition thread_timer_ref (r : ref) : Prop := ∃ t, r = ThreadTimer t.

Section OneExpiry.
Context (k : kernel) (t : addr) (tm : rt_timer) (l : list ref).
Context (H : kernel_inv k) (Hq : tqueue k QTimer = ThreadTimer t :: l)
  (Hc : tqueue k QCheck = []) (Htm : timers k !! ThreadTimer t = Some tm).

Lemma pending_thread : ∃ th, threads k !! t = Some th ∧ stat_of th = RT_THREAD_SUSPEND.
Proof. apply (ti_susp _ _ _ (ki_timer _ H)). fold (tqueue k QTimer). rewrite Hq. left. Qed.
Lemma pending_timer_ok : thread_timer_ok t tm.
Proof.
  destruct pending_thread as (th & Ht & Hs).
  destruct (live_timer _ _ _ H Ht) as (tm' & ? & ?); [by right; left|]. congruence.
Qed.

Definition taken : kernel :=
  k <| timer_queues := <[QCheck := [ThreadTimer t]]>
         (remove_from_tqueues (ThreadTimer t) (timer_queues k)) |>
    <| timers := <[ThreadTimer t := flag_clear tm RT_TIMER_FLAG_ACTIVATED]> (timers k) |>.

Lemma take_expired_eq : timer_take_expired QCheck (ThreadTimer t) tm k = Ok (tt, taken).
Proof.
  apply wp_exact. unfold timer_take_expired, _rt_timer_remove, timer_insert_head.
  rewrite (tt_oneshot _ _ pending_timer_ok). ksteps.
  apply wp_require_unlinked_timer; [ksimpl; intros q; apply tq_removed_out|].
  unfold set_tqueue. ksteps. split; [done|]. unfold taken, tqueue, id. ksimpl.
  rewrite tqof_remove. fold (tqueue k QCheck). rewrite Hc. done.
Qed.

Lemma taken_inv : kernel_inv taken.
Proof.
  constructor; [apply H|]. unfold taken. ksimpl.
  rewrite <-(insert_insert_eq (timers k) (ThreadTimer t) (flag_clear tm RT_TIMER_FLAG_ACTIVATED)
               (flag_clear tm RT_TIMER_FLAG_ACTIVATED)).
  eapply (ti_link _ _ _ _ _ _ QCheck [] []).
  - eapply ti_unlink; [apply H|done|apply same_kind_clear|by rewrite has_clear_same].
  - apply lookup_insert_eq.
  - apply same_kind_refl.
  - intros q. apply tq_removed_out.
  - rewrite tqof_remove. fold (tqueue k QCheck). by rewrite Hc.
  - left. by left.
  - done.
  - intros ? _ _. by rewrite has_clear_same.
Qed.

Lemma taken_queue : tqueue taken QTimer = l.
Proof.
  unfold tqueue, taken. ksimpl. rewrite tqof_insert_ne, tqof_remove by done.
  fold (tqueue k QTimer). rewrite Hq, filter_cons_False by naive_solver.
  apply list_filter_ne_id. pose proof (ti_nodup _ _ _ (ki_timer _ H) QTimer) as Hn.
  fold (tqueue k QTimer) in Hn. rewrite Hq in Hn. by apply NoDup_cons in Hn as [? _].
Qed.
End OneExpiry.

Lemma timed_out_rest t th k :
  timers (timed_out t th k) = timers k ∧ timer_queues (timed_out t th k) = timer_queues k ∧
  rt_tick (timed_out t th k) = rt_tick k.
Proof. unfold timed_out, inserted. by case_decide. Qed.

Lemma timed_out_threads t th k :
  threads (timed_out t th k) =
  <[t := with_stat (inserted_stat (rt_current_thread k) t) (th <| error := - RT_ETIMEOUT |>)]>
    (threads k).
Proof. unfold timed_out. rewrite inserted_threads. ksimpl. by rewrite insert_insert_eq. Qed.

Lemma timed_out_woken t th k k' :
  threads k !! t = Some th → sched_frame (timed_out t th k) k' → woken [ThreadTimer t] k k'.
Proof.
  intros Ht Hf t' th' Ht'. pose proof (timed_out_threads t th k) as He.
  destruct (decide (t' = t)) as [->|Hne].
  - destruct (frame_thread _ _ t (with_stat (inserted_stat (rt_current_thread k) t)
      (th <| error := - RT_ETIMEOUT |>)) Hf) as (th2 & Ht2 & Hc).
    { rewrite He. apply lookup_insert_eq. }
    exists th2. split; [done|]. rewrite decide_True by left. split.
    + rewrite (core_class _ _ Hc). unfold stat_class. rewrite inserted_stat_of.
      by destruct (inserted_stat_live (rt_current_thread k) t) as [-> | ->].
    + by apply (f_equal error) in Hc.
  - destruct (frame_thread _ _ t' th' Hf) as (th2 & Ht2 & Hc).
    { rewrite He. by rewrite lookup_insert_ne. }
    exists th2. split; [done|]. rewrite decide_False by (rewrite list_elem_of_singleton; congruence).
    split; [by apply core_class|by apply (f_equal error) in Hc].
Qed.

Lemma timed_out_objs t th k : objs_same k (timed_out t th k).
Proof. unfold timed_out. etransitivity; [|apply objs_inserted]. by destruct k. Qed.
Lemma timed_out_queue t th k q : ¬ ready_list q → queue (timed_out t th k) q = filter (.≠ t) (queue k q).
Proof. intros Hq. unfold queue, timed_out. rewrite inserted_queue by done. ksimpl. apply qof_remove. Qed.

(** One turn of the check loop on an expired thread timer. *)
Lemma fire_spec user k t tm l :
  kernel_inv k → current_ok k → tqueue k QTimer = ThreadTimer t :: l → tqueue k QCheck = [] →
  timers k !! ThreadTimer t = Some tm →
  ∀ (Q : unit → kernel → Prop) n,
  (∀ k', kernel_inv k' → current_ok k' → tqueue k' QTimer = l → tqueue k' QCheck = [] →
     (∀ r, r ≠ ThreadTimer t → timers k' !! r = timers k !! r) → rt_tick k' = rt_tick k →
     woken [ThreadTimer t] k k' → objs_same k k' →
     (∀ q, ¬ ready_list q → queue k' q = filter (.≠ t) (queue k q)) →
     (rt_scheduler_lock_nest k = 0 → foremost k') →
     wp (timer_check_loop user n (rt_tick k)) k' Q) →
  timer_expired (rt_tick k) tm = true →
  wp (timer_check_loop user (S n) (rt_tick k)) k Q.
Proof.
  intros H Hcur Hq Hc Htm Q n Hnext Hexp. simpl. ksteps. unfold id. rewrite Hq. ksteps.
  rewrite Hexp. ksteps. eapply wp_eq; [by eapply take_expired_eq|]. ksteps.
  set (k1 := taken k t tm). pose proof (taken_inv k t tm H Hc Htm) as H1. fold k1 in H1.
  pose proof (pending_timer_ok k t tm l H Hq Htm) as Hok.
  destruct (pending_thread k t l H Hq) as (th & Ht & Hs).
  eapply wp_get_timer; [apply lookup_insert_eq|]. ksteps.
  change (timeout_func (flag_clear tm RT_TIMER_FLAG_ACTIVATED)) with (timeout_func tm).
  change (tm_parameter (flag_clear tm RT_TIMER_FLAG_ACTIVATED)) with (tm_parameter tm).
  rewrite (tt_func _ _ Hok), (tt_param _ _ Hok). simpl.
  assert (ThreadTimer t ∉ tqueue k1 QTimer) as Hout.
  { intros Hin. pose proof (taken_queue k t tm l H Hq) as E. fold k1 in E. rewrite E in Hin.
    pose proof (ti_nodup _ _ _ (ki_timer _ H) QTimer) as Hn. fold (tqueue k QTimer) in Hn.
    rewrite Hq in Hn. by apply NoDup_cons in Hn as [? _]. }
  eapply wp_mono; [apply (thread_timeout_spec t th k1); done|].
  intros ? k2 (Hc1 & Hsc & H2). destruct (frame_fields _ _ (sc_frame _ _ Hsc))
    as (E1 & E2 & _ & _ & _ & _ & _ & _ & E3 & _).
  destruct (timed_out_rest t th k1) as (F1 & F2 & F3). rewrite F1 in E1. rewrite F2 in E2.
  rewrite F3 in E3. ksteps. unfold id.
  assert (timers k2 !! ThreadTimer t = Some (flag_clear tm RT_TIMER_FLAG_ACTIVATED)) as Htm2.
  { rewrite E1. apply lookup_insert_eq. }
  rewrite decide_False.
  2:{ unfold tqueue. rewrite E2. unfold k1, taken. ksimpl. by rewrite tqof_insert_eq. }
  unfold timer_restart_periodic, _rt_timer_remove. ksteps.
  rewrite has_clear_other by done. rewrite (tt_oneshot _ _ Hok). simpl. ksteps.
  change (rt_tick k1) with (rt_tick k) in E3. rewrite E3.
  apply Hnext.
  - constructor; [apply H2|]. ksimpl.
    rewrite <-(insert_id (timers k2) _ _ Htm2). eapply ti_unlink; [apply H2|done|apply same_kind_refl|].
    by rewrite has_clear_same.
  - apply Hsc.
  - unfold tqueue. ksimpl. rewrite tqof_remove, E2. fold (tqueue k1 QTimer).
    unfold k1. rewrite (taken_queue k t tm l) by done. apply list_filter_ne_id.
    pose proof (ti_nodup _ _ _ (ki_timer _ H) QTimer) as Hn. fold (tqueue k QTimer) in Hn.
    rewrite Hq in Hn. by apply NoDup_cons in Hn as [? _].
  - unfold tqueue. ksimpl. rewrite tqof_remove, E2. unfold k1, taken. ksimpl.
    rewrite tqof_insert_eq. by rewrite filter_cons_False by naive_solver.
  - intros r Hr. ksimpl. rewrite E1. unfold k1, taken. ksimpl. by rewrite lookup_insert_ne.
  - done.
  - by apply (timed_out_woken t th k1 k2), Hsc.
  - transitivity k1; [by destruct k|]. transitivity (timed_out t th k1); [apply timed_out_objs|].
    transitivity k2; [by apply objs_scheduled|].
    change (rt_tick k1) with (rt_tick k) in E3. rewrite <-E3. by destruct k2.
  - intros q Hnr. unfold queue. ksimpl. rewrite (fr_queues _ _ (sc_frame _ _ Hsc)) by done.
    apply (timed_out_queue t th k1). done.
  - intros Hlock. change (foremost k2). apply (scheduled_foremost (timed_out t th k1)); [by apply timed_out_inv|exact Hc1|exact Hsc|].
    destruct (objs_fields _ _ (timed_out_objs t th k1)) as (_ & _ & _ & _ & _ & _ & _ & El & _). by rewrite El.
Qed.

Record checked (base : Z) (k k' : kernel) (l fired rest : list ref) : Prop := {
  ch_inv : kernel_inv k';
  ch_cur : current_ok k';
  ch_check : tqueue k' QCheck = [];
  ch_tick : rt_tick k' = rt_tick k;
  ch_split : l = fired ++ rest;
  ch_queue : tqueue k' QTimer = rest;
  ch_fired : ∀ r, r ∈ fired → remains (timers k) base r ≤ 1;
  ch_rest : ∀ r, r ∈ rest → 2 ≤ remains (timers k) base r;
  ch_timers : ∀ r, r ∈ rest → timers k' !! r = timers k !! r;
  ch_woken : woken fired k k';
  ch_objs : objs_same k k';
  ch_queues : ∀ q t, ¬ ready_list q → t ∈ queue k' q ↔ t ∈ queue k q ∧ ThreadTimer t ∉ fired;
  ch_foremost : rt_scheduler_lock_nest k = 0 → foremost k → foremost k'
}.

Lemma remains_lookup tms base r tm : tms !! r = Some tm → remains tms base r = remaining base tm.
Proof. unfold remains. by intros ->. Qed.

Lemma check_loop_spec user base l : ∀ k n,
  kernel_inv k → current_ok k → tqueue k QTimer = l → tqueue k QCheck = [] →
  rt_tick k = u32 (base + 1) → timers_sorted (timers k) base l →
  Forall thread_timer_ref l → (length l < n)%nat →
  wp (timer_check_loop user n (rt_tick k)) k (λ _ k', ∃ fired rest, checked base k k' l fired rest).
Proof.
  induction l as [|r l IH]; intros k n H Hcur Hq Hc Htick Hsort Hall Hn;
    (destruct n as [|n]; [simpl in Hn; lia|]).
  { simpl. ksteps. unfold id. rewrite Hq. ksteps. exists [], []. constructor; try done.
    - by intros ? ?%not_elem_of_nil.
    - by intros ? ?%not_elem_of_nil.
    - apply woken_refl.
    - intros q t _. pose proof (not_elem_of_nil (ThreadTimer t)). tauto. }
  apply Forall_cons in Hall as [[t ->] Hall].
  destruct (ti_listed _ _ _ (ki_timer _ H) QTimer (ThreadTimer t)) as [tm Htm].
  { fold (tqueue k QTimer). rewrite Hq. left. }
  destruct Hsort as [Hs Hf]. apply StronglySorted_inv in Hs as [Hs Hle].
  apply Forall_cons in Hf as [Hr Hf]. rewrite (remains_lookup _ _ _ _ Htm) in Hr.
  pose proof (expired_remaining _ _ Hr) as Hexp. rewrite <-Htick in Hexp.
  destruct (decide (remaining base tm ≤ 1)) as [He|He].
  - rewrite bool_decide_true in Hexp by done.
    assert (ThreadTimer t ∉ l) as Hnot.
    { pose proof (ti_nodup _ _ _ (ki_timer _ H) QTimer) as Hnd. fold (tqueue k QTimer) in Hnd.
      rewrite Hq in Hnd. by apply NoDup_cons in Hnd as [? _]. }
    eapply fire_spec; [done|done|done|done|done| |done].
    intros k1 H1 Hcur1 Hq1 Hc1 Htms Htick1 Hw Hobjs Hqs Hfm.
    assert (∀ r, r ∈ l → timers k !! r = timers k1 !! r) as Hsame.
    { intros r Hin. symmetry. apply Htms. by intros ->. }
    rewrite <-Htick1. eapply wp_mono; [apply (IH k1)|].
    + done.
    + done.
    + done.
    + done.
    + congruence.
    + by eapply timers_sorted_ext; [exact Hsame|].
    + done.
    + simpl in Hn. lia.
    + intros ? k' (fired & rest & Hch). exists (ThreadTimer t :: fired), rest.
      assert (∀ r, r ∈ fired ++ rest → remains (timers k1) base r = remains (timers k) base r) as Hrem.
      { intros r Hin. unfold remains. rewrite <-(ch_split _ _ _ _ _ _ Hch) in Hin. by rewrite Hsame. }
      constructor; try apply Hch.
      * rewrite (ch_tick _ _ _ _ _ _ Hch). done.
      * by rewrite (ch_split _ _ _ _ _ _ Hch).
      * intros r [->|Hin]%elem_of_cons; [by rewrite (remains_lookup _ _ _ _ Htm)|].
        rewrite <-Hrem by (apply elem_of_app; by left). by apply Hch.
      * intros r Hin. rewrite <-Hrem by (apply elem_of_app; by right). by apply Hch.
      * intros r Hin. rewrite (ch_timers _ _ _ _ _ _ Hch) by done. symmetry. apply Hsame.
        rewrite (ch_split _ _ _ _ _ _ Hch). apply elem_of_app. by right.
      * eapply woken_cons; [exact Hw|apply Hch|]. intros Hin. apply Hnot.
        rewrite (ch_split _ _ _ _ _ _ Hch). apply elem_of_app. by left.
      * by etransitivity; [|apply Hch].
      * intros q t' Hnr. rewrite (ch_queues _ _ _ _ _ _ Hch), Hqs, list_elem_of_filter, elem_of_cons by done.
        naive_solver.
      * intros Hlock _. destruct (objs_fields _ _ Hobjs) as (_ & _ & _ & _ & _ & _ & _ & El & _).
        apply (ch_foremost _ _ _ _ _ _ Hch); [by rewrite El|by apply Hfm].
  - rewrite bool_decide_false in Hexp by done. simpl. ksteps. unfold id. rewrite Hq. ksteps.
    rewrite Hexp. ksteps. exists [], (ThreadTimer t :: l). constructor; try done.
    + by intros ? ?%not_elem_of_nil.
    + intros r [->|Hin]%elem_of_cons; [rewrite (remains_lookup _ _ _ _ Htm); lia|].
      eapply Forall_forall in Hle; [|exact Hin]. rewrite (remains_lookup _ _ _ _ Htm) in Hle. lia.
    + apply woken_refl.
    + intros q t' _. pose proof (not_elem_of_nil (ThreadTimer t')). tauto.
Qed.

(** The clock has moved on: what was not due is still sorted and now has one
    tick less to go. *)
Lemma sorted_step tms base l :
  timers_sorted tms base l → (∀ r, r ∈ l → is_Some (tms !! r) ∧ 1 ≤ remains tms base r) →
  timers_sorted tms (u32 (base + 1)) l ∧
  ∀ r, r ∈ l → remains tms (u32 (base + 1)) r = remains tms base r - 1.
Proof.
  intros [Hs Hf] Hl.
  assert (∀ r, r ∈ l → remains tms (u32 (base + 1)) r = remains tms base r - 1) as Hstep.
  { intros r Hr. destruct (Hl r Hr) as [[tm Htm] H1].
    rewrite !(remains_lookup _ _ _ _ Htm) in *. by apply remaining_step. }
  split; [|done]. split.
  - clear Hf Hl. induction Hs as [|r l Hs IH Hr]; constructor.
    + apply IH. intros. apply Hstep. by right.
    + apply Forall_forall. intros r' Hr'. rewrite !Hstep by (by right + left).
      eapply Forall_forall in Hr; [|exact Hr']. lia.
  - apply Forall_forall. intros r Hr. rewrite Hstep by done.
    eapply Forall_forall in Hf; [|exact Hr]. lia.
Qed.

Lemma checked_sorted base k k' l fired rest :
  checked base k k' l fired rest → timers_sorted (timers k) base l →
  timers_sorted (timers k') (u32 (base + 1)) (tqueue k' QTimer) ∧
  ∀ r, r ∈ tqueue k' QTimer → 1 ≤ remains (timers k') (u32 (base + 1)) r.
Proof.
  intros Hch Hsort. rewrite (ch_split _ _ _ _ _ _ Hch) in Hsort.
  rewrite (ch_queue _ _ _ _ _ _ Hch).
  assert (timers_sorted (timers k') base rest) as Hrest.
  { destruct Hsort as [Hs Hf]. eapply (timers_sorted_ext (timers k)).
    - intros r Hr. symmetry. by apply Hch.
    - split; [by eapply StronglySorted_app_1_r|by apply Forall_app in Hf as [_ ?]]. }
  assert (∀ r, r ∈ rest → 2 ≤ remains (timers k') base r) as H2.
  { intros r Hr. unfold remains. rewrite (ch_timers _ _ _ _ _ _ Hch) by done.
    by apply (ch_rest _ _ _ _ _ _ Hch). }
  destruct (sorted_step _ _ _ Hrest) as [Hs Hstep].
  { intros r Hr. split; [|specialize (H2 _ Hr); lia].
    eapply (ti_listed _ _ _ (ki_timer _ (ch_inv _ _ _ _ _ _ Hch)) QTimer).
    fold (tqueue k' QTimer). by rewrite (ch_queue _ _ _ _ _ _ Hch). }
  split; [done|]. intros r Hr. rewrite Hstep by done. specialize (H2 _ Hr). lia.
Qed.

Lemma timer_check_spec user fuel base k :
  kernel_inv k → current_ok k → tqueue k QCheck = [] → rt_tick k = u32 (base + 1) →
  timers_sorted (timers k) base (tqueue k QTimer) →
  Forall thread_timer_ref (tqueue k QTimer) → (length (tqueue k QTimer) < fuel)%nat →
  wp (rt_timer_check user fuel) k (λ _ k', ∃ fired rest,
    checked base k k' (tqueue k QTimer) fired rest).
Proof.
  intros H Hcur Hc Htick Hsort Hall Hfuel. unfold rt_timer_check, set_tqueue. ksteps.
  set (k0 := k <| timer_queues := _ |> <| primask := 1 |>).
  assert (∀ q, tqueue k0 q = tqueue k q) as Hsame.
  { intros q. unfold tqueue, k0. ksimpl. destruct (decide (q = QCheck)) as [->|].
    - rewrite tqof_insert_eq. by fold (tqueue k QCheck).
    - by rewrite tqof_insert_ne. }
  assert (kernel_inv k0) as H0.
  { constructor; [apply H|]. destruct (ki_timer _ H).
    constructor; unfold tqueue in Hsame; intros; rewrite ?Hsame in *; eauto.
    destruct (ti_active r tm) as [q Hq]; [done..|]. exists q. by rewrite Hsame. }
  eapply wp_mono; [eapply (check_loop_spec user base (tqueue k QTimer) k0)|].
  1-8: rewrite ?Hsame; done.
  intros ? k' (fired & rest & Hch). ksteps. exists fired, rest. destruct Hch. constructor; try done.
  - by constructor; apply ch_inv0.
  - etransitivity; [|apply (objs_primask k0); exact ch_objs0]. by destruct k.
Qed.

Lemma stat_of_set_yield th : stat_of (th <| stat := u8 (Z.lor (stat th) RT_THREAD_STAT_YIELD) |>) = stat_of th.
Proof.
  unfold stat_of. simpl. rewrite land_u8 by done. rewrite Z.land_lor_distr_l. apply Z.lor_0_r.
Qed.

Lemma current_ok_frame k k' th th' :
  current_ok k → threads k !! rt_current_thread k = Some th → stat_of th' = stat_of th →
  rt_current_thread k' = rt_current_thread k →
  threads k' = <[rt_current_thread k := th']> (threads k) → current_ok k'.
Proof.
  intros (cth & Hc & Hs) Ht He Ec Et. assert (cth = th) as -> by congruence.
  exists th'. rewrite Ec, Et. split; [apply lookup_insert_eq|]. by rewrite He.
Qed.

Lemma tick_slice_spec k :
  kernel_inv k → current_ok k →
  wp tick_slice k (λ _ k', kernel_inv k' ∧ current_ok k' ∧ rt_tick k' = u32 (rt_tick k + 1) ∧
    timers k' = timers k ∧ timer_queues k' = timer_queues k ∧
    objs_same (k <| rt_tick := u32 (rt_tick k + 1) |>) k' ∧ (∀ q, ¬ ready_list q → queue k' q = queue k q) ∧
    (∀ t th, threads k !! t = Some th → ∃ th', threads k' !! t = Some th' ∧
       stat_class th' = stat_class th ∧ error th' = error th) ∧
    (rt_scheduler_lock_nest k = 0 → foremost k → foremost k')).
Proof.
  intros H Hc. pose proof Hc as (th & Ht & Hst). unfold tick_slice. ksteps. ksimpl. ksteps.
  pose (k <| rt_tick := u32 (rt_tick k + 1) |>) as k1.
  assert (kernel_inv k1) as H1 by (destruct H; by constructor).
  eapply wp_get_thread; [apply lookup_insert_eq|]. apply wp_when; intros Hrem.
  - set (th2 := slice_over (tick_down th)).
    assert (stat_of th2 = stat_of th) as Hs2 by apply (stat_of_set_yield (tick_down th)).
    ksteps. ksimpl. rewrite insert_insert_eq. match goal with |- wp _ ?K _ => set (k2 := K) end.
    assert (kernel_inv k2) as H2 by (by eapply (kernel_inv_thread k1); [..|intros []]).
    assert (current_ok k2) as Hc2 by by eapply (current_ok_frame k).
    eapply wp_mono; [by apply schedule_keeps|].
    + intros ? k' [Hsc H']. pose proof (sc_frame _ _ Hsc) as Hf.
      destruct (frame_fields _ _ Hf) as (E1 & E2 & _ & _ & _ & _ & _ & _ & E3 & _).
      split_and!; [done|apply Hsc|done|done|done| | | |].
      { etransitivity; [|by apply objs_scheduled]. by destruct k. }
      { intros q Hq. unfold queue. by rewrite (fr_queues _ _ Hf) by done. }
      2:{ intros Hlock _. by apply (scheduled_foremost k2). }
      intros t th' Ht'.
      destruct (decide (t = rt_current_thread k)) as [->|Hne].
      * assert (th' = th) as -> by congruence.
        destruct (frame_thread _ _ (rt_current_thread k) th2 Hf) as (th3 & Ht3 & Hcore);
          [apply lookup_insert_eq|].
        exists th3. split; [done|]. split; [|by apply (f_equal error) in Hcore].
        rewrite (core_class _ _ Hcore). unfold stat_class.
        by rewrite Hs2.
      * destruct (frame_thread _ _ t th' Hf) as (th3 & Ht3 & Hcore);
          [by unfold k2; ksimpl; rewrite lookup_insert_ne|].
        exists th3. split; [done|]. split; [by apply core_class|by apply (f_equal error) in Hcore].
  - split_and!; [|by apply (current_ok_frame k _ th (tick_down th))|done|done|done|by destruct k|done| |].
    + by eapply (kernel_inv_thread k1); [..|intros []].
    + intros t th' Ht'. ksimpl. destruct (decide (t = rt_current_thread k)) as [->|Hne].
      * rewrite lookup_insert_eq. exists (tick_down th). assert (th' = th) as -> by congruence. done.
      * rewrite lookup_insert_ne by done. eauto.
    + intros _. by apply (foremost_update k1 th (tick_down th)).
Qed.

(** Between ticks no timer is being fired, the pending thread timers are
    sorted by the ticks left, and the kernel invariant holds. *)
Record clock_ok (k : kernel) : Prop := {
  co_inv : kernel_inv k;
  co_cur : current_ok k;
  co_check : tqueue k QCheck = [];
  co_sorted : timers_sorted (timers k) (rt_tick k) (tqueue k QTimer);
  co_refs : Forall thread_timer_ref (tqueue k QTimer)
}.

(** The clock's part of this, without the thread that runs. *)
Definition clock_side (k : kernel) : Prop :=
  tqueue k QCheck = [] ∧ timers_sorted (timers k) (rt_tick k) (tqueue k QTimer) ∧
  Forall thread_timer_ref (tqueue k QTimer).
Lemma clock_ok_side k : clock_ok k ↔ kernel_inv k ∧ current_ok k ∧ clock_side k.
Proof. split; [by intros []|]. by intros (? & ? & ? & ? & ?). Qed.

(** What the operations leave of the clock: it stays in order, and the timers of
    the threads outside [c] are as they were. *)
Record clock_frame (c : addr → Prop) (k k' : kernel) : Prop := {
  cf_side : clock_side k → clock_side k';
  cf_timers : ∀ t, ¬ c t → (ThreadTimer t ∈ tqueue k' QTimer ↔ ThreadTimer t ∈ tqueue k QTimer) ∧
    timers k' !! ThreadTimer t = timers k !! ThreadTimer t
}.
#[global] Instance clock_frame_preorder c : PreOrder (clock_frame c).
Proof.
  split; [by constructor|]. intros k1 k2 k3 [H1 H2] [H3 H4]. constructor; [tauto|].
  intros t Ht. destruct (H2 t Ht) as [E1 E2], (H4 t Ht) as [E3 E4]. rewrite E3, E4. done.
Qed.
Lemma clock_frame_weaken (c c' : addr → Prop) k k' :
  (∀ t, c t → c' t) → clock_frame c k k' → clock_frame c' k k'.
Proof. intros Hc [H1 H2]. constructor; [done|]. intros t Ht. apply H2. naive_solver. Qed.
Lemma clock_frame_eq c k k' :
  timers k' = timers k → timer_queues k' = timer_queues k → rt_tick k' = rt_tick k → clock_frame c k k'.
Proof. intros E1 E2 E3. unfold clock_side, tqueue. constructor; unfold clock_side, tqueue; by rewrite E1, E2, ?E3. Qed.
Lemma clock_frame_scheduled c k k' : scheduled k k' → clock_frame c k k'.
Proof.
  intros Hs. destruct (frame_fields _ _ (sc_frame _ _ Hs)) as (E1 & E2 & _ & _ & _ & _ & _ & _ & E3 & _).
  by apply clock_frame_eq.
Qed.
Lemma clock_frame_armed t time k k' : armed t time k k' → clock_frame (eq t) k k'.
Proof.
  intros Ha. destruct (armed_fields _ _ _ _ Ha) as (_ & _ & _ & E & _). split.
  - intros (H1 & H2 & H3). split; [by apply Ha|]. split; [by apply Ha|]. rewrite Forall_forall in *.
    intros r Hr. destruct (decide (r = ThreadTimer t)) as [->|Hne]; [by eexists|]. by apply H3, (ar_listed _ _ _ _ Ha).
  - intros t' Hne. assert (ThreadTimer t' ≠ ThreadTimer t) by congruence. split; by apply Ha.
Qed.
Lemma clock_frame_stopped t tm k : timers k !! ThreadTimer t = Some tm → clock_frame (eq t) k (stopped (ThreadTimer t) tm k).
Proof.
  intros Htm. unfold stopped. destruct (has_flag _ _); [|done]. split.
  - intros (H1 & H2 & H3). unfold clock_side, tqueue in *. ksimpl. rewrite !tqof_remove.
    split; [by rewrite H1|]. split.
    + by apply timers_sorted_filter, timers_sorted_touch with tm.
    + rewrite Forall_forall in *. intros r [_ Hr]%list_elem_of_filter. by apply H3.
  - intros t' Hne. unfold tqueue. ksimpl. rewrite tqof_remove, list_elem_of_filter, lookup_insert_ne by congruence.
    split; [|done]. split; [tauto|]. intros Hr. split; [congruence|done].
Qed.
Lemma clock_frame_asleep tick k k' : asleep tick k k' → clock_frame (eq (rt_current_thread k)) k k'.
Proof.
  intros Ha. split.
  - intros (H1 & H2 & H3). split; [by apply Ha|]. split; [by apply Ha|]. rewrite Forall_forall in *.
    intros r Hr. destruct (decide (r = ThreadTimer (rt_current_thread k))) as [->|Hne]; [by eexists|].
    by apply H3, (as_listed _ _ _ Ha).
  - intros t' Hne. assert (ThreadTimer t' ≠ ThreadTimer (rt_current_thread k)) by congruence. split; by apply Ha.
Qed.
Lemma clock_frame_ok c k k' : clock_frame c k k' → kernel_inv k' → current_ok k' → clock_ok k → clock_ok k'.
Proof. intros Hf ? ? [_ [_ Hs]]%clock_ok_side. apply clock_ok_side. split; [done|]. split; [done|]. by apply Hf. Qed.

(** The number of ticks after which thread [t] will time out. *)
Abbreviation ticks_left k t := (remains (timers k) (rt_tick k) (ThreadTimer t)).
Abbreviation pending k t := (ThreadTimer t ∈ tqueue k QTimer).

(** One clock tick: the tick count advances, every thread whose timeout is due
    is made ready with [-RT_ETIMEOUT]; the timers that stay pending are one
    tick closer, and the other threads keep their state. *)
Record ticked (k k' : kernel) : Prop := {
  tk_ok : clock_ok k';
  tk_tick : rt_tick k' = u32 (rt_tick k + 1);
  tk_length : (length (tqueue k' QTimer) ≤ length (tqueue k QTimer))%nat;
  tk_due : ∀ t, pending k t → ticks_left k t ≤ 1 →
    ¬ pending k' t ∧ ∃ th', threads k' !! t = Some th' ∧
      stat_class th' = RT_THREAD_READY ∧ error th' = - RT_ETIMEOUT;
  tk_later : ∀ t, pending k t → 1 < ticks_left k t →
    pending k' t ∧ ticks_left k' t = ticks_left k t - 1;
  tk_others : ∀ t th, ¬ pending k t → threads k !! t = Some th →
    ¬ pending k' t ∧ ∃ th', threads k' !! t = Some th' ∧
      stat_class th' = stat_class th ∧ error th' = error th;
  tk_waiting : ∀ t th, pending k t → 1 < ticks_left k t → threads k !! t = Some th →
    ∃ th', threads k' !! t = Some th' ∧ stat_class th' = stat_class th ∧ error th' = error th;
  tk_objs : objs_same (k <| rt_tick := u32 (rt_tick k + 1) |>) k';
  tk_queues : ∀ q t, ¬ ready_list q →
    t ∈ queue k' q ↔ t ∈ queue k q ∧ ¬ (pending k t ∧ ticks_left k t ≤ 1);
  tk_foremost : rt_scheduler_lock_nest k = 0 → foremost k → foremost k'
}.

(** [rt_tick_increase] with enough fuel for the pending timers. *)
Lemma tick_increase_spec user fuel k :
  clock_ok k → (length (tqueue k QTimer) < fuel)%nat →
  wp (rt_tick_increase user fuel) k (λ _ k', ticked k k').
Proof.
  intros [H Hc Hchk Hsort Hall] Hfuel. unfold rt_tick_increase. ksteps.
  eapply wp_mono; [by apply tick_slice_spec|].
  intros ? k1 (H1 & Hc1 & Htick & Etm & Etq & Hobjs & Hqs & Hth & Hfm).
  assert (∀ q, tqueue k1 q = tqueue k q) as Eq by (intros q; unfold tqueue; by rewrite Etq).
  eapply wp_mono; [apply (timer_check_spec user fuel (rt_tick k) k1); rewrite ?Eq, ?Etm; done|].
  intros ? k' (fired & rest & Hch). rewrite Eq in Hch.
  destruct (checked_sorted _ _ _ _ _ _ Hch) as [Hs1 Hs2]; [by rewrite Etm|].
  pose proof (ch_tick _ _ _ _ _ _ Hch) as Htick'. rewrite Htick in Htick'.
  pose proof (ch_split _ _ _ _ _ _ Hch) as Hsplit. pose proof (ch_queue _ _ _ _ _ _ Hch) as Hq'.
  pose proof (ch_fired _ _ _ _ _ _ Hch) as Hfired. pose proof (ch_rest _ _ _ _ _ _ Hch) as Hrest.
  rewrite Etm in Hfired, Hrest. constructor; [| |rewrite Hsplit, Hq', length_app; lia|..].
  - constructor; try apply Hch; [by rewrite Htick'|]. rewrite Hq'. rewrite Hsplit in Hall. by apply Forall_app in Hall as [_ ?].
  - by rewrite Htick'.
  - intros t Hin Hle. rewrite Hsplit, elem_of_app in Hin. destruct Hin as [Hin|Hin].
    2:{ apply Hrest in Hin. lia. }
    split; [rewrite Hq'; intros ?%Hrest; lia|].
    destruct (ti_susp _ _ _ (ki_timer _ H) t) as (th & Ht & _).
    { fold (tqueue k QTimer). rewrite Hsplit. apply elem_of_app. by left. }
    destruct (Hth _ _ Ht) as (th1 & Ht1 & _).
    destruct (ch_woken _ _ _ _ _ _ Hch _ _ Ht1) as (th' & Ht' & Hw).
    rewrite decide_True in Hw by done. eauto.
  - intros t Hin Hgt. rewrite Hsplit, elem_of_app in Hin. destruct Hin as [Hin|Hin].
    { apply Hfired in Hin. lia. }
    split; [by rewrite Hq'|]. rewrite Htick'.
    destruct (ti_listed _ _ _ (ki_timer _ H) QTimer (ThreadTimer t)) as [tm Htm].
    { fold (tqueue k QTimer). rewrite Hsplit. apply elem_of_app. by right. }
    pose proof (ch_timers _ _ _ _ _ _ Hch _ Hin) as Htm'. rewrite Etm, Htm in Htm'.
    rewrite (remains_lookup _ _ _ _ Htm), (remains_lookup _ _ _ _ Htm') in *.
    apply remaining_step. lia.
  - intros t th Hn Ht. rewrite Hsplit, elem_of_app in Hn. split; [rewrite Hq'; tauto|].
    destruct (Hth _ _ Ht) as (th1 & Ht1 & Hc1' & He1).
    destruct (ch_woken _ _ _ _ _ _ Hch _ _ Ht1) as (th' & Ht' & Hw).
    rewrite decide_False in Hw by tauto. exists th'. split; [done|]. by rewrite <-Hc1', <-He1.
  - intros t th Hp Hgt Ht. destruct (Hth _ _ Ht) as (th1 & Ht1 & Hc1' & He1).
    destruct (ch_woken _ _ _ _ _ _ Hch _ _ Ht1) as (th' & Ht' & Hw).
    rewrite decide_False in Hw by (intros Hin%Hfired; lia). exists th'. split; [done|]. by rewrite <-Hc1', <-He1.
  - etransitivity; [exact Hobjs|apply Hch].
  - intros q t Hnr. rewrite (ch_queues _ _ _ _ _ _ Hch), Hqs by done.
    assert (ThreadTimer t ∈ fired ↔ pending k t ∧ ticks_left k t ≤ 1) as Hf; [|naive_solver].
    rewrite Hsplit, elem_of_app. split; [intros Hin; split; [by left|by apply Hfired]|].
    intros [[Hin|Hin%Hrest] ?]; [done|lia].
  - intros Hlock Hf. destruct (objs_fields _ _ Hobjs) as (_ & _ & _ & _ & _ & _ & _ & El & _).
    apply (ch_foremost _ _ _ _ _ _ Hch); [by rewrite El|by apply Hfm].
Qed.
