(* ===== verification/Ipc.v ===== *)
(** * Wait lists of IPC objects ([src/ipc.c], lines 64-191)

    Suspending a thread on an IPC object in FIFO or priority order, resuming
    the first waiter and resuming all of them. *)
From S2P Require Import Prelude Kernel Scheduler Object Timer Thread Clock.

(** ** Operations *)

(** [for (n = list->next; n != list; n = n->next)]: in front of the first
    waiter with a strictly worse priority, or at the end. *)
Fixpoint prio_place (ths : gmap addr rt_thread) (t : addr) (prio : Z) (l : list addr)
  : option (list addr) :=
  match l with
  | [] => Some [t]
  | s :: l' =>
      sth ← ths !! s;
      if decide (prio < current_priority sth) then Some (t :: l)
      else rest ← prio_place ths t prio l'; Some (s :: rest)
  end.

Definition rt_ipc_list_suspend (q : qid) (thread : addr) (flag : Z) : M kernel Z :=
  rt_thread_suspend thread;;
  (if decide (flag = RT_IPC_FLAG_FIFO) then rt_list_insert_tail q thread
   else if decide (flag = RT_IPC_FLAG_PRIO) then
     th ← get_thread thread;
     k ← gets id;
     l ← of_option FBadPointer (prio_place (threads k) thread (current_priority th) (queue k q));
     require_unlinked thread;;
     set_queue q l
   else mret tt);;
  mret RT_EOK.

Definition rt_ipc_list_resume (q : qid) : M kernel Z :=
  k ← gets id;
  thread ← of_option FBadPointer (head (queue k q));
  rt_thread_resume thread;;
  mret RT_EOK.

Definition fail_wait (th : rt_thread) : rt_thread := th <| error := - RT_ERROR |>.

(** [while (!rt_list_isempty(list))]; every turn takes one thread off the
    list, so its length bounds the turns. *)
Fixpoint resume_all_loop (fuel : nat) (q : qid) : M kernel unit :=
  match fuel with
  | O => fail FFuel
  | S fuel =>
      k ← gets id;
      match queue k q with
      | [] => mret tt
      | thread :: _ =>
          temp ← rt_hw_interrupt_disable;
          upd_thread thread fail_wait;;
          rt_thread_resume thread;;
          rt_hw_interrupt_enable temp;;
          resume_all_loop fuel q
      end
  end.
Definition rt_ipc_list_resume_all (q : qid) : M kernel Z :=
  k ← gets id;
  resume_all_loop (S (length (queue k q))) q;;
  mret RT_EOK.

(** [thread->error = RT_EOK], which every blocking call does first. *)
Definition no_error (th : rt_thread) : rt_thread := th <| error := RT_EOK |>.

Definition timeout_error (th : rt_thread) : rt_thread := th <| error := - RT_ETIMEOUT |>.

(** [RT_DEBUG_IN_THREAD_CONTEXT] *)
Definition RT_DEBUG_IN_THREAD_CONTEXT : M kernel unit :=
  self ← rt_thread_self;
  RT_ASSERT (self ≠ RT_NULL);;
  RT_DEBUG_NOT_IN_INTERRUPT.

(** ** Linking a suspended thread into a wait list *)
Lemma kernel_inv_wait k t th q l1 l2 :
  kernel_inv k → threads k !! t = Some th → stat_of th = RT_THREAD_SUSPEND →
  (∀ q, t ∉ qof (queues k) q) → waiting q → queue k q = l1 ++ l2 →
  kernel_inv (k <| queues := <[q := l1 ++ t :: l2]> (queues k) |>).
Proof.
  intros H Ht Hs Hout Hw Hq. constructor; [|apply H]. ksimpl. by eapply inv_wait; [apply H|..].
Qed.

Lemma prio_place_spec ths t p l :
  (∀ s, s ∈ l → is_Some (ths !! s)) →
  ∃ l1 l2, l = l1 ++ l2 ∧ prio_place ths t p l = Some (l1 ++ t :: l2) ∧
    (∀ s sth, s ∈ l1 → ths !! s = Some sth → current_priority sth ≤ p) ∧
    (∀ s sth, head l2 = Some s → ths !! s = Some sth → p < current_priority sth).
Proof.
  induction l as [|s l IH]; intros Hl; simpl.
  { exists [], []. repeat split; [|done]. by intros ? ? ?%not_elem_of_nil. }
  destruct (Hl s) as [sth Hs]; [by left|]. rewrite Hs. simpl. case_decide as Hp.
  - exists [], (s :: l). repeat split; [by intros ? ? ?%not_elem_of_nil|].
    intros s' sth' [= <-]. congruence.
  - destruct IH as (l1 & l2 & -> & -> & H1 & H2); [intros; apply Hl; by right|].
    exists (s :: l1), l2. repeat split; [|done].
    intros s' sth' [->|Hin]%elem_of_cons Hs'; [|by eapply H1].
    assert (sth' = sth) as -> by congruence. lia.
Qed.

(** ** Initialising a wait list *)
Lemma clear_waiting_inv k q ls :
  waiting q → kernel_inv k → kernel_inv (k <| queues := <[q := []]> (queues k) |> <| mqueues := ls |>).
Proof.
  intros Hq [Hs Ht]. constructor; [|exact Ht]. ksimpl.
  assert (∀ q' t, t ∈ qof (<[q := []]> (queues k)) q' → q' ≠ q ∧ t ∈ qof (queues k) q') as Hin.
  { intros q' t. destruct (decide (q' = q)) as [->|]; [|by rewrite qof_insert_ne].
    rewrite qof_insert_eq. by intros ?%not_elem_of_nil. }
  assert (∀ p, qof (<[q := []]> (queues k)) (QReady p) = qof (queues k) (QReady p)) as Hready.
  { intros p. rewrite qof_insert_ne; [done|]. by intros ->. }
  destruct Hs as [H1 H2 H3 H4 H5 H6 H7 H8 H9 H10 H11]. constructor; try done.
  - intros p Hp. rewrite Hready. by apply H3.
  - intros t p Hx. rewrite Hready. by apply H4.
  - intros t q' Hw [_ ?]%Hin. by eapply H5.
  - intros t [_ ?]%Hin. by apply H6.
  - intros q'. destruct (decide (q' = q)) as [->|]; [rewrite qof_insert_eq; constructor|].
    by rewrite qof_insert_ne.
  - intros q1 q2 t [_ Ha]%Hin [_ Hb]%Hin. by eapply H8.
Qed.

(** Where [rt_ipc_list_suspend] puts a thread of priority [p]. *)
Definition wait_position (k : kernel) (flag p : Z) (l1 l2 : list addr) : Prop :=
  (flag = RT_IPC_FLAG_FIFO → l2 = []) ∧
  (flag = RT_IPC_FLAG_PRIO →
    (∀ s sth, s ∈ l1 → threads k !! s = Some sth → current_priority sth ≤ p) ∧
    (∀ s sth, head l2 = Some s → threads k !! s = Some sth → p < current_priority sth)).

(** The running thread parked on a wait list. *)
Definition parked (cur : addr) (th : rt_thread) (q : qid) (l1 l2 : list addr) (k : kernel) : kernel :=
  let k1 := suspended cur th k in k1 <| queues := <[q := l1 ++ cur :: l2]> (queues k1) |>.

Lemma suspended_unlinked t th k q : t ∉ qof (queues (suspended t th k)) q.
Proof. apply removed_out. Qed.


Lemma list_suspend_spec k th q flag :
  kernel_inv k → running k th → waiting q →
  flag = RT_IPC_FLAG_FIFO ∨ flag = RT_IPC_FLAG_PRIO →
  ∃ l1 l2, queue k q = l1 ++ l2 ∧ wait_position k flag (current_priority th) l1 l2 ∧
    rt_ipc_list_suspend q (rt_current_thread k) flag k =
      Ok (RT_EOK, parked (rt_current_thread k) th q l1 l2 k) ∧
    kernel_inv (parked (rt_current_thread k) th q l1 l2 k).
Proof.
  intros H Hr Hw Hflag. pose proof Hr as [Ht Hs]. set (cur := rt_current_thread k) in *.
  pose proof (suspended_queue k th q H Hr) as Hq. fold cur in Hq.
  assert (kernel_inv (suspended cur th k)) as H1.
  { apply suspended_inv; [done|done|by eapply running_live|by rewrite Hs]. }
  set (p := current_priority th).
  assert (∀ l1 l2, queue k q = l1 ++ l2 → kernel_inv (parked cur th q l1 l2 k)) as Hinv.
  { intros l1 l2 Hl. eapply kernel_inv_wait; [done|apply suspended_thread| | |done|by rewrite Hq].
    - by rewrite stat_of_with_stat.
    - intros q'. apply suspended_unlinked. }
  destruct (prio_place_spec (threads (suspended cur th k)) cur p (queue k q))
    as (l1 & l2 & Hl & Hplace & Hp1 & Hp2).
  { intros s Hin. unfold suspended, removed; ksimpl. apply lookup_insert_is_Some'. right.
    destruct (queued_stat _ _ _ _ _ _ _ (ki_sched _ H) Hin) as (_ & sth & ? & _). eauto. }
  assert (∀ s, s ∈ queue k q → s ≠ cur) as Hne.
  { intros s Hin ->. eapply running_unlinked; [apply H|done|done|exact Hin]. }
  destruct Hflag as [-> | ->].
  - exists (queue k q), []. rewrite app_nil_r. split; [done|].
    split; [by split|]. split; [|apply Hinv; by rewrite app_nil_r].
    apply wp_exact. unfold rt_ipc_list_suspend. ksteps.
    eapply wp_eq; [apply (suspend_eq cur th k H Ht); by right|]. ksteps.
    rewrite decide_True by done. apply wp_insert_tail; [intros q'; apply suspended_unlinked|].
    ksteps. by rewrite Hq.
  - exists l1, l2. split; [done|]. split.
    { split; [done|]. intros _. split.
      - intros s sth Hin Hsth. eapply Hp1; [done|]. unfold suspended, removed; ksimpl.
        rewrite lookup_insert_ne; [done|]. symmetry. apply Hne. rewrite Hl. apply elem_of_app. by left.
      - intros s sth Hin Hsth. eapply Hp2; [done|]. unfold suspended, removed; ksimpl.
        rewrite lookup_insert_ne; [done|]. symmetry. apply Hne. rewrite Hl. apply elem_of_app. right.
        destruct l2; simplify_eq/=. left. }
    split; [|by apply Hinv]. apply wp_exact. unfold rt_ipc_list_suspend. ksteps.
    eapply wp_eq; [apply (suspend_eq cur th k H Ht); by right|]. ksteps.
    rewrite decide_False by done. rewrite decide_True by done. ksteps.
    eapply wp_get_thread; [apply suspended_thread|]. ksteps. unfold id. rewrite Hq.
    eapply wp_of_option; [exact Hplace|]. ksteps. unfold require_unlinked. ksteps.
    rewrite decide_True; [done|]. intros q' l Hl' Hin. apply (suspended_unlinked cur th k q').
    by rewrite (Hl' : queues (suspended cur th k) !! q' = _).
Qed.

Lemma objs_parked cur th q l1 l2 k : objs_same k (parked cur th q l1 l2 k).
Proof. by destruct k. Qed.

(** ** Resuming *)
Lemma resumed_queue t th tm k q :
  ¬ ready_list q → queue (resumed t th tm k) q = filter (.≠ t) (queue k q).
Proof.
  intros Hq. unfold resumed, queue. rewrite inserted_queue by done.
  destruct (stopped_sched (ThreadTimer t) tm (k <| queues := remove_from_queues t (queues k) |>))
    as (_ & -> & _). ksimpl. apply qof_remove.
Qed.
Lemma resumed_threads t th tm k :
  threads (resumed t th tm k) =
  <[t := with_stat (inserted_stat (rt_current_thread k) t) th]> (threads k).
Proof.
  unfold resumed. rewrite inserted_threads.
  by destruct (stopped_sched (ThreadTimer t) tm (k <| queues := remove_from_queues t (queues k) |>))
    as (-> & _ & -> & _).
Qed.
Lemma resumed_current t th tm k : rt_current_thread (resumed t th tm k) = rt_current_thread k.
Proof.
  unfold resumed. destruct (inserted_rest t th (stopped (ThreadTimer t) tm
    (k <| queues := remove_from_queues t (queues k) |>))) as (_ & _ & ->).
  by destruct (stopped_sched (ThreadTimer t) tm (k <| queues := remove_from_queues t (queues k) |>))
    as (_ & _ & -> & _).
Qed.

Lemma resumed_heads t th tm k q :
  ¬ ready_list q → queues (resumed t th tm k) !! q = None ↔ queues k !! q = None.
Proof.
  intros Hq. unfold resumed.
  assert (∀ k, queues (inserted t th k) !! q = queues k !! q) as ->.
  { intros k0. unfold inserted, made_ready. case_decide; ksimpl; [done|]. apply lookup_insert_ne. by intros <-. }
  destruct (stopped_sched (ThreadTimer t) tm (k <| queues := remove_from_queues t (queues k) |>))
    as (_ & -> & _). ksimpl. unfold remove_from_queues. by rewrite lookup_fmap, fmap_None.
Qed.
Lemma resumed_timers t th tm k r :
  timers k !! ThreadTimer t = Some tm → timers (resumed t th tm k) !! r = None ↔ timers k !! r = None.
Proof.
  intros Htm. unfold resumed.
  assert (∀ k, timers (inserted t th k) = timers k) as -> by (intros; unfold inserted; by case_decide).
  unfold stopped. destruct (has_flag _ _); ksimpl; [|done].
  destruct (decide (r = ThreadTimer t)) as [->|Hne]; [|by rewrite lookup_insert_ne].
  rewrite lookup_insert_eq. naive_solver.
Qed.

Lemma clock_frame_resumed t th tm k :
  timers k !! ThreadTimer t = Some tm → clock_frame (eq t) k (resumed t th tm k).
Proof.
  intros Htm. unfold resumed. set (k0 := k <| queues := _ |>). transitivity (stopped (ThreadTimer t) tm k0).
  - transitivity k0; [by apply clock_frame_eq|by apply clock_frame_stopped].
  - destruct (inserted_rest t th (stopped (ThreadTimer t) tm k0)) as (E1 & E2 & _). apply clock_frame_eq; [done|done|].
    unfold inserted. by case_decide.
Qed.
Lemma current_ok_resumed t th tm k :
  current_ok k → current_ok (resumed t th tm k).
Proof.
  intros (cth & Hc & Hs & Hi). unfold current_ok. rewrite resumed_current, resumed_threads.
  destruct (decide (rt_current_thread k = t)) as [<-|].
  - rewrite lookup_insert_eq. eexists; split; [done|]. rewrite inserted_stat_of.
    unfold inserted_stat. by rewrite decide_True.
  - rewrite lookup_insert_ne by done. eauto.
Qed.

Lemma waiter_thread k q t l :
  kernel_inv k → waiting q → queue k q = t :: l →
  ∃ th, threads k !! t = Some th ∧ stat_of th = RT_THREAD_SUSPEND.
Proof.
  intros H Hw Hq. eapply (si_waiting _ _ _ _ _ (ki_sched _ H)); [exact Hw|].
  fold (queue k q). rewrite Hq. left.
Qed.

Lemma queue_tail k q t l :
  kernel_inv k → queue k q = t :: l → filter (.≠ t) (queue k q) = l.
Proof.
  intros H Hq. rewrite Hq, filter_cons_False by naive_solver. apply list_filter_ne_id.
  pose proof (si_nodup _ _ _ _ _ (ki_sched _ H) q) as Hn. fold (queue k q) in Hn.
  rewrite Hq in Hn. by apply NoDup_cons in Hn as [? _].
Qed.

Lemma queue_other k q q' t l :
  kernel_inv k → queue k q = t :: l → q' ≠ q → filter (.≠ t) (queue k q') = queue k q'.
Proof.
  intros H Hq Hne. apply list_filter_ne_id. intros Hin. apply Hne.
  eapply (si_disjoint _ _ _ _ _ (ki_sched _ H)); [exact Hin|]. fold (queue k q). rewrite Hq. left.
Qed.

(** Resuming the first waiter [t] of [q]. *)
Record resumes (q : qid) (t : addr) (l : list addr) (k k' : kernel) : Prop := {
  rs_inv : kernel_inv k';
  rs_cur : current_ok k';
  rs_objs : objs_same k k';
  rs_current : rt_current_thread k' = rt_current_thread k;
  rs_queue : queue k' q = l;
  rs_others : ∀ q', ¬ ready_list q' → q' ≠ q → queue k' q' = queue k q';
  rs_thread : ∃ th, threads k !! t = Some th ∧
    threads k' = <[t := with_stat (inserted_stat (rt_current_thread k) t) th]> (threads k);
  rs_clock : clock_frame (eq t) k k'
}.

Lemma waiting_not_ready q : waiting q → ¬ ready_list q.
Proof. destruct q; simpl; tauto. Qed.

Lemma list_resume_spec k q t l :
  kernel_inv k → current_ok k → waiting q → queue k q = t :: l →
  wp (rt_ipc_list_resume q) k (λ _ k', resumes q t l k k').
Proof.
  intros H Hc Hw Hq. destruct (waiter_thread _ _ _ _ H Hw Hq) as (th & Ht & Hs).
  destruct (resume_eq t th k H Ht Hs) as (tm & Htm & _ & Heq).
  unfold rt_ipc_list_resume. ksteps. eapply wp_of_option; [unfold id; by rewrite Hq|]. ksteps.
  eapply wp_eq; [exact Heq|]. ksteps. constructor.
  - by eapply resumed_inv.
  - by apply current_ok_resumed.
  - apply objs_resumed.
  - apply resumed_current.
  - rewrite resumed_queue by by apply waiting_not_ready. by apply (queue_tail k q).
  - intros q' Hr Hne. rewrite resumed_queue by done. by eapply queue_other.
  - exists th. split; [done|]. apply resumed_threads.
  - by apply clock_frame_resumed.
Qed.

(** Resuming every waiter: the list ends empty, each waiter is made ready with
    [-RT_ERROR] and nothing else changes. *)
Record resumes_all (q : qid) (l : list addr) (k k' : kernel) : Prop := {
  ra_inv : kernel_inv k';
  ra_cur : current_ok k';
  ra_objs : objs_same k k';
  ra_current : rt_current_thread k' = rt_current_thread k;
  ra_queue : queue k' q = [];
  ra_others : ∀ q', ¬ ready_list q' → q' ≠ q → queue k' q' = queue k q';
  ra_woken : ∀ t, t ∈ l → ∃ th', threads k' !! t = Some th' ∧ error th' = - RT_ERROR ∧
    (stat_of th' = RT_THREAD_RUNNING ∨ stat_of th' = RT_THREAD_READY);
  ra_rest : ∀ t, t ∉ l → threads k' !! t = threads k !! t;
  ra_timers : ∀ r, timers k' !! r = None ↔ timers k !! r = None;
  ra_heads : ∀ q', ¬ ready_list q' → queues k' !! q' = None ↔ queues k !! q' = None
}.

Lemma kernel_inv_error k t th e :
  kernel_inv k → threads k !! t = Some th →
  kernel_inv (k <| threads := <[t := th <| error := e |>]> (threads k) |>).
Proof. intros H Ht. eapply kernel_inv_thread; [done..|]. by intros []. Qed.

Lemma current_ok_error k t th e :
  current_ok k → threads k !! t = Some th →
  current_ok (k <| threads := <[t := th <| error := e |>]> (threads k) |>).
Proof. intros. by eapply current_ok_thread. Qed.

Lemma resume_all_loop_spec q l : ∀ k n,
  kernel_inv k → current_ok k → waiting q → queue k q = l → (length l < n)%nat →
  wp (resume_all_loop n q) k (λ _ k', resumes_all q l k k').
Proof.
  induction l as [|t l IH]; intros k n H Hc Hw Hq Hn; (destruct n as [|n]; [simpl in Hn; lia|]).
  { simpl. ksteps. unfold id. rewrite Hq. ksteps. constructor; try done.
    by intros ? ?%not_elem_of_nil. }
  destruct (waiter_thread _ _ _ _ H Hw Hq) as (th & Ht & Hs).
  simpl. ksteps. unfold id. rewrite Hq. ksteps.
  set (k0 := k <| primask := 1 |>).
  set (k1 := k0 <| threads := <[t := fail_wait th]> (threads k0) |>).
  assert (kernel_inv k1) as H1.
  { apply (kernel_inv_error k0 t th (- RT_ERROR)); [by destruct H|done]. }
  assert (threads k1 !! t = Some (fail_wait th)) as Ht1 by apply lookup_insert_eq.
  destruct (resume_eq t (fail_wait th) k1 H1 Ht1 Hs) as (tm & Htm & _ & Heq).
  eapply wp_eq; [exact Heq|]. ksteps.
  set (k2 := (resumed t (fail_wait th) tm k1) <| primask := primask k |>).
  assert (threads k2 = <[t := with_stat (inserted_stat (rt_current_thread k) t) (fail_wait th)]>
            (threads k)) as Ht2.
  { unfold k2. ksimpl. rewrite resumed_threads. unfold k1. ksimpl. by rewrite insert_insert_eq. }
  assert (t ∉ l) as Hnot.
  { pose proof (si_nodup _ _ _ _ _ (ki_sched _ H) q) as Hnd. fold (queue k q) in Hnd.
    rewrite Hq in Hnd. by apply NoDup_cons in Hnd as [? _]. }
  assert (∀ q', ¬ ready_list q' → queue k2 q' = filter (.≠ t) (queue k q')) as Hq2.
  { intros q' Hr. apply (resumed_queue t (fail_wait th) tm k1 q' Hr). }
  assert (kernel_inv k2) as H2.
  { pose proof (resumed_inv t (fail_wait th) tm k1 H1 Ht1 Hs Htm) as []. by constructor. }
  eapply wp_mono; [apply (IH k2)|].
  - done.
  - apply (current_ok_resumed t (fail_wait th) tm k1).
    by apply (current_ok_error k0 t th (- RT_ERROR)).
  - done.
  - rewrite Hq2 by by apply waiting_not_ready. by eapply queue_tail.
  - simpl in Hn. lia.
  - intros ? k' Hra. constructor; try apply Hra.
    + etransitivity; [|apply Hra]. unfold objs_same. unfold k2.
      pose proof (objs_resumed t (fail_wait th) tm k1) as He. unfold objs_same, erase_threads in *.
      destruct (resumed _ _ _ _), k. simpl in *. injection He. intros. by subst.
    + rewrite (ra_current _ _ _ _ Hra). apply (resumed_current t (fail_wait th) tm k1).
    + intros q' Hr Hne. rewrite (ra_others _ _ _ _ Hra), Hq2 by done. by eapply queue_other.
    + intros t' [->|Hin]%elem_of_cons; [|by apply Hra].
      rewrite (ra_rest _ _ _ _ Hra), Ht2, lookup_insert_eq by done.
      eexists; split; [done|]. split; [done|]. rewrite inserted_stat_of. apply inserted_stat_live.
    + intros t' [Hne Hin]%not_elem_of_cons.
      by rewrite (ra_rest _ _ _ _ Hra), Ht2, lookup_insert_ne by done.
    + intros r. rewrite (ra_timers _ _ _ _ Hra). apply (resumed_timers t (fail_wait th) tm k1 r Htm).
    + intros q' Hr. rewrite (ra_heads _ _ _ _ Hra q' Hr). apply (resumed_heads t (fail_wait th) tm k1 q' Hr).
Qed.

Lemma resume_all_spec k q :
  kernel_inv k → current_ok k → waiting q →
  wp (rt_ipc_list_resume_all q) k (λ _ k', resumes_all q (queue k q) k k').
Proof.
  intros H Hc Hw. unfold rt_ipc_list_resume_all. ksteps.
  eapply wp_mono; [apply resume_all_loop_spec; [done..|unfold id; lia]|]. intros ? k' ?. by ksteps.
Qed.

(** ** Waiting

    The tail every blocking call of ipc.c shares: suspend on the list, arm the
    timer when the wait is bounded, enable interrupts and reschedule. *)
Definition wait_on (q : qid) (thread : addr) (flag time temp : Z) : M kernel unit :=
  rt_ipc_list_suspend q thread flag;;
  when (0 < time) (start_thread_timer thread time);;
  rt_hw_interrupt_enable temp;;
  rt_schedule.

Record waits (q : qid) (th : rt_thread) (flag time temp : Z) (k k' : kernel) : Prop := {
  wa_inv : kernel_inv k';
  wa_cur : current_ok k';
  wa_objs : objs_same (k <| primask := temp |>) k';
  wa_queue : ∃ l1 l2, queue k q = l1 ++ l2 ∧ queue k' q = l1 ++ rt_current_thread k :: l2 ∧
    wait_position k flag (current_priority th) l1 l2;
  wa_others : ∀ q', ¬ ready_list q' → q' ≠ q → queue k' q' = queue k q';
  wa_thread : ∃ th', threads k' !! rt_current_thread k = Some th' ∧
    stat_of th' = RT_THREAD_SUSPEND ∧ thread_core th' = thread_core (with_stat RT_THREAD_SUSPEND th);
  wa_threads : ∀ t t_th, t ≠ rt_current_thread k → threads k !! t = Some t_th →
    ∃ th', threads k' !! t = Some th' ∧ thread_core th' = thread_core t_th;
  wa_timer : 0 < time → ThreadTimer (rt_current_thread k) ∈ tqueue k' QTimer ∧
    remains (timers k') (rt_tick k') (ThreadTimer (rt_current_thread k)) = time;
  wa_clock : clock_frame (eq (rt_current_thread k)) k k';
  wa_foremost : rt_scheduler_lock_nest k = 0 → foremost k'
}.

Lemma kernel_inv_primask k p : kernel_inv k → kernel_inv (k <| primask := p |>).
Proof. intros []. by constructor. Qed.

Lemma parked_queue k th q q' l1 l2 :
  kernel_inv k → running k th → q' ≠ q →
  queue (parked (rt_current_thread k) th q l1 l2 k) q' = queue k q'.
Proof.
  intros H Hr Hne. rewrite <-(suspended_queue k th q' H Hr).
  unfold queue, parked. ksimpl. by apply qof_insert_ne.
Qed.

(** The three steps composed; [k2] is the state in which interrupts are
    enabled again. *)
Lemma waits_intro q th flag time temp k k2 k' l1 l2 :
  let cur := rt_current_thread k in
  kernel_inv k → running k th → waiting q → queue k q = l1 ++ l2 →
  wait_position k flag (current_priority th) l1 l2 →
  kernel_inv k2 → objs_same (parked cur th q l1 l2 k) k2 →
  threads k2 = threads (parked cur th q l1 l2 k) →
  queues k2 = queues (parked cur th q l1 l2 k) →
  (0 < time → ThreadTimer cur ∈ tqueue k2 QTimer ∧
     remains (timers k2) (rt_tick k2) (ThreadTimer cur) = time) →
  clock_frame (eq cur) (parked cur th q l1 l2 k) k2 →
  current_ok k2 → scheduled (k2 <| primask := temp |>) k' → kernel_inv k' →
  waits q th flag time temp k k'.
Proof.
  intros cur H Hr Hw Hl Hpos H2 Hobj Et Eq Htimer Hclock Hc2 Hsc H'.
  pose proof (sc_frame _ _ Hsc) as Hf.
  destruct (frame_fields _ _ Hf) as (E1 & E2 & _ & _ & _ & _ & _ & _ & E3 & _).
  assert (∀ q', ¬ ready_list q' → queue k' q' = queue (parked cur th q l1 l2 k) q') as Hq'.
  { intros q' Hn. unfold queue. rewrite (fr_queues _ _ Hf) by done. ksimpl. by rewrite Eq. }
  constructor; [done|apply Hsc| | | | | | | |].
  - etransitivity; [|by apply objs_scheduled]. apply objs_primask. etransitivity; [|exact Hobj].
    apply objs_parked.
  - exists l1, l2. split; [done|]. split; [|done]. rewrite Hq' by by apply waiting_not_ready.
    unfold queue, parked. ksimpl. apply qof_insert_eq.
  - intros q' Hn Hne. rewrite Hq' by done. by apply parked_queue.
  - destruct (scheduled_suspended _ _ cur (with_stat RT_THREAD_SUSPEND th) Hsc)
      as (th' & ? & ? & ?); [|by rewrite stat_of_with_stat|eauto].
    ksimpl. rewrite Et. apply suspended_thread.
  - intros t t_th Hne Ht. apply (frame_thread _ _ t t_th Hf). ksimpl. rewrite Et.
    unfold parked, suspended, removed. ksimpl. by rewrite lookup_insert_ne.
  - unfold tqueue. rewrite E1, E2, E3. apply Htimer.
  - transitivity (parked cur th q l1 l2 k); [by apply clock_frame_eq|]. transitivity k2; [done|].
    transitivity (k2 <| primask := temp |>); [by apply clock_frame_eq|]. by apply clock_frame_scheduled.
  - intros Hlock. apply (scheduled_foremost (k2 <| primask := temp |>)); [by apply kernel_inv_primask|exact Hc2|exact Hsc|].
    destruct (objs_fields _ _ Hobj) as (_ & _ & _ & _ & _ & _ & _ & El & _). simpl. by rewrite El.
Qed.

Lemma wait_on_spec k th q flag time temp :
  kernel_inv k → running k th → waiting q →
  flag = RT_IPC_FLAG_FIFO ∨ flag = RT_IPC_FLAG_PRIO → time < RT_TICK_MAX / 2 →
  wp (wait_on q (rt_current_thread k) flag time temp) k (λ _ k', waits q th flag time temp k k').
Proof.
  intros H Hr Hw Hflag Htime.
  destruct (list_suspend_spec k th q flag H Hr Hw Hflag) as (l1 & l2 & Hl & Hpos & Heq & H1).
  unfold wait_on. ksteps. eapply wp_eq; [exact Heq|]. ksteps.
  set (k1 := parked (rt_current_thread k) th q l1 l2 k) in *.
  assert (threads k1 !! rt_current_thread k = Some (with_stat RT_THREAD_SUSPEND th)) as Ht1
    by apply suspended_thread.
  assert (current_ok k1) as Hc1 by apply current_ok_suspended.
  apply wp_when; intros Htm.
  - eapply wp_mono; [eapply arm_timer_spec; [done|exact Ht1|by rewrite stat_of_with_stat|lia]|].
    intros ? k2 Ha. ksteps. destruct (armed_fields _ _ _ _ Ha) as (Et & Eq & Ec & _).
    eapply wp_mono; [apply (schedule_keeps (k2 <| primask := temp |>))|].
    + apply kernel_inv_primask, Ha.
    + by apply (current_ok_armed _ _ _ _ Ha).
    + intros ? k' [Hsc H']. apply (waits_intro q th flag time temp k k2 k' l1 l2); try done; [apply Ha| | | |].
      * eapply objs_armed. exact Ha.
      * intros _. split; apply Ha.
      * eapply clock_frame_armed. exact Ha.
      * by apply (current_ok_armed _ _ _ _ Ha).
  - ksteps. eapply wp_mono; [apply (schedule_keeps (k1 <| primask := temp |>))|].
    + by apply kernel_inv_primask.
    + done.
    + intros ? k' [Hsc H']. by apply (waits_intro q th flag time temp k k1 k' l1 l2).
Qed.

Lemma running_no_error k th :
  running k th →
  running (k <| threads := <[rt_current_thread k := no_error th]> (threads k) |>) (no_error th).
Proof. intros [Ht Hs]. split; [apply lookup_insert_eq|done]. Qed.

Lemma thread_context k (Q : unit → kernel → Prop) th :
  kernel_inv k → running k th → rt_interrupt_nest k = 0 → Q tt k →
  wp RT_DEBUG_IN_THREAD_CONTEXT k Q.
Proof.
  intros H [Ht _] Hn HQ. unfold RT_DEBUG_IN_THREAD_CONTEXT, RT_DEBUG_NOT_IN_INTERRUPT.
  pose proof (live_not_null _ _ _ H Ht). by ksteps.
Qed.

(** A thread that leaves a wait list on a resume: out of suspension, its error
    code untouched. *)
Definition handed (t : addr) (k k' : kernel) : Prop :=
  ∃ th th', threads k !! t = Some th ∧ threads k' !! t = Some th' ∧
    stat_class th' = RT_THREAD_READY ∧ error th' = error th.

Lemma class_inserted c t th : stat_class (with_stat (inserted_stat c t) th) = RT_THREAD_READY.
Proof.
  unfold stat_class. rewrite inserted_stat_of.
  by destruct (inserted_stat_live c t) as [-> | ->].
Qed.

Lemma handed_frame t th k k1 k' :
  threads k !! t = Some th →
  threads k1 = <[t := with_stat (inserted_stat (rt_current_thread k) t) th]> (threads k) →
  sched_frame k1 k' → handed t k k'.
Proof.
  intros Ht Et Hf.
  destruct (frame_thread _ _ t (with_stat (inserted_stat (rt_current_thread k) t) th) Hf)
    as (th' & Ht' & Hc); [rewrite Et; apply lookup_insert_eq|].
  exists th, th'. split_and!; [done|done| |by apply (f_equal error) in Hc].
  by rewrite (core_class _ _ Hc), class_inserted.
Qed.

(** Waking the first waiter: resume it, enable interrupts, reschedule. *)
Record hands (q : qid) (t : addr) (l : list addr) (temp : Z) (k k' : kernel) : Prop := {
  ha_inv : kernel_inv k';
  ha_cur : current_ok k';
  ha_objs : objs_same (k <| primask := temp |>) k';
  ha_queue : queue k' q = l;
  ha_others : ∀ q', ¬ ready_list q' → q' ≠ q → queue k' q' = queue k q';
  ha_handed : handed t k k';
  ha_threads : ∀ t' th, t' ≠ t → threads k !! t' = Some th →
    ∃ th', threads k' !! t' = Some th' ∧ thread_core th' = thread_core th;
  ha_clock : clock_frame (eq t) k k';
  ha_foremost : rt_scheduler_lock_nest k = 0 → foremost k'
}.

Lemma wake_spec {A} k q t l temp (rest : M kernel A) Q :
  kernel_inv k → current_ok k → waiting q → queue k q = t :: l →
  (∀ k', hands q t l temp k k' → wp rest k' Q) →
  wp (rt_ipc_list_resume q;; rt_hw_interrupt_enable temp;; rt_schedule;; rest) k Q.
Proof.
  intros H Hc Hw Hq Hrest. ksteps. eapply wp_mono; [by apply list_resume_spec|].
  intros ? k1 Hr. ksteps.
  eapply wp_mono; [apply (schedule_keeps (k1 <| primask := temp |>)); [|apply Hr]|].
  { apply kernel_inv_primask, Hr. }
  intros ? k' [Hs H']. ksteps. apply Hrest. constructor.
  - done.
  - apply Hs.
  - etransitivity; [|by apply objs_scheduled]. apply objs_primask, Hr.
  - unfold queue. rewrite (fr_queues _ _ (sc_frame _ _ Hs)) by by apply waiting_not_ready. apply Hr.
  - intros q' Hn Hne. unfold queue. rewrite (fr_queues _ _ (sc_frame _ _ Hs)) by done.
    by apply (rs_others _ _ _ _ _ Hr).
  - destruct (rs_thread _ _ _ _ _ Hr) as (th & Ht & Et).
    by apply (handed_frame t th k (k1 <| primask := temp |>)); [| |apply Hs].
  - intros t' th' Hne Ht'. destruct (rs_thread _ _ _ _ _ Hr) as (th & Ht & Et).
    apply (frame_thread _ _ t' th' (sc_frame _ _ Hs)). ksimpl. by rewrite Et, lookup_insert_ne.
  - transitivity k1; [apply Hr|]. transitivity (k1 <| primask := temp |>); [by apply clock_frame_eq|].
    by apply clock_frame_scheduled.
  - intros Hlock. apply (scheduled_foremost (k1 <| primask := temp |>)); [by apply kernel_inv_primask, Hr|apply Hr|exact Hs|].
    destruct (objs_fields _ _ (rs_objs _ _ _ _ _ Hr)) as (_ & _ & _ & _ & _ & _ & _ & El & _). simpl. by rewrite El.
Qed.

(** ** Changing a priority, as seen from the wait lists *)
Lemma reprioritized_thread t th p k :
  stat_of th = RT_THREAD_READY → ∃ th',
  threads (reprioritized t th p k) = <[t := th']> (threads k) ∧
  current_priority th' = u8 p ∧ stat_class th' = RT_THREAD_READY ∧ error th' = error th.
Proof.
  intros Hr. unfold reprioritized. rewrite decide_True by done. rewrite inserted_threads. ksimpl.
  rewrite insert_insert_eq. eexists. split; [done|]. by rewrite class_inserted.
Qed.

Record reprioritizes (t : addr) (th : rt_thread) (p : Z) (k k' : kernel) : Prop := {
  rp_thread : ∃ th', threads k' = <[t := th']> (threads k) ∧ current_priority th' = u8 p ∧
    stat_class th' = stat_class th ∧ error th' = error th;
  rp_objs : objs_same k k';
  rp_current : rt_current_thread k' = rt_current_thread k;
  rp_queue : ∀ q, ¬ ready_list q → queue k' q = queue k q
}.
Lemma reprioritized_spec t th p k :
  kernel_inv k → threads k !! t = Some th → reprioritizes t th p k (reprioritized t th p k).
Proof.
  intros H Ht. destruct (decide (stat_of th = RT_THREAD_READY)) as [Hr|Hr].
  - destruct (reprioritized_thread t th p k Hr) as (th' & Et & Hp & Hs & He).
    unfold reprioritized in *. rewrite decide_True in * by done. constructor.
    + exists th'. split_and!; try done. rewrite Hs. unfold stat_class. by rewrite Hr.
    + etransitivity; [|apply objs_inserted]. by destruct k.
    + by destruct (inserted_rest t (with_priority p th)
        ((removed t th k) <| threads := <[t := with_priority p th]> (threads k) |>)) as (_ & _ & ->).
    + intros q Hq. unfold queue. rewrite inserted_queue by done. unfold removed. ksimpl.
      apply qof_remove_id. intros Hin.
      destruct (queued_stat _ _ _ _ _ _ _ (ki_sched _ H) Hin) as (_ & th1 & Ht1 & Hst).
      assert (th1 = th) as -> by congruence. rewrite Hr in Hst. by destruct q.
  - unfold reprioritized. rewrite decide_False by done. constructor; try done.
    exists (with_priority p th). by split_and!.
Qed.

Lemma running_reprioritizes t oth p k k' th :
  reprioritizes t oth p k k' → t ≠ rt_current_thread k → running k th → running k' th.
Proof.
  intros Hp Hne [Ht Hs]. destruct (rp_thread _ _ _ _ _ Hp) as (th' & Et & _).
  split; [|done]. by rewrite (rp_current _ _ _ _ _ Hp), Et, lookup_insert_ne.
Qed.

(** The end of a send or receive: wake the first waiter of [q], if any, enable
    interrupts and return [r]. *)
Definition wake_waiter {A} (q : qid) (temp : Z) (r : A) : M kernel A :=
  k ← gets id;
  if decide (queue k q ≠ []) then
    rt_ipc_list_resume q;;
    rt_hw_interrupt_enable temp;;
    rt_schedule;;
    mret r
  else
    rt_hw_interrupt_enable temp;;
    mret r.

Record woke (q : qid) (temp : Z) (k k' : kernel) : Prop := {
  wo_inv : kernel_inv k';
  wo_cur : current_ok k';
  wo_objs : objs_same (k <| primask := temp |>) k';
  wo_queue : queue k' q = tail (queue k q);
  wo_others : ∀ q', ¬ ready_list q' → q' ≠ q → queue k' q' = queue k q';
  wo_handed : ∀ t l, queue k q = t :: l → handed t k k';
  wo_threads : ∀ t th, head (queue k q) ≠ Some t → threads k !! t = Some th →
    ∃ th', threads k' !! t = Some th' ∧ thread_core th' = thread_core th;
  wo_clock : clock_frame (λ t, head (queue k q) = Some t) k k';
  wo_foremost : rt_scheduler_lock_nest k = 0 → foremost k → foremost k'
}.

Lemma wake_waiter_spec {A} q temp (r : A) k (Q : A → kernel → Prop) :
  kernel_inv k → current_ok k → waiting q →
  (∀ k', woke q temp k k' → Q r k') → wp (wake_waiter q temp r) k Q.
Proof.
  intros H Hc Hw HQ. unfold wake_waiter. ksteps. unfold id.
  destruct (queue k q) as [|t l] eqn:Hq.
  - rewrite decide_False by naive_solver. ksteps. apply HQ. constructor; try done.
    + by apply kernel_inv_primask.
    + by rewrite Hq.
    + by rewrite Hq.
    + eauto.
  - rewrite decide_True by done. eapply wake_spec; [done..|]. intros k' Hh. ksteps. apply HQ.
    destruct Hh. constructor; try done.
    + by rewrite Hq.
    + intros ? ? E. rewrite Hq in E. by injection E as <- <-.
    + rewrite Hq. intros t' th Hne. apply ha_threads0. naive_solver.
    + eapply clock_frame_weaken; [|done]. rewrite Hq. by intros ? <-.
    + intros Hlock _. by apply ha_foremost0.
Qed.

(** The locals that survive the wait. *)
Record wait_locals := mkLocals { wl_thread : addr; wl_timeout : Z; wl_tick : Z }.

(** [if (timeout > 0) { tick_delta = rt_tick_get(); ... }]: the tick is read
    with interrupts masked, so it is the same before and after the suspend. *)
Definition wait_tick (timeout : Z) : M kernel Z :=
  if decide (0 < timeout) then rt_tick_get else mret 0.
(** [tick_delta = rt_tick_get() - tick_delta; timeout -= tick_delta;
    if (timeout < 0) timeout = 0;] *)
Definition time_left (timeout tick now : Z) : Z :=
  if decide (0 < timeout) then
    let left := i32 (timeout - u32 (now - tick)) in if decide (left < 0) then 0 else left
  else timeout.

(** The wait of [rt_mb_send_wait], [rt_mb_recv], [rt_mq_send_wait] and [rt_mq_recv]. *)
Definition timed_wait (q : qid) (thread : addr) (flag timeout temp : Z) : M kernel wait_locals :=
  RT_DEBUG_IN_THREAD_CONTEXT;;
  tick_delta ← wait_tick timeout;
  wait_on q thread flag timeout temp;;
  mret (mkLocals thread timeout tick_delta).

Definition wait_start (k : kernel) (timeout : Z) : Z := if decide (0 < timeout) then rt_tick k else 0.
(** The state in which the caller waits: interrupts masked, error cleared. *)
Definition waiting_state (k : kernel) (th : rt_thread) : kernel :=
  k <| primask := 1 |> <| threads := <[rt_current_thread k := no_error th]> (threads k) |>.

Lemma timed_wait_spec k th q flag timeout temp :
  kernel_inv k → running k th → rt_interrupt_nest k = 0 → waiting q →
  flag = RT_IPC_FLAG_FIFO ∨ flag = RT_IPC_FLAG_PRIO → timeout < RT_TICK_MAX / 2 →
  wp (timed_wait q (rt_current_thread k) flag timeout temp) (waiting_state k th) (λ w k',
    w = mkLocals (rt_current_thread k) timeout (wait_start k timeout) ∧
    waits q (no_error th) flag timeout temp (waiting_state k th) k').
Proof.
  intros H Hr Hnest Hw Hflag Htime. pose proof Hr as [Ht Hs].
  assert (kernel_inv (waiting_state k th)) as H0.
  { eapply kernel_inv_ext; [apply (kernel_inv_error k _ th RT_EOK H Ht)|done..]. }
  assert (running (waiting_state k th) (no_error th)) as Hr0 by (split; [apply lookup_insert_eq|done]).
  assert (∀ tick, wp (wait_on q (rt_current_thread k) flag timeout temp;;
      mret (mkLocals (rt_current_thread k) timeout tick)) (waiting_state k th)
    (λ w k', w = mkLocals (rt_current_thread k) timeout tick ∧
      waits q (no_error th) flag timeout temp (waiting_state k th) k')) as Hwait.
  { intros tick. ksteps.
    eapply wp_mono; [apply (wait_on_spec (waiting_state k th) (no_error th)); done|].
    intros ? k' Hwa. by ksteps. }
  unfold timed_wait, wait_start, wait_tick. ksteps. eapply thread_context; [done|done|done|]. ksteps.
  case_decide; [apply wp_gets|apply wp_ret]; apply Hwait.
Qed.

(** Time left never grows and never goes negative. *)
Lemma time_left_range timeout tick now :
  0 < timeout < 2 ^ 31 → u32 (now - tick) < 2 ^ 31 → 0 ≤ time_left timeout tick now ≤ timeout.
Proof.
  intros Ht Hd. unfold time_left. rewrite decide_True by lia.
  pose proof (wrapU_range 32 (now - tick) ltac:(lia)).
  rewrite wrapS_small by lia. case_decide; lia.
Qed.
