(* ===== verification/Decide.v ===== *)
(** * Deciding the kernel invariant

    The invariants of Scheduler.v and Timer.v quantify over all lists and
    threads.  Here they are checked on a given kernel: [kernel_inv_check] only
    visits the entries of its finite maps and is decided by evaluation. *)
From S2P Require Import Prelude Kernel Scheduler Timer Thread.

#[global] Instance thread_ok_dec th : Decision (thread_ok th).
Proof.
  destruct (decide ((0 ≤ current_priority th < RT_THREAD_PRIORITY_MAX ∧
    number_mask th = 2 ^ current_priority th) ∧ stack_ok th ∧
    rt_object_get_type (th_parent th) = RT_Object_Class_Thread)) as [H|H];
    [left|right]; [constructor; apply H|intros []; tauto].
Defined.
#[global] Instance thread_timer_ok_dec t tm : Decision (thread_timer_ok t tm).
Proof.
  destruct (decide ((rt_object_get_type (tm_parent tm) = RT_Object_Class_Timer ∧
    rt_object_is_systemobject (tm_parent tm) = true) ∧ (timeout_func tm = Fn_rt_thread_timeout ∧
    tm_parameter tm = t) ∧ has_flag tm RT_TIMER_FLAG_SOFT_TIMER = false ∧
    has_flag tm RT_TIMER_FLAG_PERIODIC = false)) as [H|H];
    [left|right]; [constructor; apply H|intros []; tauto].
Defined.
#[global] Instance live_dec th : Decision (live th).
Proof. unfold live. apply _. Defined.
#[global] Instance check_list_dec q : Decision (check_list q).
Proof. unfold check_list. apply _. Defined.

Section Listed.
Context {Q A : Type} `{Countable Q, EqDecision A}.
Implicit Types (qs : gmap Q (list A)).

(** No element is twice in one list or in two lists. *)
Definition lists_apart qs : Prop :=
  map_Forall (λ q1 l1, NoDup l1 ∧ map_Forall (λ q2 l2, q1 = q2 ∨ Forall (.∉ l2) l1) qs) qs.
#[global] Instance lists_apart_dec qs : Decision (lists_apart qs).
Proof. unfold lists_apart. apply _. Defined.

Lemma in_list qs q a : a ∈ qof qs q → ∃ l, qs !! q = Some l ∧ a ∈ l.
Proof. destruct (qs !! q) as [l|]; [by exists l|]. by intros ?%not_elem_of_nil. Qed.
Lemma apart_nodup qs q : lists_apart qs → NoDup (qof qs q).
Proof. intros Ha. destruct (qs !! q) as [l|] eqn:E; [by destruct (Ha _ _ E)|constructor]. Qed.
Lemma apart_disjoint qs q1 q2 a : lists_apart qs → a ∈ qof qs q1 → a ∈ qof qs q2 → q1 = q2.
Proof.
  intros Ha (l1 & E1 & H1)%in_list (l2 & E2 & H2)%in_list.
  destruct (Ha _ _ E1) as [_ Hd]. destruct (Hd _ _ E2) as [?|Hn]; [done|].
  rewrite Forall_forall in Hn. by destruct (Hn a).
Qed.
End Listed.

(** ** The scheduler's half *)
Definition thread_stat (ths : gmap addr rt_thread) (t : addr) : option (Z * Z) :=
  th ← ths !! t; Some (stat_of th, current_priority th).

Definition entry_check (ths : gmap addr rt_thread) (q : qid) (t : addr) : Prop :=
  match q with
  | QReady p => thread_stat ths t = Some (RT_THREAD_READY, p)
  | QDefunct => fst <$> thread_stat ths t = Some RT_THREAD_CLOSE
  | QSuspend _ | QSender _ => fst <$> thread_stat ths t = Some RT_THREAD_SUSPEND
  end.
#[global] Instance entry_check_dec ths q t : Decision (entry_check ths q t).
Proof. unfold entry_check. destruct q; apply _. Defined.

Definition sched_check (k : kernel) : Prop :=
  (0 ≤ rt_thread_ready_priority_group k < 2 ^ 32 ∧
   Forall (λ p, Z.testbit (rt_thread_ready_priority_group k) p = true ↔ queue k (QReady p) ≠ [])
     (Z.of_nat <$> seq 0 32)) ∧
  lists_apart (queues k) ∧
  map_Forall (λ q l, Forall (entry_check (threads k) q) l) (queues k) ∧
  map_Forall (λ t th, t ≠ RT_NULL ∧
    (stat_of th = RT_THREAD_READY → t ∈ queue k (QReady (current_priority th))) ∧
    (live th → thread_ok th) ∧ (stat_of th = RT_THREAD_RUNNING → t = rt_current_thread k)) (threads k).
#[global] Instance sched_check_dec k : Decision (sched_check k).
Proof. unfold sched_check. apply _. Defined.

Lemma thread_stat_Some ths t s p :
  thread_stat ths t = Some (s, p) → ∃ th, ths !! t = Some th ∧ stat_of th = s ∧ current_priority th = p.
Proof. unfold thread_stat. destruct (ths !! t) as [th|]; [|done]. intros [= <- <-]. by exists th. Qed.
Lemma thread_stat_fst ths t s :
  fst <$> thread_stat ths t = Some s → ∃ th, ths !! t = Some th ∧ stat_of th = s.
Proof. unfold thread_stat. destruct (ths !! t) as [th|]; [|done]. intros [= <-]. by exists th. Qed.

Lemma sched_check_sound k : sched_check k → sched_inv None k.
Proof.
  intros ((Hr & Hg) & Ha & He & Ht).
  assert (∀ q t, t ∈ qof (queues k) q → entry_check (threads k) q t) as Hentry.
  { intros q t (l & E & Hin)%in_list. by eapply Forall_forall; [apply (He _ _ E)|]. }
  constructor; try done.
  - intros p Hp. rewrite Forall_forall in Hg. apply Hg, list_elem_of_fmap.
    exists (Z.to_nat p). unfold RT_THREAD_PRIORITY_MAX in Hp. split; [lia|]. apply elem_of_seq. lia.
  - intros t p _. split.
    + intros Hin. apply (Hentry (QReady p)) in Hin. by apply thread_stat_Some in Hin.
    + intros (th & E & Hs & <-). by apply (Ht _ _ E).
  - intros t [] Hw Hin; try done; apply Hentry in Hin; by apply thread_stat_fst in Hin.
  - intros t Hin. apply (Hentry QDefunct) in Hin. by apply thread_stat_fst in Hin.
  - intros q. by apply apart_nodup.
  - intros q1 q2 t. by apply apart_disjoint.
  - intros t th _ E. by apply (Ht _ _ E).
  - intros t th _ E. by apply (Ht _ _ E).
  - destruct (threads k !! RT_NULL) eqn:E; [|done]. by destruct (Ht _ _ E).
Qed.

(** ** The timers' half *)
Definition timer_entry_check (k : kernel) (q : tqid) (r : ref) : Prop :=
  match timers k !! r with
  | None => False
  | Some tm =>
      (check_list q ∨ active tm ∧ q = timer_home tm) ∧
      match r with
      | ThreadTimer t =>
          (q = QTimer → fst <$> thread_stat (threads k) t = Some RT_THREAD_SUSPEND) ∧
          (check_list q → ¬ active tm)
      | _ => True
      end
  end.
#[global] Instance timer_entry_check_dec k q r : Decision (timer_entry_check k q r).
Proof. unfold timer_entry_check. destruct (timers k !! r), r; apply _. Defined.

Definition timer_check (k : kernel) : Prop :=
  timers k !! Obj RT_NULL = None ∧
  lists_apart (timer_queues k) ∧
  map_Forall (λ q l, Forall (timer_entry_check k q) l) (timer_queues k) ∧
  map_Forall (λ r tm, active tm → Exists (λ q, r ∈ tqueue k q) [QTimer; QSoftTimer; QCheck; QSoftCheck])
    (timers k) ∧
  map_Forall (λ t th, live th →
    match timers k !! ThreadTimer t with Some tm => thread_timer_ok t tm | None => False end) (threads k).
#[global] Instance thread_has_timer_dec k t : Decision
  (match timers k !! ThreadTimer t with Some tm => thread_timer_ok t tm | None => False end).
Proof. destruct (timers k !! ThreadTimer t); apply _. Defined.
#[global] Instance timer_check_dec k : Decision (timer_check k).
Proof. unfold timer_check. apply _. Defined.

Lemma timer_check_sound k : timer_check k → timer_inv k.
Proof.
  intros (Hn & Ha & He & Hact & Ht).
  assert (∀ q r, r ∈ qof (timer_queues k) q → timer_entry_check k q r) as Hentry.
  { intros q r (l & E & Hin)%in_list. by eapply Forall_forall; [apply (He _ _ E)|]. }
  unfold timer_entry_check in Hentry. constructor; try done.
  - intros q. by apply apart_nodup.
  - intros q1 q2 r. by apply apart_disjoint.
  - intros q r Hin. apply Hentry in Hin. by destruct (timers k !! r).
  - intros q r tm Hin Hc E. apply Hentry in Hin. rewrite E in Hin. by destruct Hin as [[?|?] _].
  - intros r tm E Htm. apply Hact in E. apply Exists_exists in E as (q & _ & Hin); [|done]. by exists q.
  - intros t th E Hl. specialize (Ht _ _ E Hl). destruct (timers k !! ThreadTimer t) as [tm|]; [|done].
    by exists tm.
  - intros t Hin. apply Hentry in Hin. destruct (timers k !! ThreadTimer t); [|done].
    destruct Hin as (_ & Hs & _). by apply thread_stat_fst, Hs.
  - intros q t tm Hc Hin E. apply Hentry in Hin. rewrite E in Hin. by apply Hin.
Qed.

Definition kernel_inv_check (k : kernel) : bool := bool_decide (sched_check k ∧ timer_check k).

Lemma kernel_inv_by_check k : kernel_inv_check k = true → kernel_inv k.
Proof.
  intros [Hs Ht]%bool_decide_eq_true. constructor; [by apply sched_check_sound|by apply timer_check_sound].
Qed.

(** ** Who runs *)
Definition foremost_check (k : kernel) : Prop :=
  match threads k !! rt_current_thread k with
  | Some th => map_Forall (λ _ tht, stat_of tht = RT_THREAD_READY →
      stat_of th = RT_THREAD_RUNNING ∧ current_priority th ≤ current_priority tht) (threads k)
  | None => True
  end.
#[global] Instance foremost_check_dec k : Decision (foremost_check k).
Proof. unfold foremost_check. destruct (threads k !! rt_current_thread k); apply _. Defined.
Lemma foremost_check_iff k : foremost_check k ↔ foremost k.
Proof.
  unfold foremost_check. split.
  - intros Hc th t tht Ht Htt Hs. rewrite Ht in Hc. by apply (Hc t tht).
  - intros Hf. destruct (threads k !! rt_current_thread k) as [th|] eqn:Ht; [|done].
    intros t tht Htt Hs. by apply (Hf th t tht).
Qed.
#[global] Instance foremost_dec k : Decision (foremost k).
Proof.
  destruct (decide (foremost_check k)) as [Hc|Hc]; [left|right]; by rewrite <-foremost_check_iff.
Defined.
