(* ===== verification/Scenario.v ===== *)
(** * A small running system

    Five threads, their timers and one object of each kind, at tick 1000.
    The concrete instances of the theorems are taken in this system and in
    variants of it. *)
From S2P Require Import Prelude Kernel Scheduler Object Timer Thread Decide.

(** The threads: the one on the processor, a ready one of the same priority,
    the idle thread, one that sleeps until tick 1005, and one that waits. *)
Definition T_run : addr := 0x20000100.
Definition T_peer : addr := 0x20000200.
Definition T_idle : addr := 0x20000300.
Definition T_sleep : addr := 0x20000400.
Definition T_wait : addr := 0x20000500.

Definition O_sem : addr := 0x20001000.
Definition O_mutex : addr := 0x20001100.
Definition O_event : addr := 0x20001200.
Definition O_mb : addr := 0x20001300.
Definition O_mq : addr := 0x20001400.

Definition a_thread (s prio error : Z) : rt_thread :=
  mkThread (mkObject [116; 0; 0; 0; 0; 0; 0; 0] 129 0) 0x20002100 0x08001000 0 0x20002000 512 35
    error s prio prio (2 ^ prio) 0 0 20 20 0 0.
Definition a_timer (t : addr) (flag timeout : Z) : rt_timer :=
  mkTimer (mkObject [116; 0; 0; 0; 0; 0; 0; 0] 138 flag) Fn_rt_thread_timeout t 5 timeout.
Definition an_object (type flag : Z) : rt_object :=
  mkObject [111; 98; 106; 0; 0; 0; 0; 0] (Z.lor type RT_Object_Class_Static) flag.

(** [T_wait] is in the list [q]; the objects are given by their maps. *)
Definition scene_with (q : qid) (sems : gmap addr rt_semaphore) (muts : gmap addr rt_mutex)
    (evs : gmap addr rt_event) (mbs : gmap addr rt_mailbox) (mqs : gmap addr rt_messagequeue) : kernel :=
  mkKernel
    (list_to_map [(T_run, a_thread RT_THREAD_RUNNING 10 RT_EOK);
                  (T_peer, a_thread RT_THREAD_READY 10 RT_EOK);
                  (T_idle, a_thread RT_THREAD_READY 31 RT_EOK);
                  (T_sleep, a_thread RT_THREAD_SUSPEND 5 RT_EOK);
                  (T_wait, a_thread RT_THREAD_SUSPEND 4 RT_EOK)])
    (list_to_map [(ThreadTimer T_run, a_timer T_run 0 0);
                  (ThreadTimer T_peer, a_timer T_peer 0 0);
                  (ThreadTimer T_idle, a_timer T_idle 0 0);
                  (ThreadTimer T_sleep, a_timer T_sleep RT_TIMER_FLAG_ACTIVATED 1005);
                  (ThreadTimer T_wait, a_timer T_wait 0 0)])
    (list_to_map [(QReady 10, [T_peer]); (QReady 31, [T_idle]); (q, [T_wait])])
    (list_to_map [(QTimer, [ThreadTimer T_sleep])])
    ∅ sems muts evs mbs mqs ∅ ∅ ∅ 0
    (2 ^ 10 + 2 ^ 31) T_run 10 0 0 1000 0 RT_SOFT_TIMER_IDLE T_idle.

Definition scene : kernel := scene_with (QSuspend 1) ∅ ∅ ∅ ∅ ∅.

Lemma scene_inv : kernel_inv scene.
Proof. apply kernel_inv_by_check. vm_compute. reflexivity. Qed.
Lemma scene_running : running scene (a_thread RT_THREAD_RUNNING 10 RT_EOK).
Proof. done. Qed.

(** Discharging the hypotheses of a theorem in a concrete kernel. *)
Ltac by_check := apply kernel_inv_by_check; vm_compute; reflexivity.
