(* ===== verification/Scheduling.v ===== *)
(** * Scheduling policy

    What the scheduler promises to the threads: the processor goes to a best
    ready thread, threads of equal priority take turns, nothing is rescheduled
    inside a critical section, and a sleeping thread stays off the processor
    for the time it asked for. *)
From S2P Require Import Prelude Kernel Scheduler Timer Thread Clock Ipc Decide Scenario.

(** ** The best ready thread runs *)
(** with the scheduler unlocked and some thread ready, [rt_schedule]
    leaves a running thread on the processor whose priority no ready thread
    beats, and keeps the bitmap, the ready lists and the thread states
    consistent. *)
Theorem schedule_runs_best k :
  kernel_inv k → current_ok k → rt_scheduler_lock_nest k = 0 → rt_thread_ready_priority_group k ≠ 0 →
  wp rt_schedule k (λ _ k', kernel_inv k' ∧ ∃ th', running k' th' ∧
    ∀ t tht, threads k' !! t = Some tht → stat_of tht = RT_THREAD_READY →
      current_priority th' ≤ current_priority tht).
Proof.
  intros H Hc Hl Hg. pose proof Hc as (th & Ht & _).
  eapply wp_mono; [by apply schedule_keeps|]. intros ? k' [Hs Hk']. split; [done|].
  apply (chosen_best k k' th); try done. apply H.
Qed.
Lemma schedule_runs_best_witness :
  wp rt_schedule scene (λ _ k', kernel_inv k' ∧ ∃ th', running k' th' ∧
    ∀ t tht, threads k' !! t = Some tht → stat_of tht = RT_THREAD_READY →
      current_priority th' ≤ current_priority tht).
Proof.
  apply (schedule_runs_best scene); [apply scene_inv|eapply running_ok, scene_running|done|done].
Defined.

(** ** Threads of equal priority take turns *)
Lemma yields_slice_over th : yields (slice_over th) = true.
Proof.
  apply bool_decide_eq_true. unfold slice_over; simpl. rewrite land_u8 by done.
  rewrite Z.land_lor_distr_l. intros E. by apply Z.lor_eq_0_iff in E as [_ E].
Qed.
Lemma stat_of_slice_over th : stat_of (slice_over th) = stat_of th.
Proof.
  unfold stat_of, slice_over; simpl. unfold RT_THREAD_STAT_MASK.
  by rewrite land_u8, Z.land_lor_distr_l, Z.lor_0_r.
Qed.
Lemma best_ready_unique k t p t' p' : best_ready k t p → best_ready k t' p' → t = t' ∧ p = p'.
Proof.
  intros (Hp & Hh & Hl) (Hp' & Hh' & Hl').
  destruct (Z.lt_total p p') as [?|[<-|?]].
  - rewrite Hl' in Hh by lia. done.
  - rewrite Hh in Hh'. by injection Hh' as <-.
  - rewrite Hl in Hh' by lia. done.
Qed.

(** A running thread that loses the processor to [best] of its own ready list
    queues up behind the others. *)
Lemma switched_queue k cur th best bth p l :
  stat_of th = RT_THREAD_RUNNING → queue k (QReady (current_priority th)) = best :: l →
  best ∉ l → best ≠ cur →
  queue (dispatched best bth (preempted cur th best p k)) (QReady (current_priority th)) = l ++ [cur].
Proof.
  intros Hs Hq Hl Hne. unfold dispatched, removed, preempted, made_ready, queue.
  rewrite (decide_True (P := stat_of th = RT_THREAD_RUNNING)) by done. ksimpl. rewrite qof_remove. unfold clear_yield at 1 2. ksimpl. cbn [current_priority update_field].
  rewrite qof_insert_eq. fold (queue k (QReady (current_priority th))). unfold queue in *. ksimpl.
  rewrite Hq, filter_app. f_equal.
  - rewrite filter_cons_False by naive_solver. by apply list_filter_ne_id.
  - by rewrite filter_cons_True.
Qed.

Lemma ready_group_set k p t :
  kernel_inv k → 0 ≤ p < RT_THREAD_PRIORITY_MAX → t ∈ queue k (QReady p) →
  rt_thread_ready_priority_group k ≠ 0.
Proof.
  intros H Hp Hin E. pose proof (si_group _ _ _ _ _ (ki_sched _ H) _ Hp) as [_ Hgr].
  rewrite E, Z.bits_0 in Hgr. discriminate Hgr. intros Hn. unfold queue in Hin. rewrite Hn in Hin.
  by apply not_elem_of_nil in Hin.
Qed.

(** A running thread that has set its yield bit gives way to the first ready
    thread of its own priority when no better one is ready. *)
Lemma round_robin k th t l :
  kernel_inv k → running k th → yields th = true → rt_scheduler_lock_nest k = 0 →
  queue k (QReady (current_priority th)) = t :: l →
  (∀ p, 0 ≤ p < current_priority th → queue k (QReady p) = []) →
  wp rt_schedule k (λ _ k', scheduled k k' ∧ kernel_inv k' ∧ rt_current_thread k' = t ∧
    queue k' (QReady (current_priority th)) = l ++ [rt_current_thread k]).
Proof.
  intros H Hr Hy Hl Hq Hbetter. pose proof Hr as [Ht Hs].
  pose proof (ok_prio _ (live_ok _ _ _ H Ht (running_live _ _ Hr))) as Hprio.
  assert (best_ready k t (current_priority th)) as Hb1 by (split; [done|]; by rewrite Hq).
  destruct (rt_schedule_eq k _ th (ki_sched _ H) eq_refl Ht)
    as (best & p & bth & Hb & Hbt & Hne & Heq); [by rewrite Hs|done| |].
  { eapply ready_group_set; [done|exact Hprio|rewrite Hq; left]. }
  destruct (best_ready_unique _ _ _ _ _ Hb1 Hb) as [<- <-].
  rewrite decide_False in Heq by (intros [_ [?|[_ ?]]]; [lia|congruence]).
  pose proof (schedule_keeps k H (running_ok k _ Hr)) as Hw. unfold wp in *. rewrite Heq in *.
  split; [apply Hw|]. split; [apply Hw|]. split.
  - unfold dispatched, removed, preempted. by rewrite (decide_True (P := stat_of _ = _)) by done.
  - apply switched_queue; try done.
    pose proof (si_nodup _ _ _ _ _ (ki_sched _ H) (QReady (current_priority th))) as Hnd.
    fold (queue k (QReady (current_priority th))) in Hnd. rewrite Hq in Hnd. by apply NoDup_cons in Hnd as [? _].
Qed.

(** [rt_thread_yield] among threads of one priority is round robin: the
    first ready thread of the caller's priority gets the processor and the
    caller goes to the end of that list. *)
Theorem yield_round_robin k th t l :
  kernel_inv k → running k th → rt_scheduler_lock_nest k = 0 →
  queue k (QReady (current_priority th)) = t :: l →
  (∀ p, 0 ≤ p < current_priority th → queue k (QReady p) = []) →
  wp rt_thread_yield k (λ r k', r = RT_EOK ∧ kernel_inv k' ∧ rt_current_thread k' = t ∧
    queue k' (QReady (current_priority th)) = l ++ [rt_current_thread k]).
Proof.
  intros H [Ht Hs] Hl Hq Hbetter. pose (k <| primask := 1 |>) as k0.
  assert (kernel_inv k0) as H0 by by apply kernel_inv_primask.
  unfold rt_thread_yield. ksteps. eapply wp_mono; [apply (round_robin _ (slice_over th) t l)|].
  - eapply (kernel_inv_thread k0); [exact H0|exact Ht|apply stat_of_slice_over|done|by intros []].
  - split; [apply lookup_insert_eq|by rewrite stat_of_slice_over].
  - apply yields_slice_over.
  - done.
  - exact Hq.
  - exact Hbetter.
  - intros ? k' (_ & H' & Hc & Hq'). ksteps. split; [done|]. split; [by apply kernel_inv_primask|done].
Qed.
Lemma scene_no_better p : 0 ≤ p < 10 → queue scene (QReady p) = [].
Proof.
  intros Hp. assert (p ∈ (Z.of_nat <$> seq 0 10)) as Hin.
  { apply list_elem_of_fmap. exists (Z.to_nat p). split; [lia|]. apply elem_of_seq. lia. }
  clear Hp. revert p Hin. apply Forall_forall. by repeat constructor.
Qed.
Lemma yield_round_robin_witness :
  wp rt_thread_yield scene (λ r k', r = RT_EOK ∧ kernel_inv k' ∧ rt_current_thread k' = T_peer ∧
    queue k' (QReady 10) = [T_run]).
Proof.
  apply (yield_round_robin scene (a_thread RT_THREAD_RUNNING 10 RT_EOK) T_peer []);
    [apply scene_inv|done|done|done|apply scene_no_better].
Defined.

(** ** Time *)
Fixpoint ticks (user : Z → Z → M kernel unit) (fuel n : nat) : M kernel unit :=
  match n with
  | O => mret tt
  | S n => rt_tick_increase user fuel;; ticks user fuel n
  end.

Lemma ticks_off user fuel n t : ∀ k th,
  clock_ok k → (length (tqueue k QTimer) < fuel)%nat → ¬ pending k t → threads k !! t = Some th →
  wp (ticks user fuel n) k (λ _ k', clock_ok k' ∧ ¬ pending k' t ∧ ∃ th', threads k' !! t = Some th' ∧
    stat_class th' = stat_class th ∧ error th' = error th).
Proof.
  induction n as [|n IH]; intros k th Hk Hf Hp Ht; simpl; ksteps; [by eauto 10|].
  eapply wp_mono; [by apply tick_increase_spec|]. intros ? k1 Htk.
  destruct (tk_others _ _ Htk t th Hp Ht) as (Hp1 & th1 & Ht1 & Hs1 & He1).
  pose proof (tk_length _ _ Htk). rewrite <-Hs1, <-He1. apply IH; [apply Htk|lia|done|done].
Qed.

(** A pending timeout runs out after exactly the ticks it has left. *)
Lemma ticks_spec user fuel t n : ∀ k,
  clock_ok k → (length (tqueue k QTimer) < fuel)%nat → pending k t →
  wp (ticks user fuel n) k (λ _ k', clock_ok k' ∧
    (Z.of_nat n < ticks_left k t → pending k' t ∧ ticks_left k' t = ticks_left k t - Z.of_nat n) ∧
    (0 < Z.of_nat n → ticks_left k t ≤ Z.of_nat n → ¬ pending k' t ∧ ∃ th', threads k' !! t = Some th' ∧
      stat_class th' = RT_THREAD_READY ∧ error th' = - RT_ETIMEOUT)).
Proof.
  induction n as [|n IH]; intros k Hk Hf Hp; simpl; ksteps.
  { split; [done|]. split; [|lia]. intros _. split; [done|lia]. }
  eapply wp_mono; [by apply tick_increase_spec|]. intros ? k1 Htk.
  pose proof (tk_length _ _ Htk) as Hlen. destruct (decide (ticks_left k t ≤ 1)) as [Hdue|Hlate].
  - destruct (tk_due _ _ Htk t Hp Hdue) as (Hp1 & th1 & Ht1 & Hs1 & He1).
    eapply wp_mono; [apply (ticks_off user fuel n t k1 th1); [apply Htk|lia|done|done]|].
    intros ? k' (Hk' & Hp' & th' & Ht' & Hs' & He'). split; [done|]. split; [lia|]. intros _ _.
    split; [done|]. exists th'. by rewrite Hs', He'.
  - destruct (tk_later _ _ Htk t Hp ltac:(lia)) as [Hp1 Hr1].
    eapply wp_mono; [apply IH; [apply Htk|lia|done]|]. intros ? k' (Hk' & Hearly & Hdue). rewrite Hr1 in *.
    split; [done|]. split.
    + intros Hn. destruct Hearly as [? E]; [lia|]. split; [done|]. lia.
    + intros _ Hn. apply Hdue; lia.
Qed.

Lemma asleep_clock tick k k' : clock_ok k → asleep tick k k' → clock_ok k'.
Proof. intros Hk Ha. eapply clock_frame_ok; [by eapply clock_frame_asleep|apply Ha|apply Ha|done]. Qed.

Lemma asleep_length tick k k' :
  asleep tick k k' → (length (tqueue k' QTimer) ≤ S (length (tqueue k QTimer)))%nat.
Proof.
  intros Ha. apply (submseteq_length _ (ThreadTimer (rt_current_thread k) :: tqueue k QTimer)), NoDup_submseteq.
  - apply (ti_nodup _ _ _ (ki_timer _ (as_inv _ _ _ Ha)) QTimer).
  - intros r Hr. destruct (decide (r = ThreadTimer (rt_current_thread k))) as [->|Hne]; [left|right].
    by apply (as_listed _ _ _ Ha).
Qed.

(** C30: a thread that calls [rt_thread_sleep(tick)] stays suspended while
    fewer than [tick] clock ticks pass, and from the [tick]-th one on it is
    runnable again, with [-RT_ETIMEOUT].  The fuel of [rt_tick_increase] only
    has to exceed the number of pending timers. *)
Theorem sleep_wakes_on_time user fuel k th tick n :
  clock_ok k → running k th → 0 < tick < RT_TICK_MAX / 2 →
  (S (length (tqueue k QTimer)) < fuel)%nat →
  wp (c ← rt_thread_sleep tick; ticks user fuel n;; mret c) k (λ c k',
    c = Park (rt_current_thread k) ∧ clock_ok k' ∧
    ∃ th', threads k' !! rt_current_thread k = Some th' ∧
      if decide (Z.of_nat n < tick) then stat_of th' = RT_THREAD_SUSPEND
      else stat_class th' = RT_THREAD_READY ∧ error th' = - RT_ETIMEOUT).
Proof.
  intros Hk Hr Htick Hf. ksteps.
  eapply wp_mono; [apply (sleep_spec k th tick); [apply Hk|done|lia]|].
  intros ? k1 [-> Ha]. ksteps. pose proof (asleep_length _ _ _ Ha).
  eapply wp_mono; [apply (ticks_spec user fuel (rt_current_thread k) n k1)|].
  - by eapply asleep_clock.
  - lia.
  - apply Ha.
  - intros ? k' (Hk' & Hearly & Hdue). ksteps. rewrite (as_remains _ _ _ Ha) in *.
    split; [done|]. split; [done|]. case_decide as Hn.
    + destruct (Hearly Hn) as [Hp _]. apply (ti_susp _ _ _ (ki_timer _ (co_inv _ Hk'))), Hp.
    + apply Hdue; lia.
Qed.

Lemma scene_clock : clock_ok scene.
Proof.
  constructor; [apply scene_inv|by eapply running_ok, scene_running|done| |].
  - split; [by repeat constructor|]. by repeat constructor.
  - constructor; [by eexists|constructor].
Qed.
Lemma sleep_wakes_on_time_witness :
  wp (c ← rt_thread_sleep 3; ticks (λ _ _, mret tt) 10 5;; mret c) scene (λ c k',
    c = Park T_run ∧ clock_ok k' ∧
    ∃ th', threads k' !! T_run = Some th' ∧
      if decide (Z.of_nat 5 < 3) then stat_of th' = RT_THREAD_SUSPEND
      else stat_class th' = RT_THREAD_READY ∧ error th' = - RT_ETIMEOUT).
Proof.
  apply (sleep_wakes_on_time (λ _ _, mret tt) 10 scene (a_thread RT_THREAD_RUNNING 10 RT_EOK) 3 5);
    [apply scene_clock|done|done|vm_compute; lia].
Defined.

(** the tick that ends a thread's time slice refills the slice and gives
    the processor to the next ready thread of the same priority; on any other
    tick the thread keeps the processor with one tick less. *)
Theorem time_slice k th :
  kernel_inv k → running k th → rt_scheduler_lock_nest k = 0 → 1 ≤ remaining_tick th < 2 ^ 32 →
  (∀ p, 0 ≤ p < current_priority th → queue k (QReady p) = []) →
  wp tick_slice k (λ _ k', kernel_inv k' ∧ rt_tick k' = u32 (rt_tick k + 1) ∧
    ∃ th', threads k' !! rt_current_thread k = Some th' ∧
      if decide (remaining_tick th = 1) then
        remaining_tick th' = init_tick th ∧
        (∀ t l, queue k (QReady (current_priority th)) = t :: l →
           rt_current_thread k' = t ∧
           queue k' (QReady (current_priority th)) = l ++ [rt_current_thread k])
      else remaining_tick th' = remaining_tick th - 1 ∧ rt_current_thread k' = rt_current_thread k).
Proof.
  intros H [Ht Hs] Hl Hrem Hbetter. unfold tick_slice. ksteps. ksimpl. ksteps.
  pose (k <| rt_tick := u32 (rt_tick k + 1) |>) as k1.
  assert (kernel_inv k1) as H1 by (destruct H; by constructor).
  assert (remaining_tick (tick_down th) = remaining_tick th - 1) as Hdown.
  { unfold tick_down; simpl. apply wrapU_small. lia. }
  eapply wp_get_thread; [apply lookup_insert_eq|]. apply wp_when; rewrite Hdown; intros Hz.
  - ksteps. ksimpl. rewrite insert_insert_eq. set (th2 := slice_over (tick_down th)).
    assert (stat_of th2 = stat_of th) as Hs2 by apply (stat_of_slice_over (tick_down th)).
    match goal with |- wp rt_schedule ?x _ => set (k2 := x) end.
    assert (kernel_inv k2) as H2 by (eapply (kernel_inv_thread k1); [exact H1|exact Ht|exact Hs2|done|by intros []]).
    assert (running k2 th2) as Hr2 by (split; [apply lookup_insert_eq|by rewrite Hs2]).
    eapply wp_mono; [apply wp_conj|].
    + apply (schedule_keeps k2 H2). by eapply running_ok.
    + instantiate (1 := λ _ k', ∀ t l, queue k (QReady (current_priority th)) = t :: l →
        rt_current_thread k' = t ∧ queue k' (QReady (current_priority th)) = l ++ [rt_current_thread k]).
      destruct (queue k (QReady (current_priority th))) as [|t l] eqn:Hq.
      * eapply wp_mono; [by apply (schedule_keeps k2 H2), running_ok with th2|]. done.
      * eapply wp_mono; [apply (round_robin k2 th2 t l); try done; apply yields_slice_over|].
        intros ? k' (_ & _ & E1 & E2) ? ? [= <- <-]. done.
    + intros ? k' [[Hsc H'] Hrr]. split; [done|].
      destruct (frame_fields _ _ (sc_frame _ _ Hsc)) as (_ & _ & _ & _ & _ & _ & _ & _ & E3 & _).
      split; [done|]. destruct (frame_thread _ _ _ _ (sc_frame _ _ Hsc) (proj1 Hr2)) as (th' & Ht' & Hc).
      exists th'. split; [done|]. rewrite decide_True by lia. split; [|done].
      by apply (f_equal remaining_tick) in Hc.
  - split; [|split; [done|]].
    + eapply (kernel_inv_thread k1); [exact H1|exact Ht|done|done|by intros []].
    + eexists. split; [apply lookup_insert_eq|]. by rewrite decide_False, Hdown by lia.
Qed.
Lemma time_slice_witness :
  wp tick_slice scene (λ _ k', kernel_inv k' ∧ rt_tick k' = 1001 ∧
    ∃ th', threads k' !! T_run = Some th' ∧ remaining_tick th' = 19 ∧ rt_current_thread k' = T_run).
Proof.
  eapply wp_mono; [apply (time_slice scene (a_thread RT_THREAD_RUNNING 10 RT_EOK));
    [apply scene_inv|done|done|done|apply scene_no_better]|].
  intros ? k' (H & E & th' & Ht & Hr). split; [done|]. split; [done|]. by exists th'.
Defined.

(** ** Critical sections *)
Lemma schedule_locked k :
  sched_inv None k → current_ok k → rt_scheduler_lock_nest k ≠ 0 → rt_schedule k = Ok (tt, k).
Proof.
  intros H Hc Hl. pose proof (rt_schedule_spec k H Hc) as Hw. unfold wp in Hw.
  destruct (rt_schedule k) as [[[] k']|]; [|done]. do 2 f_equal. apply Hw. by left.
Qed.

Lemma enter_critical_eq k :
  0 ≤ rt_scheduler_lock_nest k < 32767 →
  rt_enter_critical k = Ok (tt, k <| rt_scheduler_lock_nest := rt_scheduler_lock_nest k + 1 |>).
Proof.
  intros Hl. apply wp_exact. unfold rt_enter_critical. ksteps. split; [done|]. ksimpl.
  rewrite wrapS_small by (try done; change (2 ^ (16 - 1)) with 32768; lia). by destruct k.
Qed.
(** Leaving the outermost section reschedules; an inner one only counts down. *)
Lemma exit_critical_spec k n :
  kernel_inv k → current_ok k → 0 ≤ n < 32767 →
  wp rt_exit_critical (k <| rt_scheduler_lock_nest := n + 1 |>) (λ _ k', kernel_inv k' ∧
    if decide (n = 0) then scheduled (k <| rt_scheduler_lock_nest := n |>) k'
    else k' = k <| rt_scheduler_lock_nest := n |>).
Proof.
  intros H Hc Hn. pose proof Hc as (th & Ht & _). pose proof (live_not_null _ _ _ H Ht) as Hnn.
  pose (k <| rt_scheduler_lock_nest := n |>) as k0.
  assert (kernel_inv k0) as H0 by by eapply kernel_inv_ext; [exact H|..].
  assert (i16 (n + 1 - 1) = n) as E.
  { rewrite Z.add_simpl_r. apply wrapS_small; [done|]. change (2 ^ (16 - 1)) with 32768. lia. }
  unfold rt_exit_critical. ksteps. unfold id. ksimpl. rewrite E. destruct (decide (n = 0)) as [E0|E0].
  - rewrite decide_True by lia. ksteps. ksimpl. apply wp_when; [intros _|by intros []].
    match goal with |- wp rt_schedule ?x _ => assert (x = k0) as -> by (destruct k; unfold k0; simpl; by subst) end.
    eapply wp_mono; [by apply schedule_keeps|]. by intros ? k' [? ?].
  - rewrite decide_False by lia. ksteps. ksimpl.
    match goal with |- kernel_inv ?x ∧ _ => assert (x = k0) as -> by (by destruct k) end. done.
Qed.

(** a request to reschedule inside a critical section has no effect until
    the section ends; leaving the outermost section reschedules, leaving an
    inner one restores the state exactly. *)
Theorem critical_section_defers k :
  kernel_inv k → current_ok k → 0 ≤ rt_scheduler_lock_nest k < 32767 →
  wp (rt_enter_critical;; rt_schedule;; rt_exit_critical) k (λ _ k', kernel_inv k' ∧
    if decide (rt_scheduler_lock_nest k = 0) then scheduled k k' else k' = k).
Proof.
  intros H Hc Hl. pose (k <| rt_scheduler_lock_nest := rt_scheduler_lock_nest k + 1 |>) as k1.
  ksteps. eapply wp_eq; [by apply enter_critical_eq|]. ksteps.
  eapply wp_eq; [apply (schedule_locked k1); [apply H|done|unfold k1; ksimpl; lia]|].
  eapply wp_mono; [by apply exit_critical_spec|]. intros ? k'.
  assert (k <| rt_scheduler_lock_nest := rt_scheduler_lock_nest k |> = k) as -> by by destruct k. done.
Qed.
Lemma critical_section_defers_witness :
  wp (rt_enter_critical;; rt_schedule;; rt_exit_critical) scene (λ _ k', kernel_inv k' ∧ scheduled scene k').
Proof.
  apply (critical_section_defers scene); [apply scene_inv|by eapply running_ok, scene_running|done].
Defined.

(** ** The next timeout *)

(** with the pending list sorted, [rt_timer_next_timeout_tick] returns the
    timeout of a pending timer that no pending timer precedes. *)
Theorem next_timeout_earliest k r l :
  clock_ok k → tqueue k QTimer = r :: l →
  ∃ tm, timers k !! r = Some tm ∧ rt_timer_next_timeout_tick k = Ok (timeout_tick tm, k) ∧
    ∀ r', r' ∈ tqueue k QTimer → remains (timers k) (rt_tick k) r ≤ remains (timers k) (rt_tick k) r'.
Proof.
  intros [H Hc Hch [Hs Hr] _] Hq.
  destruct (ti_listed _ _ _ (ki_timer _ H) QTimer r) as [tm Htm].
  { fold (tqueue k QTimer). rewrite Hq. left. }
  exists tm. split; [done|]. rewrite Hq in Hs |- *. split.
  - apply wp_exact. unfold rt_timer_next_timeout_tick, rt_timer_list_next_timeout. ksteps.
    unfold tqueue, id in *. ksimpl. rewrite Hq. ksteps. by destruct k.
  - intros r' [->|Hin]%elem_of_cons; [done|]. inversion_clear Hs as [|? ? _ Hall].
    rewrite Forall_forall in Hall. by apply Hall.
Qed.
Lemma next_timeout_earliest_witness :
  ∃ tm, timers scene !! ThreadTimer T_sleep = Some tm ∧
    rt_timer_next_timeout_tick scene = Ok (timeout_tick tm, scene) ∧
    ∀ r', r' ∈ tqueue scene QTimer →
      remains (timers scene) 1000 (ThreadTimer T_sleep) ≤ remains (timers scene) 1000 r'.
Proof. apply (next_timeout_earliest scene (ThreadTimer T_sleep) []); [apply scene_clock|done]. Defined.

(** the sentinel [RT_TICK_MAX] of [rt_timer_list_next_timeout] is also a
    possible timeout.  When the earliest soft timer is due at that tick, the
    timer thread takes the list for empty: it suspends itself without a
    timeout although the timer is pending. *)
Theorem timer_thread_misses_last_tick k th r l tm :
  kernel_inv k → running k th → tqueue k QSoftTimer = r :: l →
  timers k !! r = Some tm → timeout_tick tm = RT_TICK_MAX →
  wp timer_entry_wait k (λ c k', c = Some (Return RT_EOK) ∧ r ∈ tqueue k' QSoftTimer ∧
    ¬ pending k' (rt_current_thread k) ∧
    ∃ th', threads k' !! rt_current_thread k = Some th' ∧ stat_of th' = RT_THREAD_SUSPEND).
Proof.
  intros H Hr Hq Htm Hlast. pose proof Hr as [Ht Hs].
  assert (rt_timer_list_next_timeout QSoftTimer k = Ok (RT_TICK_MAX, k)) as Hnext.
  { apply wp_exact. unfold rt_timer_list_next_timeout. ksteps. unfold tqueue, id in *. ksimpl. rewrite Hq.
    ksteps. rewrite Hlast. by destruct k. }
  unfold timer_entry_wait. ksteps. eapply wp_eq; [exact Hnext|]. rewrite decide_True by done. ksteps.
  eapply wp_eq; [by apply (suspend_eq _ th); [..|right]|]. ksteps.
  eapply wp_mono; [apply schedule_keeps; [apply suspended_inv; [done..|by eapply running_live|by rewrite Hs]|
    apply current_ok_suspended]|].
  intros ? k' [Hsc H']. ksteps.
  destruct (frame_fields _ _ (sc_frame _ _ Hsc)) as (_ & E2 & _).
  split; [done|]. unfold tqueue in *. rewrite E2. unfold suspended, removed. ksimpl. rewrite Hq.
  split; [left|]. split.
  - intros Hin. destruct (ti_susp _ _ _ (ki_timer _ H) _ Hin) as (th1 & E & Hs1). assert (th1 = th) as -> by congruence. by rewrite Hs in Hs1.
  - destruct (scheduled_suspended _ _ _ _ Hsc (suspended_thread _ th k)) as (th' & Ht' & Hs' & _);
      [by rewrite stat_of_with_stat|]. by exists th'.
Qed.
(** The scene with the timer thread running and a soft timer due at the last tick. *)
Definition last_tick_scene : kernel :=
  scene <| timers := <[Obj 77 := mkTimer (an_object RT_Object_Class_Timer
             (RT_TIMER_FLAG_ACTIVATED + RT_TIMER_FLAG_SOFT_TIMER)) (Fn_user 1) 0 5 RT_TICK_MAX]> (timers scene) |>
        <| timer_queues := <[QSoftTimer := [Obj 77]]> (timer_queues scene) |>.
Lemma timer_thread_misses_last_tick_witness :
  wp timer_entry_wait last_tick_scene (λ c k', c = Some (Return RT_EOK) ∧ Obj 77 ∈ tqueue k' QSoftTimer ∧
    ¬ pending k' T_run ∧ ∃ th', threads k' !! T_run = Some th' ∧ stat_of th' = RT_THREAD_SUSPEND).
Proof.
  eapply (timer_thread_misses_last_tick last_tick_scene (a_thread RT_THREAD_RUNNING 10 RT_EOK) (Obj 77) []);
    [by_check|done|done|done|done].
Defined.
