(* ===== verification/Registry.v ===== *)
(** * The object registry

    What the containers of Object.v promise: an object that was initialised is
    found under its name, and a detached one is not found any more.  The
    container walks lock the scheduler, so each of them may end in a switch to
    another thread. *)
From S2P Require Import Prelude Kernel Scheduler Object Timer Thread Ipc Decide Scenario Scheduling.

(** ** Headers across a rescheduling *)
Lemma header_scheduled k k' type r : scheduled k k' → object_header k' type r = object_header k type r.
Proof.
  intros Hs. destruct (objs_fields _ _ (objs_scheduled _ _ Hs)) as (E1 & E2 & E3 & E4 & E5 & _).
  destruct (frame_fields _ _ (sc_frame _ _ Hs)) as (E6 & _).
  destruct (objs_fields_rest _ _ (objs_scheduled _ _ Hs)) as (E7 & E8 & _).
  unfold object_header. rewrite E1, E2, E3, E4, E5, E6, E7, E8.
  destruct (decide (type = RT_Object_Class_Thread)); [|done].
  destruct r as [a|t]; simpl; [|done].
  pose proof (f_equal (lookup a) (fr_core _ _ (sc_frame _ _ Hs))) as Hc. rewrite !lookup_fmap in Hc.
  destruct (threads k' !! a) as [th'|], (threads k !! a) as [th|]; simpl in *; try done.
  apply (inj Some), (f_equal th_parent) in Hc. simpl in *. by rewrite Hc.
Qed.

(** ** The scan under the scheduler lock *)

(** After a critical section entered and left at nesting depth [n]. *)
Definition after_section (k k' : kernel) : Prop :=
  kernel_inv k' ∧ current_ok k' ∧ (∀ type r, object_header k' type r = object_header k type r) ∧
  object_lists k' = object_lists k ∧ rt_interrupt_nest k' = rt_interrupt_nest k ∧
  rt_scheduler_lock_nest k' = rt_scheduler_lock_nest k ∧ (k' = k ∨ scheduled k k').

Lemma exit_section k :
  kernel_inv k → current_ok k → 0 ≤ rt_scheduler_lock_nest k < 32767 →
  wp rt_exit_critical (k <| rt_scheduler_lock_nest := rt_scheduler_lock_nest k + 1 |>)
    (λ _ k', after_section k k').
Proof.
  intros H Hc Hl. eapply wp_mono; [by apply exit_critical_spec|]. intros ? k' [H' Hk'].
  assert (k <| rt_scheduler_lock_nest := rt_scheduler_lock_nest k |> = k) as E by by destruct k.
  rewrite E in Hk'. destruct (decide (rt_scheduler_lock_nest k = 0)) as [E0|E0].
  - split; [done|]. split; [apply Hk'|]. split; [intros; by apply header_scheduled|].
    destruct (objs_fields _ _ (objs_scheduled _ _ Hk')) as (_ & _ & _ & _ & _ & _ & _ & E1 & E2 & E3 & _).
    repeat (split; [done|]). by right.
  - subst k'. repeat (split; [done|]). by left.
Qed.

Section Init.
Context (k : kernel) (r : ref) (type : Z) (name : list Z) (o : rt_object).
Context (H : kernel_inv k) (Hc : current_ok k) (Hl : 0 ≤ rt_scheduler_lock_nest k < 32767).
Context (Hcls : rt_object_get_information type = Some type) (Ho : object_header k type r = Some o).

Lemma upd_header_eq f k1 :
  object_header k1 type r = Some o → upd_header type r f k1 = Ok (tt, set_header type r (f o) k1).
Proof. intros E. apply wp_exact. unfold upd_header. by ksteps. Qed.

Lemma object_init_spec :
  r ∉ object_list k type →
  wp (rt_object_init r type name) k (λ _ k', ∃ k1, after_section k k1 ∧
    k' = (set_header type r (mkObject (object_name name) (u8 (Z.lor type RT_Object_Class_Static)) (obj_flag o)) k1)
           <| object_lists := <[type := r :: object_list k type]> (object_lists k) |>).
Proof.
  intros Hnew. unfold rt_object_init. ksteps; [by rewrite Hcls|].
  ksteps. eapply wp_eq; [by apply enter_critical_eq|]. ksteps. eapply wp_mono; [by apply exit_section|].
  intros ? k1 Hk1. destruct Hk1 as (H1 & Hc1 & Hh1 & El & Er). ksteps.
  eapply wp_eq; [apply upd_header_eq; by rewrite Hh1|]. ksteps. exists k1. split; [done|].
  unfold object_list, id. ksimpl.
  assert (∀ h, object_lists (set_header type r h k1) = object_lists k) as Els.
  { intros h. rewrite <-El. unfold set_header. by repeat case_decide. }
  rewrite Els. by destruct (set_header _ _ _ _).
Qed.
End Init.

(** ** Names *)
Lemma name_match_self n m name : (n ≤ m)%nat → name_match n (take n (take n name ++ replicate m 0)) name = true.
Proof.
  revert m name. induction n as [|n IH]; intros m name Hm; simpl; [done|].
  destruct name as [|c l]; simpl.
  - by destruct m; [lia|].
  - rewrite decide_True by done. case_decide; [done|]. apply IH. lia.
Qed.

#[local] Arguments name_match : simpl never.

(** The first object of a container whose stored name matches. *)
Fixpoint first_named (k : kernel) (type : Z) (name : list Z) (l : list ref) : option ref :=
  match l with
  | [] => None
  | r :: l =>
      match object_header k type r with
      | Some o => if name_match 8 (obj_name o) name then Some r else first_named k type name l
      | None => None
      end
  end.

Lemma find_named_eq k type name l :
  Forall (λ r, is_Some (object_header k type r)) l →
  find_named type name l k = Ok (first_named k type name l, k).
Proof.
  intros Hl. apply wp_exact. induction Hl as [|r l [o Ho] _ IH]; simpl; ksteps; [done|].
  rewrite Ho. by destruct (name_match 8 (obj_name o) name); ksteps.
Qed.

Lemma object_find_spec k type name :
  kernel_inv k → current_ok k → 0 ≤ rt_scheduler_lock_nest k < 32767 → rt_interrupt_nest k = 0 →
  rt_object_get_information type = Some type →
  Forall (λ r, is_Some (object_header k type r)) (object_list k type) →
  wp (rt_object_find (Some name) type) k (λ res k',
    res = first_named k type name (object_list k type) ∧ after_section k k').
Proof.
  intros H Hc Hl Hn Hcls Hall. unfold rt_object_find. rewrite Hcls.
  unfold RT_DEBUG_NOT_IN_INTERRUPT. ksteps. eapply wp_eq; [by apply enter_critical_eq|]. ksteps.
  unfold id. set (k1 := k <| rt_scheduler_lock_nest := _ |>).
  assert (∀ l, first_named k1 type name l = first_named k type name l) as Ef.
  { induction l as [|r l IH]; simpl; [done|]. change (object_header k1 type r) with (object_header k type r).
    destruct (object_header k type r) as [h|]; [|done]. by destruct (name_match 8 (obj_name h) name). }
  eapply wp_eq; [by apply find_named_eq|]. ksteps. eapply wp_mono; [by apply exit_section|].
  intros ? k' Hs. ksteps. by rewrite Ef.
Qed.

(** The classes other than threads and timers: setting the header of such an
    object does not touch what the scheduler and the timers rely on. *)
Definition plain_class (type : Z) : Prop :=
  type ∈ [RT_Object_Class_Semaphore; RT_Object_Class_Mutex; RT_Object_Class_Event;
          RT_Object_Class_MailBox; RT_Object_Class_MessageQueue; RT_Object_Class_MemPool;
          RT_Object_Class_Device].
Ltac plain_cases H := unfold plain_class in H; rewrite !elem_of_cons in H;
  destruct H as [->|[->|[->|[->|[->|[->|[->|H]]]]]]]; [..|by apply not_elem_of_nil in H].

Lemma plain_class_known type : plain_class type → rt_object_get_information type = Some type.
Proof. intros H. by plain_cases H. Qed.
Lemma set_header_inv type r h k ls :
  plain_class type → kernel_inv k → kernel_inv ((set_header type r h k) <| object_lists := ls |>).
Proof. intros Ht H. plain_cases Ht; by destruct H. Qed.
Lemma set_header_current type r h k ls :
  plain_class type → current_ok k → current_ok ((set_header type r h k) <| object_lists := ls |>).
Proof. intros Ht H. by plain_cases Ht. Qed.
Lemma set_header_rest type r h k ls :
  plain_class type → let k' := (set_header type r h k) <| object_lists := ls |> in
  rt_scheduler_lock_nest k' = rt_scheduler_lock_nest k ∧ rt_interrupt_nest k' = rt_interrupt_nest k ∧
  object_lists k' = ls.
Proof. intros Ht. by plain_cases Ht. Qed.
Lemma alter_at_eq {T} (proj : T → rt_object) (f : T → T) (m : gmap addr T) r o h :
  header_at proj m r = Some o → (∀ x, proj (f x) = h) → header_at proj (alter_at f r m) r = Some h.
Proof.
  intros Ho Hf. destruct r as [a|]; simpl in *; [|done]. rewrite lookup_alter_eq.
  destruct (m !! a); [|done]. simpl. by rewrite Hf.
Qed.
Lemma alter_at_ne {T} (proj : T → rt_object) (f : T → T) (m : gmap addr T) r r' :
  r ≠ r' → header_at proj (alter_at f r m) r' = header_at proj m r'.
Proof.
  intros Hne. destruct r as [a|], r' as [a'|]; simpl; try done. rewrite lookup_alter_ne; [done|]. congruence.
Qed.
Lemma set_header_here type r h k ls o :
  plain_class type → object_header k type r = Some o →
  object_header ((set_header type r h k) <| object_lists := ls |>) type r = Some h.
Proof. intros Ht Ho. plain_cases Ht; by eapply alter_at_eq. Qed.
Lemma set_header_there type r r' h k ls :
  plain_class type → r ≠ r' →
  object_header ((set_header type r h k) <| object_lists := ls |>) type r' = object_header k type r'.
Proof. intros Ht Ho. plain_cases Ht; by apply alter_at_ne. Qed.

(** an IPC object, a memory pool or a device that [rt_object_init] enters into its container is the
    one [rt_object_find] returns for its name, whatever the name's length and
    whichever other objects bear it: names are compared in the first eight
    characters that are stored, and the latest object comes first. *)
Theorem init_then_find k r type name o :
  kernel_inv k → current_ok k → 0 ≤ rt_scheduler_lock_nest k < 32767 → rt_interrupt_nest k = 0 →
  plain_class type → object_header k type r = Some o → r ∉ object_list k type →
  Forall (λ r, is_Some (object_header k type r)) (object_list k type) →
  wp (rt_object_init r type name;; rt_object_find (Some name) type) k (λ res k',
    res = Some r ∧ kernel_inv k' ∧ object_list k' type = r :: object_list k type ∧
    object_header k' type r =
      Some (mkObject (object_name name) (u8 (Z.lor type RT_Object_Class_Static)) (obj_flag o))).
Proof.
  intros H Hc Hl Hn Hty Ho Hnew Hall. ksteps.
  eapply wp_mono; [apply (object_init_spec k r type name o); try done; by apply plain_class_known|].
  intros ? k2 (k1 & (H1 & Hc1 & Hh1 & El1 & En1 & Ek1 & _) & ->).
  set (h := mkObject _ _ _). set (ls := <[type := _]> _).
  destruct (set_header_rest type r h k1 ls Hty) as (E1 & E2 & E3). simpl in E1, E2, E3.
  assert (∀ r', r' ∈ object_list k type → r' ≠ r) as Hne by (intros r' Hin ->; done).
  set (k2 := (set_header type r h k1) <| object_lists := ls |>).
  assert (object_list k2 type = r :: object_list k type) as El2.
  { unfold object_list, k2, ls. ksimpl. by rewrite lookup_insert_eq. }
  assert (object_header k2 type r = Some h) as Hh2 by (eapply set_header_here; [done|by rewrite Hh1]).
  eapply wp_mono; [apply (object_find_spec k2 type name)|].
  - by apply set_header_inv.
  - by apply set_header_current.
  - unfold k2. ksimpl. rewrite E1. lia.
  - unfold k2. ksimpl. by rewrite E2, En1.
  - by apply plain_class_known.
  - rewrite El2. constructor; [by eexists|]. rewrite Forall_forall in *. intros r' Hin.
    unfold k2. rewrite set_header_there by (done || intros <-; by apply Hnew). rewrite Hh1. by apply Hall.
  - intros res k' [-> (H' & _ & Hh' & El' & _)].
    split; [|split; [done|split; [|by rewrite Hh', Hh2]]].
    + rewrite El2. simpl. rewrite Hh2. simpl. unfold object_name. by rewrite (name_match_self 8 8 name).
    + unfold object_list. rewrite El'. exact El2.
Qed.

Lemma first_named_ext k k' type name l :
  (∀ r, r ∈ l → object_header k' type r = object_header k type r) →
  first_named k' type name l = first_named k type name l.
Proof.
  induction l as [|r l IH]; intros He; simpl; [done|]. rewrite He by left.
  destruct (object_header k type r) as [o|]; [|done]. rewrite IH; [done|]. intros r' Hin. apply He. by right.
Qed.
Lemma first_named_in k type name l r : first_named k type name l = Some r → r ∈ l.
Proof.
  induction l as [|r' l IH]; simpl; [done|]. destruct (object_header k type r') as [o|]; [|done].
  destruct (name_match 8 (obj_name o) name); [intros [= ->]; left|]. intros Hr. right. by apply IH.
Qed.

(** after [rt_object_detach] a search by name gives the first match among
    the remaining objects of the container, in their old order, and never the
    detached object. *)
Theorem detach_then_find k r type name o :
  kernel_inv k → current_ok k → 0 ≤ rt_scheduler_lock_nest k < 32767 → rt_interrupt_nest k = 0 →
  plain_class type → object_header k type r = Some o → r ≠ Obj RT_NULL →
  Forall (λ r, is_Some (object_header k type r)) (object_list k type) →
  wp (rt_object_detach type r;; rt_object_find (Some name) type) k (λ res k',
    res = first_named k type name (filter (.≠ r) (object_list k type)) ∧ res ≠ Some r ∧ kernel_inv k' ∧
    object_list k' type = filter (.≠ r) (object_list k type)).
Proof.
  intros H Hc Hl Hn Hty Ho Hnull Hall. unfold rt_object_detach. ksteps.
  eapply wp_eq; [by eapply upd_header_eq|]. ksteps.
  set (h := o <| obj_type := 0 |>). set (k1 := set_header type r h k).
  assert (object_lists k1 = object_lists k) as El1 by (unfold k1, set_header; by repeat case_decide).
  set (k2 := k1 <| object_lists := remove_from_objects r (object_lists k) |>).
  match goal with |- wp _ ?x _ => assert (x = k2) as -> end.
  { unfold k2. rewrite <-El1. by destruct k1. }
  destruct (set_header_rest type r h k (remove_from_objects r (object_lists k)) Hty) as (E1 & E2 & E3).
  fold k1 k2 in E1, E2.
  assert (object_list k2 type = filter (.≠ r) (object_list k type)) as El2.
  { unfold object_list, k2. ksimpl. unfold remove_from_objects. rewrite lookup_fmap.
    by destruct (object_lists k !! type). }
  assert (∀ r', r' ∈ object_list k2 type → object_header k2 type r' = object_header k type r') as Hh2.
  { intros r'. rewrite El2. intros [Hne _]%list_elem_of_filter. by apply set_header_there. }
  eapply wp_mono; [apply (object_find_spec k2 type name)|].
  - by apply set_header_inv.
  - by apply set_header_current.
  - rewrite E1. lia.
  - by rewrite E2.
  - by apply plain_class_known.
  - rewrite Forall_forall in *. intros r' Hin. rewrite Hh2 by done. apply Hall.
    rewrite El2 in Hin. by apply list_elem_of_filter in Hin as [_ ?].
  - intros res k' [-> (H' & _ & _ & El' & _)]. rewrite (first_named_ext k k2) by done. rewrite El2.
    split; [done|]. split; [|split; [done|unfold object_list; rewrite El'; exact El2]].
    intros [Hne _]%first_named_in%list_elem_of_filter. done.
Qed.

(** ** Concrete instances *)

(** Two semaphores, one of them registered as ["led"]. *)
Definition registry_scene : kernel :=
  let k := scene_with (QSuspend 1)
    {[O_sem := mkSemaphore (mkObject [108; 101; 100; 0; 0; 0; 0; 0] 130 0) 0;
      O_mb := mkSemaphore (mkObject [0; 0; 0; 0; 0; 0; 0; 0] 0 0) 0]} ∅ ∅ ∅ ∅ in
  k <| object_lists := {[RT_Object_Class_Semaphore := [Obj O_sem]]} |>.
Lemma registry_scene_inv : kernel_inv registry_scene ∧ current_ok registry_scene.
Proof. split; [by_check|]. by apply (running_ok _ (a_thread RT_THREAD_RUNNING 10 RT_EOK)). Qed.

(** A name longer than eight characters. *)
Definition a_long_name : list Z := [108; 101; 100; 49; 50; 51; 52; 53; 54; 55].
Lemma init_then_find_witness :
  wp (rt_object_init (Obj O_mb) RT_Object_Class_Semaphore a_long_name;;
      rt_object_find (Some a_long_name) RT_Object_Class_Semaphore) registry_scene (λ res k',
    res = Some (Obj O_mb) ∧ kernel_inv k' ∧
    object_list k' RT_Object_Class_Semaphore = [Obj O_mb; Obj O_sem] ∧
    object_header k' RT_Object_Class_Semaphore (Obj O_mb) =
      Some (mkObject [108; 101; 100; 49; 50; 51; 52; 53] 130 0)).
Proof.
  apply (init_then_find registry_scene (Obj O_mb) RT_Object_Class_Semaphore a_long_name
    (mkObject [0; 0; 0; 0; 0; 0; 0; 0] 0 0)); try done; try apply registry_scene_inv.
  - left.
  - by intros ?%list_elem_of_singleton.
  - by repeat constructor.
Defined.
Lemma detach_then_find_witness :
  wp (rt_object_detach RT_Object_Class_Semaphore (Obj O_sem);;
      rt_object_find (Some [108; 101; 100]) RT_Object_Class_Semaphore) registry_scene (λ res k',
    res = None ∧ res ≠ Some (Obj O_sem) ∧ kernel_inv k' ∧ object_list k' RT_Object_Class_Semaphore = []).
Proof.
  apply (detach_then_find registry_scene (Obj O_sem) RT_Object_Class_Semaphore [108; 101; 100]
    (mkObject [108; 101; 100; 0; 0; 0; 0; 0] 130 0)); try done; try apply registry_scene_inv.
  - left.
  - by repeat constructor.
Defined.
