(* ===== verification/Semaphore.v ===== *)
(** * Semaphores ([src/ipc.c], lines 205-531) *)
From S2P Require Import Prelude Kernel Scheduler Object Timer Thread Ipc Decide Scenario.

(** ** Operations *)
Definition get_sem (s : addr) : M kernel rt_semaphore :=
  x ← gets (λ k, semaphores k !! s); of_option FBadPointer x.
Definition put_sem (s : addr) (x : rt_semaphore) : M kernel unit :=
  modify (λ k, k <| semaphores := <[s := x]> (semaphores k) |>).

Definition assert_sem (s : addr) : M kernel unit :=
  RT_ASSERT (s ≠ RT_NULL);;
  x ← get_sem s;
  RT_ASSERT (rt_object_get_type (sem_parent x) = RT_Object_Class_Semaphore).

Definition rt_sem_init (s : addr) (name : list Z) (value flag : Z) : M kernel Z :=
  RT_ASSERT (s ≠ RT_NULL);;
  RT_ASSERT (value < 65536);;
  rt_object_init (Obj s) RT_Object_Class_Semaphore name;;
  rt_list_init_head (QSuspend s);;
  x ← get_sem s;
  put_sem s (mkSemaphore ((sem_parent x) <| obj_flag := u8 flag |>) (u16 value));;
  mret RT_EOK.

Definition rt_sem_detach (s : addr) : M kernel Z :=
  assert_sem s;;
  x ← get_sem s;
  RT_ASSERT (rt_object_is_systemobject (sem_parent x) = true);;
  rt_ipc_list_resume_all (QSuspend s);;
  rt_object_detach RT_Object_Class_Semaphore (Obj s);;
  mret RT_EOK.

(** [rt_sem_take] up to its [rt_schedule()]. *)
Definition rt_sem_take (s : addr) (time : Z) : M kernel (call Z addr) :=
  assert_sem s;;
  temp ← rt_hw_interrupt_disable;
  x ← get_sem s;
  if decide (0 < sem_value x) then
    put_sem s (x <| sem_value := u16 (sem_value x - 1) |>);;
    rt_hw_interrupt_enable temp;;
    mret (Return RT_EOK)
  else if decide (time = 0) then
    rt_hw_interrupt_enable temp;;
    mret (Return (- RT_ETIMEOUT))
  else
    RT_DEBUG_IN_THREAD_CONTEXT;;
    thread ← rt_thread_self;
    upd_thread thread no_error;;
    wait_on (QSuspend s) thread (obj_flag (sem_parent x)) time temp;;
    mret (Park thread).
(** Back on the processor: [if (thread->error != RT_EOK) return thread->error]. *)
Definition rt_sem_take_resume (thread : addr) : M kernel Z :=
  th ← get_thread thread;
  mret (if decide (error th ≠ RT_EOK) then error th else RT_EOK).

Definition rt_sem_trytake (s : addr) : M kernel (call Z addr) := rt_sem_take s 0.

Definition rt_sem_release (s : addr) : M kernel Z :=
  assert_sem s;;
  temp ← rt_hw_interrupt_disable;
  k ← gets id;
  if decide (queue k (QSuspend s) ≠ []) then
    rt_ipc_list_resume (QSuspend s);;
    rt_hw_interrupt_enable temp;;
    rt_schedule;;
    mret RT_EOK
  else
    x ← get_sem s;
    if decide (sem_value x < RT_SEM_VALUE_MAX) then
      put_sem s (x <| sem_value := u16 (sem_value x + 1) |>);;
      rt_hw_interrupt_enable temp;;
      mret RT_EOK
    else
      rt_hw_interrupt_enable temp;;
      mret (- RT_EFULL).

Definition rt_sem_control (s : addr) (cmd arg : Z) : M kernel Z :=
  assert_sem s;;
  if decide (cmd = RT_IPC_CMD_RESET) then
    level ← rt_hw_interrupt_disable;
    rt_ipc_list_resume_all (QSuspend s);;
    x ← get_sem s;
    put_sem s (x <| sem_value := u16 arg |>);;
    rt_hw_interrupt_enable level;;
    rt_schedule;;
    mret RT_EOK
  else mret (- RT_ERROR).

(** ** The semaphore's own invariant *)
Record sem_ok (k : kernel) (s : addr) (x : rt_semaphore) : Prop := {
  so_lookup : semaphores k !! s = Some x;
  so_null : s ≠ RT_NULL;
  so_type : rt_object_get_type (sem_parent x) = RT_Object_Class_Semaphore;
  so_flag : obj_flag (sem_parent x) = RT_IPC_FLAG_FIFO ∨ obj_flag (sem_parent x) = RT_IPC_FLAG_PRIO;
  so_range : 0 ≤ sem_value x ≤ RT_SEM_VALUE_MAX;
  so_waiters : 0 < sem_value x → queue k (QSuspend s) = []
}.

Lemma wp_get_sem s x k (Q : rt_semaphore → kernel → Prop) :
  semaphores k !! s = Some x → Q x k → wp (get_sem s) k Q.
Proof. intros. unfold get_sem. by ksteps. Qed.
Lemma assert_sem_ok s x k (Q : unit → kernel → Prop) :
  sem_ok k s x → Q tt k → wp (assert_sem s) k Q.
Proof.
  intros [Hs Hn Ht _ _ _] HQ. unfold assert_sem. ksteps. eapply wp_get_sem; [done|]. by ksteps.
Qed.

(** *** Taking *)
Lemma sem_take_available k s x time :
  sem_ok k s x → 0 < sem_value x →
  rt_sem_take s time k =
    Ok (Return RT_EOK, k <| semaphores := <[s := x <| sem_value := sem_value x - 1 |>]> (semaphores k) |>).
Proof.
  intros Hok Hv. apply wp_exact. unfold rt_sem_take. ksteps. eapply assert_sem_ok; [done|]. ksteps.
  eapply wp_get_sem; [apply Hok|]. rewrite decide_True by done. unfold put_sem. ksteps.
  rewrite wrapU_small by (pose proof (so_range _ _ _ Hok); unfold RT_SEM_VALUE_MAX, RT_UINT16_MAX in *; lia).
  by destruct k.
Qed.

Lemma sem_take_empty k s x :
  sem_ok k s x → sem_value x = 0 → rt_sem_take s 0 k = Ok (Return (- RT_ETIMEOUT), k).
Proof.
  intros Hok Hv. apply wp_exact. unfold rt_sem_take. ksteps. eapply assert_sem_ok; [done|]. ksteps.
  eapply wp_get_sem; [apply Hok|]. rewrite decide_False by lia. rewrite decide_True by done.
  ksteps. by destruct k.
Qed.

Lemma sem_take_blocks k s x th time :
  kernel_inv k → running k th → rt_interrupt_nest k = 0 → sem_ok k s x → sem_value x = 0 →
  time ≠ 0 → time < RT_TICK_MAX / 2 →
  let k0 := k <| threads := <[rt_current_thread k := no_error th]> (threads k) |> <| primask := 1 |> in
  wp (rt_sem_take s time) k (λ r k', r = Park (rt_current_thread k) ∧
    waits (QSuspend s) (no_error th) (obj_flag (sem_parent x)) time (primask k) k0 k' ∧
    sem_ok k' s x).
Proof.
  intros H Hr Hnest Hok Hv Ht0 Ht1 k0. pose proof Hr as [Ht Hs].
  unfold rt_sem_take. ksteps. eapply assert_sem_ok; [done|]. ksteps.
  eapply wp_get_sem; [apply Hok|]. rewrite decide_False by lia. rewrite decide_False by done. ksteps.
  eapply thread_context; [by apply kernel_inv_primask|done|done|]. ksteps.
  eapply wp_mono; [apply (wait_on_spec k0 (no_error th))|].
  - pose proof (kernel_inv_error k _ th RT_EOK H Ht). by apply kernel_inv_primask.
  - by apply running_no_error.
  - done.
  - apply Hok.
  - done.
  - intros ? k' Hw. ksteps. split; [done|]. split; [done|].
    destruct (objs_fields _ _ (wa_objs _ _ _ _ _ _ _ Hw)) as (Es & _).
    destruct Hok. constructor; try done; [by rewrite Es|lia].
Qed.

(** *** Releasing *)
Lemma sem_release_count k s x :
  sem_ok k s x → queue k (QSuspend s) = [] → sem_value x < RT_SEM_VALUE_MAX →
  rt_sem_release s k =
    Ok (RT_EOK, k <| semaphores := <[s := x <| sem_value := sem_value x + 1 |>]> (semaphores k) |>).
Proof.
  intros Hok Hq Hv. apply wp_exact. unfold rt_sem_release. ksteps. eapply assert_sem_ok; [done|].
  ksteps. rewrite decide_False by by intros []. ksteps.
  eapply wp_get_sem; [apply Hok|]. rewrite decide_True by done. unfold put_sem. ksteps.
  rewrite wrapU_small by (pose proof (so_range _ _ _ Hok); unfold RT_SEM_VALUE_MAX, RT_UINT16_MAX in *; lia).
  by destruct k.
Qed.

Lemma sem_release_full k s x :
  sem_ok k s x → queue k (QSuspend s) = [] → sem_value x = RT_SEM_VALUE_MAX →
  rt_sem_release s k = Ok (- RT_EFULL, k).
Proof.
  intros Hok Hq Hv. apply wp_exact. unfold rt_sem_release. ksteps. eapply assert_sem_ok; [done|].
  ksteps. rewrite decide_False by by intros []. ksteps.
  eapply wp_get_sem; [apply Hok|]. rewrite decide_False by lia. ksteps. by destruct k.
Qed.

Lemma objs_restore k k' : objs_same ((k <| primask := 1 |>) <| primask := primask k |>) k' → objs_same k k'.
Proof. by destruct k. Qed.

Lemma sem_release_hands k s x t l :
  kernel_inv k → current_ok k → sem_ok k s x → queue k (QSuspend s) = t :: l →
  wp (rt_sem_release s) k (λ r k', r = RT_EOK ∧
    hands (QSuspend s) t l (primask k) (k <| primask := 1 |>) k' ∧ sem_ok k' s x).
Proof.
  intros H Hc Hok Hq. unfold rt_sem_release. ksteps. eapply assert_sem_ok; [done|]. ksteps.
  rewrite decide_True by (change (queue k (QSuspend s) ≠ []); by rewrite Hq).
  eapply wake_spec; [by apply kernel_inv_primask|done|done|exact Hq|].
  intros k' Hh. ksteps. split; [done|]. split; [done|].
  destruct (objs_fields _ _ (objs_restore _ _ (ha_objs _ _ _ _ _ _ Hh))) as (Es & _).
  destruct Hok as [? ? ? ? ? Hw]. constructor; try done; [by rewrite Es|].
  intros Hv. specialize (Hw Hv). by rewrite Hw in Hq.
Qed.

(** ** Specification: a counting semaphore with a queue of waiters *)
Record asem := mkAsem { count : Z; waiters : list addr }.

Definition asem_take (t : addr) (block : bool) (a : asem) : asem * call Z addr :=
  if decide (0 < count a) then (mkAsem (count a - 1) (waiters a), Return RT_EOK)
  else if block then (mkAsem (count a) (waiters a ++ [t]), Park t)
  else (a, Return (- RT_ETIMEOUT)).
Definition asem_release (a : asem) : asem * Z :=
  match waiters a with
  | t :: w => (mkAsem (count a) w, RT_EOK)
  | [] => if decide (count a < RT_SEM_VALUE_MAX) then (mkAsem (count a + 1) [], RT_EOK)
          else (a, - RT_EFULL)
  end.

Definition sem_view (k : kernel) (s : addr) : option asem :=
  (λ x, mkAsem (sem_value x) (queue k (QSuspend s))) <$> semaphores k !! s.

Lemma sem_ok_set k s x v :
  sem_ok k s x → 0 ≤ v ≤ RT_SEM_VALUE_MAX → queue k (QSuspend s) = [] →
  sem_ok (k <| semaphores := <[s := x <| sem_value := v |>]> (semaphores k) |>) s (x <| sem_value := v |>).
Proof. intros [] Hv Hq. constructor; try done. apply lookup_insert_eq. Qed.

Lemma kernel_inv_sems k sems : kernel_inv k → kernel_inv (k <| semaphores := sems |>).
Proof. intros []. by constructor. Qed.

(** C27: [rt_sem_take] on a FIFO semaphore is the abstract P operation: it takes
    a unit at once, refuses when the caller will not wait, or queues the caller
    behind the other waiters; the scheduler's and timers' invariants hold
    again afterwards. *)
Theorem sem_take_refines k s x th time :
  kernel_inv k → running k th → rt_interrupt_nest k = 0 → sem_ok k s x →
  obj_flag (sem_parent x) = RT_IPC_FLAG_FIFO → time < RT_TICK_MAX / 2 →
  wp (rt_sem_take s time) k (λ r k',
    let '(a', r') := asem_take (rt_current_thread k) (bool_decide (time ≠ 0))
                       (mkAsem (sem_value x) (queue k (QSuspend s))) in
    sem_view k' s = Some a' ∧ r = r' ∧ kernel_inv k' ∧ current_ok k' ∧
    ∃ x', sem_ok k' s x').
Proof.
  intros H Hr Hnest Hok Hfifo Htime. unfold asem_take. simpl.
  pose proof (so_range _ _ _ Hok) as Hrange. case_decide as Hv.
  - eapply wp_eq; [by apply sem_take_available|]. unfold sem_view. ksimpl. rewrite lookup_insert_eq.
    split_and!; [done|done|by apply kernel_inv_sems|by eapply running_ok|].
    eexists. apply sem_ok_set; [done|lia|by apply Hok].
  - destruct (decide (time = 0)) as [->|Ht].
    + rewrite bool_decide_false by naive_solver.
      eapply wp_eq; [apply sem_take_empty with x; [done|lia]|].
      unfold sem_view. rewrite (so_lookup _ _ _ Hok).
      split_and!; [done|done|done|by eapply running_ok|by exists x].
    + rewrite bool_decide_true by done.
      eapply wp_mono; [apply (sem_take_blocks k s x th time); try done; lia|].
      intros r k' (-> & Hw & Hok'). destruct (wa_queue _ _ _ _ _ _ _ Hw) as (l1 & l2 & Hl & Hl' & Hpos & _).
      rewrite (Hpos Hfifo) in *. rewrite app_nil_r in Hl.
      unfold sem_view. rewrite (so_lookup _ _ _ Hok').
      split_and!; [|done|apply Hw|apply Hw|by exists x].
      simpl. do 2 f_equal. rewrite Hl'. unfold queue in Hl |- *. simpl in Hl |- *. by rewrite Hl.
Qed.

(** C28: [rt_sem_release] is the abstract V operation: it hands the unit to the
    first waiter, which becomes runnable, or adds one to the count, or refuses
    at the maximum of 65535. *)
Theorem sem_release_refines k s x :
  kernel_inv k → current_ok k → sem_ok k s x →
  wp (rt_sem_release s) k (λ r k',
    let '(a', r') := asem_release (mkAsem (sem_value x) (queue k (QSuspend s))) in
    sem_view k' s = Some a' ∧ r = r' ∧ kernel_inv k' ∧ current_ok k' ∧
    (∃ x', sem_ok k' s x') ∧
    ∀ t w, queue k (QSuspend s) = t :: w → handed t k k').
Proof.
  intros H Hc Hok. unfold asem_release. simpl. pose proof (so_range _ _ _ Hok) as Hrange.
  destruct (queue k (QSuspend s)) as [|t w] eqn:Hq.
  - case_decide as Hv.
    + eapply wp_eq; [by apply sem_release_count|]. unfold sem_view. ksimpl. rewrite lookup_insert_eq.
      simpl. unfold queue in Hq |- *. ksimpl. rewrite Hq.
      split_and!; [done|done|by apply kernel_inv_sems|done| |done].
      eexists. apply sem_ok_set; [done|lia|done].
    + eapply wp_eq; [apply sem_release_full with x; [done|done|lia]|].
      unfold sem_view. rewrite (so_lookup _ _ _ Hok). simpl. rewrite Hq.
      split_and!; [done|done|done|done|by exists x|done].
  - eapply wp_mono; [by apply (sem_release_hands k s x t w)|].
    intros r k' (-> & Hh & Hok').
    unfold sem_view. rewrite (so_lookup _ _ _ Hok'). simpl. rewrite (ha_queue _ _ _ _ _ _ Hh).
    split_and!; [done|done|apply Hh|apply Hh|by exists x|].
    intros ? ? [= <- <-]. apply (ha_handed _ _ _ _ _ _ Hh).
Qed.

(** ** Concrete instances *)
Definition a_sem (v : Z) : rt_semaphore :=
  mkSemaphore (an_object RT_Object_Class_Semaphore RT_IPC_FLAG_FIFO) v.
Definition sem_scene (v : Z) (q : qid) : kernel := scene_with q {[O_sem := a_sem v]} ∅ ∅ ∅ ∅.

Lemma sem_take_refines_witness :
  wp (rt_sem_take O_sem 100) (sem_scene 0 (QSuspend O_sem)) (λ r k',
    sem_view k' O_sem = Some (mkAsem 0 [T_wait; T_run]) ∧ r = Park T_run ∧ kernel_inv k' ∧
    current_ok k' ∧ ∃ x', sem_ok k' O_sem x').
Proof.
  apply (sem_take_refines (sem_scene 0 (QSuspend O_sem)) O_sem (a_sem 0)
    (a_thread RT_THREAD_RUNNING 10 RT_EOK) 100); [by_check|done|done| |done|done].
  constructor; [done|done|done|by left|done|done].
Defined.
Lemma sem_release_refines_witness :
  wp (rt_sem_release O_sem) (sem_scene 0 (QSuspend O_sem)) (λ r k',
    sem_view k' O_sem = Some (mkAsem 0 []) ∧ r = RT_EOK ∧ kernel_inv k' ∧ current_ok k' ∧
    (∃ x', sem_ok k' O_sem x') ∧
    ∀ t w, queue (sem_scene 0 (QSuspend O_sem)) (QSuspend O_sem) = t :: w →
      handed t (sem_scene 0 (QSuspend O_sem)) k').
Proof.
  apply (sem_release_refines (sem_scene 0 (QSuspend O_sem)) O_sem (a_sem 0)); [by_check| |].
  - by apply (running_ok _ (a_thread RT_THREAD_RUNNING 10 RT_EOK)).
  - constructor; [done|done|done|by left|done|done].
Defined.
