(* ===== verification/Mutex.v ===== *)
(** * Mutexes ([src/ipc.c], lines 546-952)

    Recursive mutexes with priority inheritance: a waiter that is better than
    the owner lends it its priority, and the last release gives it back. *)
From S2P Require Import Prelude Kernel Scheduler Object Timer Thread Ipc Decide Scenario.

(** ** Operations *)
Definition get_mutex (m : addr) : M kernel rt_mutex :=
  x ← gets (λ k, mutexes k !! m); of_option FBadPointer x.
Definition put_mutex (m : addr) (x : rt_mutex) : M kernel unit :=
  modify (λ k, k <| mutexes := <[m := x]> (mutexes k) |>).

Definition assert_mutex (m : addr) : M kernel unit :=
  RT_ASSERT (m ≠ RT_NULL);;
  x ← get_mutex m;
  RT_ASSERT (rt_object_get_type (mutex_parent x) = RT_Object_Class_Mutex).

Definition rt_mutex_init (m : addr) (name : list Z) (flag : Z) : M kernel Z :=
  RT_ASSERT (m ≠ RT_NULL);;
  rt_object_init (Obj m) RT_Object_Class_Mutex name;;
  rt_list_init_head (QSuspend m);;
  x ← get_mutex m;
  put_mutex m (mkMutex ((mutex_parent x) <| obj_flag := u8 flag |>) 1 255 0 RT_NULL);;
  mret RT_EOK.

Definition rt_mutex_detach (m : addr) : M kernel Z :=
  assert_mutex m;;
  x ← get_mutex m;
  RT_ASSERT (rt_object_is_systemobject (mutex_parent x) = true);;
  rt_ipc_list_resume_all (QSuspend m);;
  rt_object_detach RT_Object_Class_Mutex (Obj m);;
  mret RT_EOK.

Definition hold_more (x : rt_mutex) : rt_mutex := x <| hold := u8 (hold x + 1) |>.
(** [value --; owner = thread; original_priority = thread->current_priority] *)
Definition own (thread : addr) (prio : Z) (x : rt_mutex) : rt_mutex :=
  x <| mutex_value := u16 (mutex_value x - 1) |> <| owner := thread |>
    <| original_priority := prio |>.
Definition pass_on (thread : addr) (prio : Z) (x : rt_mutex) : rt_mutex :=
  x <| owner := thread |> <| original_priority := prio |>.
Definition disown (x : rt_mutex) : rt_mutex :=
  x <| mutex_value := u16 (mutex_value x + 1) |> <| owner := RT_NULL |>
    <| original_priority := 255 |>.

Section Mutex.
Context (run_cleanup : Z → addr → M kernel unit).

(** Lines 697-810 of [rt_mutex_take], interrupts masked. *)
Definition mutex_take_locked (m : addr) (x : rt_mutex) (thread : addr) (time temp : Z)
  : M kernel (call Z addr) :=
  if decide (owner x = thread) then
    if decide (hold x < RT_MUTEX_HOLD_MAX) then
      put_mutex m (hold_more x);;
      rt_hw_interrupt_enable temp;;
      mret (Return RT_EOK)
    else
      rt_hw_interrupt_enable temp;;
      mret (Return (- RT_EFULL))
  else if decide (0 < mutex_value x) then
    th ← get_thread thread;
    put_mutex m (own thread (current_priority th) x);;
    if decide (hold x < RT_MUTEX_HOLD_MAX) then
      put_mutex m (hold_more (own thread (current_priority th) x));;
      rt_hw_interrupt_enable temp;;
      mret (Return RT_EOK)
    else
      rt_hw_interrupt_enable temp;;
      mret (Return (- RT_EFULL))
  else if decide (time = 0) then
    upd_thread thread timeout_error;;
    rt_hw_interrupt_enable temp;;
    mret (Return (- RT_ETIMEOUT))
  else
    th ← get_thread thread;
    oth ← get_thread (owner x);
    (if decide (current_priority th < current_priority oth) then
       rt_thread_control run_cleanup (owner x) RT_THREAD_CTRL_CHANGE_PRIORITY
         (current_priority th);; mret tt
     else mret tt);;
    wait_on (QSuspend m) thread (obj_flag (mutex_parent x)) time temp;;
    mret (Park thread).

(** [rt_mutex_take] up to its [rt_schedule()]. *)
Definition rt_mutex_take (m : addr) (time : Z) : M kernel (call Z addr) :=
  RT_DEBUG_IN_THREAD_CONTEXT;;
  assert_mutex m;;
  thread ← rt_thread_self;
  temp ← rt_hw_interrupt_disable;
  upd_thread thread no_error;;
  x ← get_mutex m;
  mutex_take_locked m x thread time temp.

Definition rt_mutex_take_resume (thread : addr) : M kernel Z :=
  th ← get_thread thread;
  if decide (error th ≠ RT_EOK) then mret (error th)
  else
    temp ← rt_hw_interrupt_disable;
    rt_hw_interrupt_enable temp;;
    mret RT_EOK.

Definition release_error (th : rt_thread) : rt_thread := th <| error := - RT_ERROR |>.

(** Lines 878-930: to the first waiter, or free. *)
Definition mutex_hand_over (m : addr) (x : rt_mutex) (temp : Z) : M kernel Z :=
  k ← gets id;
  match queue k (QSuspend m) with
  | waiter :: _ =>
      wth ← get_thread waiter;
      put_mutex m (pass_on waiter (current_priority wth) x);;
      if decide (hold x < RT_MUTEX_HOLD_MAX) then
        put_mutex m (hold_more (pass_on waiter (current_priority wth) x));;
        rt_ipc_list_resume (QSuspend m);;
        rt_hw_interrupt_enable temp;;
        rt_schedule;;
        mret RT_EOK
      else
        rt_hw_interrupt_enable temp;;
        mret (- RT_EFULL)
  | [] =>
      if decide (mutex_value x < RT_MUTEX_VALUE_MAX) then
        put_mutex m (disown x);;
        rt_hw_interrupt_enable temp;;
        mret RT_EOK
      else
        rt_hw_interrupt_enable temp;;
        mret (- RT_EFULL)
  end.

(** Lines 854-932 of [rt_mutex_release]. *)
Definition mutex_release_locked (m : addr) (x : rt_mutex) (thread : addr) (temp : Z) : M kernel Z :=
  if decide (thread ≠ owner x) then
    upd_thread thread release_error;;
    rt_hw_interrupt_enable temp;;
    mret (- RT_ERROR)
  else
    put_mutex m (x <| hold := u8 (hold x - 1) |>);;
    x ← get_mutex m;
    if decide (hold x = 0) then
      oth ← get_thread (owner x);
      (if decide (original_priority x ≠ current_priority oth) then
         rt_thread_control run_cleanup (owner x) RT_THREAD_CTRL_CHANGE_PRIORITY
           (original_priority x);; mret tt
       else mret tt);;
      mutex_hand_over m x temp
    else
      rt_hw_interrupt_enable temp;;
      mret RT_EOK.

Definition rt_mutex_release (m : addr) : M kernel Z :=
  assert_mutex m;;
  RT_DEBUG_IN_THREAD_CONTEXT;;
  thread ← rt_thread_self;
  temp ← rt_hw_interrupt_disable;
  x ← get_mutex m;
  mutex_release_locked m x thread temp.
End Mutex.

Definition rt_mutex_control (m cmd arg : Z) : M kernel Z :=
  assert_mutex m;;
  mret (- RT_ERROR).

(** ** Invariant *)
Record mutex_ok (k : kernel) (m : addr) (x : rt_mutex) : Prop := {
  mx_lookup : mutexes k !! m = Some x;
  mx_null : m ≠ RT_NULL;
  mx_type : rt_object_get_type (mutex_parent x) = RT_Object_Class_Mutex;
  mx_flag : obj_flag (mutex_parent x) = RT_IPC_FLAG_FIFO ∨ obj_flag (mutex_parent x) = RT_IPC_FLAG_PRIO;
  mx_free : owner x = RT_NULL →
    mutex_value x = 1 ∧ hold x = 0 ∧ queue k (QSuspend m) = [];
  mx_held : owner x ≠ RT_NULL →
    mutex_value x = 0 ∧ 1 ≤ hold x ≤ RT_MUTEX_HOLD_MAX ∧ owner x ∉ queue k (QSuspend m) ∧
    0 ≤ original_priority x < RT_THREAD_PRIORITY_MAX ∧
    ∃ th, threads k !! owner x = Some th ∧ live th
}.

Lemma wp_get_mutex m x k (Q : rt_mutex → kernel → Prop) :
  mutexes k !! m = Some x → Q x k → wp (get_mutex m) k Q.
Proof. intros. unfold get_mutex. by ksteps. Qed.
Lemma assert_mutex_ok m x k (Q : unit → kernel → Prop) :
  mutexes k !! m = Some x → m ≠ RT_NULL →
  rt_object_get_type (mutex_parent x) = RT_Object_Class_Mutex → Q tt k → wp (assert_mutex m) k Q.
Proof. intros. unfold assert_mutex. ksteps. eapply wp_get_mutex; [done|]. by ksteps. Qed.

Lemma kernel_inv_mutexes k ms : kernel_inv k → kernel_inv (k <| mutexes := ms |>).
Proof. intros []. by constructor. Qed.

(** ** Taking *)
Section Take.
Context (run_cleanup : Z → addr → M kernel unit).
Context (k : kernel) (m : addr) (x : rt_mutex) (th : rt_thread).
Context (H : kernel_inv k) (Hr : running k th) (Hnest : rt_interrupt_nest k = 0)
  (Hok : mutex_ok k m x).
Let cur := rt_current_thread k.
Let k0 := k <| primask := 1 |> <| threads := <[cur := no_error th]> (threads k) |>.
(** The same with interrupts as the caller had them. *)
Definition cleared : kernel := k <| threads := <[cur := no_error th]> (threads k) |>.

Lemma cur_not_null : cur ≠ RT_NULL.
Proof. eapply live_not_null; [exact H|apply Hr]. Qed.
Lemma cleared_inv : kernel_inv cleared.
Proof. apply (kernel_inv_error k cur th RT_EOK H), Hr. Qed.
Lemma cleared_running : running cleared (no_error th).
Proof. by apply running_no_error. Qed.

(** The code every path runs first. *)
Lemma take_prefix time (Q : call Z addr → kernel → Prop) :
  wp (mutex_take_locked run_cleanup m x cur time (primask k)) k0 Q →
  wp (rt_mutex_take run_cleanup m time) k Q.
Proof.
  intros Hw. pose proof Hr as [Ht _]. unfold rt_mutex_take. ksteps.
  eapply thread_context; [done|done|done|]. ksteps.
  eapply assert_mutex_ok; [apply Hok..|]. ksteps. eapply wp_get_mutex; [apply Hok|]. exact Hw.
Qed.

(** A free mutex is taken at once. *)
Lemma mutex_take_free time :
  owner x = RT_NULL →
  rt_mutex_take run_cleanup m time k = Ok (Return RT_EOK,
    cleared <| mutexes := <[m := mkMutex (mutex_parent x) 0 (current_priority th) 1 cur]>
                            (mutexes k) |>).
Proof.
  intros Hfree. destruct (mx_free _ _ _ Hok Hfree) as (Hv & Hh & Hq). pose proof cur_not_null as Hn.
  apply wp_exact, take_prefix. unfold mutex_take_locked. rewrite decide_False by congruence. rewrite decide_True by lia.
  ksteps. eapply wp_get_thread; [apply lookup_insert_eq|]. unfold put_mutex. ksteps.
  rewrite decide_True by (rewrite Hh; done). ksteps. ksimpl. rewrite insert_insert_eq.
  unfold hold_more, own. split; [done|]. simpl. rewrite Hv, Hh.
  unfold cleared. by destruct k, x.
Qed.

(** The owner takes it again; the 256th time it is refused. *)
Lemma mutex_take_again time :
  owner x = cur → hold x < RT_MUTEX_HOLD_MAX →
  rt_mutex_take run_cleanup m time k = Ok (Return RT_EOK,
    cleared <| mutexes := <[m := x <| hold := hold x + 1 |>]> (mutexes k) |>).
Proof.
  intros Ho Hh. pose proof cur_not_null as Hn.
  destruct (mx_held _ _ _ Hok) as (_ & Hrange & _); [congruence|].
  apply wp_exact, take_prefix. unfold mutex_take_locked. rewrite decide_True by done. rewrite decide_True by done.
  unfold put_mutex. ksteps. unfold hold_more.
  rewrite wrapU_small by (unfold RT_MUTEX_HOLD_MAX, RT_UINT8_MAX in *; lia).
  unfold cleared. by destruct k.
Qed.
Lemma mutex_take_overflow time :
  owner x = cur → hold x = RT_MUTEX_HOLD_MAX →
  rt_mutex_take run_cleanup m time k = Ok (Return (- RT_EFULL), cleared).
Proof.
  intros Ho Hh. apply wp_exact, take_prefix. unfold mutex_take_locked. rewrite decide_True by done.
  rewrite decide_False by lia. ksteps. unfold cleared. by destruct k.
Qed.

(** Held by another thread and the caller will not wait. *)
Lemma mutex_take_busy :
  owner x ≠ RT_NULL → owner x ≠ cur →
  rt_mutex_take run_cleanup m 0 k = Ok (Return (- RT_ETIMEOUT),
    k <| threads := <[cur := timeout_error th]> (threads k) |>).
Proof.
  intros Ho Hne. destruct (mx_held _ _ _ Hok Ho) as (Hv & _).
  apply wp_exact, take_prefix. unfold mutex_take_locked. rewrite decide_False by done. rewrite decide_False by lia.
  rewrite decide_True by done. ksteps. eapply wp_upd_thread; [apply lookup_insert_eq|]. ksteps.
  unfold k0. ksimpl. rewrite insert_insert_eq. by destruct k.
Qed.
End Take.

(** ** Waiting for a mutex, with priority inheritance *)
Record mutex_waits (k : kernel) (m : addr) (x : rt_mutex) (th oth : rt_thread) (k' : kernel) : Prop := {
  mw_inv : kernel_inv k';
  mw_cur : current_ok k';
  mw_ok : mutex_ok k' m x;
  mw_queue : ∃ l1 l2, queue k (QSuspend m) = l1 ++ l2 ∧
    queue k' (QSuspend m) = l1 ++ rt_current_thread k :: l2 ∧
    (obj_flag (mutex_parent x) = RT_IPC_FLAG_FIFO → l2 = []);
  mw_thread : ∃ th', threads k' !! rt_current_thread k = Some th' ∧
    stat_of th' = RT_THREAD_SUSPEND ∧ error th' = RT_EOK;
  mw_owner : ∃ oth', threads k' !! owner x = Some oth' ∧
    current_priority oth' = current_priority th `min` current_priority oth
}.

(** From the state [k1] in which the owner has the priority it is lent. *)
Lemma mutex_waits_intro k m x th oth time temp k1 k' :
  mutex_ok k m x → owner x ≠ RT_NULL → owner x ≠ rt_current_thread k →
  rt_current_thread k1 = rt_current_thread k → mutexes k1 = mutexes k →
  (∀ q, ¬ ready_list q → queue k1 q = queue k q) →
  (∃ oth1, threads k1 !! owner x = Some oth1 ∧ live oth1 ∧
     current_priority oth1 = current_priority th `min` current_priority oth) →
  waits (QSuspend m) (no_error th) (obj_flag (mutex_parent x)) time temp k1 k' →
  mutex_waits k m x th oth k'.
Proof.
  intros Hok Ho Hne Ec Em Eq (oth1 & Hoth1 & Hl1 & Hp1) Hw.
  destruct (mx_held _ _ _ Hok Ho) as (Hv & Hhold & Hnin & Hop & _).
  destruct (wa_queue _ _ _ _ _ _ _ Hw) as (l1 & l2 & Hl & Hl' & Hpos).
  rewrite Eq in Hl by (by intros []). rewrite Ec in *.
  destruct (wa_threads _ _ _ _ _ _ _ Hw (owner x) oth1) as (oth' & Hoth' & Hcore); [by rewrite Ec|done|].
  destruct (wa_thread _ _ _ _ _ _ _ Hw) as (th' & Ht' & Hs' & Hcore'). rewrite Ec in Ht'.
  destruct (objs_fields _ _ (wa_objs _ _ _ _ _ _ _ Hw)) as (_ & Em' & _).
  constructor; [apply Hw|apply Hw| | | |].
  - destruct Hok. constructor; try done; [by rewrite Em'; ksimpl; rewrite Em|].
    intros _. split_and!; try done; try lia.
    + rewrite Hl', elem_of_app, elem_of_cons. rewrite Hl, elem_of_app in Hnin. naive_solver.
    + exists oth'. split; [done|]. by apply (core_live _ _ Hcore).
  - exists l1, l2. split; [done|]. split; [done|]. apply Hpos.
  - exists th'. split; [done|]. split; [done|]. by apply (f_equal error) in Hcore'.
  - exists oth'. split; [done|]. apply (f_equal current_priority) in Hcore. simpl in Hcore. congruence.
Qed.

(** C7: taking a mutex that another thread holds, with a timeout, suspends the
    caller in the mutex's wait list and lends its priority to the owner: the
    owner ends up with the better of the two priorities. *)
Theorem mutex_take_inherits run_cleanup k m x th oth time :
  kernel_inv k → running k th → rt_interrupt_nest k = 0 → mutex_ok k m x →
  owner x ≠ RT_NULL → owner x ≠ rt_current_thread k → threads k !! owner x = Some oth →
  time ≠ 0 → time < RT_TICK_MAX / 2 →
  wp (rt_mutex_take run_cleanup m time) k (λ r k',
    r = Park (rt_current_thread k) ∧ mutex_waits k m x th oth k').
Proof.
  intros H Hr Hnest Hok Ho Hne Hoth Ht0 Ht1. pose proof Hr as [Ht Hs].
  destruct (mx_held _ _ _ Hok Ho) as (Hv & _ & _ & _ & oth1 & Hoth1 & Holive).
  assert (oth1 = oth) as -> by congruence. clear Hoth1.
  set (k0 := k <| primask := 1 |> <| threads := <[rt_current_thread k := no_error th]> (threads k) |>).
  assert (kernel_inv k0) as H0.
  { apply (kernel_inv_primask (cleared k th) 1), cleared_inv; done. }
  assert (running k0 (no_error th)) as Hr0 by (split; [apply lookup_insert_eq|done]).
  assert (threads k0 !! owner x = Some oth) as Hoth0.
  { unfold k0; ksimpl. by rewrite lookup_insert_ne. }
  pose proof (ok_prio _ (live_ok k _ th H Ht (running_live _ _ Hr))) as Hprio.
  apply take_prefix with x th; [done|done|done|done|]. fold k0. unfold mutex_take_locked.
  rewrite decide_False by done. rewrite decide_False by lia. rewrite decide_False by done.
  ksteps. eapply wp_get_thread; [apply lookup_insert_eq|]. ksteps.
  change (current_priority (no_error th)) with (current_priority th).
  destruct (decide (current_priority th < current_priority oth)) as [Hlt|Hge].
  - set (k1 := reprioritized (owner x) oth (current_priority th) k0). ksteps.
    pose proof (reprioritized_spec _ _ (current_priority th) _ H0 Hoth0) as Hrp. fold k1 in Hrp.
    eapply wp_eq; [by apply change_priority_eq|]. fold k1. ksteps.
    destruct (objs_fields _ _ (rp_objs _ _ _ _ _ Hrp)) as (_ & Em & _).
    pose proof (rp_current _ _ _ _ _ Hrp) as Ec. change (rt_current_thread k0) with (rt_current_thread k) in Ec.
    rewrite <-Ec. eapply wp_mono; [eapply (wait_on_spec k1 (no_error th))|].
    + by apply reprioritized_inv.
    + by eapply running_reprioritizes.
    + done.
    + apply Hok.
    + done.
    + intros ? k' Hw. ksteps. split; [by rewrite Ec|].
      eapply (mutex_waits_intro k m x th oth time _ k1 k' Hok Ho Hne Ec Em);
        [apply Hrp| |exact Hw].
      destruct (rp_thread _ _ _ _ _ Hrp) as (oth' & Et & Hp & Hc & _).
      exists oth'. rewrite Et, lookup_insert_eq. split; [done|].
      split; [by apply class_live; rewrite Hc; apply class_live|]. rewrite Hp, wrapU_small.
      * lia.
      * unfold RT_THREAD_PRIORITY_MAX in Hprio. lia.
  - ksteps. change (rt_current_thread k) with (rt_current_thread k0).
    eapply wp_mono; [eapply (wait_on_spec k0 (no_error th)); [done|done|done|apply Hok|done]|].
    intros ? k' Hw. ksteps. split; [done|].
    eapply (mutex_waits_intro k m x th oth time _ k0 k' Hok Ho Hne eq_refl eq_refl);
      [by intros| |exact Hw].
    exists oth. split; [done|]. split; [done|]. lia.
Qed.

(** ** Releasing *)
Section Release.
Context (run_cleanup : Z → addr → M kernel unit).
Context (k : kernel) (m : addr) (x : rt_mutex) (th : rt_thread).
Context (H : kernel_inv k) (Hr : running k th) (Hnest : rt_interrupt_nest k = 0)
  (Hok : mutex_ok k m x).
Let cur := rt_current_thread k.
Let k0 := k <| primask := 1 |>.

Lemma release_prefix (Q : Z → kernel → Prop) :
  wp (mutex_release_locked run_cleanup m x cur (primask k)) k0 Q →
  wp (rt_mutex_release run_cleanup m) k Q.
Proof.
  intros Hw. unfold rt_mutex_release. ksteps.
  eapply assert_mutex_ok; [apply Hok..|]. ksteps. eapply thread_context; [done|done|done|]. ksteps.
  eapply wp_get_mutex; [apply Hok|]. exact Hw.
Qed.

(** Only the owner may release. *)
Lemma mutex_release_other :
  owner x ≠ cur →
  rt_mutex_release run_cleanup m k =
    Ok (- RT_ERROR, k <| threads := <[cur := release_error th]> (threads k) |>).
Proof.
  intros Hne. pose proof Hr as [Ht _]. apply wp_exact, release_prefix. unfold mutex_release_locked.
  rewrite decide_True by done. ksteps. by destruct k.
Qed.

(** A nested release only counts down. *)
Lemma mutex_release_nested :
  owner x = cur → 1 < hold x →
  rt_mutex_release run_cleanup m k =
    Ok (RT_EOK, k <| mutexes := <[m := x <| hold := hold x - 1 |>]> (mutexes k) |>).
Proof.
  intros Ho Hh. pose proof (live_not_null _ _ _ H (proj1 Hr)) as Hn. fold cur in Hn.
  destruct (mx_held _ _ _ Hok) as (_ & Hrange & _); [congruence|].
  apply wp_exact, release_prefix. unfold mutex_release_locked. rewrite decide_False by naive_solver.
  rewrite wrapU_small by (unfold RT_MUTEX_HOLD_MAX, RT_UINT8_MAX in *; lia).
  unfold put_mutex. ksteps. eapply wp_get_mutex; [apply lookup_insert_eq|].
  rewrite decide_False by (simpl; lia). ksteps. by destruct k.
Qed.

(** The releasing thread with the priority it had when it took the mutex. *)
Definition restored : rt_thread :=
  if decide (original_priority x ≠ current_priority th)
  then with_priority (original_priority x) th else th.
Let x1 := x <| hold := 0 |>.
Let k1 := k <| primask := 1 |> <| mutexes := <[m := x1]> (mutexes k) |>
            <| threads := <[cur := restored]> (threads k) |>.

Context (Ho : owner x = cur) (Hh : hold x = 1).

Lemma owner_facts :
  cur ≠ RT_NULL ∧ mutex_value x = 0 ∧ cur ∉ queue k (QSuspend m) ∧
  0 ≤ original_priority x < RT_THREAD_PRIORITY_MAX.
Proof.
  pose proof (live_not_null _ _ _ H (proj1 Hr)) as Hn.
  destruct (mx_held _ _ _ Hok) as (? & _ & ? & ? & _); [by rewrite Ho|]. by rewrite <-Ho at 2.
Qed.

Lemma k1_inv : kernel_inv k1.
Proof.
  destruct owner_facts as (_ & _ & _ & Hp). pose proof Hr as [Ht Hs].
  pose proof (running_live _ _ Hr) as Hl.
  unfold k1, restored. case_decide.
  - pose proof (reprioritized_inv cur th (original_priority x) k H Ht Hl Hp) as H1.
    unfold reprioritized in H1. rewrite decide_False in H1 by by rewrite Hs.
    by eapply kernel_inv_ext; [exact H1|..].
  - rewrite insert_id by done. by eapply kernel_inv_ext; [exact H|..].
Qed.

Lemma release_restores (Q : Z → kernel → Prop) :
  wp (mutex_hand_over m x1 (primask k)) k1 Q →
  wp (rt_mutex_release run_cleanup m) k Q.
Proof.
  intros Hw. pose proof Hr as [Ht Hs]. pose proof (running_live _ _ Hr) as Hl.
  apply release_prefix. unfold mutex_release_locked. rewrite decide_False by naive_solver.
  rewrite Hh. change (u8 (1 - 1)) with 0. fold x1. unfold put_mutex at 1. ksteps.
  eapply wp_get_mutex; [apply lookup_insert_eq|]. rewrite decide_True by done. ksteps.
  change (owner x1) with (owner x). rewrite Ho. ksteps.
  change (original_priority x1) with (original_priority x). unfold k1, restored in Hw.
  destruct (decide (original_priority x ≠ current_priority th)) as [Hd|Hd].
  - ksteps. eapply wp_eq; [apply change_priority_eq with (th := th); [|done|done]|].
    { by apply kernel_inv_mutexes, kernel_inv_primask. }
    unfold reprioritized. rewrite decide_False by by rewrite Hs. ksteps. exact Hw.
  - ksteps. rewrite insert_id in Hw by done.
    assert (k <| primask := 1 |> <| mutexes := <[m := x1]> (mutexes k) |> <| threads := threads k |>
      = k0 <| mutexes := <[m := x1]> (mutexes k0) |>) as E by by destruct k.
    rewrite E in Hw. exact Hw.
Qed.
Lemma restored_priority : current_priority restored = original_priority x.
Proof.
  destruct owner_facts as (_ & _ & _ & Hp). unfold restored. case_decide as Hd.
  - apply (proj2 (with_priority_ok _ th Hp (live_ok k _ th H (proj1 Hr) (running_live _ _ Hr)))).
  - by destruct (decide (original_priority x = current_priority th)); [|destruct Hd].
Qed.
Lemma k1_running : running k1 restored.
Proof.
  split; [apply lookup_insert_eq|]. unfold restored. destruct Hr. by case_decide.
Qed.

(** The last release with nobody waiting frees the mutex. *)
Lemma mutex_release_frees :
  queue k (QSuspend m) = [] →
  wp (rt_mutex_release run_cleanup m) k (λ r k',
    r = RT_EOK ∧ kernel_inv k' ∧ current_ok k' ∧
    mutex_ok k' m (mkMutex (mutex_parent x) 1 255 0 RT_NULL) ∧
    ∃ th', threads k' !! cur = Some th' ∧ current_priority th' = original_priority x).
Proof.
  intros Hq. destruct owner_facts as (Hn & Hv & _). apply release_restores.
  unfold mutex_hand_over. ksteps. change (queue (id k1) (QSuspend m)) with (queue k (QSuspend m)).
  rewrite Hq. change (mutex_value x1) with (mutex_value x). rewrite Hv.
  rewrite decide_True by done. unfold put_mutex. ksteps. split; [done|].
  split; [by eapply kernel_inv_ext; [exact k1_inv|..]|].
  split; [exact (running_ok _ _ k1_running)|]. split.
  - destruct Hok. constructor; try done. ksimpl. rewrite lookup_insert_eq.
    unfold disown. change (mutex_value x1) with (mutex_value x). by rewrite Hv.
  - exists restored. split; [apply k1_running|apply restored_priority].
Qed.

(** With waiters it passes to the first one, which becomes ready and owns the
    mutex once. *)
Lemma mutex_release_passes t l wth :
  queue k (QSuspend m) = t :: l → threads k !! t = Some wth →
  wp (rt_mutex_release run_cleanup m) k (λ r k',
    r = RT_EOK ∧ kernel_inv k' ∧ current_ok k' ∧ queue k' (QSuspend m) = l ∧
    mutex_ok k' m (mkMutex (mutex_parent x) 0 (current_priority wth) 1 t) ∧
    (∃ th', threads k' !! t = Some th' ∧ stat_class th' = RT_THREAD_READY ∧ error th' = error wth) ∧
    ∃ th', threads k' !! cur = Some th' ∧ current_priority th' = original_priority x).
Proof.
  intros Hq Hwth. destruct owner_facts as (Hn & Hv & Hnin & _). apply release_restores.
  assert (t ≠ cur) as Hne by (intros ->; apply Hnin; rewrite Hq; left).
  destruct (waiter_thread k (QSuspend m) t l H) as (wth1 & Hw1 & Hws); [done|done|].
  assert (wth1 = wth) as -> by congruence. clear Hw1.
  pose proof (live_ok k t wth H Hwth (or_intror (or_introl Hws))) as Hwok.
  unfold mutex_hand_over. ksteps. change (queue (id k1) (QSuspend m)) with (queue k (QSuspend m)).
  rewrite Hq. ksteps. eapply wp_get_thread; [by unfold k1; ksimpl; rewrite lookup_insert_ne|].
  unfold put_mutex. ksteps. rewrite decide_True by done. apply wp_bind, wp_modify. cbv beta. ksimpl.
  set (x2 := hold_more (pass_on t (current_priority wth) x1)).
  assert (x2 = mkMutex (mutex_parent x) 0 (current_priority wth) 1 t) as Ex.
  { unfold x2, hold_more, pass_on, x1. simpl. by rewrite Hv. }
  rewrite insert_insert_eq, Ex.
  eapply wake_spec; [by eapply kernel_inv_ext; [exact k1_inv|..]|exact (running_ok _ _ k1_running)
    |done|exact Hq|].
  intros k' Hh'. ksteps. destruct (objs_fields _ _ (ha_objs _ _ _ _ _ _ Hh')) as (_ & Em & _).
  destruct (ha_handed _ _ _ _ _ _ Hh') as (wth1 & wth' & Hw1 & Hw' & Hc' & He').
  unfold k1 in Hw1. simpl in Hw1. rewrite lookup_insert_ne in Hw1 by done.
  assert (wth1 = wth) as -> by congruence.
  destruct (ha_threads _ _ _ _ _ _ Hh' cur restored) as (th' & Ht' & Hcore); [done|apply k1_running|].
  split_and!; [done|apply Hh'|apply Hh'|apply Hh'| | |].
  - destruct Hok. constructor; try done.
    + rewrite Em. ksimpl. by rewrite !lookup_insert_eq.
    + simpl. intros ->. by rewrite (si_null _ _ _ _ _ (ki_sched _ H)) in Hwth.
    + intros _. simpl. split_and!; [done|done|done| |apply Hwok|apply Hwok|].
      * rewrite (ha_queue _ _ _ _ _ _ Hh').
        pose proof (si_nodup _ _ _ _ _ (ki_sched _ H) (QSuspend m)) as Hnd.
        fold (queue k (QSuspend m)) in Hnd. rewrite Hq in Hnd. by apply NoDup_cons in Hnd as [? _].
      * exists wth'. split; [done|]. apply class_live. by left.
  - eauto.
  - exists th'. split; [done|]. apply (f_equal current_priority) in Hcore.
    rewrite <-restored_priority. exact Hcore.
Qed.
End Release.

(** ** Specification: a recursive lock with a queue of waiters *)
Record amutex := mkAmutex { am_owner : addr; am_hold : Z; am_waiters : list addr }.

Definition amutex_try (t : addr) (a : amutex) : amutex * Z :=
  if decide (am_owner a = RT_NULL) then (mkAmutex t 1 (am_waiters a), RT_EOK)
  else if decide (am_owner a = t) then
    if decide (am_hold a < RT_MUTEX_HOLD_MAX) then (mkAmutex t (am_hold a + 1) (am_waiters a), RT_EOK)
    else (a, - RT_EFULL)
  else (a, - RT_ETIMEOUT).
Definition amutex_release (t : addr) (a : amutex) : amutex * Z :=
  if decide (am_owner a ≠ t) then (a, - RT_ERROR)
  else if decide (1 < am_hold a) then (mkAmutex t (am_hold a - 1) (am_waiters a), RT_EOK)
  else match am_waiters a with
       | [] => (mkAmutex RT_NULL 0 [], RT_EOK)
       | w :: l => (mkAmutex w 1 l, RT_EOK)
       end.

Definition mutex_view (k : kernel) (m : addr) : option amutex :=
  (λ x, mkAmutex (owner x) (hold x) (queue k (QSuspend m))) <$> mutexes k !! m.

Section Refinement.
Context (run_cleanup : Z → addr → M kernel unit).
Context (k : kernel) (m : addr) (x : rt_mutex) (th : rt_thread).
Context (H : kernel_inv k) (Hr : running k th) (Hnest : rt_interrupt_nest k = 0)
  (Hok : mutex_ok k m x).

Lemma view_of : mutex_view k m = Some (mkAmutex (owner x) (hold x) (queue k (QSuspend m))).
Proof. unfold mutex_view. by rewrite (mx_lookup _ _ _ Hok). Qed.

(** Storing the mutex in the state whose caller has cleared its error. *)
Lemma mutex_ok_store x' :
  mutex_parent x' = mutex_parent x →
  (owner x' ≠ RT_NULL ∧ mutex_value x' = 0 ∧ 1 ≤ hold x' ≤ RT_MUTEX_HOLD_MAX ∧
   owner x' ∉ queue k (QSuspend m) ∧ 0 ≤ original_priority x' < RT_THREAD_PRIORITY_MAX ∧
   ∃ oth, threads k !! owner x' = Some oth ∧ live oth) →
  mutex_ok ((cleared k th) <| mutexes := <[m := x']> (mutexes k) |>) m x'.
Proof.
  intros Ep (Ho & Hv & Hh & Hq & Hp & oth & Hoth & Hl). destruct Hok.
  constructor; try done; [apply lookup_insert_eq|by rewrite Ep..|].
  intros _. split_and!; try done; try lia. unfold cleared. ksimpl.
  destruct (decide (owner x' = rt_current_thread k)) as [->|Hne].
  - rewrite lookup_insert_eq. eexists; split; [done|]. by apply (running_live k th).
  - rewrite lookup_insert_ne by done. by exists oth.
Qed.

(** without waiting, [rt_mutex_take] is the abstract recursive lock's
    try operation: a free mutex is taken, the owner counts up to 255 holds
    and is refused after that, and anyone else is refused with a timeout. *)
Theorem mutex_try_refines :
  wp (rt_mutex_take run_cleanup m 0) k (λ r k',
    let '(a', r') := amutex_try (rt_current_thread k) (mkAmutex (owner x) (hold x) (queue k (QSuspend m))) in
    mutex_view k' m = Some a' ∧ r = Return r' ∧ kernel_inv k' ∧ ∃ x', mutex_ok k' m x').
Proof.
  pose proof Hr as [Ht Hs]. pose proof (live_not_null _ _ _ H Ht) as Hn.
  pose proof (cleared_inv k th H Hr) as Hc.
  unfold amutex_try; simpl. destruct (decide (owner x = RT_NULL)) as [Hfree|Hheld].
  - eapply wp_eq; [by apply (mutex_take_free run_cleanup k m x th)|].
    destruct (mx_free _ _ _ Hok Hfree) as (Hv & Hh & Hq).
    unfold mutex_view. ksimpl. rewrite lookup_insert_eq.
    split_and!; [done|done|by apply (kernel_inv_mutexes (cleared k th))|].
    eexists. apply mutex_ok_store; [done|]. simpl.
    split_and!; try done; [by rewrite Hq; apply not_elem_of_nil| | |].
    + apply (ok_prio _ (live_ok k _ th H Ht (running_live _ _ Hr))).
    + apply (ok_prio _ (live_ok k _ th H Ht (running_live _ _ Hr))).
    + exists th. split; [done|]. by apply (running_live k).
  - destruct (mx_held _ _ _ Hok Hheld) as (Hv & Hh & Hq & Hp & Hth).
    destruct (decide (owner x = rt_current_thread k)) as [Ho|Ho]; [case_decide as Hlt|].
    + eapply wp_eq; [by apply (mutex_take_again run_cleanup k m x th)|].
      unfold mutex_view. ksimpl. rewrite lookup_insert_eq. simpl. rewrite Ho.
      split_and!; [done|done|by apply (kernel_inv_mutexes (cleared k th))|].
      eexists. apply mutex_ok_store; [done|]. simpl. split_and!; try done; try lia; by rewrite <-Ho.
    + eapply wp_eq; [apply (mutex_take_overflow run_cleanup k m x th); try done; lia|].
      unfold mutex_view. change (mutexes (cleared k th)) with (mutexes k). rewrite (mx_lookup _ _ _ Hok).
      split_and!; [done|done|done|]. exists x.
      pose proof (mutex_ok_store x eq_refl (conj Hheld (conj Hv (conj Hh (conj Hq (conj Hp Hth)))))) as Hst.
      rewrite insert_id in Hst by apply Hok. by destruct k.
    + eapply wp_eq; [by apply (mutex_take_busy run_cleanup k m x th)|].
      unfold mutex_view. ksimpl. rewrite (mx_lookup _ _ _ Hok).
      split_and!; [done|done|by apply (kernel_inv_error k _ th)|]. exists x.
      destruct Hok. constructor; try done. ksimpl. intros _. split_and!; try done; try lia.
      destruct Hth as (oth & Hoth & ?). exists oth. by rewrite lookup_insert_ne.
Qed.

(** The mutex is untouched and one thread's error code has changed. *)
Lemma mutex_ok_error e :
  mutex_ok (k <| threads := <[rt_current_thread k := th <| error := e |>]> (threads k) |>) m x.
Proof.
  destruct Hok. constructor; try done. ksimpl. intros Ho.
  destruct (mx_held0 Ho) as (? & ? & ? & ? & oth & Hoth & Hl). split_and!; try done; try lia.
  destruct (decide (owner x = rt_current_thread k)) as [->|Hne].
  - rewrite lookup_insert_eq. eexists; split; [done|]. by apply (running_live k th).
  - rewrite lookup_insert_ne by done. by exists oth.
Qed.

(** C8: [rt_mutex_release] is the abstract lock's release: only the owner
    may release, nested releases count down, the last one frees the mutex or
    hands it to the first waiter, which becomes runnable, and gives the
    caller back the priority it had when it took the mutex. *)
Theorem mutex_release_refines :
  wp (rt_mutex_release run_cleanup m) k (λ r k',
    let '(a', r') := amutex_release (rt_current_thread k) (mkAmutex (owner x) (hold x) (queue k (QSuspend m))) in
    mutex_view k' m = Some a' ∧ r = r' ∧ kernel_inv k' ∧ (∃ x', mutex_ok k' m x') ∧
    (owner x = rt_current_thread k → hold x = 1 →
      (∃ th', threads k' !! rt_current_thread k = Some th' ∧ current_priority th' = original_priority x) ∧
      ∀ t l, queue k (QSuspend m) = t :: l →
        ∃ th', threads k' !! t = Some th' ∧ stat_class th' = RT_THREAD_READY)).
Proof.
  pose proof Hr as [Ht Hs]. pose proof (live_not_null _ _ _ H Ht) as Hn.
  unfold amutex_release; simpl. case_decide as Ho.
  { eapply wp_eq; [by apply (mutex_release_other run_cleanup k m x th)|].
    unfold mutex_view. ksimpl. rewrite (mx_lookup _ _ _ Hok).
    split_and!; [done|done|by apply (kernel_inv_error k _ th)| |by intros].
    exists x. apply mutex_ok_error. }
  assert (owner x = rt_current_thread k) as Ho' by (destruct (decide (owner x = rt_current_thread k)); tauto).
  destruct (mx_held _ _ _ Hok) as (Hv & Hh & Hq & Hp & Hth); [congruence|]. case_decide as Hnest1.
  { eapply wp_eq; [by apply (mutex_release_nested run_cleanup k m x th)|].
    unfold mutex_view. ksimpl. rewrite lookup_insert_eq. simpl. rewrite Ho'.
    split_and!; [done|done|by apply kernel_inv_mutexes| |lia].
    eexists. destruct Hok. constructor; [apply lookup_insert_eq|..]; simpl; try done.
    intros _. split_and!; try done; try lia; by rewrite <-Ho. }
  assert (hold x = 1) as Hone by lia. destruct (queue k (QSuspend m)) as [|t l] eqn:Hqs.
  - eapply wp_mono; [by apply (mutex_release_frees run_cleanup k m x th)|].
    intros r k' (-> & H' & Hc' & Hok' & Hth'). unfold mutex_view. rewrite (mx_lookup _ _ _ Hok'). simpl.
    destruct (mx_free _ _ _ Hok' eq_refl) as (_ & _ & ->).
    split_and!; [done|done|done|by eexists|]. intros _ _. by split.
  - destruct (waiter_thread k (QSuspend m) t l H) as (wth & Hwth & _); [done|done|].
    eapply wp_mono; [by apply (mutex_release_passes run_cleanup k m x th H Hr Hnest Hok Ho' Hone t l wth)|].
    intros r k' (-> & H' & Hc' & Hq' & Hok' & (th' & Ht' & Hs' & _) & Hth').
    unfold mutex_view. rewrite (mx_lookup _ _ _ Hok'). simpl. rewrite Hq'.
    split_and!; [done|done|done|by eexists|]. intros _ _. split; [done|]. intros ? ? [= <- <-]. by exists th'.
Qed.
End Refinement.

(** ** Concrete instances *)
Definition a_mutex (o held : Z) : rt_mutex :=
  mkMutex (an_object RT_Object_Class_Mutex RT_IPC_FLAG_PRIO) (if decide (held = 0) then 1 else 0) 10 held o.
Definition mutex_scene (o held : Z) (q : qid) : kernel := scene_with q ∅ {[O_mutex := a_mutex o held]} ∅ ∅ ∅.
Definition no_cleanup : Z → addr → M kernel unit := λ _ _, mret tt.

Lemma mutex_try_refines_witness :
  wp (rt_mutex_take no_cleanup O_mutex 0) (mutex_scene T_run 255 (QSuspend 1)) (λ r k',
    mutex_view k' O_mutex = Some (mkAmutex T_run 255 []) ∧ r = Return (- RT_EFULL) ∧ kernel_inv k' ∧
    ∃ x', mutex_ok k' O_mutex x').
Proof.
  apply (mutex_try_refines no_cleanup (mutex_scene T_run 255 (QSuspend 1)) O_mutex (a_mutex T_run 255)
    (a_thread RT_THREAD_RUNNING 10 RT_EOK)); [by_check|done|done|].
  constructor; [done|done|done|by right|done|]. intros _. split_and!; try done.
  - by apply not_elem_of_nil.
  - eexists; split; [done|by right; right].
Defined.
Lemma mutex_release_refines_witness :
  wp (rt_mutex_release no_cleanup O_mutex) (mutex_scene T_run 1 (QSuspend O_mutex)) (λ r k',
    mutex_view k' O_mutex = Some (mkAmutex T_wait 1 []) ∧ r = RT_EOK).
Proof.
  eapply wp_mono; [apply (mutex_release_refines no_cleanup (mutex_scene T_run 1 (QSuspend O_mutex)) O_mutex
    (a_mutex T_run 1) (a_thread RT_THREAD_RUNNING 10 RT_EOK)); [by_check|done|done|]|].
  - constructor; [done|done|done|by right|done|]. intros _. split_and!; try done.
    + by intros ?%list_elem_of_singleton.
    + eexists; split; [done|by right; right].
  - intros r k' (? & ? & _). done.
Defined.
Lemma mutex_take_inherits_witness :
  wp (rt_mutex_take no_cleanup O_mutex 50) (mutex_scene T_idle 1 (QSuspend 1)) (λ r k', r = Park T_run ∧
    mutex_waits (mutex_scene T_idle 1 (QSuspend 1)) O_mutex (a_mutex T_idle 1)
      (a_thread RT_THREAD_RUNNING 10 RT_EOK) (a_thread RT_THREAD_READY 31 RT_EOK) k').
Proof.
  apply (mutex_take_inherits no_cleanup); [by_check|done|done| |done|done|done|done|done].
  constructor; [done|done|done|by right|done|]. intros _. split_and!; try done.
  - by apply not_elem_of_nil.
  - eexists; split; [done|by left].
Defined.

(** ** Priorities that are not given back as they should be *)

(** Concrete runs of what the code does.  A thread that inherited its priority from a waiter that has
    timed out gives it back when it releases the mutex, but nothing is rescheduled: it keeps the
    processor against a ready thread that outranks it. *)
Definition inherited_scene : kernel :=
  scene_with (QSuspend 1) ∅ {[O_mutex := (a_mutex T_run 1) <| original_priority := 20 |>]} ∅ ∅ ∅.
Lemma mutex_release_outranked :
  foremost inherited_scene ∧
  match rt_mutex_release no_cleanup O_mutex inherited_scene with
  | Ok (r, k') => r = RT_EOK ∧ bool_decide (foremost k') = false
  | Err _ => False
  end.
Proof. split; [by_evaluation|vm_compute; by split]. Qed.

(** The priority to go back to is kept with the mutex: a thread of priority 20 that
    runs with an inherited 10 takes a second mutex and keeps the 10 when it has
    released both. *)
Definition O_mutex2 : addr := 0x20001500.
Definition two_mutexes : kernel :=
  scene_with (QSuspend 1) ∅ (list_to_map [(O_mutex, (a_mutex T_run 1) <| original_priority := 20 |>); (O_mutex2, a_mutex RT_NULL 0)]) ∅ ∅ ∅.
Lemma mutex_priority_kept :
  match (rt_mutex_take no_cleanup O_mutex2 0;; rt_mutex_release no_cleanup O_mutex;; k ← gets id;
         rt_mutex_release no_cleanup O_mutex2;; mret k) two_mutexes with
  | Ok (k, k') => fmap current_priority (threads k !! T_run) = Some 20 ∧ fmap current_priority (threads k' !! T_run) = Some 10
  | Err _ => False
  end.
Proof. vm_compute. by split. Qed.
