(* ===== verification/Event.v ===== *)
(** * Events ([src/ipc.c], lines 967-1348)

    A 32-bit event set; a receiver waits for all (AND) or any (OR) of its
    bits and may clear what it received. *)
From S2P Require Import Prelude Kernel Scheduler Object Timer Thread Ipc Decide Scenario.

(** ** Operations *)
Definition get_event (e : addr) : M kernel rt_event :=
  x ← gets (λ k, events k !! e); of_option FBadPointer x.
Definition put_event (e : addr) (x : rt_event) : M kernel unit :=
  modify (λ k, k <| events := <[e := x]> (events k) |>).
Definition assert_event (e : addr) : M kernel unit :=
  RT_ASSERT (e ≠ RT_NULL);;
  x ← get_event e;
  RT_ASSERT (rt_object_get_type (event_parent x) = RT_Object_Class_Event).

Definition rt_event_init (e : addr) (name : list Z) (flag : Z) : M kernel Z :=
  RT_ASSERT (e ≠ RT_NULL);;
  rt_object_init (Obj e) RT_Object_Class_Event name;;
  x ← get_event e;
  rt_list_init_head (QSuspend e);;
  put_event e (mkEvent ((event_parent x) <| obj_flag := u8 flag |>) 0);;
  mret RT_EOK.

Definition rt_event_detach (e : addr) : M kernel Z :=
  assert_event e;;
  x ← get_event e;
  RT_ASSERT (rt_object_is_systemobject (event_parent x) = true);;
  rt_ipc_list_resume_all (QSuspend e);;
  rt_object_detach RT_Object_Class_Event (Obj e);;
  mret RT_EOK.

Definition has_opt (opt bit : Z) : bool := bool_decide (Z.land opt bit ≠ 0).

(** The receiver's condition on the event set. *)
Definition wants (opt want set : Z) : bool :=
  if has_opt opt RT_EVENT_FLAG_AND then bool_decide (Z.land want set = want)
  else bool_decide (Z.land want set ≠ 0).
Definition valid_option (opt : Z) : bool :=
  has_opt opt RT_EVENT_FLAG_AND || has_opt opt RT_EVENT_FLAG_OR.
(** What a waiting receiver gets: all it asked for, or the OR part of it. *)
Definition receives (opt want set : Z) : Z :=
  if has_opt opt RT_EVENT_FLAG_AND then want else Z.land want set.

Definition with_event_set (set : Z) (th : rt_thread) : rt_thread := th <| event_set := set |>.
Definition with_event (set opt : Z) (th : rt_thread) : rt_thread :=
  th <| event_set := set |> <| event_info := opt |>.
Definition clear_events (set : Z) (x : rt_event) : rt_event :=
  x <| evset := Z.land (evset x) (notU 32 set) |>.

(** The walk over the wait list; [n = n->next] is read before the thread is
    resumed, so it visits the list as it was at the start.  [None] is the
    early return of [-RT_EINVAL]. *)
Fixpoint event_send_loop (e : addr) (l : list addr) (need_schedule : bool) : M kernel (option bool) :=
  match l with
  | [] => mret (Some need_schedule)
  | thread :: l =>
      th ← get_thread thread;
      x ← get_event e;
      if valid_option (event_info th) then
        if wants (event_info th) (event_set th) (evset x) then
          put_thread thread (with_event_set (receives (event_info th) (event_set th) (evset x)) th);;
          (if has_opt (event_info th) RT_EVENT_FLAG_CLEAR then
             put_event e (clear_events (receives (event_info th) (event_set th) (evset x)) x)
           else mret tt);;
          rt_thread_resume thread;;
          event_send_loop e l true
        else event_send_loop e l need_schedule
      else mret None
  end.

Definition rt_event_send (e : addr) (set : Z) : M kernel Z :=
  assert_event e;;
  if decide (set = 0) then mret (- RT_ERROR)
  else
    level ← rt_hw_interrupt_disable;
    x ← get_event e;
    put_event e (x <| evset := Z.lor (evset x) set |>);;
    k ← gets id;
    res ← event_send_loop e (queue k (QSuspend e)) false;
    match res with
    | None =>
        rt_hw_interrupt_enable level;;
        mret (- RT_EINVAL)
    | Some need_schedule =>
        rt_hw_interrupt_enable level;;
        when (need_schedule = true) rt_schedule;;
        mret RT_EOK
    end.

(** [rt_event_recv] up to its [rt_schedule()]; the second component of the
    result is what is stored through [recved], if anything. *)
Definition rt_event_recv (e : addr) (set opt timeout : Z) : M kernel (call (Z * option Z) addr) :=
  RT_DEBUG_IN_THREAD_CONTEXT;;
  assert_event e;;
  if decide (set = 0) then mret (Return (- RT_ERROR, None))
  else
    thread ← rt_thread_self;
    upd_thread thread no_error;;
    level ← rt_hw_interrupt_disable;
    x ← get_event e;
    RT_ASSERT (valid_option opt = true);;
    if wants opt set (evset x) then
      upd_thread thread (with_event (Z.land (evset x) set) opt);;
      (if has_opt opt RT_EVENT_FLAG_CLEAR then put_event e (clear_events set x) else mret tt);;
      rt_hw_interrupt_enable level;;
      th ← get_thread thread;
      mret (Return (error th, Some (Z.land (evset x) set)))
    else if decide (timeout = 0) then
      upd_thread thread timeout_error;;
      rt_hw_interrupt_enable level;;
      mret (Return (- RT_ETIMEOUT, None))
    else
      upd_thread thread (with_event set opt);;
      wait_on (QSuspend e) thread (obj_flag (event_parent x)) timeout level;;
      mret (Park thread).
Definition rt_event_recv_resume (thread : addr) : M kernel (Z * option Z) :=
  th ← get_thread thread;
  if decide (error th ≠ RT_EOK) then mret (error th, None)
  else
    level ← rt_hw_interrupt_disable;
    th ← get_thread thread;
    rt_hw_interrupt_enable level;;
    mret (error th, Some (event_set th)).

Definition rt_event_control (e cmd arg : Z) : M kernel Z :=
  assert_event e;;
  if decide (cmd = RT_IPC_CMD_RESET) then
    level ← rt_hw_interrupt_disable;
    rt_ipc_list_resume_all (QSuspend e);;
    x ← get_event e;
    put_event e (x <| evset := 0 |>);;
    rt_hw_interrupt_enable level;;
    rt_schedule;;
    mret RT_EOK
  else mret (- RT_ERROR).

(** ** Specification of a send

    The waiters in list order: each sees the set left by those before it. *)
Fixpoint event_scan (ths : gmap addr rt_thread) (set : Z) (l : list addr)
  : Z * list addr * list (addr * Z) :=
  match l with
  | [] => (set, [], [])
  | t :: l =>
      match ths !! t with
      | None => (set, [], [])
      | Some th =>
          if wants (event_info th) (event_set th) set then
            let got := receives (event_info th) (event_set th) set in
            let set' := if has_opt (event_info th) RT_EVENT_FLAG_CLEAR
                        then Z.land set (notU 32 got) else set in
            let '(s, rest, woken) := event_scan ths set' l in (s, rest, (t, got) :: woken)
          else
            let '(s, rest, woken) := event_scan ths set l in (s, t :: rest, woken)
      end
  end.

Record event_ok (k : kernel) (e : addr) (x : rt_event) : Prop := {
  eo_lookup : events k !! e = Some x;
  eo_null : e ≠ RT_NULL;
  eo_type : rt_object_get_type (event_parent x) = RT_Object_Class_Event;
  eo_flag : obj_flag (event_parent x) = RT_IPC_FLAG_FIFO ∨ obj_flag (event_parent x) = RT_IPC_FLAG_PRIO;
  (** no waiter's condition holds: nobody sleeps through its event *)
  eo_waiters : ∀ t th, t ∈ queue k (QSuspend e) → threads k !! t = Some th →
    valid_option (event_info th) = true ∧
    wants (event_info th) (event_set th) (evset x) = false
}.

Lemma event_scan_ext ths ths' set l :
  (∀ t, t ∈ l → ths !! t = ths' !! t) → event_scan ths set l = event_scan ths' set l.
Proof.
  revert set. induction l as [|t l IH]; intros set Hl; simpl; [done|].
  rewrite <-(Hl t) by left. destruct (ths !! t) as [th|]; [|done].
  assert (∀ set, event_scan ths set l = event_scan ths' set l) as E.
  { intros s. apply IH. intros. apply Hl. by right. }
  by destruct (wants _ _ _); rewrite !E.
Qed.

(** Conditions are monotone: clearing bits never satisfies a waiter. *)
Lemma wants_mono opt want set set' :
  Z.land set set' = set' → wants opt want set = false → wants opt want set' = false.
Proof.
  intros Hsub. unfold wants. destruct (has_opt _ _); rewrite !bool_decide_eq_false; intros Hn He; apply Hn.
  - rewrite <-He at 1. rewrite <-Z.land_assoc, (Z.land_comm set'), Hsub. done.
  - intros E. apply He. by rewrite <-Hsub, Z.land_assoc, E, Z.land_0_l.
Qed.

Lemma land_sub set m : Z.land set (Z.land set m) = Z.land set m.
Proof. by rewrite Z.land_assoc, Z.land_diag. Qed.
Lemma land_sub_trans a b c : Z.land a b = b → Z.land b c = c → Z.land a c = c.
Proof. intros H1 H2. by rewrite <-H2, Z.land_assoc, H1. Qed.

Lemma event_scan_sub ths set l : Z.land set (event_scan ths set l).1.1 = (event_scan ths set l).1.1.
Proof.
  revert set. induction l as [|t l IH]; intros set; simpl; [apply Z.land_diag|].
  destruct (ths !! t) as [th|]; [|apply Z.land_diag]. destruct (wants _ _ _).
  - destruct (has_opt _ _).
    + specialize (IH (Z.land set (notU 32 (receives (event_info th) (event_set th) set)))).
      destruct (event_scan ths _ l) as [[s rest] w]. simpl in *.
      eapply land_sub_trans; [apply land_sub|exact IH].
    + specialize (IH set). by destruct (event_scan ths set l) as [[s rest] w].
  - specialize (IH set). by destruct (event_scan ths set l) as [[s rest] w].
Qed.

(** Who still waits after a send is not satisfied by what is left of the set. *)
Lemma event_scan_rest ths set l t th :
  (∀ t, t ∈ l → is_Some (ths !! t)) → t ∈ (event_scan ths set l).1.2 → ths !! t = Some th →
  t ∈ l ∧ wants (event_info th) (event_set th) (event_scan ths set l).1.1 = false.
Proof.
  revert set. induction l as [|t1 l IH]; intros set Hl; simpl; [by intros ?%not_elem_of_nil|].
  destruct (Hl t1) as [th1 Ht1]; [by left|]. rewrite Ht1.
  assert (∀ t, t ∈ l → is_Some (ths !! t)) as Hl' by (intros; apply Hl; by right).
  destruct (wants (event_info th1) _ _) eqn:Hw.
  - set (set' := if has_opt _ _ then _ else _). specialize (IH set' Hl').
    destruct (event_scan ths set' l) as [[s rest] w]. simpl in *. intros Hin Ht.
    destruct (IH Hin Ht). split; [by right|done].
  - specialize (IH set Hl'). pose proof (event_scan_sub ths set l) as Hsub.
    destruct (event_scan ths set l) as [[s rest] w]. simpl in *.
    intros [->|Hin]%elem_of_cons Ht.
    + split; [by left|]. assert (th1 = th) as -> by congruence. by eapply wants_mono.
    + destruct (IH Hin Ht). split; [by right|done].
Qed.

(** ** The send loop implements the specification *)
Definition with_evset (s : Z) (x : rt_event) : rt_event := x <| evset := s |>.

Record event_sent (e : addr) (x : rt_event) (p : list addr) (s : Z) (rest : list addr)
    (woken : list (addr * Z)) (k k' : kernel) : Prop := {
  es_inv : kernel_inv k';
  es_cur : current_ok k';
  es_queue : queue k' (QSuspend e) = p ++ rest;
  es_event : events k' !! e = Some (with_evset s x);
  es_nest : rt_interrupt_nest k' = rt_interrupt_nest k;
  es_others : ∀ q', ¬ ready_list q' → q' ≠ QSuspend e → queue k' q' = queue k q';
  es_woken : ∀ t got, (t, got) ∈ woken → ∃ th th', threads k !! t = Some th ∧
    threads k' !! t = Some th' ∧ stat_class th' = RT_THREAD_READY ∧ event_set th' = got ∧
    error th' = error th;
  es_rest : ∀ t, t ∉ woken.*1 → threads k' !! t = threads k !! t
}.

Lemma wp_get_event e x k (Q : rt_event → kernel → Prop) :
  events k !! e = Some x → Q x k → wp (get_event e) k Q.
Proof. intros. unfold get_event. by ksteps. Qed.

(** Resuming a satisfied waiter in the middle of the list. *)
Section Satisfied.
Context (k : kernel) (e : addr) (x x' : rt_event) (p l : list addr) (t : addr)
  (th : rt_thread) (got : Z).
Context (H : kernel_inv k) (Hc : current_ok k) (Hq : queue k (QSuspend e) = p ++ t :: l)
  (Ht : threads k !! t = Some th).
Let th1 := with_event_set got th.
Let k1 := k <| threads := <[t := th1]> (threads k) |> <| events := <[e := x']> (events k) |>.

Lemma satisfied_suspended : stat_of th = RT_THREAD_SUSPEND.
Proof.
  destruct (si_waiting _ _ _ _ _ (ki_sched _ H) t (QSuspend e)) as (th' & ? & ?); [done| |congruence].
  fold (queue k (QSuspend e)). rewrite Hq. apply elem_of_app. right. left.
Qed.
Lemma satisfied_inv : kernel_inv k1.
Proof.
  eapply kernel_inv_ext; [eapply (kernel_inv_thread k t th th1); [done|done|done|done|by intros []]|done..].
Qed.
Lemma satisfied_nodup : t ∉ p ++ l.
Proof.
  pose proof (si_nodup _ _ _ _ _ (ki_sched _ H) (QSuspend e)) as Hn.
  fold (queue k (QSuspend e)) in Hn. rewrite Hq in Hn.
  rewrite <-Permutation_middle in Hn. by apply NoDup_cons in Hn as [? _].
Qed.

Lemma satisfied_resume tm :
  timers k1 !! ThreadTimer t = Some tm →
  let k2 := resumed t th1 tm k1 in
  kernel_inv k2 ∧ current_ok k2 ∧ queue k2 (QSuspend e) = p ++ l ∧
  events k2 !! e = Some x' ∧ rt_interrupt_nest k2 = rt_interrupt_nest k ∧
  (∀ q', ¬ ready_list q' → q' ≠ QSuspend e → queue k2 q' = queue k q') ∧
  (∃ th', threads k2 = <[t := th']> (threads k) ∧ stat_class th' = RT_THREAD_READY ∧
     event_set th' = got ∧ error th' = error th).
Proof.
  intros Htm k2. pose proof satisfied_inv as H1. pose proof satisfied_suspended as Hs.
  pose proof satisfied_nodup as Hn.
  assert (threads k1 !! t = Some th1) as Ht1 by apply lookup_insert_eq.
  destruct (objs_fields _ _ (objs_resumed t th1 tm k1)) as (_ & _ & Ee & _ & _ & _ & _ & _ & En & _).
  split_and!.
  - by apply resumed_inv.
  - apply current_ok_resumed. by apply (current_ok_thread k t th th1).
  - unfold k2. rewrite resumed_queue by by intros [].
    change (queue k1 (QSuspend e)) with (queue k (QSuspend e)). rewrite Hq.
    rewrite filter_app, filter_cons_False by naive_solver.
    by rewrite <-filter_app, list_filter_ne_id.
  - unfold k2. rewrite Ee. apply lookup_insert_eq.
  - exact En.
  - intros q' Hr Hne. unfold k2. rewrite resumed_queue by done. change (queue k1 q') with (queue k q').
    apply list_filter_ne_id. intros Hin. apply Hne.
    eapply (si_disjoint _ _ _ _ _ (ki_sched _ H)); [exact Hin|].
    fold (queue k (QSuspend e)). rewrite Hq. apply elem_of_app. right. left.
  - eexists. split; [unfold k2; rewrite resumed_threads; unfold k1; ksimpl; by rewrite insert_insert_eq|].
    split; [apply class_inserted|done].
Qed.
End Satisfied.

Lemma event_scan_woken ths set l t : t ∈ (event_scan ths set l).2.*1 → t ∈ l.
Proof.
  revert set. induction l as [|t1 l IH]; intros set; simpl; [done|].
  destruct (ths !! t1) as [th1|]; [|simpl; by intros ?%not_elem_of_nil].
  destruct (wants _ _ _).
  - set (set' := if has_opt _ _ then _ else _). specialize (IH set').
    destruct (event_scan ths set' l) as [[s rest] w]. simpl in *.
    intros [->|Hin]%elem_of_cons; [by left|right; auto].
  - specialize (IH set). destruct (event_scan ths set l) as [[s rest] w]. simpl in *.
    intros Hin. right. auto.
Qed.

Lemma event_loop_spec e l : ∀ k p x need,
  kernel_inv k → current_ok k → events k !! e = Some x → queue k (QSuspend e) = p ++ l →
  (∀ t th, t ∈ l → threads k !! t = Some th → valid_option (event_info th) = true) →
  let r := event_scan (threads k) (evset x) l in
  wp (event_send_loop e l need) k (λ res k',
    res = Some (need || negb (bool_decide (r.2 = []))) ∧
    event_sent e x p r.1.1 r.1.2 r.2 k k').
Proof.
  induction l as [|t l IH]; intros k p x need H Hc He Hq Hval; simpl.
  { ksteps. rewrite orb_false_r. split; [done|]. constructor; try done.
    - by destruct x.
    - by intros ? ? ?%not_elem_of_nil. }
  destruct (si_waiting _ _ _ _ _ (ki_sched _ H) t (QSuspend e)) as (th & Ht & Hs); [done| |].
  { fold (queue k (QSuspend e)). rewrite Hq. apply elem_of_app. right. left. }
  rewrite Ht. ksteps. eapply wp_get_event; [done|]. rewrite (Hval t th) by (done || left).
  assert (t ∉ p ++ l) as Hnot by by eapply satisfied_nodup.
  assert (∀ t' th', t' ∈ l → threads k !! t' = Some th' → valid_option (event_info th') = true) as Hval'.
  { intros t' th' Hin. apply Hval. by right. }
  destruct (wants (event_info th) (event_set th) (evset x)) eqn:Hw.
  - set (got := receives (event_info th) (event_set th) (evset x)).
    set (x' := if has_opt (event_info th) RT_EVENT_FLAG_CLEAR then clear_events got x else x).
    set (k1 := k <| threads := <[t := with_event_set got th]> (threads k) |>
                 <| events := <[e := x']> (events k) |>).
    assert (∀ Q, wp (rt_thread_resume t;; event_send_loop e l true) k1 Q →
      wp (put_thread t (with_event_set got th);;
          (if has_opt (event_info th) RT_EVENT_FLAG_CLEAR then put_event e (clear_events got x)
           else mret tt);;
          rt_thread_resume t;; event_send_loop e l true) k Q) as Hstep.
    { intros Q HQ. apply wp_bind, wp_put_thread, wp_bind. unfold x' in HQ, k1.
      destruct (has_opt _ _); [exact HQ|]. apply wp_ret.
      assert (k1 = k <| threads := <[t := with_event_set got th]> (threads k) |>) as <-; [|done].
      unfold k1. rewrite insert_id by done. by destruct k. }
    apply Hstep. clear Hstep.
    assert (kernel_inv k1) as H1 by by apply satisfied_inv.
    assert (threads k1 !! t = Some (with_event_set got th)) as Ht1 by apply lookup_insert_eq.
    destruct (resume_eq t _ k1 H1 Ht1 Hs) as (tm & Htm & _ & Heq).
    destruct (satisfied_resume k e x' p l t th got H Hc Hq Ht tm Htm)
      as (H2 & Hc2 & Hq2 & He2 & Hn2 & Ho2 & th2 & Et2 & Hcl2 & Hg2 & Her2).
    fold k1 in H2, Hc2, Hq2, He2, Hn2, Ho2, Et2. ksteps. eapply wp_eq; [exact Heq|].
    set (k2 := resumed t (with_event_set got th) tm k1) in *.
    assert (∀ t', t' ∈ l → threads k2 !! t' = threads k !! t') as Hsame.
    { intros t' Hin. rewrite Et2, lookup_insert_ne; [done|]. intros ->. apply Hnot.
      apply elem_of_app. by right. }
    assert (evset x' = if has_opt (event_info th) RT_EVENT_FLAG_CLEAR
              then Z.land (evset x) (notU 32 got) else evset x) as Ex by (unfold x'; by case_match).
    eapply wp_mono; [apply (IH k2 p x' true H2 Hc2 He2 Hq2)|].
    { intros t' th' Hin Ht'. apply (Hval' t' th' Hin). by rewrite <-Hsame. }
    rewrite (event_scan_ext (threads k2) (threads k)) by done. rewrite Ex.
    match goal with |- context [event_scan (threads k) ?set l] =>
      pose proof (event_scan_woken (threads k) set l) as Hsub;
      destruct (event_scan (threads k) set l) as [[s rest] woken]; simpl in Hsub |- * end.
    intros res k' [-> Hsent]. split; [by rewrite orb_true_r|].
    constructor; try apply Hsent.
    + rewrite (es_event _ _ _ _ _ _ _ _ Hsent). f_equal. unfold x', with_evset, clear_events.
      by destruct (has_opt _ _).
    + rewrite (es_nest _ _ _ _ _ _ _ _ Hsent). exact Hn2.
    + intros q' Hr Hne. rewrite (es_others _ _ _ _ _ _ _ _ Hsent) by done. by apply Ho2.
    + intros t' got' [[= -> ->]|Hin]%elem_of_cons.
      * exists th, th2. split; [done|]. rewrite (es_rest _ _ _ _ _ _ _ _ Hsent), Et2, lookup_insert_eq; [done|].
        intros Hin. apply Hnot, elem_of_app. right. by apply Hsub.
      * destruct (es_woken _ _ _ _ _ _ _ _ Hsent _ _ Hin) as (tha & th' & Hta & ? & ? & ? & ?).
        exists tha, th'. split; [|done]. rewrite <-Hsame; [done|]. apply Hsub.
        by apply (list_elem_of_fmap_2 fst _ (t', got')).
    + simpl. intros t' [Hne Hin]%not_elem_of_cons.
      by rewrite (es_rest _ _ _ _ _ _ _ _ Hsent), Et2, lookup_insert_ne by done.
  - rewrite (cons_middle t p l) in Hq. rewrite app_assoc in Hq.
    eapply wp_mono; [apply (IH k (p ++ [t]) x need H Hc He Hq Hval')|].
    destruct (event_scan (threads k) (evset x) l) as [[s rest] woken]. simpl.
    intros res k' [-> Hsent]. split; [done|]. destruct Hsent. constructor; try done.
    by rewrite es_queue0, <-app_assoc.
Qed.

Lemma assert_event_ok e x k (Q : unit → kernel → Prop) :
  event_ok k e x → Q tt k → wp (assert_event e) k Q.
Proof.
  intros [He Hn Ht _ _] HQ. unfold assert_event. ksteps. eapply wp_get_event; [done|]. by ksteps.
Qed.

Lemma kernel_inv_events k es : kernel_inv k → kernel_inv (k <| events := es |>).
Proof. intros H. by eapply kernel_inv_ext; [exact H|..]. Qed.

Lemma core_event th th' :
  thread_core th' = thread_core th → event_info th' = event_info th ∧ event_set th' = event_set th.
Proof.
  intros Hc. split; [by apply (f_equal event_info) in Hc|by apply (f_equal event_set) in Hc].
Qed.

(** What a send leaves behind, seen after the reschedule that may follow. *)
Record event_delivered (k : kernel) (e : addr) (x : rt_event) (r : Z * list addr * list (addr * Z))
    (k' : kernel) : Prop := {
  ed_inv : kernel_inv k';
  ed_cur : current_ok k';
  ed_ok : event_ok k' e (with_evset r.1.1 x);
  ed_queue : queue k' (QSuspend e) = r.1.2;
  ed_woken : ∀ t got, (t, got) ∈ r.2 → ∃ th', threads k' !! t = Some th' ∧
    stat_class th' = RT_THREAD_READY ∧ event_set th' = got
}.

Lemma event_sent_woken e x s rest woken k k' t :
  event_sent e x [] s rest woken k k' → t ∈ rest → t ∉ woken.*1.
Proof.
  intros Hsent Hin Hw. apply list_elem_of_fmap in Hw as [[t1 got] [-> Hw]].
  destruct (es_woken _ _ _ _ _ _ _ _ Hsent _ _ Hw) as (? & tha & _ & Hta & Hcl & _).
  destruct (si_waiting _ _ _ _ _ (ki_sched _ (es_inv _ _ _ _ _ _ _ _ Hsent)) t1 (QSuspend e))
    as (thb & Htb & Hsb); [done| |].
  { fold (queue k' (QSuspend e)). by rewrite (es_queue _ _ _ _ _ _ _ _ Hsent). }
  assert (thb = tha) as -> by congruence. unfold stat_class in Hcl. by rewrite Hsb in Hcl.
Qed.

Lemma event_delivered_intro k e x set k1 k2 k' x1 :
  kernel_inv k → event_ok k e x → threads k1 = threads k → event_parent x1 = event_parent x →
  let r := event_scan (threads k) set (queue k (QSuspend e)) in
  event_sent e x1 [] r.1.1 r.1.2 r.2 k1 k2 → sched_frame k2 k' → kernel_inv k' → current_ok k' →
  event_delivered k e x r k'.
Proof.
  intros H Hok Et Ep r Hsent Hf H' Hc'.
  assert (∀ t, t ∈ queue k (QSuspend e) → is_Some (threads k !! t)) as Hsome.
  { intros t Hin. destruct (si_waiting _ _ _ _ _ (ki_sched _ H) t (QSuspend e)) as (th & ? & _);
      [done|done|eauto]. }
  assert (queue k' (QSuspend e) = r.1.2) as Hq'.
  { unfold queue. rewrite (fr_queues _ _ Hf) by by intros []. apply (es_queue _ _ _ _ _ _ _ _ Hsent). }
  destruct (frame_fields _ _ Hf) as (_ & _ & _ & _ & _ & Ee & _).
  constructor; [done|done| |done|].
  - destruct Hok as [? ? ? ? Hwait]. constructor; try done.
    + rewrite Ee, (es_event _ _ _ _ _ _ _ _ Hsent). unfold with_evset. simpl. by rewrite Ep.
    + rewrite Hq'. intros t th' Hin Ht'.
      destruct (frame_thread_back _ _ _ _ Hf Ht') as (th2 & Ht2 & Hcore).
      destruct (core_event _ _ Hcore) as [-> ->].
      rewrite (es_rest _ _ _ _ _ _ _ _ Hsent), Et in Ht2 by by eapply event_sent_woken.
      destruct (event_scan_rest (threads k) set _ t th2 Hsome Hin Ht2) as [Hinq Hw].
      split; [by eapply Hwait|done].
  - intros t got Hin. destruct (es_woken _ _ _ _ _ _ _ _ Hsent _ _ Hin)
      as (? & th2 & _ & Ht2 & Hcl & Hg & _).
    destruct (frame_thread _ _ t th2 Hf Ht2) as (th' & Ht' & Hcore).
    exists th'. split; [done|]. rewrite (core_class _ _ Hcore).
    by rewrite (proj2 (core_event _ _ Hcore)).
Qed.

(** C29: sending wakes exactly the waiters whose condition holds, in list order,
    hands each what it received, clears what they consume, and leaves nobody
    waiting for something that is set. *)
Theorem event_send_spec k e x set :
  kernel_inv k → current_ok k → event_ok k e x → set ≠ 0 →
  wp (rt_event_send e set) k (λ res k', res = RT_EOK ∧
    event_delivered k e x
      (event_scan (threads k) (Z.lor (evset x) set) (queue k (QSuspend e))) k').
Proof.
  intros H Hc Hok Hset. unfold rt_event_send. ksteps. eapply assert_event_ok; [done|].
  rewrite decide_False by done. ksteps. eapply wp_get_event; [apply Hok|]. unfold put_event. ksteps.
  set (x1 := with_evset (Z.lor (evset x) set) x).
  set (k1 := k <| primask := 1 |> <| events := <[e := x1]> (events k) |>).
  assert (kernel_inv k1) as H1 by by eapply kernel_inv_ext; [exact H|..].
  eapply wp_mono; [apply (event_loop_spec e (queue k (QSuspend e)) k1 [] x1 false H1 Hc)|].
  { apply lookup_insert_eq. } { done. }
  { intros t th Hin Ht. by eapply (eo_waiters _ _ _ Hok). }
  intros res k2 [-> Hsent]. simpl.
  assert (kernel_inv (k2 <| primask := primask k |>)) as H2 by apply kernel_inv_primask, Hsent.
  assert (event_sent e x1 []
    (event_scan (threads k) (Z.lor (evset x) set) (queue k (QSuspend e))).1.1
    (event_scan (threads k) (Z.lor (evset x) set) (queue k (QSuspend e))).1.2
    (event_scan (threads k) (Z.lor (evset x) set) (queue k (QSuspend e))).2
    k1 (k2 <| primask := primask k |>)) as Hsent'.
  { destruct Hsent. by constructor. }
  ksteps. apply wp_when; intros Hneed.
  - eapply wp_mono; [apply schedule_keeps; [done|apply Hsent]|].
    intros ? k' [Hs H']. ksteps. split; [done|].
    by eapply event_delivered_intro; [..|exact Hsent'|apply Hs| |apply Hs].
  - ksteps. split; [done|]. by eapply event_delivered_intro; [..|exact Hsent'| | |apply Hsent].
Qed.

(** ** Receiving *)
Section Recv.
Context (k : kernel) (e : addr) (x : rt_event) (th : rt_thread) (set opt : Z).
Context (H : kernel_inv k) (Hr : running k th) (Hnest : rt_interrupt_nest k = 0)
  (Hok : event_ok k e x) (Hset : set ≠ 0) (Hopt : valid_option opt = true).
Let cur := rt_current_thread k.

(** The condition holds: no waiting, and CLEAR consumes the bits. *)
Lemma event_recv_now timeout :
  wants opt set (evset x) = true →
  rt_event_recv e set opt timeout k = Ok (Return (RT_EOK, Some (Z.land (evset x) set)),
    k <| threads := <[cur := with_event (Z.land (evset x) set) opt (no_error th)]> (threads k) |>
      <| events := if has_opt opt RT_EVENT_FLAG_CLEAR
                   then <[e := clear_events set x]> (events k) else events k |>).
Proof.
  intros Hw. pose proof Hr as [Ht _]. apply wp_exact. unfold rt_event_recv. ksteps.
  eapply thread_context; [done|done|done|]. ksteps. eapply assert_event_ok; [done|].
  rewrite decide_False by done. ksteps. eapply wp_get_event; [apply Hok|]. ksteps.
  rewrite Hw. ksteps. eapply wp_upd_thread; [apply lookup_insert_eq|]. ksteps.
  unfold put_event. destruct (has_opt opt RT_EVENT_FLAG_CLEAR); ksteps;
    (eapply wp_get_thread; [apply lookup_insert_eq|]); ksteps; ksimpl;
    rewrite insert_insert_eq; by destruct k.
Qed.

Lemma event_recv_timeout :
  wants opt set (evset x) = false →
  rt_event_recv e set opt 0 k = Ok (Return (- RT_ETIMEOUT, None),
    k <| threads := <[cur := timeout_error th]> (threads k) |>).
Proof.
  intros Hw. pose proof Hr as [Ht _]. apply wp_exact. unfold rt_event_recv. ksteps.
  eapply thread_context; [done|done|done|]. ksteps. eapply assert_event_ok; [done|].
  rewrite decide_False by done. ksteps. eapply wp_get_event; [apply Hok|]. ksteps.
  rewrite Hw. rewrite decide_True by done. ksteps. eapply wp_upd_thread; [apply lookup_insert_eq|].
  ksteps. ksimpl. rewrite insert_insert_eq. by destruct k.
Qed.

(** Otherwise the caller is parked with its condition recorded; the event
    stays well-formed because that condition does not hold. *)
Lemma event_recv_blocks timeout :
  wants opt set (evset x) = false → timeout ≠ 0 → timeout < RT_TICK_MAX / 2 →
  wp (rt_event_recv e set opt timeout) k (λ r k', r = Park cur ∧
    kernel_inv k' ∧ current_ok k' ∧ event_ok k' e x ∧
    ∃ th', threads k' !! cur = Some th' ∧ stat_of th' = RT_THREAD_SUSPEND ∧
      event_set th' = set ∧ event_info th' = opt ∧ error th' = RT_EOK ∧
      cur ∈ queue k' (QSuspend e)).
Proof.
  intros Hw Ht0 Ht1. pose proof Hr as [Ht Hs]. unfold rt_event_recv. ksteps.
  eapply thread_context; [done|done|done|]. ksteps. eapply assert_event_ok; [done|].
  rewrite decide_False by done. ksteps. eapply wp_get_event; [apply Hok|]. ksteps.
  rewrite Hw. rewrite decide_False by done. ksteps. eapply wp_upd_thread; [apply lookup_insert_eq|].
  ksteps. ksimpl. rewrite insert_insert_eq.
  set (th1 := with_event set opt (no_error th)).
  pose (k <| threads := <[cur := th1]> (threads k) |> <| primask := 1 |>) as k1.
  assert (kernel_inv k1) as H1.
  { apply (kernel_inv_primask _ 1). eapply (kernel_inv_thread k cur th th1); try done. by intros []. }
  assert (running k1 th1) as Hr1 by (split; [apply lookup_insert_eq|done]).
  eapply wp_mono; [apply (wait_on_spec k1 th1); [done|done|done|apply Hok|done]|].
  intros ? k' Hwa. ksteps. split; [done|]. split; [apply Hwa|]. split; [apply Hwa|].
  destruct (wa_thread _ _ _ _ _ _ _ Hwa) as (th' & Ht' & Hs' & Hcore).
  change (rt_current_thread k1) with cur in Ht'.
  destruct (core_event _ _ Hcore) as [Ei Es].
  destruct (wa_queue _ _ _ _ _ _ _ Hwa) as (l1 & l2 & Hl & Hl' & _).
  change (rt_current_thread k1) with cur in Hl'. change (queue k1 (QSuspend e)) with (queue k (QSuspend e)) in Hl.
  split.
  - destruct (objs_fields _ _ (wa_objs _ _ _ _ _ _ _ Hwa)) as (_ & _ & Ee & _).
    destruct Hok as [? ? ? ? Hwait]. constructor; try done; [by rewrite Ee|].
    intros t tth Hin Htt. destruct (decide (t = cur)) as [->|Hne].
    + assert (tth = th') as -> by congruence. rewrite Ei, Es. done.
    + assert (t ∈ queue k (QSuspend e)) as Hin0.
      { rewrite Hl. rewrite Hl', elem_of_app, elem_of_cons in Hin. rewrite elem_of_app. naive_solver. }
      destruct (si_waiting _ _ _ _ _ (ki_sched _ H) t (QSuspend e)) as (t0 & Ht0' & _); [done|done|].
      destruct (wa_threads _ _ _ _ _ _ _ Hwa t t0) as (t1 & Ht1' & Hc1); [done| |].
      { unfold k1. ksimpl. by rewrite lookup_insert_ne. }
      assert (tth = t1) as -> by congruence. destruct (core_event _ _ Hc1) as [-> ->].
      by eapply Hwait.
  - exists th'. split_and!; [done|done|by rewrite Es|by rewrite Ei|by apply (f_equal error) in Hcore|].
    rewrite Hl'. apply elem_of_app. right. left.
Qed.
End Recv.

(** Clearing bits keeps every waiter unsatisfied. *)
Lemma event_ok_received k e x th set opt got :
  kernel_inv k → running k th → event_ok k e x →
  event_ok (k <| threads := <[rt_current_thread k := with_event got opt (no_error th)]> (threads k) |>
              <| events := if has_opt opt RT_EVENT_FLAG_CLEAR
                           then <[e := clear_events set x]> (events k) else events k |>) e
    (if has_opt opt RT_EVENT_FLAG_CLEAR then clear_events set x else x).
Proof.
  intros H [Ht Hs] [Hl Hn Hty Hf Hwait].
  assert (∀ x', (x' = x ∨ x' = clear_events set x) → ∀ t tth, t ∈ queue k (QSuspend e) →
    <[rt_current_thread k := with_event got opt (no_error th)]> (threads k) !! t = Some tth →
    valid_option (event_info tth) = true ∧ wants (event_info tth) (event_set tth) (evset x') = false) as Hw.
  { intros x' Hx' t tth Hin Htt.
    destruct (si_waiting _ _ _ _ _ (ki_sched _ H) t (QSuspend e)) as (th0 & Ht0 & Hs0); [done|done|].
    rewrite lookup_insert_ne in Htt by (intros <-; assert (th0 = th) as -> by congruence; by rewrite Hs in Hs0).
    destruct (Hwait t tth Hin Htt) as [Hv Hno]. split; [done|].
    destruct Hx' as [-> | ->]; [done|]. eapply wants_mono; [apply land_sub|exact Hno]. }
  destruct (has_opt opt RT_EVENT_FLAG_CLEAR); constructor; try done; ksimpl.
  - apply lookup_insert_eq.
  - apply (Hw (clear_events set x)). by right.
  - apply (Hw x). by left.
Qed.

(** [rt_event_recv] by cases.  A condition that holds is answered at once
    with the requested bits that are set, which CLEAR consumes; otherwise the
    caller is refused when it will not wait, or parked with its condition on
    record; in every case no waiter's condition holds afterwards. *)
Theorem event_recv_spec k e x th set opt timeout :
  kernel_inv k → running k th → rt_interrupt_nest k = 0 → event_ok k e x → set ≠ 0 →
  valid_option opt = true → timeout < RT_TICK_MAX / 2 →
  wp (rt_event_recv e set opt timeout) k (λ r k', kernel_inv k' ∧
    if wants opt set (evset x) then
      r = Return (RT_EOK, Some (Z.land (evset x) set)) ∧
      event_ok k' e (if has_opt opt RT_EVENT_FLAG_CLEAR then clear_events set x else x)
    else event_ok k' e x ∧
      if decide (timeout = 0) then r = Return (- RT_ETIMEOUT, None)
      else r = Park (rt_current_thread k) ∧ rt_current_thread k ∈ queue k' (QSuspend e) ∧
        ∃ th', threads k' !! rt_current_thread k = Some th' ∧ stat_of th' = RT_THREAD_SUSPEND ∧
          event_set th' = set ∧ event_info th' = opt).
Proof.
  intros H Hr Hnest Hok Hset Hopt Htime. pose proof Hr as [Ht Hs].
  destruct (wants opt set (evset x)) eqn:Hw.
  - eapply wp_eq; [by apply (event_recv_now k e x th set opt H Hr Hnest Hok Hset Hopt timeout Hw)|].
    split; [|split; [done|by apply event_ok_received]].
    eapply kernel_inv_ext; [eapply (kernel_inv_thread k _ th (with_event _ opt (no_error th)));
      [exact H|exact Ht|done|done|by intros []]|done..].
  - destruct (decide (timeout = 0)) as [->|Hne].
    + eapply wp_eq; [by apply (event_recv_timeout k e x th set opt H Hr Hnest Hok Hset Hopt Hw)|].
      split; [by apply (kernel_inv_error k _ th)|]. split; [|done].
      destruct Hok as [? ? ? ? Hwait]. constructor; try done. ksimpl. intros t tth Hin Htt.
      destruct (decide (t = rt_current_thread k)) as [->|Hd].
      * rewrite lookup_insert_eq in Htt. injection Htt as <-. by apply (Hwait _ th Hin Ht).
      * rewrite lookup_insert_ne in Htt by done. by apply (Hwait t).
    + eapply wp_mono; [by apply (event_recv_blocks k e x th set opt H Hr Hnest Hok Hset Hopt timeout Hw)|].
      intros r k' (-> & H' & _ & Hok' & th' & Ht' & Hs' & Es & Ei & _ & Hin).
      split; [done|]. split; [done|]. split; [done|]. split; [done|]. by exists th'.
Qed.

(** ** Concrete instances *)
Definition an_event (set : Z) : rt_event := mkEvent (an_object RT_Object_Class_Event RT_IPC_FLAG_FIFO) set.
(** [T_wait] waits for both bits 0 and 1, to be cleared on delivery. *)
Definition event_scene (set : Z) : kernel :=
  let k := scene_with (QSuspend O_event) ∅ ∅ {[O_event := an_event set]} ∅ ∅ in
  k <| threads := <[T_wait := with_event 3 (RT_EVENT_FLAG_AND + RT_EVENT_FLAG_CLEAR)
                                (a_thread RT_THREAD_SUSPEND 4 RT_EOK)]> (threads k) |>.
Lemma event_scene_ok set :
  wants (RT_EVENT_FLAG_AND + RT_EVENT_FLAG_CLEAR) 3 set = false →
  event_ok (event_scene set) O_event (an_event set).
Proof.
  intros Hw. constructor; [done|done|done|by left|].
  intros t th ->%list_elem_of_singleton Ht. injection Ht as <-. done.
Qed.

Lemma event_send_spec_witness :
  wp (rt_event_send O_event 6) (event_scene 1) (λ res k', res = RT_EOK ∧
    event_delivered (event_scene 1) O_event (an_event 1) (4, [], [(T_wait, 3)]) k').
Proof.
  apply (event_send_spec (event_scene 1) O_event (an_event 1) 6).
  - by_check.
  - by apply (running_ok _ (a_thread RT_THREAD_RUNNING 10 RT_EOK)).
  - by apply event_scene_ok.
  - done.
Defined.
Lemma event_recv_spec_witness :
  wp (rt_event_recv O_event 5 (RT_EVENT_FLAG_OR + RT_EVENT_FLAG_CLEAR) 0) (event_scene 1) (λ r k', kernel_inv k' ∧
    r = Return (RT_EOK, Some 1) ∧ event_ok k' O_event (clear_events 5 (an_event 1))).
Proof.
  apply (event_recv_spec (event_scene 1) O_event (an_event 1) (a_thread RT_THREAD_RUNNING 10 RT_EOK) 5
    (RT_EVENT_FLAG_OR + RT_EVENT_FLAG_CLEAR) 0); try done.
  - by_check.
  - by apply event_scene_ok.
Defined.
