(* ===== verification/Mailbox.v ===== *)
(** * Mailboxes ([src/ipc.c], lines 1363-1839)

    A bounded FIFO of machine words kept in a circular array, with one wait
    list for receivers and one for senders. *)
From S2P Require Import Prelude Kernel Scheduler Object Timer Thread Clock Ipc Decide Scenario.

(** ** Operations *)
Definition get_mb (mb : addr) : M kernel rt_mailbox :=
  x ← gets (λ k, mailboxes k !! mb); of_option FBadPointer x.
Definition put_mb (mb : addr) (x : rt_mailbox) : M kernel unit :=
  modify (λ k, k <| mailboxes := <[mb := x]> (mailboxes k) |>).
Definition assert_mb (mb : addr) : M kernel unit :=
  RT_ASSERT (mb ≠ RT_NULL);;
  x ← get_mb mb;
  RT_ASSERT (rt_object_get_type (mb_parent x) = RT_Object_Class_MailBox).

Definition rt_mb_init (mb : addr) (name : list Z) (msgpool : list Z) (size flag : Z) : M kernel Z :=
  RT_ASSERT (mb ≠ RT_NULL);;
  rt_object_init (Obj mb) RT_Object_Class_MailBox name;;
  x ← get_mb mb;
  rt_list_init_head (QSuspend mb);;
  put_mb mb (mkMailbox ((mb_parent x) <| obj_flag := u8 flag |>) msgpool (u16 size) 0 0 0);;
  rt_list_init_head (QSender mb);;
  mret RT_EOK.

Definition rt_mb_detach (mb : addr) : M kernel Z :=
  assert_mb mb;;
  x ← get_mb mb;
  RT_ASSERT (rt_object_is_systemobject (mb_parent x) = true);;
  rt_ipc_list_resume_all (QSuspend mb);;
  rt_ipc_list_resume_all (QSender mb);;
  rt_object_detach RT_Object_Class_MailBox (Obj mb);;
  mret RT_EOK.

(** [++ offset; if (offset >= size) offset = 0] *)
Definition next_offset (offset size : Z) : Z :=
  if decide (size ≤ u16 (offset + 1)) then 0 else u16 (offset + 1).

(** Lines 1604-1637: store, count and wake a receiver. *)
Definition mb_store (value : Z) (x : rt_mailbox) : outcome rt_mailbox :=
  match array_set (mb_msg_pool x) (in_offset x) (u32 value) with
  | Ok pool => Ok (x <| mb_msg_pool := pool |> <| in_offset := next_offset (in_offset x) (mb_size x) |>)
  | Err f => Err f
  end.
Definition mb_count (x : rt_mailbox) : rt_mailbox := x <| mb_entry := u16 (mb_entry x + 1) |>.
Definition mb_deliver (mb value temp : Z) : M kernel Z :=
  x ← get_mb mb;
  x ← lift_outcome (mb_store value x);
  put_mb mb x;;
  if decide (mb_entry x < RT_MB_ENTRY_MAX) then
    put_mb mb (mb_count x);;
    wake_waiter (QSuspend mb) temp RT_EOK
  else
    rt_hw_interrupt_enable temp;;
    mret (- RT_EFULL).

(** The [while (mb->entry == mb->size)] loop from its test on. *)
Definition mb_send_locked (mb value timeout thread temp : Z) : M kernel (call Z wait_locals) :=
  x ← get_mb mb;
  if decide (mb_entry x = mb_size x) then
    upd_thread thread no_error;;
    if decide (timeout = 0) then
      rt_hw_interrupt_enable temp;;
      mret (Return (- RT_EFULL))
    else
      w ← timed_wait (QSender mb) thread (obj_flag (mb_parent x)) timeout temp;
      mret (Park w)
  else
    r ← mb_deliver mb value temp;
    mret (Return r).

Definition rt_mb_send_wait (mb value timeout : Z) : M kernel (call Z wait_locals) :=
  assert_mb mb;;
  thread ← rt_thread_self;
  temp ← rt_hw_interrupt_disable;
  x ← get_mb mb;
  if decide (mb_entry x = mb_size x ∧ timeout = 0) then
    rt_hw_interrupt_enable temp;;
    mret (Return (- RT_EFULL))
  else mb_send_locked mb value timeout thread temp.

Definition rt_mb_send_resume (mb value : Z) (w : wait_locals) : M kernel (call Z wait_locals) :=
  th ← get_thread (wl_thread w);
  if decide (error th ≠ RT_EOK) then mret (Return (error th))
  else
    temp ← rt_hw_interrupt_disable;
    now ← rt_tick_get;
    mb_send_locked mb value (time_left (wl_timeout w) (wl_tick w) now) (wl_thread w) temp.

Definition rt_mb_send (mb value : Z) : M kernel (call Z wait_locals) := rt_mb_send_wait mb value 0.

(** Lines 1761-1794: fetch, count and wake a sender. *)
Definition mb_drop (x : rt_mailbox) : rt_mailbox :=
  x <| out_offset := next_offset (out_offset x) (mb_size x) |>
    <| mb_entry := if decide (0 < mb_entry x) then mb_entry x - 1 else mb_entry x |>.
Definition mb_fetch (mb temp : Z) : M kernel (Z * Z) :=
  x ← get_mb mb;
  value ← lift_outcome (array_get (mb_msg_pool x) (out_offset x));
  put_mb mb (mb_drop x);;
  wake_waiter (QSender mb) temp (RT_EOK, value).


(** The result is the return code and the value stored, if any. *)
Definition mb_recv_locked (mb timeout thread temp : Z) : M kernel (call (Z * option Z) wait_locals) :=
  x ← get_mb mb;
  if decide (mb_entry x = 0) then
    upd_thread thread no_error;;
    if decide (timeout = 0) then
      rt_hw_interrupt_enable temp;;
      upd_thread thread timeout_error;;
      mret (Return (- RT_ETIMEOUT, None))
    else
      w ← timed_wait (QSuspend mb) thread (obj_flag (mb_parent x)) timeout temp;
      mret (Park w)
  else
    '(r, v) ← mb_fetch mb temp;
    mret (Return (r, Some v)).

Definition rt_mb_recv (mb timeout : Z) : M kernel (call (Z * option Z) wait_locals) :=
  assert_mb mb;;
  thread ← rt_thread_self;
  temp ← rt_hw_interrupt_disable;
  x ← get_mb mb;
  if decide (mb_entry x = 0 ∧ timeout = 0) then
    rt_hw_interrupt_enable temp;;
    mret (Return (- RT_ETIMEOUT, None))
  else mb_recv_locked mb timeout thread temp.

Definition rt_mb_recv_resume (mb : Z) (w : wait_locals) : M kernel (call (Z * option Z) wait_locals) :=
  th ← get_thread (wl_thread w);
  if decide (error th ≠ RT_EOK) then mret (Return (error th, None))
  else
    temp ← rt_hw_interrupt_disable;
    now ← rt_tick_get;
    mb_recv_locked mb (time_left (wl_timeout w) (wl_tick w) now) (wl_thread w) temp.

Definition mb_empty (x : rt_mailbox) : rt_mailbox :=
  x <| mb_entry := 0 |> <| in_offset := 0 |> <| out_offset := 0 |>.
Definition rt_mb_control (mb cmd arg : Z) : M kernel Z :=
  assert_mb mb;;
  if decide (cmd = RT_IPC_CMD_RESET) then
    level ← rt_hw_interrupt_disable;
    rt_ipc_list_resume_all (QSuspend mb);;
    rt_ipc_list_resume_all (QSender mb);;
    x ← get_mb mb;
    put_mb mb (mb_empty x);;
    rt_hw_interrupt_enable level;;
    rt_schedule;;
    mret RT_EOK
  else mret (- RT_ERROR).

(** ** The mailbox as a queue *)
Record mb_wf (x : rt_mailbox) : Prop := {
  mw_size : 0 < mb_size x ≤ RT_MB_ENTRY_MAX;
  mw_pool : zlen (mb_msg_pool x) = mb_size x;
  mw_entry : 0 ≤ mb_entry x ≤ mb_size x;
  mw_out : 0 ≤ out_offset x < mb_size x;
  mw_in : in_offset x = (out_offset x + mb_entry x) mod mb_size x
}.

(** The [i]-th mail counted from the oldest. *)
Definition mb_slot (x : rt_mailbox) (i : nat) : Z :=
  default 0 (mb_msg_pool x !! Z.to_nat ((out_offset x + Z.of_nat i) mod mb_size x)).
Definition mails (x : rt_mailbox) : list Z := mb_slot x <$> seq 0 (Z.to_nat (mb_entry x)).

Lemma length_mails x : length (mails x) = Z.to_nat (mb_entry x).
Proof. unfold mails. by rewrite length_fmap, length_seq. Qed.

Lemma next_offset_mod o n : 0 ≤ o < n → n ≤ RT_MB_ENTRY_MAX → next_offset o n = (o + 1) mod n.
Proof.
  intros Ho Hn. unfold next_offset, RT_MB_ENTRY_MAX, RT_UINT16_MAX in *.
  rewrite wrapU_small by lia. case_decide.
  - assert (o + 1 = n) as -> by lia. by rewrite Z.mod_same by lia.
  - by rewrite Z.mod_small by lia.
Qed.

Lemma mod_offset_inj o i j n :
  0 < n → 0 ≤ i < n → 0 ≤ j < n → (o + i) mod n = (o + j) mod n → i = j.
Proof.
  intros Hn Hi Hj Heq.
  assert ((o + i - (o + j)) mod n = 0) as Hz by (rewrite Zminus_mod, Heq, Z.sub_diag; by apply Zmod_0_l).
  replace (o + i - (o + j)) with (i - j) in Hz by lia.
  apply Z.mod_divide in Hz as [q Hq]; [|lia].
  assert (- 1 < q < 1) by nia. assert (q = 0) by lia. subst. lia.
Qed.

(** Storing in a mailbox that is not full appends the mail. *)
Lemma mb_store_spec x v :
  mb_wf x → mb_entry x < mb_size x → 0 ≤ v < 2 ^ 32 →
  ∃ x', mb_store v x = Ok x' ∧ mb_wf (mb_count x') ∧ mails (mb_count x') = mails x ++ [v] ∧
    mb_entry x' = mb_entry x ∧ mb_size x' = mb_size x ∧ mb_parent x' = mb_parent x.
Proof.
  intros [Hs Hp He Ho Hi] Hfull Hv. unfold mb_store, array_set.
  assert (0 ≤ in_offset x < mb_size x) as Hin by (rewrite Hi; apply Z.mod_pos_bound; lia).
  rewrite decide_True by lia. rewrite wrapU_small by done. eexists. split; [done|].
  unfold RT_MB_ENTRY_MAX, RT_UINT16_MAX in *.
  split; [|split; [|done]].
  - constructor; unfold mb_count; simpl; rewrite ?wrapU_small by lia.
    + done.
    + unfold zlen in *. by rewrite length_insert.
    + lia.
    + lia.
    + rewrite next_offset_mod by (unfold RT_MB_ENTRY_MAX, RT_UINT16_MAX; lia).
      rewrite Hi, Zplus_mod_idemp_l. f_equal. lia.
  - unfold mails, mb_count. simpl. rewrite wrapU_small by lia.
    replace (Z.to_nat (mb_entry x + 1)) with (Z.to_nat (mb_entry x) + 1)%nat by lia.
    rewrite seq_app, fmap_app. f_equal.
    + apply list_fmap_ext. intros j i Hj. apply lookup_seq in Hj as [-> Hj]. unfold mb_slot; simpl.
      rewrite list_lookup_insert_ne; [done|]. intros E. rewrite Hi in E.
      apply Z2Nat.inj in E; [|apply Z.mod_pos_bound; lia..].
      apply mod_offset_inj in E; lia.
    + simpl. f_equal. unfold mb_slot; simpl. rewrite Z2Nat.id by lia. rewrite <-Hi.
      rewrite list_lookup_insert_eq; [done|]. unfold zlen in Hp. lia.
Qed.

(** Fetching from a mailbox that is not empty takes the oldest mail. *)
Lemma mb_drop_spec x :
  mb_wf x → 0 < mb_entry x →
  ∃ v l, mails x = v :: l ∧ array_get (mb_msg_pool x) (out_offset x) = Ok v ∧
    mb_wf (mb_drop x) ∧ mails (mb_drop x) = l.
Proof.
  intros [Hs Hp He Ho Hi] Hne. unfold RT_MB_ENTRY_MAX, RT_UINT16_MAX in *.
  exists (mb_slot x 0), (mb_slot x <$> seq 1 (Z.to_nat (mb_entry x) - 1)).
  assert (next_offset (out_offset x) (mb_size x) = (out_offset x + 1) mod mb_size x) as Hnext.
  { apply next_offset_mod; unfold RT_MB_ENTRY_MAX, RT_UINT16_MAX; lia. }
  split_and!.
  - unfold mails. by destruct (Z.to_nat (mb_entry x)) as [|n] eqn:E; [lia|]; simpl; rewrite Nat.sub_0_r.
  - unfold array_get. rewrite decide_True by lia. unfold mb_slot.
    rewrite Z.add_0_r, Z.mod_small by lia.
    destruct (mb_msg_pool x !! Z.to_nat (out_offset x)) eqn:E; [done|].
    apply lookup_ge_None in E. unfold zlen in Hp. lia.
  - constructor; unfold mb_drop; simpl; rewrite ?decide_True by done; try lia; [done| |].
    + rewrite Hnext. apply Z.mod_pos_bound. lia.
    + rewrite Hnext, Zplus_mod_idemp_l, Hi. f_equal. lia.
  - unfold mails, mb_drop. simpl. rewrite decide_True by done.
    replace (Z.to_nat (mb_entry x - 1)) with (Z.to_nat (mb_entry x) - 1)%nat by lia.
    rewrite <-fmap_S_seq, <-list_fmap_compose. apply list_fmap_ext. intros j i Hj. unfold mb_slot; simpl.
    rewrite Hnext, Zplus_mod_idemp_l.
    by replace (out_offset x + 1 + Z.of_nat i) with (out_offset x + Z.of_nat (S i)) by lia.
Qed.

(** ** Sending and receiving *)
Record mailbox_ok (k : kernel) (mb : addr) (x : rt_mailbox) : Prop := {
  mo_lookup : mailboxes k !! mb = Some x;
  mo_null : mb ≠ RT_NULL;
  mo_type : rt_object_get_type (mb_parent x) = RT_Object_Class_MailBox;
  mo_flag : obj_flag (mb_parent x) = RT_IPC_FLAG_FIFO ∨ obj_flag (mb_parent x) = RT_IPC_FLAG_PRIO;
  mo_wf : mb_wf x
}.

Lemma wp_get_mb mb x k (Q : rt_mailbox → kernel → Prop) :
  mailboxes k !! mb = Some x → Q x k → wp (get_mb mb) k Q.
Proof. intros. unfold get_mb. by ksteps. Qed.
Lemma assert_mb_ok mb x k (Q : unit → kernel → Prop) :
  mailbox_ok k mb x → Q tt k → wp (assert_mb mb) k Q.
Proof.
  intros [Hx Hn Ht _ _] HQ. unfold assert_mb. ksteps. eapply wp_get_mb; [done|]. by ksteps.
Qed.

(** Completing an operation: the mailbox holds [x'], and the first waiter of
    [q], if there is one, has been woken. *)
Record mb_done (q : qid) (mb : addr) (x' : rt_mailbox) (k k' : kernel) : Prop := {
  md_inv : kernel_inv k';
  md_cur : current_ok k';
  md_ok : mailbox_ok k' mb x';
  md_queue : queue k' q = tail (queue k q);
  md_others : ∀ q', ¬ ready_list q' → q' ≠ q → queue k' q' = queue k q';
  md_handed : ∀ t l, queue k q = t :: l → handed t k k';
  md_boxes : mailboxes k' = <[mb := x']> (mailboxes k);
  md_devices : devices k' = devices k;
  md_rest : rt_tick k' = rt_tick k ∧ object_lists k' = object_lists k ∧
    rt_scheduler_lock_nest k' = rt_scheduler_lock_nest k ∧ rt_interrupt_nest k' = rt_interrupt_nest k;
  md_sems : semaphores k' = semaphores k;
  md_threads : ∀ t th, head (queue k q) ≠ Some t → threads k !! t = Some th →
    ∃ th', threads k' !! t = Some th' ∧ thread_core th' = thread_core th;
  md_clock : clock_frame (λ t, head (queue k q) = Some t) k k';
  md_foremost : rt_scheduler_lock_nest k = 0 → foremost k → foremost k'
}.

Lemma mb_done_intro q mb x x' temp k k1 k' :
  mailbox_ok k mb x → mb_wf x' → mb_parent x' = mb_parent x →
  threads k1 = threads k → queues k1 = queues k → mailboxes k1 = <[mb := x']> (mailboxes k) →
  devices k1 = devices k →
  (rt_tick k1 = rt_tick k ∧ object_lists k1 = object_lists k ∧
    rt_scheduler_lock_nest k1 = rt_scheduler_lock_nest k ∧ rt_interrupt_nest k1 = rt_interrupt_nest k) →
  semaphores k1 = semaphores k → timers k1 = timers k → timer_queues k1 = timer_queues k →
  rt_current_thread k1 = rt_current_thread k →
  woke q temp k1 k' → mb_done q mb x' k k'.
Proof.
  intros Hok Hwf Ep Et Eq Em Edev (R1 & R2 & R3 & R4) Es Etm Etq Ec Hw.
  assert (∀ q', queue k1 q' = queue k q') as Eqs by (intros q'; unfold queue; by rewrite Eq).
  destruct (objs_fields _ _ (wo_objs _ _ _ _ Hw)) as (S1 & _ & _ & Emb & _ & T1 & _ & T3 & T4 & T2 & _).
  destruct (objs_fields_rest _ _ (wo_objs _ _ _ _ Hw)) as (_ & Ed & _).
  constructor; [apply Hw|apply Hw| | | | |by rewrite Emb|by rewrite Ed|by rewrite T1, T2, T3, T4|by rewrite S1| | |].
  - destruct Hok. constructor; try done; [|by rewrite Ep..].
    rewrite Emb. ksimpl. rewrite Em. apply lookup_insert_eq.
  - rewrite <-Eqs. apply Hw.
  - intros q' Hn Hne. rewrite <-Eqs. by apply (wo_others _ _ _ _ Hw).
  - intros t l Hl. rewrite <-Eqs in Hl. destruct (wo_handed _ _ _ _ Hw _ _ Hl) as (th & th' & ? & ? & ?).
    exists th, th'. by rewrite <-Et.
  - intros t th Hn. rewrite <-Eqs in Hn. rewrite <-Et. by apply (wo_threads _ _ _ _ Hw).
  - transitivity k1; [by apply clock_frame_eq|]. rewrite <-Eqs. apply Hw.
  - rewrite <-R3. intros Hlock Hf. apply (wo_foremost _ _ _ _ Hw Hlock). unfold foremost. by rewrite Et, Ec.
Qed.

Section Transfer.
Context (k : kernel) (mb : addr) (x : rt_mailbox).
Context (H : kernel_inv k) (Hc : current_ok k) (Hok : mailbox_ok k mb x).
Let k0 := k <| primask := 1 |>.

(** A mail is stored behind the others and the first receiver is woken; this is
    also what a woken sender runs. *)
Lemma mb_send_locked_spec v timeout thread temp p :
  mb_entry x < mb_size x → 0 ≤ v < 2 ^ 32 →
  wp (mb_send_locked mb v timeout thread temp) (k <| primask := p |>) (λ r k', r = Return RT_EOK ∧
    ∃ x', mails x' = mails x ++ [v] ∧ mb_size x' = mb_size x ∧
      mb_done (QSuspend mb) mb x' k k').
Proof.
  intros Hfull Hv. destruct (mb_store_spec x v (mo_wf _ _ _ Hok) Hfull Hv)
    as (x1 & Hst & Hwf1 & Hm1 & He1 & Hs1 & Hp1).
  unfold mb_send_locked. ksteps.
  eapply wp_get_mb; [apply Hok|]. rewrite decide_False by lia. ksteps. unfold mb_deliver. ksteps.
  eapply wp_get_mb; [apply Hok|]. ksteps. unfold put_mb. ksteps.
  rewrite decide_True by (pose proof (mw_size _ (mo_wf _ _ _ Hok)); lia). ksteps. ksimpl.
  rewrite insert_insert_eq. eapply wake_waiter_spec; [|done|done|].
  - by eapply kernel_inv_ext; [exact H|..].
  - intros k' Hw. ksteps. split; [done|]. exists (mb_count x1). split; [done|]. split; [done|].
    by eapply (mb_done_intro _ _ x); [done|done|done| | | | | | | | | |exact Hw].
Qed.

Lemma mb_send_spec v timeout :
  mb_entry x < mb_size x → 0 ≤ v < 2 ^ 32 →
  wp (rt_mb_send_wait mb v timeout) k (λ r k', r = Return RT_EOK ∧
    ∃ x', mails x' = mails x ++ [v] ∧ mb_size x' = mb_size x ∧
      mb_done (QSuspend mb) mb x' k k').
Proof.
  intros Hfull Hv. unfold rt_mb_send_wait. ksteps. eapply assert_mb_ok; [done|]. ksteps.
  eapply wp_get_mb; [apply Hok|]. rewrite decide_False by lia. by apply mb_send_locked_spec.
Qed.

(** A full mailbox refuses at once when the sender will not wait. *)
Lemma mb_send_full v :
  mb_entry x = mb_size x → rt_mb_send_wait mb v 0 k = Ok (Return (- RT_EFULL), k).
Proof.
  intros Hfull. apply wp_exact. unfold rt_mb_send_wait. ksteps. eapply assert_mb_ok; [done|]. ksteps.
  eapply wp_get_mb; [apply Hok|]. rewrite decide_True by done. ksteps. by destruct k.
Qed.

(** The oldest mail is handed out and the first sender is woken; this is also
    what a woken receiver runs. *)
Lemma mb_recv_locked_spec timeout thread temp p :
  0 < mb_entry x →
  wp (mb_recv_locked mb timeout thread temp) (k <| primask := p |>) (λ r k', ∃ v l x',
    mails x = v :: l ∧ r = Return (RT_EOK, Some v) ∧ mails x' = l ∧ mb_size x' = mb_size x ∧
    mb_done (QSender mb) mb x' k k').
Proof.
  intros Hne. destruct (mb_drop_spec x (mo_wf _ _ _ Hok) Hne) as (v & l & Hm & Hget & Hwf & Hm').
  unfold mb_recv_locked. ksteps.
  eapply wp_get_mb; [apply Hok|]. rewrite decide_False by lia. ksteps. unfold mb_fetch. ksteps.
  eapply wp_get_mb; [apply Hok|]. ksteps. unfold put_mb. ksteps.
  eapply wake_waiter_spec; [|done|done|].
  - by eapply kernel_inv_ext; [exact H|..].
  - intros k' Hw. ksteps. exists v, l, (mb_drop x). do 4 (split; [done|]).
    by eapply (mb_done_intro _ _ x); [done|done|done| | | | | | | | | |exact Hw].
Qed.
Lemma mb_recv_spec timeout :
  0 < mb_entry x →
  wp (rt_mb_recv mb timeout) k (λ r k', ∃ v l x',
    mails x = v :: l ∧ r = Return (RT_EOK, Some v) ∧ mails x' = l ∧ mb_size x' = mb_size x ∧
    mb_done (QSender mb) mb x' k k').
Proof.
  intros Hne. unfold rt_mb_recv. ksteps. eapply assert_mb_ok; [done|]. ksteps.
  eapply wp_get_mb; [apply Hok|]. rewrite decide_False by lia. by apply mb_recv_locked_spec.
Qed.

Lemma mb_recv_empty :
  mb_entry x = 0 → rt_mb_recv mb 0 k = Ok (Return (- RT_ETIMEOUT, None), k).
Proof.
  intros He. apply wp_exact. unfold rt_mb_recv. ksteps. eapply assert_mb_ok; [done|]. ksteps.
  eapply wp_get_mb; [apply Hok|]. rewrite decide_True by done. ksteps. by destruct k.
Qed.
End Transfer.

(** *** Waiting *)
Section Blocking.
Context (k : kernel) (mb : addr) (x : rt_mailbox) (th : rt_thread).
Context (H : kernel_inv k) (Hr : running k th) (Hnest : rt_interrupt_nest k = 0)
  (Hok : mailbox_ok k mb x).

Lemma mb_waits_ok q flag timeout temp k0 k' :
  mailboxes k0 = mailboxes k → waits q (no_error th) flag timeout temp k0 k' → mailbox_ok k' mb x.
Proof.
  intros E Hw. destruct (objs_fields _ _ (wa_objs _ _ _ _ _ _ _ Hw)) as (_ & _ & _ & Em & _).
  destruct Hok. constructor; try done. rewrite Em. ksimpl. by rewrite E.
Qed.

Lemma mb_send_locked_blocks v timeout :
  mb_entry x = mb_size x → timeout ≠ 0 → timeout < RT_TICK_MAX / 2 →
  wp (mb_send_locked mb v timeout (rt_current_thread k) (primask k)) (k <| primask := 1 |>) (λ r k',
    r = Park (mkLocals (rt_current_thread k) timeout (wait_start k timeout)) ∧
    waits (QSender mb) (no_error th) (obj_flag (mb_parent x)) timeout (primask k) (waiting_state k th) k' ∧
    mailbox_ok k' mb x).
Proof.
  intros Hfull Ht0 Ht1. pose proof Hr as [Ht Hs]. unfold mb_send_locked. ksteps.
  eapply wp_get_mb; [apply Hok|]. rewrite decide_True by done. ksteps. rewrite decide_False by done.
  ksteps. eapply wp_mono; [apply (timed_wait_spec k th); [done..|apply Hok|done]|].
  intros w k' [-> Hw]. ksteps. split; [done|]. split; [done|]. by eapply mb_waits_ok; [|exact Hw].
Qed.
Lemma mb_send_blocks v timeout :
  mb_entry x = mb_size x → timeout ≠ 0 → timeout < RT_TICK_MAX / 2 →
  wp (rt_mb_send_wait mb v timeout) k (λ r k',
    r = Park (mkLocals (rt_current_thread k) timeout (wait_start k timeout)) ∧
    waits (QSender mb) (no_error th) (obj_flag (mb_parent x)) timeout (primask k) (waiting_state k th) k' ∧
    mailbox_ok k' mb x).
Proof.
  intros Hfull Ht0 Ht1. unfold rt_mb_send_wait. ksteps. eapply assert_mb_ok; [done|]. ksteps.
  eapply wp_get_mb; [apply Hok|]. rewrite decide_False by tauto. by apply mb_send_locked_blocks.
Qed.

Lemma mb_recv_locked_blocks timeout :
  mb_entry x = 0 → timeout ≠ 0 → timeout < RT_TICK_MAX / 2 →
  wp (mb_recv_locked mb timeout (rt_current_thread k) (primask k)) (k <| primask := 1 |>) (λ r k',
    r = Park (mkLocals (rt_current_thread k) timeout (wait_start k timeout)) ∧
    waits (QSuspend mb) (no_error th) (obj_flag (mb_parent x)) timeout (primask k) (waiting_state k th) k' ∧
    mailbox_ok k' mb x).
Proof.
  intros He Ht0 Ht1. pose proof Hr as [Ht Hs]. unfold mb_recv_locked. ksteps.
  eapply wp_get_mb; [apply Hok|]. rewrite decide_True by done. ksteps. rewrite decide_False by done.
  ksteps. eapply wp_mono; [apply (timed_wait_spec k th); [done..|apply Hok|done]|].
  intros w k' [-> Hw]. ksteps. split; [done|]. split; [done|]. by eapply mb_waits_ok; [|exact Hw].
Qed.
(** A woken caller that has no time left. *)
Lemma mb_send_locked_expired v :
  mb_entry x = mb_size x →
  mb_send_locked mb v 0 (rt_current_thread k) (primask k) (k <| primask := 1 |>) =
    Ok (Return (- RT_EFULL), k <| threads := <[rt_current_thread k := no_error th]> (threads k) |>).
Proof.
  intros Hfull. pose proof Hr as [Ht Hs]. apply wp_exact. unfold mb_send_locked. ksteps.
  eapply wp_get_mb; [apply Hok|]. rewrite decide_True by done. ksteps. rewrite decide_True by done. ksteps. by destruct k.
Qed.
Lemma mb_recv_locked_expired :
  mb_entry x = 0 →
  mb_recv_locked mb 0 (rt_current_thread k) (primask k) (k <| primask := 1 |>) =
    Ok (Return (- RT_ETIMEOUT, None), k <| threads := <[rt_current_thread k := timeout_error (no_error th)]> (threads k) |>).
Proof.
  intros He. pose proof Hr as [Ht Hs]. apply wp_exact. unfold mb_recv_locked. ksteps.
  eapply wp_get_mb; [apply Hok|]. rewrite decide_True by done. ksteps. rewrite decide_True by done. ksteps.
  eapply wp_upd_thread; [apply lookup_insert_eq|]. ksteps. split; [done|]. ksimpl. rewrite insert_insert_eq. by destruct k.
Qed.
Lemma mb_recv_blocks timeout :
  mb_entry x = 0 → timeout ≠ 0 → timeout < RT_TICK_MAX / 2 →
  wp (rt_mb_recv mb timeout) k (λ r k',
    r = Park (mkLocals (rt_current_thread k) timeout (wait_start k timeout)) ∧
    waits (QSuspend mb) (no_error th) (obj_flag (mb_parent x)) timeout (primask k) (waiting_state k th) k' ∧
    mailbox_ok k' mb x).
Proof.
  intros He Ht0 Ht1. unfold rt_mb_recv. ksteps. eapply assert_mb_ok; [done|]. ksteps.
  eapply wp_get_mb; [apply Hok|]. rewrite decide_False by tauto. by apply mb_recv_locked_blocks.
Qed.
End Blocking.

(** ** Refinement: sequences of non-blocking operations against a bounded FIFO *)
Inductive mb_op := OSend (v : Z) | ORecv.

Definition mb_run_op (mb : addr) (op : mb_op) : M kernel (Z * option Z) :=
  match op with
  | OSend v =>
      c ← rt_mb_send mb v;
      match c with Return r => mret (r, None) | Park _ => fail FFuel end
  | ORecv =>
      c ← rt_mb_recv mb 0;
      match c with Return r => mret r | Park _ => fail FFuel end
  end.
Fixpoint mb_run (mb : addr) (ops : list mb_op) : M kernel (list (Z * option Z)) :=
  match ops with
  | [] => mret []
  | op :: ops => r ← mb_run_op mb op; rs ← mb_run mb ops; mret (r :: rs)
  end.

Definition fifo_op (cap : nat) (l : list Z) (op : mb_op) : list Z * (Z * option Z) :=
  match op with
  | OSend v => if decide (length l < cap)%nat then (l ++ [v], (RT_EOK, None))
               else (l, (- RT_EFULL, None))
  | ORecv => match l with [] => ([], (- RT_ETIMEOUT, None)) | v :: l => (l, (RT_EOK, Some v)) end
  end.
Fixpoint fifo_run (cap : nat) (l : list Z) (ops : list mb_op) : list Z * list (Z * option Z) :=
  match ops with
  | [] => (l, [])
  | op :: ops => let '(l, r) := fifo_op cap l op in
                 let '(l, rs) := fifo_run cap l ops in (l, r :: rs)
  end.

Definition word_op (op : mb_op) : Prop := match op with OSend v => 0 ≤ v < 2 ^ 32 | ORecv => True end.

Lemma mb_op_refines mb op k x :
  kernel_inv k → current_ok k → mailbox_ok k mb x → word_op op →
  wp (mb_run_op mb op) k (λ r k', kernel_inv k' ∧ current_ok k' ∧ ∃ x', mailbox_ok k' mb x' ∧
    mb_size x' = mb_size x ∧ fifo_op (Z.to_nat (mb_size x)) (mails x) op = (mails x', r)).
Proof.
  intros H Hc Hok Hop. pose proof (mw_entry _ (mo_wf _ _ _ Hok)) as He.
  pose proof (length_mails x) as Hlen.
  destruct op as [v|]; unfold mb_run_op, rt_mb_send; simpl; ksteps.
  - case_decide as Hcap.
    + eapply wp_mono; [apply (mb_send_spec k mb x H Hc Hok v 0); [lia|done]|].
      intros ? k' (-> & x' & Hm & Hs & Hd). ksteps. split_and!; [apply Hd|apply Hd|].
      exists x'. split_and!; [apply Hd|done|by rewrite Hm].
    + eapply wp_eq; [apply (mb_send_full k mb x H Hc Hok); lia|]. ksteps. split_and!; [done|done|by exists x].
  - destruct (decide (mb_entry x = 0)) as [Hz|Hz].
    + eapply wp_eq; [by apply (mb_recv_empty k mb x H Hc Hok)|]. ksteps. split_and!; [done|done|].
      exists x. split_and!; [done|done|]. rewrite Hz in Hlen. by destruct (mails x).
    + eapply wp_mono; [apply (mb_recv_spec k mb x H Hc Hok 0); lia|].
      intros ? k' (v & l & x' & Hm & -> & Hm' & Hs & Hd). ksteps. split_and!; [apply Hd|apply Hd|].
      exists x'. rewrite Hm, Hm'. split_and!; [apply Hd|done|done].
Qed.

(** C9: any sequence of [rt_mb_send] and non-waiting [rt_mb_recv] calls on a
    mailbox answers as a bounded FIFO queue does, for every initial content and
    every wrap-around of the offsets. *)
Theorem mb_run_refines mb ops : ∀ k x,
  kernel_inv k → current_ok k → mailbox_ok k mb x → Forall word_op ops →
  wp (mb_run mb ops) k (λ rs k', kernel_inv k' ∧ current_ok k' ∧ ∃ x', mailbox_ok k' mb x' ∧
    fifo_run (Z.to_nat (mb_size x)) (mails x) ops = (mails x', rs)).
Proof.
  induction ops as [|op ops IH]; intros k x H Hc Hok Hall; simpl.
  { ksteps. split_and!; [done|done|by exists x]. }
  apply Forall_cons in Hall as [Hop Hall]. ksteps.
  eapply wp_mono; [by apply mb_op_refines|]. intros r k1 (H1 & Hc1 & x1 & Hok1 & Hs1 & ->). ksteps.
  eapply wp_mono; [by apply (IH k1 x1)|]. intros rs k' (H' & Hc' & x' & Hok' & Hf). ksteps.
  split_and!; [done|done|]. exists x'. split; [done|]. rewrite <-Hs1, Hf. done.
Qed.

(** a mail sent while a receiver waits reaches that receiver.  The sender's
    call returns at once, the first waiter is made runnable, and when it
    resumes, its [rt_mb_recv] returns the mail. *)
Theorem mb_handoff k mb x v t th l timeout w :
  kernel_inv k → current_ok k → mailbox_ok k mb x → mails x = [] → 0 ≤ v < 2 ^ 32 →
  queue k (QSuspend mb) = t :: l → threads k !! t = Some th → error th = RT_EOK → wl_thread w = t →
  wp (c ← rt_mb_send_wait mb v timeout;
      k1 ← gets id;
      r ← rt_mb_recv_resume mb w;
      mret (c, k1, r)) k (λ '(c, k1, r) k', c = Return RT_EOK ∧ handed t k k1 ∧
        queue k1 (QSuspend mb) = l ∧ r = Return (RT_EOK, Some v) ∧
        kernel_inv k' ∧ ∃ x', mailbox_ok k' mb x' ∧ mails x' = []).
Proof.
  intros H Hc Hok Hm Hv Hq Ht He Hw.
  pose proof (length_mails x) as Hlen. rewrite Hm in Hlen. simpl in Hlen.
  pose proof (mw_size _ (mo_wf _ _ _ Hok)). pose proof (mw_entry _ (mo_wf _ _ _ Hok)).
  ksteps. eapply wp_mono; [apply (mb_send_spec k mb x H Hc Hok v timeout); [lia|done]|].
  intros ? k1 (-> & x1 & Hm1 & Hs1 & Hd). ksteps.
  destruct (md_handed _ _ _ _ _ Hd t l Hq) as (th0 & th1 & Ht0 & Ht1 & Hcl & He1).
  assert (th0 = th) as -> by congruence.
  pose proof (length_mails x1) as Hlen1. rewrite Hm1, Hm in Hlen1. simpl in Hlen1.
  unfold rt_mb_recv_resume. rewrite Hw. ksteps. rewrite decide_False by (rewrite He1, He; by intros []).
  ksteps. unfold id. eapply wp_mono; [apply (mb_recv_locked_spec k1 mb x1); [apply Hd|apply Hd|apply Hd|lia]|].
  intros ? k' (v' & l' & x' & Hm' & -> & Hl' & _ & Hd'). ksteps.
  rewrite Hm1, Hm in Hm'. injection Hm' as <- <-.
  split; [done|]. split; [by exists th, th1|]. split; [by rewrite (md_queue _ _ _ _ _ Hd), Hq|].
  split; [done|]. split; [apply Hd'|]. exists x'. split; [apply Hd'|done].
Qed.

(** an empty mailbox parks a receiver that is willing to wait, and a full
    one a sender: the caller is suspended in the wait list of its kind with no
    error pending, and the mailbox is unchanged. *)
Theorem mb_blocks k mb x th (send : bool) v timeout :
  kernel_inv k → running k th → rt_interrupt_nest k = 0 → mailbox_ok k mb x →
  mb_entry x = (if send then mb_size x else 0) → timeout ≠ 0 → timeout < RT_TICK_MAX / 2 →
  wp (if send then c ← rt_mb_send_wait mb v timeout;
                   mret (match c with Return _ => None | Park w => Some (wl_thread w) end)
      else c ← rt_mb_recv mb timeout;
           mret (match c with Return _ => None | Park w => Some (wl_thread w) end)) k (λ r k',
    r = Some (rt_current_thread k) ∧ kernel_inv k' ∧ current_ok k' ∧ mailbox_ok k' mb x ∧
    rt_current_thread k ∈ queue k' (if send then QSender mb else QSuspend mb) ∧
    ∃ th', threads k' !! rt_current_thread k = Some th' ∧ stat_of th' = RT_THREAD_SUSPEND ∧
      error th' = RT_EOK).
Proof.
  intros H Hr Hnest Hok He Ht0 Ht1.
  assert (∀ q k', waits q (no_error th) (obj_flag (mb_parent x)) timeout (primask k) (waiting_state k th) k' →
    kernel_inv k' ∧ current_ok k' ∧ rt_current_thread k ∈ queue k' q ∧
    ∃ th', threads k' !! rt_current_thread k = Some th' ∧ stat_of th' = RT_THREAD_SUSPEND ∧
      error th' = RT_EOK) as Hparked.
  { intros q k' Hw. split; [apply Hw|]. split; [apply Hw|].
    destruct (wa_queue _ _ _ _ _ _ _ Hw) as (l1 & l2 & _ & Hl & _). split.
    - change (rt_current_thread (waiting_state k th)) with (rt_current_thread k) in Hl.
      rewrite Hl. apply elem_of_app. right. left.
    - destruct (wa_thread _ _ _ _ _ _ _ Hw) as (th' & Ht' & Hs' & Hcore). exists th'.
      split; [done|]. split; [done|]. by apply (f_equal error) in Hcore. }
  destruct send; ksteps.
  - eapply wp_mono; [by apply (mb_send_blocks k mb x th H Hr Hnest Hok v timeout)|].
    intros ? k' (-> & Hw & Hok'). ksteps. destruct (Hparked _ _ Hw) as (? & ? & ? & ?). by split_and!.
  - eapply wp_mono; [by apply (mb_recv_blocks k mb x th H Hr Hnest Hok timeout)|].
    intros ? k' (-> & Hw & Hok'). ksteps. destruct (Hparked _ _ Hw) as (? & ? & ? & ?). by split_and!.
Qed.

(** ** Concrete instances *)
Definition a_mailbox (pool : list Z) (n out : Z) : rt_mailbox :=
  mkMailbox (an_object RT_Object_Class_MailBox RT_IPC_FLAG_FIFO) pool 3 n ((out + n) mod 3) out.
Definition mb_scene (x : rt_mailbox) (q : qid) : kernel := scene_with q ∅ ∅ ∅ {[O_mb := x]} ∅.
Lemma mb_scene_ok pool n out q :
  0 ≤ n ≤ 3 → 0 ≤ out < 3 → zlen pool = 3 → mailbox_ok (mb_scene (a_mailbox pool n out) q) O_mb (a_mailbox pool n out).
Proof. intros. constructor; [done|done|done|by left|]. by constructor. Qed.

Lemma mb_run_refines_witness :
  wp (mb_run O_mb [OSend 7; OSend 8; ORecv; ORecv; ORecv]) (mb_scene (a_mailbox [5; 0; 0] 2 2) (QSuspend 1)) (λ rs k',
    kernel_inv k' ∧ current_ok k' ∧ ∃ x', mailbox_ok k' O_mb x' ∧
      fifo_run 3 (mails (a_mailbox [5; 0; 0] 2 2)) [OSend 7; OSend 8; ORecv; ORecv; ORecv] = (mails x', rs)).
Proof.
  apply (mb_run_refines O_mb [OSend 7; OSend 8; ORecv; ORecv; ORecv] (mb_scene (a_mailbox [5; 0; 0] 2 2) (QSuspend 1))).
  - by_check.
  - by apply (running_ok _ (a_thread RT_THREAD_RUNNING 10 RT_EOK)).
  - by apply mb_scene_ok.
  - by repeat constructor.
Defined.
Lemma mb_handoff_witness :
  wp (c ← rt_mb_send_wait O_mb 9 0;
      k1 ← gets id;
      r ← rt_mb_recv_resume O_mb (mkLocals T_wait 50 990);
      mret (c, k1, r)) (mb_scene (a_mailbox [5; 0; 0] 0 1) (QSuspend O_mb)) (λ '(c, k1, r) k',
    c = Return RT_EOK ∧ handed T_wait (mb_scene (a_mailbox [5; 0; 0] 0 1) (QSuspend O_mb)) k1 ∧
    queue k1 (QSuspend O_mb) = [] ∧ r = Return (RT_EOK, Some 9) ∧
    kernel_inv k' ∧ ∃ x', mailbox_ok k' O_mb x' ∧ mails x' = []).
Proof.
  eapply (mb_handoff (mb_scene (a_mailbox [5; 0; 0] 0 1) (QSuspend O_mb)) O_mb (a_mailbox [5; 0; 0] 0 1) 9 T_wait
    (a_thread RT_THREAD_SUSPEND 4 RT_EOK) [] 0); try done.
  - by_check.
  - by apply (running_ok _ (a_thread RT_THREAD_RUNNING 10 RT_EOK)).
  - by apply mb_scene_ok.
Defined.
Lemma mb_blocks_witness :
  wp (c ← rt_mb_recv O_mb 100; mret (match c with Return _ => None | Park w => Some (wl_thread w) end))
    (mb_scene (a_mailbox [5; 0; 0] 0 1) (QSuspend O_mb)) (λ r k',
    r = Some T_run ∧ kernel_inv k' ∧ current_ok k' ∧ mailbox_ok k' O_mb (a_mailbox [5; 0; 0] 0 1) ∧
    T_run ∈ queue k' (QSuspend O_mb) ∧
    ∃ th', threads k' !! T_run = Some th' ∧ stat_of th' = RT_THREAD_SUSPEND ∧ error th' = RT_EOK).
Proof.
  apply (mb_blocks (mb_scene (a_mailbox [5; 0; 0] 0 1) (QSuspend O_mb)) O_mb (a_mailbox [5; 0; 0] 0 1)
    (a_thread RT_THREAD_RUNNING 10 RT_EOK) false 0 100); try done.
  - by_check.
  - by apply mb_scene_ok.
Defined.
