(* ===== verification/Concurrency.v ===== *)
(** * Threads that run in turns

    The system as it runs on the board: threads call the blocking operations of
    the kernel in any order, the scheduler decides who goes on, and interrupts
    come at any moment between two calls.  A world is the kernel together with the
    calls that are waiting inside [rt_schedule]; a step is a call by the thread on
    the processor, its return from a wait, or an interrupt.  The theorems hold for every
    order of steps: no step meets a fault, semaphores lose and invent no units,
    mailboxes deliver what was sent in the order it was sent, and a wait with a
    time limit is over when the time is. *)
From S2P Require Import Prelude Kernel Scheduler Object Timer Thread Clock Ipc Decide Scenario Scheduling Semaphore Mailbox.

(** ** Worlds *)

(** The calls that wait, with the locals they need when they go on. *)
Inductive waiting_call :=
  | InTake (s : addr)
  | InSend (mb v : Z) (w : wait_locals)
  | InRecv (mb : addr) (w : wait_locals)
  | InSleep.
#[global] Instance wait_locals_eq_dec : EqDecision wait_locals.
Proof. solve_decision. Defined.
#[global] Instance waiting_call_eq_dec : EqDecision waiting_call.
Proof. solve_decision. Defined.

Record world := mkWorld { w_kernel : kernel; w_calls : gmap addr waiting_call }.
#[global] Instance eta_world : EtaRecord world := λ w, mkWorld (w_kernel w) (w_calls w).
#[global] Instance world_kernel : Part world kernel := MkPart _ _ w_kernel (λ k w, w <| w_kernel := k |>).

Inductive action :=
  | Take (s : addr) (time : Z)
  | Release (s : addr)
  | Send (mb v time : Z)
  | Recv (mb time : Z)
  | Sleep (tick : Z)
  | Yield
  | Resume
  | IrqRelease (s : addr)
  | Tick.
(** What can be seen of a step: the calls that returned, with their thread
    ([RT_NULL] for an interrupt handler) and result, and the ticks. *)
Inductive event :=
  | Took (t s r : Z)
  | Released (t s r : Z)
  | Sent (t mb v r : Z)
  | Received (t mb r : Z) (v : option Z)
  | Slept (t r : Z)
  | Yielded (t r : Z)
  | Ticked.

(** ** Steps *)
Section Steps.
(** Timers of the application; there are none among the ones that expire. *)
Context (user_timeout : Z → Z → M kernel unit).

(** [src/drivers/drv_common.c]; the fuel of the loop over the timers is one more
    than their number.  [HAL_IncTick] advances a counter of the vendor HAL that no
    modelled code reads, and is left out. *)
Definition SysTick_Handler : M kernel unit :=
  rt_interrupt_enter;;
  k ← gets id;
  rt_tick_increase user_timeout (S (length (tqueue k QTimer)));;
  rt_interrupt_leave.

(** A handler that signals a thread, as [uart_rx_ind] does. *)
Definition irq_release (s : addr) : M kernel Z :=
  rt_interrupt_enter;;
  r ← rt_sem_release s;
  rt_interrupt_leave;;
  mret r.

Definition set_call (t : addr) (c : option waiting_call) : M world unit :=
  modify (λ w, w <| w_calls := partial_alter (λ _, c) t (w_calls w) |>).
(** A call that waits is remembered; one that returns is an event. *)
Definition settle {R L} (t : addr) (c : call R L) (inside : L → waiting_call) (done : R → event) : M world (list event) :=
  match c with
  | Return r => set_call t None;; mret [done r]
  | Park l => set_call t (Some (inside l));; mret []
  end.

Definition resume_call (t : addr) (c : waiting_call) : M world (list event) :=
  match c with
  | InTake s => r ← zoom (rt_sem_take_resume t); settle t (Return (L := addr) r) (λ _, c) (Took t s)
  | InSend mb v w => r ← zoom (rt_mb_send_resume mb v w); settle t r (InSend mb v) (Sent t mb v)
  | InRecv mb w => r ← zoom (rt_mb_recv_resume mb w); settle t r (InRecv mb) (λ '(r, v), Received t mb r v)
  | InSleep => r ← zoom (rt_thread_sleep_resume t); settle t (Return (L := addr) r) (λ _, c) (Slept t)
  end.
Definition exec (a : action) : M world (list event) :=
  t ← zoom rt_thread_self;
  match a with
  | Take s time => r ← zoom (rt_sem_take s time); settle t r (λ _, InTake s) (Took t s)
  | Release s => r ← zoom (rt_sem_release s); mret [Released t s r]
  | Send mb v time => r ← zoom (rt_mb_send_wait mb v time); settle t r (InSend mb v) (Sent t mb v)
  | Recv mb time => r ← zoom (rt_mb_recv mb time); settle t r (InRecv mb) (λ '(r, v), Received t mb r v)
  | Sleep tick => r ← zoom (rt_thread_sleep tick); settle t r (λ _, InSleep) (Slept t)
  | Yield => r ← zoom rt_thread_yield; mret [Yielded t r]
  | Resume => w ← gets id; c ← of_option FConfig (w_calls w !! t); resume_call t c
  | IrqRelease s => r ← zoom (irq_release s); mret [Released RT_NULL s r]
  | Tick => zoom SysTick_Handler;; mret [Ticked]
  end.

(** Time limits that fit the timers, and the ticks a waiter of a mailbox may be
    kept from the processor: half the range of the tick counter. *)
Definition time_ok (time : Z) : Prop := time < RT_TICK_MAX / 2.
Definition soon (k : kernel) (w : wait_locals) : Prop := u32 (rt_tick k - wl_tick w) < 2 ^ 31.
Definition resumable (k : kernel) (c : waiting_call) : Prop :=
  match c with InSend _ _ w | InRecv _ w => soon k w | _ => True end.

(** The steps that can come next: interrupts at any time; calls by the thread that
    runs, on objects that exist; a thread that was waiting first returns. *)
Definition may_call (a : action) (k : kernel) : Prop :=
  match a with
  | Take s time => is_Some (semaphores k !! s) ∧ time_ok time
  | Release s => is_Some (semaphores k !! s)
  | Send mb v time => is_Some (mailboxes k !! mb) ∧ 0 ≤ v < 2 ^ 32 ∧ time_ok time
  | Recv mb time => is_Some (mailboxes k !! mb) ∧ time_ok time
  | Sleep tick => 0 ≤ tick ∧ time_ok tick
  | _ => True
  end.
Definition allowed (a : action) (w : world) : Prop :=
  let k := w_kernel w in
  match a with
  | Tick => True
  | IrqRelease s => is_Some (semaphores k !! s)
  | Resume => (∃ th, running k th) ∧ ∃ c, w_calls w !! rt_current_thread k = Some c ∧ resumable k c
  | _ => (∃ th, running k th) ∧ w_calls w !! rt_current_thread k = None ∧ may_call a k
  end.

Inductive runs (w : world) : list event → world → Prop :=
  | runs_none : runs w [] w
  | runs_step tr w1 a es w2 : runs w tr w1 → allowed a w1 → exec a w1 = Ok (es, w2) → runs w (tr ++ es) w2.

(** A given order of steps, executed. *)
#[global] Instance running_dec k : Decision (∃ th, running k th).
Proof.
  destruct (threads k !! rt_current_thread k) as [th|] eqn:E.
  - destruct (decide (stat_of th = RT_THREAD_RUNNING)) as [Hs|Hs]; [left; by exists th|right].
    intros (th' & E' & Hs'). rewrite E in E'. by injection E' as <-.
  - right. intros (th' & E' & _). by rewrite E in E'.
Defined.
#[global] Instance may_call_dec a k : Decision (may_call a k).
Proof. unfold may_call, time_ok. destruct a; apply _. Defined.
#[global] Instance resumable_dec k c : Decision (resumable k c).
Proof. unfold resumable, soon. destruct c; apply _. Defined.
#[global] Instance resume_dec k (o : option waiting_call) : Decision (∃ c, o = Some c ∧ resumable k c).
Proof.
  destruct o as [c|]; [|right; by intros (c & E & _)]. destruct (decide (resumable k c)) as [Hc|Hc]; [left; by exists c|right].
  intros (c' & E & Hc'). by injection E as <-.
Defined.
#[global] Instance allowed_dec a w : Decision (allowed a w).
Proof. unfold allowed. destruct a; apply _. Defined.
Fixpoint play (acts : list action) (tr : list event) (w : world) : option (list event * world) :=
  match acts with
  | [] => Some (tr, w)
  | a :: rest =>
      if decide (allowed a w) then
        match exec a w with Ok (es, w2) => play rest (tr ++ es) w2 | Err _ => None end
      else None
  end.
Lemma play_runs w acts : ∀ tr w1 r, runs w tr w1 → play acts tr w1 = Some r → runs w r.1 r.2.
Proof.
  induction acts as [|a rest IH]; intros tr w1 r Hrun E; [by injection E as <-|].
  simpl in E. case_decide as Ha; [|done]. destruct (exec a w1) as [[es w2]|f] eqn:He; [|done].
  by apply (IH (tr ++ es) w2); [eapply runs_step|].
Qed.
Lemma play_trace w acts tr : fst <$> play acts [] w = Some tr → ∃ w', play acts [] w = Some (tr, w') ∧ runs w tr w'.
Proof.
  destruct (play acts [] w) as [[tr' w']|] eqn:E; [|done]. intros [= ->]. exists w'. split; [done|].
  by apply (play_runs w acts [] w _ (runs_none w)) in E.
Qed.
End Steps.

(** ** What a step changes

    [c] are the threads whose state may change, [g] is the wait list that may
    grow. *)
Record step_frame (g : option qid) (c : addr → Prop) (k k' : kernel) : Prop := {
  sf_inv : kernel_inv k';
  sf_cur : current_ok k';
  sf_nest : rt_interrupt_nest k' = rt_interrupt_nest k;
  sf_lock : rt_scheduler_lock_nest k' = rt_scheduler_lock_nest k;
  sf_foremost : rt_scheduler_lock_nest k = 0 → foremost k → foremost k';
  sf_threads : ∀ t th, ¬ c t → threads k !! t = Some th →
    ∃ th', threads k' !! t = Some th' ∧ stat_class th' = stat_class th ∧ error th' = error th;
  sf_queues : ∀ q t, waiting q → ¬ c t → t ∈ queue k' q ↔ t ∈ queue k q;
  sf_empty : ∀ q, waiting q → g ≠ Some q → queue k q = [] → queue k' q = []
}.

Lemma core_view k k' (c : addr → Prop) :
  (∀ t th, ¬ c t → threads k !! t = Some th → ∃ th', threads k' !! t = Some th' ∧ thread_core th' = thread_core th) →
  ∀ t th, ¬ c t → threads k !! t = Some th →
    ∃ th', threads k' !! t = Some th' ∧ stat_class th' = stat_class th ∧ error th' = error th.
Proof.
  intros Hc t th Ht E. destruct (Hc t th Ht E) as (th' & E' & Hcore). exists th'.
  split; [done|]. split; [by apply core_class|by apply (f_equal error) in Hcore].
Qed.

(** The first waiter of [q] leaves it, if there is one. *)
Lemma popped_frame k k' q :
  kernel_inv k' → current_ok k' → rt_interrupt_nest k' = rt_interrupt_nest k →
  rt_scheduler_lock_nest k' = rt_scheduler_lock_nest k →
  (rt_scheduler_lock_nest k = 0 → foremost k → foremost k') →
  queue k' q = tail (queue k q) → (∀ q', ¬ ready_list q' → q' ≠ q → queue k' q' = queue k q') →
  (∀ t th, head (queue k q) ≠ Some t → threads k !! t = Some th →
    ∃ th', threads k' !! t = Some th' ∧ thread_core th' = thread_core th) →
  step_frame None (λ t, head (queue k q) = Some t) k k'.
Proof.
  intros Hi Hc Hn Hl Hfm Hq Ho Ht. constructor; [done|done|done|done|done|by apply core_view| |].
  - intros q' t Hw Hne. destruct (decide (q' = q)) as [->|Hd].
    + rewrite Hq. destruct (queue k q) as [|u l]; [done|]. simpl in *. rewrite elem_of_cons. naive_solver.
    + by rewrite Ho by (done || by apply waiting_not_ready).
  - intros q' Hw _ E. destruct (decide (q' = q)) as [->|Hd]; [by rewrite Hq, E|].
    by rewrite Ho by (done || by apply waiting_not_ready).
Qed.
Lemma mb_done_frame q mb x' k k' : mb_done q mb x' k k' → step_frame None (λ t, head (queue k q) = Some t) k k'.
Proof. intros Hd. apply popped_frame; apply Hd. Qed.
Lemma hands_frame q t l temp k k' :
  queue k q = t :: l → hands q t l temp k k' → step_frame None (λ t, head (queue k q) = Some t) k k'.
Proof.
  intros Hq Hh. destruct (objs_fields _ _ (ha_objs _ _ _ _ _ _ Hh)) as (_ & _ & _ & _ & _ & _ & _ & El & En & _).
  apply popped_frame; rewrite ?Hq; try apply Hh; [done|done|intros ? _; by apply Hh|]. intros t' th Hne. apply Hh. simpl in Hne. congruence.
Qed.
(** The caller goes to sleep in [q]. *)
Lemma waits_frame q th flag time temp k k0 k' :
  waits q (no_error th) flag time temp k0 k' → rt_interrupt_nest k0 = rt_interrupt_nest k →
  rt_current_thread k0 = rt_current_thread k → queues k0 = queues k →
  rt_scheduler_lock_nest k0 = rt_scheduler_lock_nest k →
  (∀ t, t ≠ rt_current_thread k → threads k0 !! t = threads k !! t) →
  step_frame (Some q) (eq (rt_current_thread k)) k k'.
Proof.
  intros Hw En Ec Eq El Et. destruct (objs_fields _ _ (wa_objs _ _ _ _ _ _ _ Hw)) as (_ & _ & _ & _ & _ & _ & _ & El' & En' & _).
  assert (∀ q', queue k0 q' = queue k q') as Eqs by (intros q'; unfold queue; by rewrite Eq).
  constructor; [apply Hw|apply Hw|by rewrite En', <-En|by rewrite El', <-El|rewrite <-El; intros Hl _; by apply Hw| | |].
  - apply core_view. intros t t_th Hne Ht. rewrite <-Et in Ht by congruence.
    apply (wa_threads _ _ _ _ _ _ _ Hw); [congruence|done].
  - intros q' t Hwq Hne. destruct (decide (q' = q)) as [->|Hd].
    + destruct (wa_queue _ _ _ _ _ _ _ Hw) as (l1 & l2 & E1 & E2 & _).
      rewrite E2, <-Eqs, E1, !elem_of_app, elem_of_cons, Ec. naive_solver.
    + by rewrite (wa_others _ _ _ _ _ _ _ Hw), Eqs by (done || by apply waiting_not_ready).
  - intros q' Hwq Hne E. rewrite (wa_others _ _ _ _ _ _ _ Hw); [by rewrite Eqs|by apply waiting_not_ready|congruence].
Qed.
Lemma asleep_frame tick k k' : asleep tick k k' → step_frame None (eq (rt_current_thread k)) k k'.
Proof.
  intros Ha. destruct (objs_fields _ _ (as_objs _ _ _ Ha)) as (_ & _ & _ & _ & _ & _ & _ & El & En & _).
  constructor; [apply Ha|apply Ha|done|done|intros Hl _; by apply Ha| | |].
  - apply core_view. intros t th Hne. apply Ha. congruence.
  - intros q t Hw _. by rewrite (as_queues _ _ _ Ha) by by apply waiting_not_ready.
  - intros q Hw _ E. by rewrite (as_queues _ _ _ Ha) by by apply waiting_not_ready.
Qed.
Lemma scheduled_frame k k' :
  kernel_inv k → current_ok k → scheduled k k' → kernel_inv k' → step_frame None (λ _, False) k k'.
Proof.
  intros Hk Hc Hs Hi. pose proof (sc_frame _ _ Hs) as Hf.
  destruct (objs_fields _ _ (objs_scheduled _ _ Hs)) as (_ & _ & _ & _ & _ & _ & _ & El & En & _).
  constructor; [done|apply Hs|done|done|intros Hl _; by apply (scheduled_foremost k)| | |].
  - apply core_view. intros t th _ Ht. by apply (frame_thread _ _ _ _ Hf).
  - intros q t Hw _. unfold queue. by rewrite (fr_queues _ _ Hf) by by apply waiting_not_ready.
  - intros q Hw _ E. unfold queue. by rewrite (fr_queues _ _ Hf) by by apply waiting_not_ready.
Qed.
(** The threads whose timer is due at the next tick. *)
Definition due (k : kernel) (t : addr) : Prop := pending k t ∧ ticks_left k t ≤ 1.
#[global] Instance due_dec k t : Decision (due k t).
Proof. unfold due. apply _. Defined.
Lemma ticked_frame k k' : ticked k k' → step_frame None (due k) k k'.
Proof.
  intros Hk. destruct (objs_fields _ _ (tk_objs _ _ Hk)) as (_ & _ & _ & _ & _ & _ & _ & El & En & _).
  constructor; [apply (tk_ok _ _ Hk)|apply (tk_ok _ _ Hk)|done|done|apply Hk| | |].
  - intros t th Hd Ht. destruct (decide (pending k t)) as [Hp|Hp].
    + apply (tk_waiting _ _ Hk); [done| |done]. unfold due in Hd. destruct (decide (ticks_left k t ≤ 1)); [tauto|lia].
    + by destruct (tk_others _ _ Hk t th Hp Ht) as [_ ?].
  - intros q t Hw Hd. rewrite (tk_queues _ _ Hk) by by apply waiting_not_ready. unfold due in Hd. tauto.
  - intros q Hw _ E. apply elem_of_nil_inv. intros t. rewrite (tk_queues _ _ Hk) by by apply waiting_not_ready.
    rewrite E. by intros [?%not_elem_of_nil _].
Qed.
(** Only objects and the book-keeping of interrupts change. *)
Lemma same_frame k k' :
  kernel_inv k' → current_ok k' → threads k' = threads k → queues k' = queues k → rt_interrupt_nest k' = rt_interrupt_nest k →
  rt_scheduler_lock_nest k' = rt_scheduler_lock_nest k → rt_current_thread k' = rt_current_thread k →
  step_frame None (λ _, False) k k'.
Proof.
  intros Hi Hc Et Eq En El Ec. constructor; [done|done|done|done| | | |]; unfold queue, foremost; rewrite ?Et, ?Eq, ?Ec; eauto.
Qed.

(** ** The invariant *)
Definition call_queue (c : waiting_call) : option qid :=
  match c with InTake s => Some (QSuspend s) | InSend mb _ _ => Some (QSender mb) | InRecv mb _ => Some (QSuspend mb) | InSleep => None end.
(** The locals of a call: its own thread, and a time limit that is left. *)
Definition locals_ok (t : addr) (w : wait_locals) : Prop := wl_thread w = t ∧ wl_timeout w ≠ 0 ∧ time_ok (wl_timeout w).
Definition call_ok (k : kernel) (t : addr) (c : waiting_call) : Prop :=
  match c with
  | InTake s => is_Some (semaphores k !! s)
  | InSend mb v w => is_Some (mailboxes k !! mb) ∧ 0 ≤ v < 2 ^ 32 ∧ locals_ok t w
  | InRecv mb w => is_Some (mailboxes k !! mb) ∧ locals_ok t w
  | InSleep => True
  end.
(** A caller either waits in the queue, with no error yet, or it has been made
    ready to go on. *)
Definition in_wait (k : kernel) (t : addr) (q : qid) : Prop :=
  ∃ th, threads k !! t = Some th ∧
    ((t ∈ queue k q ∧ error th = RT_EOK) ∨ (t ∉ queue k q ∧ stat_class th = RT_THREAD_READY)).
(** What the calls say about one thread. *)
Definition thread_settled (k : kernel) (calls : gmap addr waiting_call) (t : addr) : Prop :=
  (∀ c, calls !! t = Some c → call_ok k t c ∧ ∀ q, call_queue c = Some q → in_wait k t q) ∧
  (∀ q, waiting q → t ∈ queue k q → ∃ c, calls !! t = Some c ∧ call_queue c = Some q).

Record world_ok (w : world) : Prop := {
  wk_clock : clock_ok (w_kernel w);
  wk_nest : rt_interrupt_nest (w_kernel w) = 0;
  wk_lock : rt_scheduler_lock_nest (w_kernel w) = 0;
  wk_foremost : foremost (w_kernel w);
  wk_sems : ∀ s x, semaphores (w_kernel w) !! s = Some x → sem_ok (w_kernel w) s x;
  wk_boxes : ∀ mb x, mailboxes (w_kernel w) !! mb = Some x → mailbox_ok (w_kernel w) mb x;
  wk_apart : ∀ a, is_Some (semaphores (w_kernel w) !! a) → mailboxes (w_kernel w) !! a = None;
  wk_threads : ∀ t, thread_settled (w_kernel w) (w_calls w) t
}.

Lemma call_waiting c q : call_queue c = Some q → waiting q.
Proof. by destruct c; intros [= <-]. Qed.

(** The objects after a step: each is as it was, or well-formed again. *)
Record objects_step (g : option qid) (k k' : kernel) : Prop := {
  os_sems : ∀ s x, semaphores k' !! s = Some x →
    sem_ok k' s x ∨ (semaphores k !! s = Some x ∧ (g = Some (QSuspend s) → sem_value x = 0));
  os_boxes : ∀ mb x, mailboxes k' !! mb = Some x → mailbox_ok k' mb x ∨ mailboxes k !! mb = Some x;
  os_dom_sems : ∀ s, is_Some (semaphores k' !! s) ↔ is_Some (semaphores k !! s);
  os_dom_boxes : ∀ mb, is_Some (mailboxes k' !! mb) ↔ is_Some (mailboxes k !! mb)
}.
Lemma objects_same g k k' :
  semaphores k' = semaphores k → mailboxes k' = mailboxes k →
  (∀ s x, g = Some (QSuspend s) → semaphores k !! s = Some x → sem_value x = 0) → objects_step g k k'.
Proof. intros E1 E2 Hg. constructor; rewrite ?E1, ?E2; eauto. Qed.

Section Next.
Context (g : option qid) (c : addr → Prop) `{!∀ t, Decision (c t)} (w : world) (k' : kernel) (calls' : gmap addr waiting_call).
Let k := w_kernel w.
Context (Hw : world_ok w) (Hf : step_frame g c k k') (Ho : objects_step g k k').

Lemma call_ok_next t call : call_ok k t call → call_ok k' t call.
Proof. destruct call; simpl; rewrite ?(os_dom_sems _ _ _ Ho), ?(os_dom_boxes _ _ _ Ho); done. Qed.
Lemma in_wait_next t q : waiting q → ¬ c t → in_wait k t q → in_wait k' t q.
Proof.
  intros Hq Hc (th & Ht & Hor). destruct (sf_threads _ _ _ _ Hf t th Hc Ht) as (th' & Ht' & Es & Ee).
  exists th'. split; [done|]. rewrite Es, Ee, (sf_queues _ _ _ _ Hf) by done. exact Hor.
Qed.
Lemma world_next :
  clock_side k' → (∀ t, ¬ c t → calls' !! t = w_calls w !! t) → (∀ t, c t → thread_settled k' calls' t) →
  world_ok (mkWorld k' calls').
Proof.
  intros Hs Hcalls Hchanged. constructor; simpl.
  - apply clock_ok_side. split; [apply Hf|]. split; [apply Hf|done].
  - rewrite (sf_nest _ _ _ _ Hf). apply Hw.
  - rewrite (sf_lock _ _ _ _ Hf). apply Hw.
  - apply (sf_foremost _ _ _ _ Hf); apply Hw.
  - intros s x Hx. destruct (os_sems _ _ _ Ho s x Hx) as [|[Hx0 Hg]]; [done|].
    destruct (wk_sems _ Hw s x Hx0) as [_ ? ? ? ? Hempty]. constructor; try done.
    intros Hv. apply (sf_empty _ _ _ _ Hf); [done| |by apply Hempty]. intros E. apply Hg in E. lia.
  - intros mb x Hx. destruct (os_boxes _ _ _ Ho mb x Hx) as [|Hx0]; [done|].
    destruct (wk_boxes _ Hw mb x Hx0). by constructor.
  - intros a Ha. destruct (mailboxes k' !! a) as [x|] eqn:E; [|done].
    apply (os_dom_sems _ _ _ Ho), (wk_apart _ Hw) in Ha.
    assert (is_Some (mailboxes k !! a)) as [? E'] by by apply (os_dom_boxes _ _ _ Ho). unfold k in E'. congruence.
  - intros t. destruct (wk_threads _ Hw t) as [H1 H2]. fold k in H1, H2.
    destruct (decide (c t)) as [Hc|Hc]; [by apply Hchanged|]. split; rewrite Hcalls by done.
    + intros call E. destruct (H1 call E) as [Hok Hq]. split; [by apply call_ok_next|].
      intros q Eq. apply in_wait_next; [by eapply call_waiting|done|by apply Hq].
    + intros q Hq Hin. apply H2; [done|]. by apply (sf_queues _ _ _ _ Hf).
Qed.
End Next.

(** ** Accounts

    What the events say of one semaphore and one mailbox. *)
Definition takes (s : addr) (e : event) : bool := match e with Took _ s' r => bool_decide (s' = s ∧ r = RT_EOK) | _ => false end.
Definition releases (s : addr) (e : event) : bool := match e with Released _ s' r => bool_decide (s' = s ∧ r = RT_EOK) | _ => false end.
Definition ticks_of (e : event) : bool := match e with Ticked => true | _ => false end.
Definition count (f : event → bool) (tr : list event) : Z := zlen (filter (λ e, f e = true) tr).
Definition sent (mb : addr) (tr : list event) : list Z :=
  omap (λ e, match e with Sent _ mb' v r => if decide (mb' = mb ∧ r = RT_EOK) then Some v else None | _ => None end) tr.
Definition received (mb : addr) (tr : list event) : list Z :=
  omap (λ e, match e with Received _ mb' r v => if decide (mb' = mb ∧ r = RT_EOK) then v else None | _ => None end) tr.

Definition units (k : kernel) (s : addr) : Z := default 0 (sem_value <$> (semaphores k !! s)).
Definition in_box (k : kernel) (mb : addr) : list Z := default [] (mails <$> (mailboxes k !! mb)).
(** Threads that were handed a unit of [s] but have not returned from their call. *)
Definition handed_over (w : world) (s : addr) (t : addr) : Prop :=
  w_calls w !! t = Some (InTake s) ∧ t ∉ queue (w_kernel w) (QSuspend s) ∧ fmap error (threads (w_kernel w) !! t) = Some RT_EOK.
Definition transit (w : world) (s : addr) : gset addr := filter (handed_over w s) (dom (w_calls w)).

Lemma elem_transit w s t : t ∈ transit w s ↔ handed_over w s t.
Proof.
  unfold transit. rewrite elem_of_filter, elem_of_dom. split; [tauto|]. intros Ht. split; [done|]. destruct Ht as [E _]. by eexists.
Qed.
Lemma count_app f tr1 tr2 : count f (tr1 ++ tr2) = count f tr1 + count f tr2.
Proof. unfold count, zlen. rewrite filter_app, length_app. lia. Qed.
Lemma sent_app mb tr1 tr2 : sent mb (tr1 ++ tr2) = sent mb tr1 ++ sent mb tr2.
Proof. apply omap_app. Qed.
Lemma received_app mb tr1 tr2 : received mb (tr1 ++ tr2) = received mb tr1 ++ received mb tr2.
Proof. apply omap_app. Qed.

(** What every step does to the accounts. *)
Record accounted (w : world) (es : list event) (w' : world) : Prop := {
  ac_units : ∀ s, units (w_kernel w') s + Z.of_nat (size (transit w' s)) + count (takes s) es =
    units (w_kernel w) s + Z.of_nat (size (transit w s)) + count (releases s) es;
  ac_mails : ∀ mb, received mb es ++ in_box (w_kernel w') mb = in_box (w_kernel w) mb ++ sent mb es
}.

Definition one (P : Prop) `{Decision P} : Z := if decide P then 1 else 0.
Lemma one_true (P : Prop) `{Decision P} : P → one P = 1.
Proof. intros. unfold one. by rewrite decide_True. Qed.
Lemma one_false (P : Prop) `{Decision P} : ¬ P → one P = 0.
Proof. intros. unfold one. by rewrite decide_False. Qed.
Lemma one_ext (P Q : Prop) `{Decision P, Decision Q} : (P ↔ Q) → one P = one Q.
Proof. intros E. unfold one. by apply decide_ext. Qed.
#[global] Instance handed_over_dec w s t : Decision (handed_over w s t).
Proof. unfold handed_over. apply _. Defined.

Lemma size_without (A : gset addr) u : Z.of_nat (size A) = Z.of_nat (size (A ∖ {[u]})) + one (u ∈ A).
Proof.
  unfold one. case_decide as Hu.
  - rewrite size_difference by by apply singleton_subseteq_l. rewrite size_singleton.
    assert (size A ≠ 0%nat) by (intros E%size_empty_inv; set_solver). lia.
  - assert (A ∖ {[u]} = A) as -> by set_solver. lia.
Qed.
(** The threads in transit change by at most one thread. *)
Lemma transit_size w w' s u : (∀ t, t ≠ u → handed_over w' s t ↔ handed_over w s t) →
  Z.of_nat (size (transit w' s)) = Z.of_nat (size (transit w s)) - one (handed_over w s u) + one (handed_over w' s u).
Proof.
  intros Hsame. rewrite (size_without (transit w' s) u), (size_without (transit w s) u).
  assert (transit w' s ∖ {[u]} = transit w s ∖ {[u]}) as ->.
  { apply set_eq. intros t. rewrite !elem_of_difference, !elem_transit, elem_of_singleton.
    by split; intros [H1 H2]; (split; [apply (Hsame t H2)|]). }
  rewrite (one_ext _ _ (elem_transit w s u)), (one_ext _ _ (elem_transit w' s u)). lia.
Qed.

(** Waiting in [rt_sem_take] with [n] ticks left, and having been taken out. *)
Definition timed (w : world) (s t : addr) (n : Z) : Prop :=
  w_calls w !! t = Some (InTake s) ∧ t ∈ queue (w_kernel w) (QSuspend s) ∧ pending (w_kernel w) t ∧
  ticks_left (w_kernel w) t = n ∧ 1 ≤ n.
Definition woken_up (w : world) (s t : addr) : Prop :=
  w_calls w !! t = Some (InTake s) ∧ t ∉ queue (w_kernel w) (QSuspend s).
Record waits_on (w : world) (es : list event) (w' : world) : Prop := {
  wo_timed : ∀ s t n, timed w s t n →
    (count ticks_of es < n ∧ timed w' s t (n - count ticks_of es)) ∨ woken_up w' s t ∨ ∃ r, Took t s r ∈ es;
  wo_woken : ∀ s t, woken_up w s t → woken_up w' s t ∨ ∃ r, Took t s r ∈ es
}.
Record good_step (w : world) (es : list event) (w' : world) : Prop := {
  gs_ok : world_ok w';
  gs_accounts : accounted w es w';
  gs_waits : waits_on w es w'
}.

Section Good.
Context (g : option qid) (c : addr → Prop) `{!∀ t, Decision (c t)} (w : world) (k' : kernel) (calls' : gmap addr waiting_call).
Let k := w_kernel w.
Let w' := mkWorld k' calls'.
Context (Hw : world_ok w) (Hf : step_frame g c k k').
Context (Hcalls : ∀ t, ¬ c t → calls' !! t = w_calls w !! t).

Lemma waiter_view s t : w_calls w !! t = Some (InTake s) → in_wait k t (QSuspend s).
Proof. intros E. destruct (wk_threads _ Hw t) as [H1 _]. by apply (H1 _ E). Qed.
Lemma handed_over_next s t : ¬ c t → handed_over w' s t ↔ handed_over w s t.
Proof.
  intros Hc. unfold handed_over. simpl. rewrite Hcalls by done.
  destruct (decide (w_calls w !! t = Some (InTake s))) as [E|]; [|tauto].
  destruct (waiter_view s t E) as (th & Ht & _). destruct (sf_threads _ _ _ _ Hf t th Hc Ht) as (th' & Ht' & _ & Ee).
  fold k. rewrite (sf_queues _ _ _ _ Hf), Ht, Ht' by done. simpl. by rewrite Ee.
Qed.
Lemma woken_up_next s t : ¬ c t → woken_up w' s t ↔ woken_up w s t.
Proof. intros Hc. unfold woken_up. simpl. by rewrite Hcalls, (sf_queues _ _ _ _ Hf) by done. Qed.
Lemma timed_next s t n : ¬ c t → clock_frame c k k' → rt_tick k' = rt_tick k → timed w' s t n ↔ timed w s t n.
Proof.
  intros Hc Hcf Et. unfold timed. simpl. destruct (cf_timers _ _ _ Hcf t Hc) as [Hp Htm].
  rewrite Hcalls, (sf_queues _ _ _ _ Hf), Hp by done. unfold remains. by rewrite Htm, Et.
Qed.

(** A step in which no tick passes: what is to be shown are the threads in [c]
    and the accounts. *)
Lemma good_next es :
  objects_step g k k' → clock_frame c k k' → rt_tick k' = rt_tick k → count ticks_of es = 0 →
  (∀ t, c t → thread_settled k' calls' t) →
  (∀ t s, c t → w_calls w !! t = Some (InTake s) → woken_up w' s t ∨ ∃ r, Took t s r ∈ es) →
  accounted w es w' → good_step w es w'.
Proof.
  intros Ho Hcf Et Hes Hset Hin Hac. constructor; [|done|].
  - eapply world_next; try done. destruct (wk_clock _ Hw). apply Hcf. done.
  - constructor.
    + intros s t n Ht. destruct (decide (c t)) as [Hc|Hc]; [right; by apply Hin; [|apply Ht]|].
      left. rewrite Hes. replace (n - 0) with n by lia. split; [destruct Ht as (_ & _ & _ & _ & ?); lia|by apply timed_next].
    + intros s t Ht. destruct (decide (c t)) as [Hc|Hc]; [by apply Hin; [|apply Ht]|]. left. by apply woken_up_next.
Qed.
End Good.

(** ** The steps, one by one *)
Lemma wp_on_kernel {A} (m : M kernel A) w (Q : A → world → Prop) :
  wp m (w_kernel w) (λ a k', Q a (mkWorld k' (w_calls w))) → wp (zoom m) w Q.
Proof. unfold wp, zoom. simpl. by destruct (m (w_kernel w)) as [[a k']|]. Qed.
Lemma wp_settle_return {R L} t (r : R) (inside : L → waiting_call) (done : R → event) k calls Q :
  Q [done r] (mkWorld k (delete t calls)) → wp (settle t (Return r) inside done) (mkWorld k calls) Q.
Proof. intros HQ. unfold settle. by apply wp_bind, wp_modify, wp_ret. Qed.
Lemma wp_settle_park {R L} t (l : L) (inside : L → waiting_call) (done : R → event) k calls Q :
  Q [] (mkWorld k (<[t := inside l]> calls)) → wp (settle t (Park l) inside done) (mkWorld k calls) Q.
Proof. intros HQ. unfold settle. by apply wp_bind, wp_modify, wp_ret. Qed.

Section Step.
Context (w : world) (Hw : world_ok w).
Let k := w_kernel w.
Let cur := rt_current_thread k.

Lemma world_inv : kernel_inv k.
Proof. apply (wk_clock _ Hw). Qed.
Lemma world_cur : current_ok k.
Proof. apply (wk_clock _ Hw). Qed.
Lemma running_out th q : running k th → waiting q → cur ∉ queue k q.
Proof.
  intros [Ht Hs] Hq Hin. destruct (si_waiting _ _ _ _ _ (ki_sched _ world_inv) cur q Hq Hin) as (th' & Ht' & Hs').
  unfold cur in Ht'. rewrite Ht in Ht'. injection Ht' as <-. rewrite Hs in Hs'. done.
Qed.

(** Accounts of a step in which at most the thread [u] goes into transit or out. *)
Lemma accounts_one g c k' calls' es u :
  step_frame g c k k' → (∀ t, ¬ c t → calls' !! t = w_calls w !! t) → (∀ t, c t → t = u) →
  (∀ s, units k' s + one (handed_over (mkWorld k' calls') s u) + count (takes s) es =
        units k s + one (handed_over w s u) + count (releases s) es) →
  (∀ mb, received mb es ++ in_box k' mb = in_box k mb ++ sent mb es) →
  accounted w es (mkWorld k' calls').
Proof.
  intros Hf Hcalls Hu Hunits Hmails. constructor; [|done]. intros s.
  rewrite (transit_size w (mkWorld k' calls') s u).
  - specialize (Hunits s). simpl. fold k. lia.
  - intros t Ht. apply (handed_over_next g c); [done|done|done|]. intros Hc. by apply Ht, Hu.
Qed.
Lemma accounts_none g c k' calls' es :
  step_frame g c k k' → (∀ t, ¬ c t → calls' !! t = w_calls w !! t) → (∀ t, ¬ c t) →
  (∀ s, units k' s + count (takes s) es = units k s + count (releases s) es) →
  (∀ mb, received mb es ++ in_box k' mb = in_box k mb ++ sent mb es) →
  accounted w es (mkWorld k' calls').
Proof.
  intros Hf Hcalls Hc Hunits Hmails. eapply (accounts_one g c k' calls' es cur); try done; [by intros t ?%Hc|].
  intros s. rewrite (one_ext _ _ (handed_over_next g c w k' calls' Hw Hf Hcalls s cur (Hc cur))).
  specialize (Hunits s). lia.
Qed.

(** Nothing but objects and results: the caller was not waiting. *)
Lemma good_quiet k' calls' es :
  step_frame None (λ _, False) k k' → objects_step None k k' → clock_frame (λ _, False) k k' → rt_tick k' = rt_tick k →
  count ticks_of es = 0 → (∀ t, calls' !! t = w_calls w !! t) →
  (∀ s, units k' s + count (takes s) es = units k s + count (releases s) es) →
  (∀ mb, received mb es ++ in_box k' mb = in_box k mb ++ sent mb es) →
  good_step w es (mkWorld k' calls').
Proof.
  intros Hf Ho Hcf Et Hes Hcalls Hunits Hmails.
  eapply (good_next None (λ _, False)); try done. eapply accounts_none; try done. by intros t [].
Qed.

(** The caller parks: it was not waiting, and waits in [q] now. *)
Lemma good_park k' q call :
  step_frame (Some q) (eq cur) k k' → objects_step (Some q) k k' → clock_frame (eq cur) k k' → rt_tick k' = rt_tick k →
  (∀ s, units k' s = units k s) → (∀ mb, in_box k' mb = in_box k mb) →
  (∀ s, w_calls w !! cur ≠ Some (InTake s)) → call_ok k cur call → call_queue call = Some q → cur ∈ queue k' q →
  (∃ th, threads k' !! cur = Some th ∧ error th = RT_EOK) →
  good_step w [] (mkWorld k' (<[cur := call]> (w_calls w))).
Proof.
  intros Hf Ho Hcf Et Hunits Hmails Hnot Hcall Hq Hin (th & Ht & He).
  pose proof (call_waiting _ _ Hq) as Hwq.
  assert (∀ t, cur ≠ t → <[cur := call]> (w_calls w) !! t = w_calls w !! t) as Hcalls by (intros; by apply lookup_insert_ne).
  eapply (good_next (Some q) (eq cur)); try done.
  - intros t <-. split.
    + intros call' E. rewrite lookup_insert_eq in E. injection E as <-. split; [by eapply call_ok_next|].
      intros q' Eq. assert (q' = q) as -> by congruence. exists th. split; [done|]. by left.
    + intros q' Hw' Hin'. exists call. rewrite lookup_insert_eq. split; [done|].
      by rewrite (si_disjoint _ _ _ _ _ (ki_sched _ (sf_inv _ _ _ _ Hf)) q' q cur Hin' Hin).
  - intros t s <- E. by apply Hnot in E.
  - eapply (accounts_one (Some q) (eq cur) k' _ [] cur); try done.
    + intros s. rewrite Hunits. f_equal. f_equal. apply one_ext. unfold handed_over. simpl. rewrite lookup_insert_eq. split.
      * intros (E & Hn & _). injection E as ->. simpl in Hq. injection Hq as <-. done.
      * intros (E & _). by apply Hnot in E.
    + intros mb. by rewrite Hmails, app_nil_r.
Qed.
End Step.

(** *** [rt_sem_take] *)
Lemma count_one f e : count f [e] = if f e then 1 else 0.
Proof. unfold count. rewrite filter_cons. case_decide as E; [by rewrite E|by destruct (f e)]. Qed.
Lemma delete_idle t (calls : gmap addr waiting_call) : calls !! t = None → ∀ u, delete t calls !! u = calls !! u.
Proof. intros E u. by rewrite delete_id. Qed.

Section Take.
Context (w : world) (Hw : world_ok w) (s : addr) (x : rt_semaphore) (th : rt_thread).
Let k := w_kernel w.
Let cur := rt_current_thread k.
Context (Hr : running k th) (Hx : semaphores k !! s = Some x).

Lemma units_set v s' :
  units (k <| semaphores := <[s := x <| sem_value := v |>]> (semaphores k) |>) s' = if decide (s' = s) then v else units k s'.
Proof.
  unfold units. simpl. case_decide as E; [subst; by rewrite lookup_insert_eq|by rewrite lookup_insert_ne].
Qed.
Lemma objects_set v : 0 ≤ v ≤ RT_SEM_VALUE_MAX → queue k (QSuspend s) = [] →
  objects_step None k (k <| semaphores := <[s := x <| sem_value := v |>]> (semaphores k) |>).
Proof.
  intros Hv Hq. pose proof (sem_ok_set k s x v (wk_sems _ Hw s x Hx) Hv Hq) as Hok. constructor; simpl; try done.
  - intros s' y Hy. destruct (decide (s' = s)) as [->|Hne].
    + left. rewrite lookup_insert_eq in Hy. by injection Hy as <-.
    + right. by rewrite lookup_insert_ne in Hy.
  - by eauto.
  - intros s'. destruct (decide (s' = s)) as [->|Hne]; [rewrite lookup_insert_eq, Hx|rewrite lookup_insert_ne by done; done].
    split; by eexists.
Qed.
Lemma set_frame v :
  step_frame None (λ _, False) k (k <| semaphores := <[s := x <| sem_value := v |>]> (semaphores k) |>).
Proof. apply same_frame; [by apply kernel_inv_sems, world_inv|apply (world_cur w Hw)|done..]. Qed.

Lemma take_step time : w_calls w !! cur = None → time_ok time →
  wp (r ← zoom (rt_sem_take s time); settle cur r (λ _, InTake s) (Took cur s)) w (good_step w).
Proof.
  intros Hidle Htime. pose proof (wk_sems _ Hw s x Hx) as Hok. pose proof (so_range _ _ _ Hok) as Hrange.
  apply wp_bind, wp_on_kernel. fold k. destruct (decide (0 < sem_value x)) as [Hv|Hv].
  - eapply wp_eq; [by apply sem_take_available|]. apply wp_settle_return.
    apply good_quiet; [done|apply set_frame|apply objects_set; [lia|by apply Hok]|by apply clock_frame_eq|done|done|by apply delete_idle| |].
    + intros s'. rewrite units_set, !count_one. simpl. case_decide as E.
      * subst s'. rewrite bool_decide_true by done. unfold units. fold k. rewrite Hx. simpl. lia.
      * rewrite bool_decide_false by naive_solver. fold k. lia.
    + intros mb. by rewrite app_nil_r.
  - destruct (decide (time = 0)) as [->|Hz].
    + eapply wp_eq; [apply sem_take_empty with x; [done|lia]|]. apply wp_settle_return.
      apply good_quiet; [done|apply same_frame; try done; [by apply world_inv|by apply world_cur]|by apply objects_same|done|done|done|by apply delete_idle| |].
      * intros s'. rewrite !count_one. simpl. rewrite bool_decide_false by (by intros []). fold k. lia.
      * intros mb. by rewrite app_nil_r.
    + eapply wp_mono; [apply (sem_take_blocks k s x th time); try done; [by apply world_inv|apply Hw|lia]|].
      intros r k' (-> & Hwa & Hok'). apply wp_settle_park.
      destruct (objs_fields _ _ (wa_objs _ _ _ _ _ _ _ Hwa)) as (Es & _ & _ & Em & _ & Et & _).
      destruct (wa_thread _ _ _ _ _ _ _ Hwa) as (th' & Ht' & _ & Hcore).
      destruct (wa_queue _ _ _ _ _ _ _ Hwa) as (l1 & l2 & _ & Hq & _).
      apply (good_park w Hw k' (QSuspend s) (InTake s)); try done.
      * eapply waits_frame; [exact Hwa|done|done|done|done|]. intros t Hne. simpl. by rewrite lookup_insert_ne.
      * apply objects_same; [done|done|]. intros s' y [= <-] Hy. assert (y = x) as -> by (unfold k in Hx; congruence). lia.
      * transitivity (k <| threads := <[rt_current_thread k := no_error th]> (threads k) |> <| primask := 1 |>);
          [by apply clock_frame_eq|apply Hwa].
      * intros s'. unfold units. by rewrite Es.
      * intros mb. unfold in_box. by rewrite Em.
      * intros s' E. fold k cur in E. congruence.
      * simpl. fold k. rewrite Hx. by eexists.
      * rewrite Hq. apply elem_of_app. right. left.
      * exists th'. split; [done|]. by apply (f_equal error) in Hcore.
Qed.
End Take.

(** *** Waking a waiter *)

(** The first waiter of [q], if there is one, leaves it and can go on. *)
Record pops (q : qid) (k k' : kernel) : Prop := {
  po_frame : step_frame None (λ t, head (queue k q) = Some t) k k';
  po_clock : clock_frame (λ t, head (queue k q) = Some t) k k';
  po_tick : rt_tick k' = rt_tick k;
  po_queue : queue k' q = tail (queue k q);
  po_others : ∀ q', ¬ ready_list q' → q' ≠ q → queue k' q' = queue k q';
  po_handed : ∀ t l, queue k q = t :: l → handed t k k'
}.
Lemma hands_pops q t l temp k k' : queue k q = t :: l → hands q t l temp k k' → pops q k k'.
Proof.
  intros Hq Hh. constructor.
  - by eapply hands_frame.
  - eapply clock_frame_weaken; [|apply Hh]. rewrite Hq. by intros ? <-.
  - by destruct (objs_fields _ _ (ha_objs _ _ _ _ _ _ Hh)) as (_ & _ & _ & _ & _ & Et & _).
  - rewrite Hq. apply Hh.
  - apply Hh.
  - intros t' l' E. rewrite Hq in E. injection E as <- <-. apply Hh.
Qed.
Lemma pops_primask q p k k' : pops q (k <| primask := p |>) k' → pops q k k'.
Proof. intros [[] [] ? ? ? ?]. constructor; first [done|by constructor]. Qed.
Lemma done_pops q mb x' k k' : mb_done q mb x' k k' → pops q k k'.
Proof. intros Hd. constructor; [by eapply mb_done_frame|apply Hd..]. Qed.
(** Nobody waits. *)
Lemma quiet_pops q k k' :
  step_frame None (λ _, False) k k' → clock_frame (λ _, False) k k' → rt_tick k' = rt_tick k → queues k' = queues k →
  queue k q = [] → pops q k k'.
Proof.
  intros Hf Hcf Et Eq E. assert (∀ q', queue k' q' = queue k q') as Eqs by (intros q'; unfold queue; by rewrite Eq).
  constructor; rewrite ?E, ?Eqs; simpl; try done.
  - destruct Hf. by constructor; eauto.
  - by eapply clock_frame_weaken; [|exact Hcf].
Qed.

Section Pop.
Context (w : world) (Hw : world_ok w) (q : qid) (k' : kernel).
Let k := w_kernel w.
Context (Hq : waiting q) (Hp : pops q k k') (Ho : objects_step None k k').

Lemma popped_waiter t : head (queue k q) = Some t →
  t ∉ queue k' q ∧ (∃ call, w_calls w !! t = Some call ∧ call_queue call = Some q) ∧
  ∃ th th', threads k !! t = Some th ∧ error th = RT_EOK ∧ threads k' !! t = Some th' ∧ error th' = RT_EOK ∧
    stat_class th' = RT_THREAD_READY.
Proof.
  intros Ht. destruct (queue k q) as [|u l] eqn:E; [done|]. injection Ht as ->.
  assert (t ∈ queue k q) as Hin by (rewrite E; left).
  assert (t ∉ queue k' q) as Hout.
  { rewrite (po_queue _ _ _ Hp), E. pose proof (si_nodup _ _ _ _ _ (ki_sched _ (world_inv w Hw)) q) as Hnd.
    fold (queue (w_kernel w) q) in Hnd. fold k in Hnd. rewrite E in Hnd. by apply NoDup_cons in Hnd as [? _]. }
  split; [done|]. destruct (wk_threads _ Hw t) as [H1 H2]. destruct (H2 q Hq Hin) as (call & Ecall & Eq).
  split; [by exists call|]. destruct (H1 call Ecall) as [_ Hwait]. destruct (Hwait q Eq) as (th & Ht & [[_ He]|[Hn _]]); [|by destruct Hn].
  destruct (po_handed _ _ _ Hp t l E) as (th0 & th' & Ht0 & Ht' & Hs & He'). unfold k in Ht0.
  assert (th0 = th) as -> by congruence. exists th, th'. split; [done|]. split; [done|]. split; [done|]. by rewrite He', He.
Qed.
Lemma popped_settled t : head (queue k q) = Some t → thread_settled k' (w_calls w) t.
Proof.
  intros Ht. destruct (popped_waiter t Ht) as (Hout & (call & Ecall & Eq) & th & th' & _ & _ & Ht' & He' & Hs').
  assert (t ∈ queue k q) as Hin by (by apply head_Some_elem_of).
  split.
  - intros call' E. assert (call' = call) as -> by congruence. destruct (wk_threads _ Hw t) as [H1 _].
    split; [by eapply (call_ok_next None); [|apply H1]|]. intros q' Eq'. assert (q' = q) as -> by congruence.
    exists th'. split; [done|]. by right.
  - intros q' Hq' Hin'. destruct (decide (q' = q)) as [->|Hne]; [done|].
    rewrite (po_others _ _ _ Hp) in Hin' by (done || by apply waiting_not_ready).
    destruct Hne. by apply (si_disjoint _ _ _ _ _ (ki_sched _ (world_inv w Hw)) q' q t).
Qed.

(** The step as a whole, when [q] is the list of a semaphore or a mailbox. *)
Lemma good_pop calls' es :
  (∀ t, calls' !! t = w_calls w !! t) → count ticks_of es = 0 →
  (∀ s, units k' s + (if decide (q = QSuspend s ∧ is_Some (semaphores k !! s) ∧ queue k q ≠ []) then 1 else 0) + count (takes s) es =
        units k s + count (releases s) es) →
  (∀ mb, received mb es ++ in_box k' mb = in_box k mb ++ sent mb es) →
  good_step w es (mkWorld k' calls').
Proof.
  intros Hcalls Hes Hunits Hmails.
  assert (calls' = w_calls w) as -> by (apply map_eq; done). clear Hcalls.
  assert (∀ s t, head (queue k q) = Some t → w_calls w !! t = Some (InTake s) → q = QSuspend s) as Htake.
  { intros s t Ht E. destruct (popped_waiter t Ht) as (_ & (call & Ecall & Eq) & _).
    assert (call = InTake s) as -> by congruence. by injection Eq. }
  eapply (good_next None (λ t, head (queue k q) = Some t)); try done; [apply Hp|apply Hp|apply Hp|by apply popped_settled| |].
  - intros t s Ht E. left. split; [done|]. simpl. rewrite <-(Htake s t Ht E). by apply popped_waiter.
  - destruct (queue k q) as [|u l] eqn:Equ.
    + eapply (accounts_none w Hw None (λ t, head (queue k q) = Some t)); try done; [apply Hp|by rewrite Equ|].
      intros s. specialize (Hunits s). rewrite decide_False in Hunits by naive_solver. fold k. lia.
    + eapply (accounts_one w Hw None (λ t, head (queue k q) = Some t) _ _ _ u); try done; [apply Hp|rewrite Equ; naive_solver|].
      intros s. assert (head (queue k q) = Some u) as Hu by by rewrite Equ.
      destruct (popped_waiter u Hu) as (Hout & (call & Ecall & Eq) & th & th' & Ht & He & Ht' & He' & _).
      assert (u ∈ queue k q) as Hin by (rewrite Equ; left).
      fold k. rewrite <-Z.add_assoc, (Z.add_comm (one _)), Z.add_assoc.
      assert (one (handed_over w s u) = 0) as ->.
      { apply one_false. intros (E & Hn & _). apply Hn. fold k. by rewrite <-(Htake s u eq_refl E). }
      specialize (Hunits s). assert (one (handed_over (mkWorld k' (w_calls w)) s u) =
        if decide (q = QSuspend s ∧ is_Some (semaphores k !! s) ∧ u :: l ≠ []) then 1 else 0) as ->; [|lia].
      unfold one. apply decide_ext. unfold handed_over. simpl. rewrite Ht'. simpl. rewrite He'. split.
      * intros (E & _ & _). split; [by apply (Htake s u)|]. split; [|done].
        destruct (wk_threads _ Hw u) as [H1 _]. by destruct (H1 _ E) as [Hs _].
      * intros (-> & [x Hx] & _). split; [|done]. rewrite Ecall. f_equal. destruct call as [s'| |mb wl|]; try done.
        -- simpl in Eq. congruence.
        -- exfalso. injection Eq as ->. destruct (wk_threads _ Hw u) as [H1 _]. destruct (H1 _ Ecall) as [[[y Hy] _] _].
           assert (mailboxes (w_kernel w) !! s = None) by (apply (wk_apart _ Hw); by eexists). congruence.
Qed.
End Pop.

(** *** [rt_sem_release], by a thread or an interrupt handler *)
Record released (s : addr) (k : kernel) (r : Z) (k' : kernel) : Prop := {
  rl_pops : pops (QSuspend s) k k';
  rl_objects : objects_step None k k';
  rl_boxes : mailboxes k' = mailboxes k;
  rl_units : ∀ s', units k' s' + (if decide (s' = s ∧ queue k (QSuspend s) ≠ []) then 1 else 0) =
    units k s' + (if decide (s' = s ∧ r = RT_EOK) then 1 else 0)
}.

Lemma release_spec k s x : kernel_inv k → current_ok k → sem_ok k s x → wp (rt_sem_release s) k (released s k).
Proof.
  intros H Hc Hok. pose proof (so_range _ _ _ Hok) as Hrange. destruct (queue k (QSuspend s)) as [|t l] eqn:Hq.
  - destruct (decide (sem_value x < RT_SEM_VALUE_MAX)) as [Hv|Hv].
    + eapply wp_eq; [by apply sem_release_count|].
      set (k' := k <| semaphores := _ |>). assert (sem_ok k' s (x <| sem_value := sem_value x + 1 |>)) as Hok'
        by (apply sem_ok_set; [done|lia|done]).
      constructor; [|constructor; simpl|done|].
      * apply quiet_pops; first [done|by apply clock_frame_eq|apply same_frame; first [done|by apply kernel_inv_sems]].
      * intros s' y Hy. destruct (decide (s' = s)) as [->|Hne].
        -- left. rewrite lookup_insert_eq in Hy. by injection Hy as <-.
        -- right. by rewrite lookup_insert_ne in Hy.
      * by eauto.
      * intros s'. destruct (decide (s' = s)) as [->|Hne]; [|by rewrite lookup_insert_ne].
        rewrite lookup_insert_eq, (so_lookup _ _ _ Hok). split; by eexists.
      * done.
      * intros s'. rewrite Hq, decide_False by naive_solver. unfold units. simpl. destruct (decide (s' = s)) as [->|Hne].
        -- rewrite lookup_insert_eq, (so_lookup _ _ _ Hok), decide_True by done. simpl. lia.
        -- rewrite lookup_insert_ne, decide_False by naive_solver. lia.
    + eapply wp_eq; [apply sem_release_full with x; [done|done|lia]|]. constructor.
      * apply quiet_pops; first [done|by apply same_frame].
      * by apply objects_same.
      * done.
      * intros s'. rewrite Hq, !decide_False by naive_solver. done.
  - eapply wp_mono; [by apply (sem_release_hands k s x t l)|]. intros r k' (-> & Hh & Hok').
    destruct (objs_fields _ _ (ha_objs _ _ _ _ _ _ Hh)) as (Es & _ & _ & Em & _). constructor.
    + apply (pops_primask _ 1), (hands_pops _ t l (primask k)); [exact Hq|exact Hh].
    + apply objects_same; [exact Es|exact Em|by intros ? ? [=]].
    + exact Em.
    + intros s'. rewrite Hq. unfold units. rewrite Es. simpl. f_equal. apply decide_ext. naive_solver.
Qed.

Definition nested (n : Z) (k : kernel) : kernel := k <| rt_interrupt_nest := n |>.
Lemma kernel_inv_nested n k : kernel_inv k → kernel_inv (nested n k).
Proof. intros H. by eapply kernel_inv_ext; [exact H|..]. Qed.
Lemma sem_ok_nested n k s x : sem_ok k s x → sem_ok (nested n k) s x.
Proof. intros []. by constructor. Qed.
Lemma released_nested n s k r k' : released s (nested n k) r k' → released s k r (nested (rt_interrupt_nest k) k').
Proof.
  intros [[[] [] ? ? ? ?] [Hs Hb ? ?] ? ?]. constructor; [|constructor|done|done]; try done.
  - constructor; try done; constructor; try done. by apply kernel_inv_nested.
  - intros s' x Hx. destruct (Hs s' x Hx) as [Hok|]; [left; by apply sem_ok_nested|by right].
  - intros mb x Hx. destruct (Hb mb x Hx) as [[]|]; [left; by constructor|by right].
Qed.

Lemma interrupt_enter_eq k : rt_interrupt_nest k = 0 → rt_interrupt_enter k = Ok (tt, nested 1 k).
Proof. destruct k. simpl. by intros ->. Qed.
Lemma interrupt_leave_eq k : rt_interrupt_nest k = 1 → rt_interrupt_leave k = Ok (tt, nested 0 k).
Proof. destruct k. simpl. by intros ->. Qed.

Section Release.
Context (w : world) (Hw : world_ok w) (s : addr) (x : rt_semaphore).
Let k := w_kernel w.
Context (Hx : semaphores k !! s = Some x).

Lemma release_good t r k' : released s k r k' → good_step w [Released t s r] (mkWorld k' (w_calls w)).
Proof.
  intros [Hp Ho Hb Hu]. apply (good_pop w Hw (QSuspend s) k'); try done.
  - intros s'. rewrite !count_one. specialize (Hu s'). fold k. simpl.
    assert ((if decide (QSuspend s = QSuspend s' ∧ is_Some (semaphores k !! s') ∧ queue k (QSuspend s) ≠ []) then 1 else 0) =
      (if decide (s' = s ∧ queue k (QSuspend s) ≠ []) then 1 else 0)) as ->.
    { apply decide_ext. split; [by intros ([= ->] & _ & ?)|]. intros [-> ?]. split; [done|]. split; [by exists x|done]. }
    assert ((if bool_decide (s = s' ∧ r = RT_EOK) then 1 else 0) = (if decide (s' = s ∧ r = RT_EOK) then 1 else 0)) as ->; [|lia].
    destruct (decide (s' = s ∧ r = RT_EOK)) as [[-> ->]|Hn]; [by rewrite bool_decide_true|].
    rewrite bool_decide_false; [done|]. by intros [-> ->]; apply Hn.
  - intros mb. unfold in_box. rewrite Hb. by rewrite app_nil_r.
Qed.
Lemma release_step t : wp (r ← zoom (rt_sem_release s); mret [Released t s r]) w (good_step w).
Proof.
  apply wp_bind, wp_on_kernel. eapply wp_mono; [apply (release_spec k s x)|].
  - by apply world_inv.
  - by apply world_cur.
  - by apply Hw.
  - intros r k' Hrl. apply wp_ret. by apply release_good.
Qed.
Lemma irq_release_step t : wp (r ← zoom (irq_release s); mret [Released t s r]) w (good_step w).
Proof.
  apply wp_bind, wp_on_kernel. unfold irq_release. pose proof (wk_nest _ Hw) as Hn. fold k in Hn |- *.
  apply wp_bind. eapply wp_eq; [by apply interrupt_enter_eq|]. apply wp_bind.
  eapply wp_mono; [apply (release_spec (nested 1 k) s x)|].
  - by apply kernel_inv_nested, world_inv.
  - apply (world_cur w Hw).
  - by apply sem_ok_nested, Hw.
  - intros r k' Hrl. pose proof (sf_nest _ _ _ _ (po_frame _ _ _ (rl_pops _ _ _ _ Hrl))) as Hn'. simpl in Hn'.
    apply wp_bind. eapply wp_eq; [by apply interrupt_leave_eq|]. apply wp_ret, wp_ret.
    apply released_nested in Hrl. rewrite Hn in Hrl. by apply release_good.
Qed.
End Release.

(** *** Composing steps *)
Lemma good_trans w es1 w1 es2 w2 : good_step w es1 w1 → good_step w1 es2 w2 → good_step w (es1 ++ es2) w2.
Proof.
  intros [_ [Hu1 Hm1] [Ht1 Hn1]] [Hok [Hu2 Hm2] [Ht2 Hn2]]. constructor; [done| |].
  - constructor.
    + intros s. rewrite !count_app. specialize (Hu1 s). specialize (Hu2 s). lia.
    + intros mb. by rewrite received_app, sent_app, <-app_assoc, Hm2, app_assoc, Hm1, app_assoc.
  - assert (∀ s t, woken_up w1 s t → woken_up w2 s t ∨ ∃ r, Took t s r ∈ es1 ++ es2) as Hlater.
    { intros s t H. destruct (Hn2 s t H) as [|[r ?]]; [by left|]. right. exists r. apply elem_of_app. by right. }
    assert (∀ s t, (∃ r, Took t s r ∈ es1) → ∃ r, Took t s r ∈ es1 ++ es2) as Hdone.
    { intros s t [r ?]. exists r. apply elem_of_app. by left. }
    constructor.
    + intros s t n H. destruct (Ht1 s t n H) as [[Hlt H1]|[H1|H1]]; [|right; by apply Hlater|right; right; by apply Hdone].
      destruct (Ht2 s t _ H1) as [[Hlt2 H2]|[H2|[r H2]]]; [|right; by left|right; right; exists r; apply elem_of_app; by right].
      left. rewrite count_app. split; [lia|]. by replace (n - (count ticks_of es1 + count ticks_of es2)) with (n - count ticks_of es1 - count ticks_of es2) by lia.
    + intros s t H. destruct (Hn1 s t H) as [H1|H1]; [by apply Hlater|right; by apply Hdone].
Qed.
Lemma good_refl w : world_ok w → good_step w [] w.
Proof.
  intros Hw. constructor; [done| |].
  - constructor; [done|]. intros mb. by rewrite app_nil_r.
  - constructor; [|by left]. intros s t n H. left. change (count ticks_of []) with 0. rewrite Z.sub_0_r.
    split; [|done]. destruct H as (_ & _ & _ & _ & ?). lia.
Qed.

(** *** Steps that concern the caller alone *)
Section Self.
Context (w : world) (Hw : world_ok w) (th : rt_thread).
Let k := w_kernel w.
Let cur := rt_current_thread k.
Context (Hr : running k th).

Lemma good_self k' calls' es :
  w_calls w !! cur = None → step_frame None (eq cur) k k' → objects_step None k k' → clock_frame (eq cur) k k' →
  rt_tick k' = rt_tick k → (∀ q, waiting q → cur ∉ queue k' q) →
  (∀ t, cur ≠ t → calls' !! t = w_calls w !! t) → (calls' !! cur = None ∨ calls' !! cur = Some InSleep) →
  count ticks_of es = 0 → (∀ s, units k' s + count (takes s) es = units k s + count (releases s) es) →
  (∀ mb, received mb es ++ in_box k' mb = in_box k mb ++ sent mb es) →
  good_step w es (mkWorld k' calls').
Proof.
  intros Hidle Hf Ho Hcf Et Hout Hcalls Hcur Hes Hunits Hmails.
  eapply (good_next None (eq cur)); try done.
  - intros t <-. split.
    + intros call E. destruct Hcur as [E'|E']; rewrite E' in E; [done|]. injection E as <-. split; [done|]. by intros q [=].
    + intros q Hq Hin. by apply Hout in Hin.
  - intros t s <- E. fold k cur in E. congruence.
  - eapply (accounts_one w Hw None (eq cur) _ _ _ cur); try done. intros s.
    assert (one (handed_over (mkWorld k' calls') s cur) = 0) as ->.
    { apply one_false. intros (E & _). simpl in E. destruct Hcur; congruence. }
    assert (one (handed_over w s cur) = 0) as ->.
    { apply one_false. intros (E & _). congruence. }
    specialize (Hunits s). fold k. lia.
Qed.

(** The wait of the running thread is over: [w1] is the world in which it is on
    its way back. *)
Lemma good_return call es :
  w_calls w !! cur = Some call →
  (∀ s, call = InTake s → ∃ r, es = [Took cur s r] ∧ error th = r) → ((∀ s, call ≠ InTake s) → es = []) →
  good_step w es (mkWorld k (delete cur (w_calls w))).
Proof.
  intros Hcall Htake Hother.
  assert (∀ t, cur ≠ t → delete cur (w_calls w) !! t = w_calls w !! t) as Hcalls by (intros; by apply lookup_delete_ne).
  assert (step_frame None (eq cur) k k) as Hf.
  { constructor; [by apply world_inv|by apply world_cur|done|done|done|by eauto|done|done]. }
  assert ((∃ s r, call = InTake s ∧ es = [Took cur s r] ∧ error th = r) ∨ ((∀ s, call ≠ InTake s) ∧ es = [])) as Hcases.
  { destruct call as [s| | |]; [left|right; split; [done|by apply Hother]..].
    destruct (Htake s eq_refl) as (r & ? & ?). by exists s, r. }
  eapply (good_next None (eq cur)); try done.
  - by apply objects_same.
  - destruct Hcases as [(s & r & _ & -> & _)|[_ ->]]; [by rewrite count_one|done].
  - intros t <-. split.
    + intros call' E. by rewrite lookup_delete_eq in E.
    + intros q Hq Hin. by apply (running_out w Hw th q Hr Hq) in Hin.
  - intros t s <- E. destruct Hcases as [(s' & r & -> & -> & _)|[Hn _]].
    + right. exists r. unfold k, cur in *. assert (s' = s) as -> by congruence. left.
    + exfalso. apply (Hn s). unfold k, cur in *. congruence.
  - eapply (accounts_one w Hw None (eq cur) _ _ _ cur); try done.
    + intros s. assert (one (handed_over (mkWorld k (delete cur (w_calls w))) s cur) = 0) as ->.
      { apply one_false. intros (E & _). simpl in E. by rewrite lookup_delete_eq in E. }
      assert (one (handed_over w s cur) = count (takes s) es) as ->; [|destruct Hcases as [(s' & r & _ & -> & _)|[_ ->]]; fold k; change (count (releases s) _) with 0; lia].
      destruct Hr as [Ht _]. destruct Hcases as [(s' & r & -> & -> & Er)|[Hn ->]].
      * rewrite count_one. simpl. destruct (decide (s' = s ∧ r = RT_EOK)) as [[-> ->]|Hd].
        -- rewrite bool_decide_true by done. apply one_true. split; [exact Hcall|]. split; [by apply (running_out w Hw th _ Hr)|].
           fold k cur. unfold cur. rewrite Ht. simpl. by rewrite Er.
        -- rewrite bool_decide_false by done. apply one_false. intros (E & _ & E'). fold k cur in E, E'.
           unfold cur in E'. rewrite Ht in E'. injection E' as E'. rewrite Hcall in E. injection E as ->. by apply Hd; rewrite <-Er.
      * apply one_false. intros (E & _). fold k cur in E. rewrite Hcall in E. injection E as E. by apply (Hn s).
    + intros mb. destruct Hcases as [(s' & r & _ & -> & _)|[_ ->]]; by rewrite app_nil_r.
Qed.
End Self.

(** *** [rt_thread_sleep] and [rt_thread_yield] *)
Section SleepYield.
Context (w : world) (Hw : world_ok w) (th : rt_thread).
Let k := w_kernel w.
Let cur := rt_current_thread k.
Context (Hr : running k th) (Hidle : w_calls w !! cur = None).

Lemma sleep_step tick : 0 ≤ tick → time_ok tick →
  wp (r ← zoom (rt_thread_sleep tick); settle cur r (λ _, InSleep) (Slept cur)) w (good_step w).
Proof.
  intros H0 H1. apply wp_bind, wp_on_kernel. eapply wp_mono; [apply (sleep_spec k th tick); [by apply world_inv|done|done]|].
  intros r k' [-> Ha]. apply wp_settle_park.
  destruct (objs_fields _ _ (as_objs _ _ _ Ha)) as (Es & _ & _ & Em & _).
  apply (good_self w Hw k').
  - done.
  - by eapply asleep_frame.
  - by apply objects_same.
  - by eapply clock_frame_asleep.
  - apply Ha.
  - intros q Hq. rewrite (as_queues _ _ _ Ha) by by apply waiting_not_ready. by apply (running_out w Hw th).
  - intros t Ht. by apply lookup_insert_ne.
  - right. apply lookup_insert_eq.
  - done.
  - intros s. unfold units. by rewrite Es.
  - intros mb. unfold in_box. by rewrite Em, app_nil_r.
Qed.

Lemma yield_spec : wp rt_thread_yield k (λ _ k', step_frame None (λ _, False) k k' ∧ objs_same k k' ∧
  clock_frame (λ _, False) k k').
Proof.
  pose proof Hr as [Ht Hs]. unfold rt_thread_yield. ksteps.
  set (k1 := k <| primask := 1 |> <| threads := <[rt_current_thread k := slice_over th]> (threads k) |>).
  assert (kernel_inv k1) as H1.
  { assert (k1 = (k <| primask := 1 |>) <| threads := <[cur := slice_over th]> (threads (k <| primask := 1 |>)) |>) as -> by done.
    apply (kernel_inv_thread (k <| primask := 1 |>) cur th (slice_over th)); [by apply kernel_inv_primask, world_inv|exact Ht|..].
    - apply stat_of_slice_over.
    - done.
    - by intros []. }
  assert (current_ok k1) as Hc1.
  { eapply (current_ok_frame k); [apply (world_cur w Hw)|exact Ht|apply stat_of_slice_over|done|done]. }
  eapply wp_mono; [apply (schedule_keeps k1); done|]. intros ? k2 [Hsc H2]. ksteps.
  pose proof (scheduled_frame k1 _ H1 Hc1 Hsc H2) as [Fi Fc Fn Fl Ff Ft Fq Fe].
  split; [|split].
  - constructor; [by apply kernel_inv_primask|done|done|done|intros Hlock _; exact (scheduled_foremost k1 k2 H1 Hc1 Hsc Hlock)| |done|done].
    intros t t_th _ Ht'. destruct (decide (t = rt_current_thread k)) as [->|Hne].
    + assert (t_th = th) as -> by congruence.
      destruct (Ft (rt_current_thread k) (slice_over th)) as (th' & E & Es & Ee); [by intros []|apply lookup_insert_eq|].
      exists th'. split; [done|]. split; [|done]. rewrite Es. unfold stat_class. by rewrite stat_of_slice_over.
    + apply (Ft t t_th); [by intros []|]. unfold k1. simpl. by rewrite lookup_insert_ne.
  - transitivity (k1 <| primask := primask k |>); [by destruct k|]. apply objs_primask. by apply objs_scheduled.
  - transitivity k1; [by apply clock_frame_eq|]. transitivity k2; [by apply clock_frame_scheduled|]. by apply clock_frame_eq.
Qed.
Lemma yield_step : wp (r ← zoom rt_thread_yield; mret [Yielded cur r]) w (good_step w).
Proof.
  apply wp_bind, wp_on_kernel. eapply wp_mono; [apply yield_spec|]. intros r k' (Hf & Ho & Hcf). apply wp_ret.
  destruct (objs_fields _ _ Ho) as (Es & _ & _ & Em & _ & Et & _).
  apply good_quiet; try done.
  - by apply objects_same.
  - intros s. unfold units. by rewrite Es.
  - intros mb. unfold in_box. by rewrite Em, app_nil_r.
Qed.
End SleepYield.

(** *** Coming back from [rt_sem_take] and [rt_thread_sleep] *)
Section Return_.
Context (w : world) (Hw : world_ok w) (th : rt_thread).
Let k := w_kernel w.
Let cur := rt_current_thread k.
Context (Hr : running k th).

Lemma return_take s : w_calls w !! cur = Some (InTake s) → wp (resume_call cur (InTake s)) w (good_step w).
Proof.
  intros Hc. pose proof Hr as [Ht _]. simpl. apply wp_bind, wp_on_kernel. fold k. unfold rt_sem_take_resume.
  eapply wp_bind, wp_get_thread; [exact Ht|]. apply wp_ret.
  assert ((if decide (error th ≠ RT_EOK) then error th else RT_EOK) = error th) as ->.
  { case_decide as E; [done|]. destruct (decide (error th = RT_EOK)); [done|]. by destruct E. }
  apply (wp_settle_return (L := addr) cur _ (λ _, InTake s)). apply (good_return w Hw th Hr (InTake s)); [done| |].
  - intros s' [= ->]. by exists (error th).
  - intros Hn. by destruct (Hn s).
Qed.

(** A change of the caller's error code only. *)
Lemma self_error_frame e :
  let k' := k <| threads := <[cur := th <| error := e |>]> (threads k) |> in
  step_frame None (eq cur) k k' ∧ objects_step None k k' ∧ clock_frame (eq cur) k k' ∧
  (∀ q, waiting q → cur ∉ queue k' q).
Proof.
  intros k'. pose proof Hr as [Ht Hs]. split; [|split; [by apply objects_same|split; [by apply clock_frame_eq|]]].
  - constructor; [|by apply (current_ok_error k), Ht; apply (world_cur w Hw)|done|done| | |done|done].
    + apply kernel_inv_error; [by apply world_inv|exact Ht].
    + intros _. by apply foremost_update with th.
    + intros t t_th Hne Ht'. exists t_th. split; [|done]. unfold k'. simpl. by rewrite lookup_insert_ne.
  - intros q Hq. by apply (running_out w Hw th q Hr Hq).
Qed.
Lemma return_sleep : w_calls w !! cur = Some InSleep → wp (resume_call cur InSleep) w (good_step w).
Proof.
  intros Hc. pose proof Hr as [Ht _].
  assert (good_step w [] (mkWorld k (delete cur (w_calls w)))) as Hback by by apply (good_return w Hw th Hr InSleep).
  simpl. apply wp_bind, wp_on_kernel. fold k. unfold rt_thread_sleep_resume.
  eapply wp_bind, wp_upd_thread; [exact Ht|]. apply wp_ret. fold cur. apply (wp_settle_return (L := addr) cur _ (λ _, InSleep)).
  apply (good_trans w [] _ _ _ Hback).
  assert (∃ e, clear_timeout th = th <| error := e |>) as [e ->].
  { unfold clear_timeout. case_decide; [by eexists|]. exists (error th). by destruct th. }
  destruct (self_error_frame e) as (Hf & Ho & Hcf & Hout).
  apply (good_self (mkWorld k (delete cur (w_calls w))) (gs_ok _ _ _ Hback) _ (delete cur (w_calls w))); try done.
  - simpl. apply lookup_delete_eq.
  - left. apply lookup_delete_eq.
  - intros mb. by rewrite app_nil_r.
Qed.
End Return_.

(** *** Mailboxes *)
Lemma settle_forget {R L} t (c : call R L) (inside : L → waiting_call) (done : R → event) k calls :
  settle t c inside done (mkWorld k (delete t calls)) = settle t c inside done (mkWorld k calls).
Proof.
  assert (∀ o : option waiting_call, partial_alter (λ _, o) t (delete t calls) = partial_alter (λ _, o) t calls) as E.
  { intros o. apply map_eq. intros u. destruct (decide (u = t)) as [->|Hne].
    - by rewrite !lookup_partial_alter_eq.
    - rewrite !lookup_partial_alter_ne by done. by rewrite lookup_delete_ne. }
  destruct c; unfold settle, set_call, mbind, M_bind, modify; simpl; by rewrite E.
Qed.

Section Box.
Context (w : world) (Hw : world_ok w) (mb : addr) (x : rt_mailbox) (th : rt_thread).
Let k := w_kernel w.
Let cur := rt_current_thread k.
Context (Hr : running k th) (Hidle : w_calls w !! cur = None) (Hx : mailboxes k !! mb = Some x).

Lemma box_ok : mailbox_ok k mb x.
Proof. by apply Hw. Qed.
Lemma box_room : 0 ≤ mb_entry x ≤ mb_size x ∧ 0 < mb_size x.
Proof. pose proof (mo_wf _ _ _ box_ok) as []. lia. Qed.
Lemma in_box_mails : in_box k mb = mails x.
Proof. unfold in_box. by rewrite Hx. Qed.

(** Mail goes in or out, and a waiter of the other side is woken. *)
Lemma box_good q x' k' calls' es :
  q = QSuspend mb ∨ q = QSender mb → mb_done q mb x' k k' → (∀ t, calls' !! t = w_calls w !! t) → count ticks_of es = 0 →
  (∀ s, count (takes s) es = 0 ∧ count (releases s) es = 0) →
  received mb es ++ mails x' = mails x ++ sent mb es → (∀ mb', mb' ≠ mb → received mb' es = [] ∧ sent mb' es = []) →
  good_step w es (mkWorld k' calls').
Proof.
  intros Hq Hd Hcalls Hes Hno Hmails Hothers. pose proof (md_boxes _ _ _ _ _ Hd) as Eb.
  assert (objects_step None k k') as Ho.
  { constructor.
    - intros s y. rewrite (md_sems _ _ _ _ _ Hd). by right.
    - intros mb' y Hy. destruct (decide (mb' = mb)) as [->|Hne]; [left|right; by rewrite Eb, lookup_insert_ne in Hy].
      rewrite Eb, lookup_insert_eq in Hy. injection Hy as <-. apply Hd.
    - intros s. by rewrite (md_sems _ _ _ _ _ Hd).
    - intros mb'. rewrite Eb. destruct (decide (mb' = mb)) as [->|Hne]; [|by rewrite lookup_insert_ne].
      rewrite lookup_insert_eq, Hx. split; by eexists. }
  apply (good_pop w Hw q k'); try done.
  - by destruct Hq as [-> | ->].
  - by eapply done_pops.
  - intros s. destruct (Hno s) as [-> ->]. fold k. rewrite decide_False.
    + unfold units. rewrite (md_sems _ _ _ _ _ Hd). lia.
    + intros (Eq & Hs & _). destruct Hq as [-> | ->]; [|done]. injection Eq as <-.
      apply (wk_apart _ Hw) in Hs. fold k in Hs. congruence.
  - intros mb'. fold k. destruct (decide (mb' = mb)) as [->|Hne].
    + rewrite in_box_mails, <-Hmails. f_equal. unfold in_box. by rewrite Eb, lookup_insert_eq.
    + destruct (Hothers mb' Hne) as [-> ->]. rewrite app_nil_r. unfold in_box. by rewrite Eb, lookup_insert_ne.
Qed.
(** The caller parks in [q]. *)
Lemma box_park q timeout k' call :
  q = QSuspend mb ∨ q = QSender mb →
  waits q (no_error th) (obj_flag (mb_parent x)) timeout (primask k) (waiting_state k th) k' →
  call_ok k cur call → call_queue call = Some q → good_step w [] (mkWorld k' (<[cur := call]> (w_calls w))).
Proof.
  intros Hq Hwa Hcall Ecall. destruct (objs_fields _ _ (wa_objs _ _ _ _ _ _ _ Hwa)) as (Es & _ & _ & Em & _ & Et & _).
  destruct (wa_thread _ _ _ _ _ _ _ Hwa) as (th' & Ht' & _ & Hcore).
  destruct (wa_queue _ _ _ _ _ _ _ Hwa) as (l1 & l2 & _ & Hl & _).
  apply (good_park w Hw k' q call); try done.
  - eapply waits_frame; [exact Hwa|done|done|done|done|]. intros t Hne. simpl. by rewrite lookup_insert_ne.
  - apply objects_same; [done|done|]. intros s y E Hy. exfalso. destruct Hq as [-> | ->]; [injection E as ->|done].
    assert (mailboxes k !! s = None) by (apply (wk_apart _ Hw); by eexists). congruence.
  - transitivity (waiting_state k th); [by apply clock_frame_eq|apply Hwa].
  - intros s. unfold units. by rewrite Es.
  - intros mb'. unfold in_box. by rewrite Em.
  - intros s E. fold k cur in E. congruence.
  - rewrite Hl. apply elem_of_app. right. left.
  - exists th'. split; [done|]. by apply (f_equal error) in Hcore.
Qed.

Lemma refused_good es k' e :
  k' = k ∨ k' = k <| threads := <[cur := th <| error := e |>]> (threads k) |> → count ticks_of es = 0 →
  (∀ s, count (takes s) es = 0 ∧ count (releases s) es = 0) → (∀ mb', received mb' es = [] ∧ sent mb' es = []) →
  good_step w es (mkWorld k' (delete cur (w_calls w))).
Proof.
  intros Hk Hes Hno Hmails. destruct Hk as [-> | ->].
  - apply good_quiet; try done; [apply same_frame; try done; [by apply world_inv|by apply (world_cur w)]|by apply objects_same|by apply delete_idle| |].
    + intros s. destruct (Hno s) as [-> ->]. done.
    + intros mb'. destruct (Hmails mb') as [-> ->]. by rewrite app_nil_r.
  - destruct (self_error_frame w Hw th Hr e) as (Hf & Ho & Hcf & Hout). apply (good_self w Hw _ (delete cur (w_calls w))); try done.
    + intros. by apply lookup_delete_ne.
    + left. apply lookup_delete_eq.
    + intros s. destruct (Hno s) as [-> ->]. done.
    + intros mb'. destruct (Hmails mb') as [-> ->]. by rewrite app_nil_r.
Qed.
End Box.

Lemma primask_back k n : k <| primask := n |> <| primask := primask k |> = k.
Proof. by destruct k. Qed.

Section BoxCalls.
Context (w : world) (Hw : world_ok w) (mb : addr) (x : rt_mailbox) (th : rt_thread).
Let k := w_kernel w.
Let cur := rt_current_thread k.
Context (Hr : running k th) (Hidle : w_calls w !! cur = None) (Hx : mailboxes k !! mb = Some x).
Let Hok : mailbox_ok k mb x := wk_boxes _ Hw mb x Hx.

(** What comes of a call, and is remembered or seen. *)
Definition send_settles (v : Z) (r : call Z wait_locals) (k' : kernel) : Prop :=
  wp (settle cur r (InSend mb v) (Sent cur mb v)) (mkWorld k' (w_calls w)) (good_step w).
Definition recv_settles (r : call (Z * option Z) wait_locals) (k' : kernel) : Prop :=
  wp (settle cur r (InRecv mb) (λ '(r, v), Received cur mb r v)) (mkWorld k' (w_calls w)) (good_step w).

Lemma counts_sent v r : count ticks_of [Sent cur mb v r] = 0 ∧
  ∀ s, count (takes s) [Sent cur mb v r] = 0 ∧ count (releases s) [Sent cur mb v r] = 0.
Proof. split; [|intros s; split]; by rewrite count_one. Qed.
Lemma counts_received r v : count ticks_of [Received cur mb r v] = 0 ∧
  ∀ s, count (takes s) [Received cur mb r v] = 0 ∧ count (releases s) [Received cur mb r v] = 0.
Proof. split; [|intros s; split]; by rewrite count_one. Qed.

Lemma send_refused v k' e r :
  k' = k ∨ k' = k <| threads := <[cur := th <| error := e |>]> (threads k) |> → r ≠ RT_EOK → send_settles v (Return r) k'.
Proof.
  intros Hk Hne. apply wp_settle_return. apply (refused_good w Hw th Hr Hidle _ _ e Hk); try apply counts_sent.
  intros mb'. split; [done|]. simpl. by rewrite decide_False by naive_solver.
Qed.
Lemma recv_refused k' e r :
  k' = k ∨ k' = k <| threads := <[cur := th <| error := e |>]> (threads k) |> → r ≠ RT_EOK → recv_settles (Return (r, None)) k'.
Proof.
  intros Hk Hne. apply wp_settle_return. apply (refused_good w Hw th Hr Hidle _ _ e Hk); try apply counts_received.
  intros mb'. split; [|done]. simpl. by rewrite decide_False by naive_solver.
Qed.

Lemma send_done v x' k' :
  mb_done (QSuspend mb) mb x' k k' → mails x' = mails x ++ [v] → send_settles v (Return RT_EOK) k'.
Proof.
  intros Hd Hm. apply wp_settle_return.
  apply (box_good w Hw mb x Hx (QSuspend mb) x'); try done; try apply counts_sent; [by left|by apply delete_idle| |].
  - simpl. rewrite decide_True by done. done.
  - intros mb' Hne. split; [done|]. simpl. by rewrite decide_False by naive_solver.
Qed.
Lemma recv_done v l x' k' :
  mb_done (QSender mb) mb x' k k' → mails x = v :: l → mails x' = l → recv_settles (Return (RT_EOK, Some v)) k'.
Proof.
  intros Hd Hm Hm'. apply wp_settle_return.
  apply (box_good w Hw mb x Hx (QSender mb) x'); try done; try apply counts_received; [by right|by apply delete_idle| |].
  - simpl. rewrite decide_True by done. by rewrite Hm, Hm', app_nil_r.
  - intros mb' Hne. split; [|done]. simpl. by rewrite decide_False by naive_solver.
Qed.

Lemma locals_fresh timeout : timeout ≠ 0 → time_ok timeout → locals_ok cur (mkLocals cur timeout (wait_start k timeout)).
Proof. done. Qed.
Lemma send_locked_good v timeout : 0 ≤ v < 2 ^ 32 → time_ok timeout →
  wp (mb_send_locked mb v timeout cur (primask k)) (k <| primask := 1 |>) (send_settles v).
Proof.
  intros Hv Ht. destruct (decide (mb_entry x = mb_size x)) as [Hfull|Hroom].
  - destruct (decide (timeout = 0)) as [->|Hz].
    + eapply wp_eq; [by apply (mb_send_locked_expired k mb x th); [apply world_inv| |apply Hw|..]|]. by apply (send_refused v _ RT_EOK); [right|].
    + eapply wp_mono; [apply (mb_send_locked_blocks k mb x th); try done; [by apply world_inv|apply Hw]|].
      intros r k' (-> & Hwa & _). apply wp_settle_park. apply (box_park w Hw mb x th Hidle Hx (QSender mb) timeout); first [done|by right].
  - pose proof (box_room w Hw mb x Hx) as [? _].
    eapply wp_mono; [apply (mb_send_locked_spec k mb x); first [done|by apply world_inv|by apply (world_cur w)|lia]|].
    intros r k' (-> & x' & Hm & _ & Hd). by apply (send_done v x').
Qed.
Lemma recv_locked_good timeout : time_ok timeout →
  wp (mb_recv_locked mb timeout cur (primask k)) (k <| primask := 1 |>) recv_settles.
Proof.
  intros Ht. destruct (decide (mb_entry x = 0)) as [Hempty|Hmail].
  - destruct (decide (timeout = 0)) as [->|Hz].
    + eapply wp_eq; [by apply (mb_recv_locked_expired k mb x th); [apply world_inv| |apply Hw|..]|].
      apply (recv_refused _ (- RT_ETIMEOUT)); [right|done]. by destruct th.
    + eapply wp_mono; [apply (mb_recv_locked_blocks k mb x th); try done; [by apply world_inv|apply Hw]|].
      intros r k' (-> & Hwa & _). apply wp_settle_park. apply (box_park w Hw mb x th Hidle Hx (QSuspend mb) timeout); first [done|by left].
  - pose proof (box_room w Hw mb x Hx) as [? _].
    eapply wp_mono; [apply (mb_recv_locked_spec k mb x); first [done|by apply world_inv|by apply (world_cur w)|lia]|].
    intros r k' (v & l & x' & Hm & -> & Hm' & _ & Hd). by apply (recv_done v l x').
Qed.

Lemma send_step v timeout : 0 ≤ v < 2 ^ 32 → time_ok timeout →
  wp (r ← zoom (rt_mb_send_wait mb v timeout); settle cur r (InSend mb v) (Sent cur mb v)) w (good_step w).
Proof.
  intros Hv Ht. apply wp_bind, wp_on_kernel. fold k. change (wp (rt_mb_send_wait mb v timeout) k (send_settles v)).
  unfold rt_mb_send_wait. ksteps. eapply assert_mb_ok; [done|]. ksteps. eapply wp_get_mb; [apply Hx|].
  case_decide as Hd; [|by apply send_locked_good]. ksteps. apply (send_refused v _ 0); [left; apply primask_back|done].
Qed.
Lemma recv_step timeout : time_ok timeout →
  wp (r ← zoom (rt_mb_recv mb timeout); settle cur r (InRecv mb) (λ '(r, v), Received cur mb r v)) w (good_step w).
Proof.
  intros Ht. apply wp_bind, wp_on_kernel. fold k. change (wp (rt_mb_recv mb timeout) k recv_settles).
  unfold rt_mb_recv. ksteps. eapply assert_mb_ok; [done|]. ksteps. eapply wp_get_mb; [apply Hx|].
  case_decide as Hd; [|by apply recv_locked_good]. ksteps. apply (recv_refused _ 0); [left; apply primask_back|done].
Qed.
End BoxCalls.

(** *** Coming back from the waits of a mailbox *)
Section BoxReturn.
Context (w : world) (Hw : world_ok w) (th : rt_thread).
Let k := w_kernel w.
Let cur := rt_current_thread k.
Context (Hr : running k th).
Let w1 := mkWorld k (delete cur (w_calls w)).

Lemma time_left_ok timeout tick now : time_ok timeout → u32 (now - tick) < 2 ^ 31 → time_ok (time_left timeout tick now).
Proof.
  unfold time_ok. change (RT_TICK_MAX / 2) with 2147483647. intros Ht Hd.
  destruct (decide (0 < timeout)) as [Hp|Hp].
  - pose proof (time_left_range timeout tick now ltac:(lia) Hd). lia.
  - unfold time_left. by rewrite decide_False.
Qed.
Lemma returning call : w_calls w !! cur = Some call → (∀ s, call ≠ InTake s) → good_step w [] w1.
Proof. intros Hc Hn. apply (good_return w Hw th Hr call); [done|by intros s ->; destruct (Hn s)|done]. Qed.
(** The loop of the call goes on in the world without it. *)
Lemma settle_returned {R L} (m : M kernel (call R L)) inside done_ :
  good_step w [] w1 → wp m k (λ r k', wp (settle cur r inside done_) (mkWorld k' (w_calls w1)) (good_step w1)) →
  wp (r ← zoom m; settle cur r inside done_) w (good_step w).
Proof.
  intros Hback Hm. apply wp_bind, wp_on_kernel. eapply wp_mono; [exact Hm|]. intros r k' Hs.
  unfold wp in Hs |- *. simpl in Hs. rewrite settle_forget in Hs.
  destruct (settle cur r inside done_ (mkWorld k' (w_calls w))) as [[es w2]|]; [|done].
  by apply (good_trans w [] w1).
Qed.

Lemma return_send mb v wl :
  w_calls w !! cur = Some (InSend mb v wl) → soon k wl → wp (resume_call cur (InSend mb v wl)) w (good_step w).
Proof.
  intros Hc Hsoon. pose proof Hr as [Ht _]. pose proof (returning _ Hc ltac:(done)) as Hback.
  pose proof (gs_ok _ _ _ Hback) as Hw1. destruct (wk_threads _ Hw cur) as [H1 _].
  destruct (H1 _ Hc) as [([x Hx] & Hv & (Hth & Hz & Htime)) _]. apply settle_returned; [done|].
  change (wp (rt_mb_send_resume mb v wl) k (send_settles w1 mb v)). unfold rt_mb_send_resume. rewrite Hth.
  eapply wp_bind, wp_get_thread; [exact Ht|]. case_decide as He.
  - apply wp_ret. apply (send_refused w1 Hw1 mb th Hr (lookup_delete_eq _ _) v k 0); [by left|done].
  - ksteps. apply (send_locked_good w1 Hw1 mb x th Hr (lookup_delete_eq _ _) Hx); [done|]. by apply time_left_ok.
Qed.
Lemma return_recv mb wl :
  w_calls w !! cur = Some (InRecv mb wl) → soon k wl → wp (resume_call cur (InRecv mb wl)) w (good_step w).
Proof.
  intros Hc Hsoon. pose proof Hr as [Ht _]. pose proof (returning _ Hc ltac:(done)) as Hback.
  pose proof (gs_ok _ _ _ Hback) as Hw1. destruct (wk_threads _ Hw cur) as [H1 _].
  destruct (H1 _ Hc) as [([x Hx] & (Hth & Hz & Htime)) _]. apply settle_returned; [done|].
  change (wp (rt_mb_recv_resume mb wl) k (recv_settles w1 mb)). unfold rt_mb_recv_resume. rewrite Hth.
  eapply wp_bind, wp_get_thread; [exact Ht|]. case_decide as He.
  - apply wp_ret. apply (recv_refused w1 Hw1 mb th Hr (lookup_delete_eq _ _) k 0); [by left|done].
  - ksteps. apply (recv_locked_good w1 Hw1 mb x th Hr (lookup_delete_eq _ _) Hx). by apply time_left_ok.
Qed.
End BoxReturn.

(** *** The tick *)
Lemma objs_nested n k k' : objs_same k k' → objs_same (nested n k) (nested n k').
Proof.
  intros Ho. change (nested n (erase_threads k') = nested n (erase_threads k)). by rewrite Ho.
Qed.
Lemma nested_back n k : rt_interrupt_nest k = n → nested n k = k.
Proof. intros <-. by destruct k. Qed.
Lemma ticked_nested k k' : rt_interrupt_nest k = 0 → ticked (nested 1 k) k' → ticked k (nested 0 k').
Proof.
  intros Hn [[Hi Hc H1 H2 H3] ? ? ? ? ? ? Ho ?]. constructor; try assumption.
  - constructor; try assumption. by apply kernel_inv_nested.
  - apply (objs_nested 0) in Ho. rewrite <-(nested_back 0 k Hn) at 1. exact Ho.
Qed.

Section Tick_.
Context (user : Z → Z → M kernel unit) (w : world) (Hw : world_ok w).
Let k := w_kernel w.

Lemma systick_spec : wp (SysTick_Handler user) k (λ _ k', ticked k k').
Proof.
  pose proof (wk_nest _ Hw) as Hn. fold k in Hn. unfold SysTick_Handler.
  apply wp_bind. eapply wp_eq; [by apply interrupt_enter_eq|]. eapply wp_bind, wp_gets. unfold id. apply wp_bind.
  eapply wp_mono; [apply (tick_increase_spec user _ (nested 1 k))|].
  - destruct (wk_clock _ Hw). constructor; try done. by apply kernel_inv_nested.
  - apply Nat.lt_succ_diag_r.
  - intros [] k' Ht. destruct (objs_fields _ _ (tk_objs _ _ Ht)) as (_ & _ & _ & _ & _ & _ & _ & _ & En & _).
    eapply wp_eq; [by apply interrupt_leave_eq|]. by apply ticked_nested.
Qed.

Context (k' : kernel) (Hk : ticked k k').
Lemma due_thread t call q : due k t → w_calls w !! t = Some call → call_queue call = Some q →
  t ∈ queue k q ∧ t ∉ queue k' q ∧ ∃ th', threads k' !! t = Some th' ∧ stat_class th' = RT_THREAD_READY ∧ error th' = - RT_ETIMEOUT.
Proof.
  intros [Hp Hd] E Eq. destruct (tk_due _ _ Hk t Hp Hd) as (_ & Ht').
  destruct (wk_threads _ Hw t) as [H1 _]. destruct (H1 _ E) as [_ Hin]. destruct (Hin q Eq) as (th & Ht & Hor).
  assert (t ∈ queue k q) as Hq.
  { destruct Hor as [[? _]|[_ Hs]]; [done|]. exfalso.
    destruct (ti_susp _ _ _ (ki_timer _ (world_inv w Hw)) t Hp) as (th0 & Ht0 & Hs0).
    assert (th0 = th) as -> by congruence. unfold stat_class in Hs. rewrite Hs0 in Hs. done. }
  split; [done|]. split; [|done].
  rewrite (tk_queues _ _ Hk) by (apply waiting_not_ready; by eapply call_waiting). tauto.
Qed.
Lemma tick_good : good_step w [Ticked] (mkWorld k' (w_calls w)).
Proof.
  pose proof (ticked_frame _ _ Hk) as Hf.
  destruct (objs_fields _ _ (tk_objs _ _ Hk)) as (Es & _ & _ & Em & _). simpl in Es, Em.
  assert (objects_step None k k') as Ho by by apply objects_same.
  assert (∀ s t, handed_over (mkWorld k' (w_calls w)) s t ↔ handed_over w s t) as Hsame.
  { intros s t. destruct (decide (due k t)) as [Hd|Hd]; [|by apply (handed_over_next None (due k))].
    split; intros (E & Hn & He); destruct (due_thread t _ (QSuspend s) Hd E eq_refl) as (Hin & Hout & th' & Ht' & _ & He').
    - simpl in He. rewrite Ht' in He. simpl in He. rewrite He' in He. done.
    - by destruct Hn. }
  constructor.
  - apply (world_next None (due k) w); try done; [by apply clock_ok_side, Hk|]. intros t Hd. split.
    + intros call E. destruct (wk_threads _ Hw t) as [H1 _]. split; [by eapply (call_ok_next None); [|apply H1]|].
      intros q Eq. destruct (due_thread t call q Hd E Eq) as (_ & Hout & th' & Ht' & Hs' & _). exists th'. split; [done|]. by right.
    + intros q Hq Hin. destruct (wk_threads _ Hw t) as [_ H2]. apply (H2 q Hq).
      by apply (tk_queues _ _ Hk) in Hin as [? _]; [|apply waiting_not_ready].
  - constructor.
    + intros s. assert (transit (mkWorld k' (w_calls w)) s = transit w s) as ->.
      { apply set_eq. intros t. by rewrite !elem_transit. }
      unfold units. simpl. by rewrite Es.
    + intros mb. unfold in_box. simpl. by rewrite Em, app_nil_r.
  - constructor.
    + intros s t n (E & Hin & Hp & Hn & H1). rewrite count_one. simpl. fold k in Hin, Hp, Hn.
      destruct (decide (due k t)) as [Hd|Hd].
      * right. left. split; [done|]. by apply (due_thread t (InTake s) (QSuspend s)).
      * assert (1 < ticks_left k t) as Hl by (unfold due in Hd; destruct (decide (ticks_left k t ≤ 1)); [tauto|lia]).
        destruct (tk_later _ _ Hk t Hp Hl) as [Hp' Hl']. left. split; [lia|].
        split; [done|]. split; [|split; [done|split; simpl; lia]].
        simpl. rewrite (sf_queues _ _ _ _ Hf) by done. done.
    + intros s t [E Hn]. left. split; [done|]. simpl. intros Hin. apply (tk_queues _ _ Hk) in Hin as [? _]; [done|]. by apply waiting_not_ready.
Qed.
End Tick_.

(** ** Every order of steps *)
Section Runs.
Context (user : Z → Z → M kernel unit).

Lemma exec_good a w : world_ok w → allowed a w → wp (exec user a) w (good_step w).
Proof.
  intros Hw Ha. unfold exec, rt_thread_self. apply wp_bind, wp_on_kernel. apply wp_gets.
  replace (mkWorld (w_kernel w) (w_calls w)) with w by (by destruct w).
  destruct a as [s time|s|mb v time|mb time|tick| | |s|]; simpl in Ha.
  - destruct Ha as ([th Hr] & Hidle & [x Hx] & Ht). by apply (take_step w Hw s x th).
  - destruct Ha as (_ & _ & [x Hx]). by apply (release_step w Hw s x).
  - destruct Ha as ([th Hr] & Hidle & [x Hx] & Hv & Ht). by apply (send_step w Hw mb x th).
  - destruct Ha as ([th Hr] & Hidle & [x Hx] & Ht). by apply (recv_step w Hw mb x th).
  - destruct Ha as ([th Hr] & Hidle & H0 & Ht). by apply (sleep_step w Hw th).
  - destruct Ha as ([th Hr] & Hidle & _). by apply (yield_step w Hw th).
  - destruct Ha as ([th Hr] & call & Hcall & Hs). eapply wp_bind, wp_gets. unfold id. rewrite Hcall. apply wp_bind, wp_ret.
    destruct call as [s|mb v wl|mb wl|].
    + by apply (return_take w Hw th).
    + by apply (return_send w Hw th).
    + by apply (return_recv w Hw th).
    + by apply (return_sleep w Hw th).
  - destruct Ha as [x Hx]. by apply (irq_release_step w Hw s x).
  - apply wp_bind, wp_on_kernel. eapply wp_mono; [by apply systick_spec|]. intros [] k' Hk. apply wp_ret. by apply tick_good.
Qed.
Lemma units_pos w s : world_ok w → 0 ≤ units (w_kernel w) s.
Proof.
  intros Hw. unfold units. destruct (semaphores (w_kernel w) !! s) as [x|] eqn:E; [|done].
  destruct (so_range _ _ _ (wk_sems _ Hw s x E)). done.
Qed.
Lemma runs_good w tr w' : world_ok w → runs user w tr w' → good_step w tr w'.
Proof.
  intros Hw Hrun. induction Hrun as [|tr w1 a es w2 _ IH Ha He]; [by apply good_refl|].
  apply (good_trans w tr w1); [done|]. pose proof (exec_good a w1 (gs_ok _ _ _ IH) Ha) as Hg.
  unfold wp in Hg. by rewrite He in Hg.
Qed.
End Runs.

(** ** A running board

    [T_wait] waits for a unit of [O_sem] without a time limit, [T_sleep] for five
    ticks; [T_run] has the processor and [O_mb] holds one mail. *)
Definition board : kernel :=
  let k := scene_with (QSuspend O_sem) {[O_sem := a_sem 0]} ∅ ∅ {[O_mb := a_mailbox [5; 0; 0] 1 0]} ∅ in
  k <| queues := <[QSuspend O_sem := [T_wait; T_sleep]]> (queues k) |>.
Definition board_world : world := mkWorld board {[T_wait := InTake O_sem; T_sleep := InTake O_sem]}.

Lemma board_queue q : waiting q → queue board q = if decide (q = QSuspend O_sem) then [T_wait; T_sleep] else [].
Proof.
  intros Hq. unfold queue, qof, board. simpl. case_decide as E; [by rewrite E|].
  destruct q as [p| |s|s]; [done|done| |]; rewrite !lookup_insert_ne by congruence; [done|by rewrite lookup_empty].
Qed.
Lemma board_ok : world_ok board_world.
Proof.
  constructor.
  - constructor; [by_check|by eapply running_ok|done|by split; [repeat constructor|repeat constructor]|].
    constructor; [by eexists|constructor].
  - done.
  - done.
  - change (foremost board). by_evaluation.
  - intros s x Hx. simpl in Hx. apply lookup_singleton_Some in Hx as [<- <-]. by constructor; [..|left| |].
  - intros mb x Hx. simpl in Hx. apply lookup_singleton_Some in Hx as [<- <-]. constructor; [done|done|done|by left|]. by constructor.
  - intros a [x Hx]. simpl in Hx. by apply lookup_singleton_Some in Hx as [<- _].
  - intros t. split.
    + intros c Hc. simpl in Hc. apply lookup_insert_Some in Hc as [[<- <-]|[_ [<- <-]%lookup_singleton_Some]];
        (split; [by eexists|]; intros q [= <-]; by eexists; split; [done|left]; (split; [|done]; rewrite board_queue by done; set_solver)).
    + intros q Hq Hin. simpl in Hin. rewrite board_queue in Hin by done. case_decide as E; [|by apply not_elem_of_nil in Hin].
      subst q. exists (InTake O_sem). split; [|done]. by apply list_elem_of_In in Hin as [<-|[<-|[]]].
Qed.

(** A run of it: mail, an interrupt that wakes [T_wait], waits that end and waits
    that time out. *)
Definition no_timers : Z → Z → M kernel unit := λ _ _, mret tt.
Definition board_acts : list action :=
  [Send O_mb 7 0; Recv O_mb 0; IrqRelease O_sem; Resume; Recv O_mb 10; Recv O_mb 3; Tick; Tick; Send O_mb 9 0; Resume;
   Recv O_mb 0; Take O_sem 2; Tick; Tick; Resume; Sleep 9; Tick; Resume; Yield].
Definition board_trace : list event :=
  [Sent T_run O_mb 7 RT_EOK; Received T_run O_mb RT_EOK (Some 5); Released RT_NULL O_sem RT_EOK; Took T_wait O_sem RT_EOK;
   Received T_wait O_mb RT_EOK (Some 7); Ticked; Ticked; Sent T_peer O_mb 9 RT_EOK; Received T_wait O_mb RT_EOK (Some 9);
   Received T_wait O_mb (- RT_ETIMEOUT) None; Ticked; Ticked; Took T_wait O_sem (- RT_ETIMEOUT); Ticked;
   Took T_sleep O_sem (- RT_ETIMEOUT); Yielded T_sleep RT_EOK].
Lemma board_runs : ∃ w', runs no_timers board_world board_trace w'.
Proof.
  destruct (play_trace no_timers board_world board_acts board_trace) as (w' & _ & Hr); [vm_compute; reflexivity|by exists w'].
Qed.

Section Properties.
Context (user : Z → Z → M kernel unit).

(** C1: in whatever order threads call, wait and return and interrupts come, the
    system stays well-formed, and every step that can come next executes without
    a fault. *)
Theorem system_runs w tr w' :
  world_ok w → runs user w tr w' →
  world_ok w' ∧ ∀ a, allowed a w' → ∃ es w2, exec user a w' = Ok (es, w2) ∧ world_ok w2.
Proof.
  intros Hw Hrun. pose proof (gs_ok _ _ _ (runs_good user w tr w' Hw Hrun)) as Hw'. split; [done|].
  intros a Ha. pose proof (exec_good user a w' Hw' Ha) as Hg. unfold wp in Hg.
  destruct (exec user a w') as [[es w2]|f] eqn:E; [|done]. exists es, w2. split; [done|apply Hg].
Qed.

(** C2: in every run, after every step, no thread that is ready has a better
    priority than the one on the processor: wake-ups, time-outs and time slices never
    leave an urgent thread waiting. *)
Theorem most_urgent_runs w tr w' t tht :
  world_ok w → runs user w tr w' → threads (w_kernel w') !! t = Some tht → stat_of tht = RT_THREAD_READY →
  ∃ th, running (w_kernel w') th ∧ current_priority th ≤ current_priority tht.
Proof.
  intros Hw Hrun Htt Hs. pose proof (gs_ok _ _ _ (runs_good user w tr w' Hw Hrun)) as Hw'.
  destruct (world_cur w' Hw') as (th & Ht & _). destruct (wk_foremost _ Hw' th t tht Ht Htt Hs) as [Hr Hp].
  by exists th.
Qed.

(** C4: in every run, a semaphore has as many units - counted, handed to a thread
    on its way back, or taken - as it had before and got by releases; no more
    takes succeed than there are units for. *)
Theorem sem_units_conserved w tr w' s :
  world_ok w → runs user w tr w' →
  units (w_kernel w') s + Z.of_nat (size (transit w' s)) + count (takes s) tr =
    units (w_kernel w) s + Z.of_nat (size (transit w s)) + count (releases s) tr ∧
  count (takes s) tr ≤ units (w_kernel w) s + Z.of_nat (size (transit w s)) + count (releases s) tr.
Proof.
  intros Hw Hrun. pose proof (runs_good user w tr w' Hw Hrun) as Hg. pose proof (ac_units _ _ _ (gs_accounts _ _ _ Hg) s) as E.
  split; [done|]. pose proof (units_pos w' s (gs_ok _ _ _ Hg)). lia.
Qed.

(** C3: in every run, what is received from a mailbox followed by what it holds at
    the end is what it held at the start followed by what was sent: mail is
    neither lost, invented, doubled nor reordered, whoever sends, receives, waits or is
    timed out in between. *)
Theorem mailbox_in_order w tr w' mb :
  world_ok w → runs user w tr w' →
  received mb tr ++ in_box (w_kernel w') mb = in_box (w_kernel w) mb ++ sent mb tr.
Proof. intros Hw Hrun. apply (gs_accounts _ _ _ (runs_good user w tr w' Hw Hrun)). Qed.

(** C5: a thread that waits for a semaphore with [n] ticks left has, once [n] ticks
    have passed, been given its unit or its time-out: it is ready to go on, or it has
    returned. *)
Theorem take_in_time w tr w' s t n :
  world_ok w → timed w s t n → runs user w tr w' → n ≤ count ticks_of tr →
  (∃ th, threads (w_kernel w') !! t = Some th ∧ stat_class th = RT_THREAD_READY) ∨ ∃ r, Took t s r ∈ tr.
Proof.
  intros Hw Ht Hrun Hn. pose proof (runs_good user w tr w' Hw Hrun) as [Hok _ Hwaits].
  destruct (wo_timed _ _ _ Hwaits s t n Ht) as [[? _]|[[E Hout]|]]; [lia| |by right]. left.
  destruct (waiter_view w' Hok s t E) as (th & Eth & [[Hin _]|[_ Hs]]); [done|]. by exists th.
Qed.
End Properties.

Lemma system_runs_witness : ∃ w', runs no_timers board_world board_trace w' ∧
  world_ok w' ∧ ∀ a, allowed a w' → ∃ es w2, exec no_timers a w' = Ok (es, w2) ∧ world_ok w2.
Proof.
  destruct board_runs as [w' Hr]. exists w'. split; [exact Hr|].
  exact (system_runs no_timers board_world board_trace w' board_ok Hr).
Defined.
Lemma most_urgent_runs_witness : ∃ w' tht, runs no_timers board_world board_trace w' ∧
  threads (w_kernel w') !! T_idle = Some tht ∧ stat_of tht = RT_THREAD_READY ∧
  ∃ th, running (w_kernel w') th ∧ current_priority th ≤ current_priority tht.
Proof.
  destruct (play_trace no_timers board_world board_acts board_trace) as (w' & Ew & Hr); [vm_compute; reflexivity|].
  assert ((λ r, stat_of <$> (threads (w_kernel r.2) !! T_idle)) <$> play no_timers board_acts [] board_world = Some (Some RT_THREAD_READY)) as Hs
    by (vm_compute; reflexivity).
  rewrite Ew in Hs. simpl in Hs. destruct (threads (w_kernel w') !! T_idle) as [tht|] eqn:Et; [|done]. injection Hs as Hs.
  exists w', tht. split; [exact Hr|]. split; [done|]. split; [exact Hs|].
  exact (most_urgent_runs no_timers board_world board_trace w' T_idle tht board_ok Hr Et Hs).
Defined.
Lemma sem_units_conserved_witness : ∃ w', runs no_timers board_world board_trace w' ∧
  units (w_kernel w') O_sem + Z.of_nat (size (transit w' O_sem)) + 1 = 0 + 0 + 1 ∧ 1 ≤ 0 + 0 + 1.
Proof.
  destruct board_runs as [w' Hr]. exists w'. split; [exact Hr|].
  exact (sem_units_conserved no_timers board_world board_trace w' O_sem board_ok Hr).
Defined.
Lemma mailbox_in_order_witness : ∃ w', runs no_timers board_world board_trace w' ∧
  [5; 7; 9] ++ in_box (w_kernel w') O_mb = [5] ++ [7; 9].
Proof.
  destruct board_runs as [w' Hr]. exists w'. split; [exact Hr|].
  exact (mailbox_in_order no_timers board_world board_trace w' O_mb board_ok Hr).
Defined.
Lemma take_in_time_witness : ∃ w', runs no_timers board_world board_trace w' ∧
  ((∃ th, threads (w_kernel w') !! T_sleep = Some th ∧ stat_class th = RT_THREAD_READY) ∨
   ∃ r, Took T_sleep O_sem r ∈ board_trace).
Proof.
  destruct board_runs as [w' Hr]. exists w'. split; [exact Hr|].
  apply (take_in_time no_timers board_world board_trace w' O_sem T_sleep 5 board_ok); [by_evaluation|exact Hr|by vm_compute].
Defined.
