(* ===== verification/MessageQueue.v ===== *)
(** * Message queues ([src/ipc.c], lines 1862-2545)

    Messages live in fixed slots of a pool.  A slot is on the free chain, on
    the message chain, or in flight: taken by a sender or receiver that copies
    its bytes with interrupts enabled. *)
From S2P Require Import Prelude Kernel Scheduler Object Timer Thread Ipc Decide Scenario Scheduling Registry.

(** ** The chains: the code between two [rt_hw_interrupt_disable()] calls *)
Definition slot_next (x : rt_messagequeue) (i : nat) : outcome (option nat) :=
  match mq_msg_pool x !! i with Some m => Ok (msg_next m) | None => Err FBadPointer end.
Definition set_next (i : nat) (n : option nat) (x : rt_messagequeue) : outcome rt_messagequeue :=
  match mq_msg_pool x !! i with
  | Some m => Ok (x <| mq_msg_pool := <[i := m <| msg_next := n |>]> (mq_msg_pool x) |>)
  | None => Err FBadPointer
  end.
Definition set_data (i : nat) (buffer : list Z) (size : Z) (x : rt_messagequeue) : outcome rt_messagequeue :=
  match mq_msg_pool x !! i with
  | Some m =>
      match memcpy (msg_data m) 0 buffer 0 size with
      | Ok d => Ok (x <| mq_msg_pool := <[i := m <| msg_data := d |>]> (mq_msg_pool x) |>)
      | Err f => Err f
      end
  | None => Err FBadPointer
  end.

(** [msg = mq->msg_queue_free; mq->msg_queue_free = msg->next], [msg] not null. *)
Definition mq_take_free (i : nat) (x : rt_messagequeue) : outcome rt_messagequeue :=
  match slot_next x i with
  | Ok n => Ok (x <| msg_queue_free := n |>)
  | Err f => Err f
  end.
(** Lines 2174-2184: append. *)
Definition mq_link_tail (i : nat) (x : rt_messagequeue) : outcome rt_messagequeue :=
  let linked := match msg_queue_tail x with
                | Some t => set_next t (Some i) x
                | None => Ok x
                end in
  match linked with
  | Ok x =>
      Ok (x <| msg_queue_tail := Some i |>
            <| msg_queue_head := match msg_queue_head x with None => Some i | h => h end |>)
  | Err f => Err f
  end.
(** Lines 2287-2292: prepend. *)
Definition mq_link_head (i : nat) (x : rt_messagequeue) : outcome rt_messagequeue :=
  match set_next i (msg_queue_head x) x with
  | Ok x =>
      Ok (x <| msg_queue_head := Some i |>
            <| msg_queue_tail := match msg_queue_tail x with None => Some i | t => t end |>)
  | Err f => Err f
  end.
(** Lines 2437-2449: take the first message off and count down. *)
Definition mq_unlink_head (i : nat) (x : rt_messagequeue) : outcome rt_messagequeue :=
  match slot_next x i with
  | Ok n =>
      Ok (x <| msg_queue_head := n |>
            <| msg_queue_tail := if decide (msg_queue_tail x = Some i) then None else msg_queue_tail x |>
            <| mq_entry := if decide (0 < mq_entry x) then mq_entry x - 1 else mq_entry x |>)
  | Err f => Err f
  end.
(** [msg->next = mq->msg_queue_free; mq->msg_queue_free = msg] *)
Definition mq_put_free (i : nat) (x : rt_messagequeue) : outcome rt_messagequeue :=
  match set_next i (msg_queue_free x) x with
  | Ok x => Ok (x <| msg_queue_free := Some i |>)
  | Err f => Err f
  end.
Definition mq_count (x : rt_messagequeue) : rt_messagequeue := x <| mq_entry := u16 (mq_entry x + 1) |>.

(** ** Operations *)
Definition get_mq (mq : addr) : M kernel rt_messagequeue :=
  x ← gets (λ k, mqueues k !! mq); of_option FBadPointer x.
Definition put_mq (mq : addr) (x : rt_messagequeue) : M kernel unit :=
  modify (λ k, k <| mqueues := <[mq := x]> (mqueues k) |>).
Definition upd_mq (mq : addr) (f : rt_messagequeue → outcome rt_messagequeue) : M kernel unit :=
  x ← get_mq mq; x ← lift_outcome (f x); put_mq mq x.
Definition assert_mq (mq : addr) : M kernel unit :=
  RT_ASSERT (mq ≠ RT_NULL);;
  x ← get_mq mq;
  RT_ASSERT (rt_object_get_type (mq_parent x) = RT_Object_Class_MessageQueue).

(** [for (temp = 0; temp < mq->max_msgs; temp ++)]: push every slot. *)
Fixpoint push_free (n temp : nat) (x : rt_messagequeue) : outcome rt_messagequeue :=
  match n with
  | O => Ok x
  | S n => match mq_put_free temp x with Ok x => push_free n (S temp) x | Err f => Err f end
  end.

(** [rt_mq_init]: [msgpool] gives the slots of the pool, whose number is
    [pool_size / (msg_size + sizeof(struct rt_mq_message))]. *)
Definition rt_mq_init (mq : addr) (name : list Z) (msgpool : list rt_mq_message)
    (msg_size pool_size flag : Z) : M kernel Z :=
  RT_ASSERT (mq ≠ RT_NULL);;
  rt_object_init (Obj mq) RT_Object_Class_MessageQueue name;;
  x ← get_mq mq;
  rt_list_init_head (QSuspend mq);;
  let size := u16 (RT_ALIGN msg_size RT_ALIGN_SIZE) in
  let max := u16 (pool_size / (size + 4)) in
  let x := mkMq ((mq_parent x) <| obj_flag := u8 flag |>) msgpool size max 0 None None None in
  x ← lift_outcome (push_free (Z.to_nat max) 0 x);
  put_mq mq x;;
  rt_list_init_head (QSender mq);;
  mret RT_EOK.

Definition rt_mq_detach (mq : addr) : M kernel Z :=
  assert_mq mq;;
  x ← get_mq mq;
  RT_ASSERT (rt_object_is_systemobject (mq_parent x) = true);;
  rt_ipc_list_resume_all (QSuspend mq);;
  rt_ipc_list_resume_all (QSender mq);;
  rt_object_detach RT_Object_Class_MessageQueue (Obj mq);;
  mret RT_EOK.

(** Lines 2186-2213 and 2294-2321. *)
Definition mq_publish (mq temp : Z) : M kernel Z :=
  x ← get_mq mq;
  if decide (mq_entry x < RT_MQ_ENTRY_MAX) then
    put_mq mq (mq_count x);;
    wake_waiter (QSuspend mq) temp RT_EOK
  else
    rt_hw_interrupt_enable temp;;
    mret (- RT_EFULL).

(** Lines 2161-2213 with [msg = i]: the copy runs with interrupts enabled. *)
Definition mq_send_slot (mq : addr) (i : nat) (buffer : list Z) (size temp : Z) : M kernel Z :=
  upd_mq mq (mq_take_free i);;
  rt_hw_interrupt_enable temp;;
  upd_mq mq (set_next i None);;
  upd_mq mq (set_data i buffer size);;
  temp ← rt_hw_interrupt_disable;
  upd_mq mq (mq_link_tail i);;
  mq_publish mq temp.

Definition mq_send_locked (mq : addr) (buffer : list Z) (size timeout thread temp : Z)
  : M kernel (call Z wait_locals) :=
  x ← get_mq mq;
  match msg_queue_free x with
  | None =>
      upd_thread thread no_error;;
      if decide (timeout = 0) then
        rt_hw_interrupt_enable temp;;
        mret (Return (- RT_EFULL))
      else
        w ← timed_wait (QSender mq) thread (obj_flag (mq_parent x)) timeout temp;
        mret (Park w)
  | Some i =>
      r ← mq_send_slot mq i buffer size temp;
      mret (Return r)
  end.

Definition rt_mq_send_wait (mq : addr) (buffer : list Z) (size timeout : Z) : M kernel (call Z wait_locals) :=
  assert_mq mq;;
  RT_ASSERT (size ≠ 0);;
  x ← get_mq mq;
  if decide (mq_msg_size x < size) then mret (Return (- RT_ERROR))
  else
    thread ← rt_thread_self;
    temp ← rt_hw_interrupt_disable;
    x ← get_mq mq;
    if decide (msg_queue_free x = None ∧ timeout = 0) then
      rt_hw_interrupt_enable temp;;
      mret (Return (- RT_EFULL))
    else mq_send_locked mq buffer size timeout thread temp.

Definition rt_mq_send_resume (mq : addr) (buffer : list Z) (size : Z) (w : wait_locals)
  : M kernel (call Z wait_locals) :=
  th ← get_thread (wl_thread w);
  if decide (error th ≠ RT_EOK) then mret (Return (error th))
  else
    temp ← rt_hw_interrupt_disable;
    now ← rt_tick_get;
    mq_send_locked mq buffer size (time_left (wl_timeout w) (wl_tick w) now) (wl_thread w) temp.

Definition rt_mq_send (mq : addr) (buffer : list Z) (size : Z) : M kernel (call Z wait_locals) :=
  rt_mq_send_wait mq buffer size 0.

Definition rt_mq_urgent (mq : addr) (buffer : list Z) (size : Z) : M kernel Z :=
  assert_mq mq;;
  RT_ASSERT (size ≠ 0);;
  x ← get_mq mq;
  if decide (mq_msg_size x < size) then mret (- RT_ERROR)
  else
    temp ← rt_hw_interrupt_disable;
    x ← get_mq mq;
    match msg_queue_free x with
    | None =>
        rt_hw_interrupt_enable temp;;
        mret (- RT_EFULL)
    | Some i =>
        upd_mq mq (mq_take_free i);;
        rt_hw_interrupt_enable temp;;
        upd_mq mq (set_data i buffer size);;
        temp ← rt_hw_interrupt_disable;
        upd_mq mq (mq_link_head i);;
        mq_publish mq temp
    end.

(** Lines 2437-2483: the bytes copied out are the second component. *)
Definition mq_recv_slot (mq : addr) (size temp : Z) : M kernel (Z * list Z) :=
  x ← get_mq mq;
  i ← of_option FBadPointer (msg_queue_head x);
  upd_mq mq (mq_unlink_head i);;
  rt_hw_interrupt_enable temp;;
  x ← get_mq mq;
  m ← of_option FBadPointer (mq_msg_pool x !! i);
  let n := if decide (mq_msg_size x < size) then mq_msg_size x else size in
  temp ← rt_hw_interrupt_disable;
  upd_mq mq (mq_put_free i);;
  wake_waiter (QSender mq) temp (RT_EOK, take (Z.to_nat n) (msg_data m)).

Definition mq_recv_locked (mq : addr) (size timeout thread temp : Z)
  : M kernel (call (Z * list Z) wait_locals) :=
  x ← get_mq mq;
  if decide (mq_entry x = 0) then
    RT_DEBUG_IN_THREAD_CONTEXT;;
    upd_thread thread no_error;;
    if decide (timeout = 0) then
      rt_hw_interrupt_enable temp;;
      upd_thread thread timeout_error;;
      mret (Return (- RT_ETIMEOUT, []))
    else
      w ← timed_wait (QSuspend mq) thread (obj_flag (mq_parent x)) timeout temp;
      mret (Park w)
  else
    r ← mq_recv_slot mq size temp;
    mret (Return r).

Definition rt_mq_recv (mq : addr) (size timeout : Z) : M kernel (call (Z * list Z) wait_locals) :=
  assert_mq mq;;
  RT_ASSERT (size ≠ 0);;
  thread ← rt_thread_self;
  temp ← rt_hw_interrupt_disable;
  x ← get_mq mq;
  if decide (mq_entry x = 0 ∧ timeout = 0) then
    rt_hw_interrupt_enable temp;;
    mret (Return (- RT_ETIMEOUT, []))
  else mq_recv_locked mq size timeout thread temp.

Definition rt_mq_recv_resume (mq : addr) (size : Z) (w : wait_locals)
  : M kernel (call (Z * list Z) wait_locals) :=
  th ← get_thread (wl_thread w);
  if decide (error th ≠ RT_EOK) then mret (Return (error th, []))
  else
    temp ← rt_hw_interrupt_disable;
    now ← rt_tick_get;
    mq_recv_locked mq size (time_left (wl_timeout w) (wl_tick w) now) (wl_thread w) temp.

(** [while (mq->msg_queue_head != RT_NULL)] of the reset; the number of slots
    bounds the turns. *)
Fixpoint mq_drain (fuel : nat) (x : rt_messagequeue) : outcome rt_messagequeue :=
  match msg_queue_head x with
  | None => Ok x
  | Some i =>
      match fuel with
      | O => Err FFuel
      | S fuel =>
          match slot_next x i with
          | Ok n =>
              let x := x <| msg_queue_head := n |>
                         <| msg_queue_tail := if decide (msg_queue_tail x = Some i) then None
                                              else msg_queue_tail x |> in
              match mq_put_free i x with Ok x => mq_drain fuel x | Err f => Err f end
          | Err f => Err f
          end
      end
  end.
Definition rt_mq_control (mq cmd arg : Z) : M kernel Z :=
  assert_mq mq;;
  if decide (cmd = RT_IPC_CMD_RESET) then
    level ← rt_hw_interrupt_disable;
    rt_ipc_list_resume_all (QSuspend mq);;
    rt_ipc_list_resume_all (QSender mq);;
    upd_mq mq (λ x, match mq_drain (length (mq_msg_pool x)) x with
                    | Ok x => Ok (x <| mq_entry := 0 |>)
                    | Err f => Err f
                    end);;
    rt_hw_interrupt_enable level;;
    rt_schedule;;
    mret RT_EOK
  else mret (- RT_ERROR).

(** ** The chains as sequences of slots *)
Fixpoint chain (pool : list rt_mq_message) (h : option nat) (l : list nat) : Prop :=
  match l with
  | [] => h = None
  | i :: l => h = Some i ∧ ∃ m, pool !! i = Some m ∧ chain pool (msg_next m) l
  end.

(** [qs] are the slots of the queued messages, oldest first, [fs] the free
    slots and [ins] the slots in flight; every slot is exactly one of them. *)
Record mq_wf (x : rt_messagequeue) (qs fs ins : list nat) : Prop := {
  qw_head : chain (mq_msg_pool x) (msg_queue_head x) qs;
  qw_free : chain (mq_msg_pool x) (msg_queue_free x) fs;
  qw_tail : msg_queue_tail x = last qs;
  qw_slots : qs ++ fs ++ ins ≡ₚ seq 0 (length (mq_msg_pool x));
  qw_entry : mq_entry x = zlen qs;
  qw_max : zlen (mq_msg_pool x) ≤ RT_MQ_ENTRY_MAX;
  qw_data : Forall (λ m, zlen (msg_data m) = mq_msg_size x) (mq_msg_pool x)
}.

Definition slot_data (x : rt_messagequeue) (i : nat) : list Z :=
  default [] (msg_data <$> mq_msg_pool x !! i).
Definition messages (x : rt_messagequeue) (qs : list nat) : list (list Z) := slot_data x <$> qs.

Lemma chain_ext pool pool' l : ∀ h,
  (∀ i, i ∈ l → msg_next <$> pool' !! i = msg_next <$> pool !! i) → chain pool h l → chain pool' h l.
Proof.
  induction l as [|i l IH]; intros h Hext; simpl; [done|].
  intros (-> & m & Hm & Hl). split; [done|]. pose proof (Hext i (list_elem_of_here _ _)) as Hi.
  rewrite Hm in Hi. apply fmap_Some in Hi as (m' & Hm' & E). exists m'. split; [done|].
  rewrite <-E. apply IH; [|done]. intros j Hj. apply Hext. by right.
Qed.
Lemma chain_insert pool h l i m : i ∉ l → chain pool h l → chain (<[i := m]> pool) h l.
Proof.
  intros Hi. apply chain_ext. intros j Hj. rewrite list_lookup_insert_ne; [done|]. by intros ->.
Qed.
(** The last node of a chain gets a successor. *)
Lemma chain_snoc pool l t mt i m : ∀ h,
  NoDup (l ++ [t]) → i ∉ l ++ [t] → pool !! t = Some mt → pool !! i = Some m → msg_next m = None →
  chain pool h (l ++ [t]) → chain (<[t := mt <| msg_next := Some i |>]> pool) h ((l ++ [t]) ++ [i]).
Proof.
  induction l as [|j l IH]; intros h Hnd Hi Ht Hm Hn; simpl in *.
  - intros (-> & m' & Hm' & E). rewrite Ht in Hm'. injection Hm' as <-. split; [done|].
    apply not_elem_of_cons in Hi as [Hi _].
    eexists. rewrite list_lookup_insert_eq by by eapply lookup_lt_Some. split; [done|]. simpl.
    split; [done|]. exists m. by rewrite list_lookup_insert_ne.
  - intros (-> & m' & Hm' & Hl). apply NoDup_cons in Hnd as [Hj Hnd].
    apply not_elem_of_cons in Hi as [Hij Hi]. split; [done|]. exists m'.
    rewrite list_lookup_insert_ne; [|set_solver]. split; [done|]. by apply IH.
Qed.

Section Slots.
Context (x : rt_messagequeue) (qs fs ins : list nat) (i : nat).

Lemma qw_nodup : mq_wf x qs fs ins → NoDup (qs ++ fs ++ ins).
Proof. intros H. rewrite (qw_slots _ _ _ _ H). apply NoDup_seq. Qed.
Lemma qw_slot : mq_wf x qs fs ins → i ∈ qs ++ fs ++ ins → ∃ m, mq_msg_pool x !! i = Some m.
Proof.
  intros H. rewrite (qw_slots _ _ _ _ H). intros Hi. apply elem_of_seq in Hi.
  apply lookup_lt_is_Some_2. lia.
Qed.
(** A slot in flight is on neither chain. *)
Lemma qw_in_flight : mq_wf x qs fs (i :: ins) → i ∉ qs ∧ i ∉ fs ∧ ∃ m, mq_msg_pool x !! i = Some m.
Proof.
  intros H. pose proof (qw_slots _ _ _ _ H) as Hp.
  assert (NoDup (qs ++ fs ++ i :: ins)) as Hnd by (rewrite Hp; apply NoDup_seq).
  apply NoDup_app in Hnd as (_ & Hq & Hnd). apply NoDup_app in Hnd as (_ & Hf & _).
  split; [intros Hi; apply (Hq i Hi); set_solver|]. split; [intros Hi; apply (Hf i Hi); set_solver|].
  assert (i ∈ seq 0 (length (mq_msg_pool x))) as Hi by (rewrite <-Hp; set_solver).
  apply elem_of_seq in Hi. apply lookup_lt_is_Some_2. lia.
Qed.
(** Rewriting a slot in flight disturbs nothing. *)
Lemma qw_rewrite m :
  mq_wf x qs fs (i :: ins) → zlen (msg_data m) = mq_msg_size x →
  mq_wf (x <| mq_msg_pool := <[i := m]> (mq_msg_pool x) |>) qs fs (i :: ins) ∧
  messages (x <| mq_msg_pool := <[i := m]> (mq_msg_pool x) |>) qs = messages x qs.
Proof.
  intros H Hm. destruct (qw_in_flight H) as (Hq & Hf & _). destruct H. split.
  - constructor; simpl; try done; [by apply chain_insert|by apply chain_insert| | |].
    + by rewrite length_insert.
    + unfold zlen. by rewrite length_insert.
    + by apply Forall_insert.
  - unfold messages. apply list_fmap_ext. intros j y Hj. unfold slot_data. simpl.
    apply list_elem_of_lookup_2 in Hj. rewrite list_lookup_insert_ne; [done|]. by intros ->.
Qed.
End Slots.

(** ** What each locked section does to the chains *)
Definition mq_same (x x' : rt_messagequeue) : Prop :=
  mq_parent x' = mq_parent x ∧ mq_msg_size x' = mq_msg_size x ∧
  length (mq_msg_pool x') = length (mq_msg_pool x) ∧ mq_max_msgs x' = mq_max_msgs x.

Section Sections.
Context (x : rt_messagequeue) (qs fs ins : list nat) (i : nat).

Lemma take_free_spec :
  mq_wf x qs (i :: fs) ins →
  ∃ x', mq_take_free i x = Ok x' ∧ mq_wf x' qs fs (i :: ins) ∧ messages x' qs = messages x qs ∧
    mq_same x x'.
Proof.
  intros [Hh (Hf & m & Hm & Hr) Ht Hp He Hx Hd]. unfold mq_take_free, slot_next. rewrite Hm.
  eexists. split; [done|]. split; [|done]. constructor; simpl; try done.
  rewrite <-Hp. f_equiv. simpl. symmetry. apply Permutation_middle.
Qed.
Lemma unlink_head_spec :
  mq_wf x (i :: qs) fs ins →
  ∃ x', mq_unlink_head i x = Ok x' ∧ mq_wf x' qs fs (i :: ins) ∧ messages x' qs = messages x qs ∧
    slot_data x' i = slot_data x i ∧ mq_same x x'.
Proof.
  intros H. pose proof (qw_nodup _ _ _ _ H) as Hnd.
  destruct H as [(Hh & m & Hm & Hr) Hf Ht Hp He Hx Hd]. unfold mq_unlink_head, slot_next. rewrite Hm.
  eexists. split; [done|]. split; [|done]. unfold zlen in He. simpl in He.
  constructor; simpl; try done.
  - rewrite Ht, last_cons. apply NoDup_cons in Hnd as [Hi _].
    destruct (last qs) as [t|] eqn:E; [|by rewrite decide_True].
    rewrite decide_False; [done|]. intros [= ->]. apply last_Some_elem_of in E. set_solver.
  - rewrite <-Hp. simpl. by rewrite !app_assoc, <-Permutation_middle.
  - unfold zlen. rewrite decide_True by lia. lia.
Qed.
Lemma put_free_spec :
  mq_wf x qs fs (i :: ins) →
  ∃ x', mq_put_free i x = Ok x' ∧ mq_wf x' qs (i :: fs) ins ∧ messages x' qs = messages x qs ∧
    mq_same x x'.
Proof.
  intros H. destruct (qw_in_flight _ _ _ _ _ H) as (Hq & Hf & m & Hm).
  pose proof (Forall_lookup_1 _ _ _ _ (qw_data _ _ _ _ H) Hm) as Hsz.
  edestruct (qw_rewrite _ _ _ _ _ (m <| msg_next := msg_queue_free x |>) H) as [[] Hmsg]; [exact Hsz|].
  unfold mq_put_free, set_next. rewrite Hm. eexists. split; [done|]. split; [|split; [done|]].
  - constructor; simpl in *; try done.
    + split; [done|]. eexists. by rewrite list_lookup_insert_eq by by eapply lookup_lt_Some.
    + rewrite <-qw_slots0. f_equiv. apply Permutation_middle.
  - split_and!; simpl; try done. apply length_insert.
Qed.

(** Copying the message into a slot in flight. *)
Lemma set_data_spec buffer size :
  mq_wf x qs fs (i :: ins) → 0 ≤ size ≤ mq_msg_size x → size ≤ zlen buffer →
  ∃ x', set_data i buffer size x = Ok x' ∧ mq_wf x' qs fs (i :: ins) ∧
    messages x' qs = messages x qs ∧ mq_same x x' ∧
    slot_data x' i = take (Z.to_nat size) buffer ++ drop (Z.to_nat size) (slot_data x i) ∧
    slot_next x' i = slot_next x i.
Proof.
  intros H Hs Hb. destruct (qw_in_flight _ _ _ _ _ H) as (Hq & Hf & m & Hm).
  pose proof (Forall_lookup_1 _ _ _ _ (qw_data _ _ _ _ H) Hm) as Hsz. simpl in Hsz.
  unfold zlen in *.
  assert (memcpy (msg_data m) 0 buffer 0 size =
    Ok (take (Z.to_nat size) buffer ++ drop (Z.to_nat size) (msg_data m))) as Hcpy.
  { unfold memcpy, zlen. rewrite decide_True by lia. rewrite splice_0. unfold subseq. rewrite drop_0.
    do 3 f_equal. rewrite length_take. lia. }
  edestruct (qw_rewrite _ _ _ _ _ (m <| msg_data := take (Z.to_nat size) buffer ++
    drop (Z.to_nat size) (msg_data m) |>) H) as [Hwf Hmsg].
  { unfold zlen; simpl. rewrite length_app, length_take, length_drop. lia. }
  unfold set_data. rewrite Hm, Hcpy. eexists. split; [done|]. split; [exact Hwf|]. split; [exact Hmsg|].
  pose proof (lookup_lt_Some _ _ _ Hm) as Hlt.
  split; [split_and!; simpl; try done; apply length_insert|].
  unfold slot_data, slot_next; simpl. by rewrite !list_lookup_insert_eq, Hm by done.
Qed.
Lemma set_next_spec n :
  mq_wf x qs fs (i :: ins) →
  ∃ x', set_next i n x = Ok x' ∧ mq_wf x' qs fs (i :: ins) ∧ messages x' qs = messages x qs ∧
    mq_same x x' ∧ slot_data x' i = slot_data x i ∧ slot_next x' i = Ok n.
Proof.
  intros H. destruct (qw_in_flight _ _ _ _ _ H) as (Hq & Hf & m & Hm).
  pose proof (Forall_lookup_1 _ _ _ _ (qw_data _ _ _ _ H) Hm) as Hsz.
  edestruct (qw_rewrite _ _ _ _ _ (m <| msg_next := n |>) H) as [Hwf Hmsg]; [exact Hsz|].
  unfold set_next. rewrite Hm. eexists. split; [done|]. split; [exact Hwf|]. split; [exact Hmsg|].
  pose proof (lookup_lt_Some _ _ _ Hm) as Hlt.
  split; [split_and!; simpl; try done; apply length_insert|].
  unfold slot_data, slot_next; simpl. by rewrite !list_lookup_insert_eq, Hm by done.
Qed.

(** The number of queued messages leaves room for one more below the limit
    while a slot is in flight. *)
Lemma in_flight_room : mq_wf x qs fs (i :: ins) → 0 ≤ mq_entry x < RT_MQ_ENTRY_MAX.
Proof.
  intros H. pose proof (Permutation_length (qw_slots _ _ _ _ H)) as Hl.
  rewrite !length_app, length_seq in Hl. simpl in Hl.
  pose proof (qw_max _ _ _ _ H). rewrite (qw_entry _ _ _ _ H). unfold zlen in *. lia.
Qed.
Lemma link_head_spec :
  mq_wf x qs fs (i :: ins) →
  ∃ x', mq_link_head i x = Ok x' ∧ mq_wf (mq_count x') (i :: qs) fs ins ∧
    messages (mq_count x') (i :: qs) = slot_data x i :: messages x qs ∧ mq_same x x' ∧
    mq_entry x' = mq_entry x.
Proof.
  intros H. pose proof (in_flight_room H) as Hroom. unfold RT_MQ_ENTRY_MAX, RT_UINT16_MAX in Hroom.
  destruct (set_next_spec (msg_queue_head x) H) as (x1 & E & Hwf & Hmsg & Hsame & Hdata & Hnext).
  pose proof (qw_entry _ _ _ _ H) as He0.
  assert (msg_queue_tail x1 = last qs) as Ht by apply Hwf.
  assert (mq_entry x1 = mq_entry x) as He by (rewrite He0; apply Hwf).
  assert (msg_queue_head x1 = msg_queue_head x) as Hh.
  { unfold set_next in E. destruct (mq_msg_pool x !! i); [|done]. by injection E as <-. }
  unfold mq_link_head. rewrite E. eexists. split; [done|]. split; [|split; [|done]].
  - destruct Hwf. constructor; unfold mq_count; simpl; try done.
    + split; [done|]. unfold slot_next in Hnext. destruct (mq_msg_pool x1 !! i) as [m|]; [|done].
      exists m. split; [done|]. injection Hnext as ->. by rewrite <-Hh.
    + rewrite Ht. destruct qs as [|j l]; [done|]. rewrite last_cons_cons.
      by destruct (last (j :: l)) as [t|] eqn:El; [|apply last_None in El].
    + rewrite <-qw_slots0. rewrite (app_assoc qs fs (i :: ins)), <-Permutation_middle. by rewrite <-app_assoc.
    + rewrite He, He0. rewrite wrapU_small by (rewrite <-He0; lia). unfold zlen; simpl; lia.
  - unfold messages in *. rewrite fmap_cons. unfold mq_count. unfold slot_data in *; simpl in *.
    by rewrite Hdata, Hmsg.
Qed.

Lemma link_tail_spec :
  mq_wf x qs fs (i :: ins) → slot_next x i = Ok None →
  ∃ x', mq_link_tail i x = Ok x' ∧ mq_wf (mq_count x') (qs ++ [i]) fs ins ∧
    messages (mq_count x') (qs ++ [i]) = messages x qs ++ [slot_data x i] ∧ mq_same x x' ∧
    mq_entry x' = mq_entry x.
Proof.
  intros H Hn. pose proof (in_flight_room H) as Hroom. unfold RT_MQ_ENTRY_MAX, RT_UINT16_MAX in Hroom.
  destruct (qw_in_flight _ _ _ _ _ H) as (Hq & Hf & m & Hm).
  pose proof (qw_nodup _ _ _ _ H) as Hnd. destruct H as [Hh Hfree Ht Hp He Hx Hd].
  unfold slot_next in Hn. rewrite Hm in Hn. injection Hn as Hn.
  assert (∀ pool' : list rt_mq_message, length pool' = length (mq_msg_pool x) →
    (qs ++ [i]) ++ fs ++ ins ≡ₚ seq 0 (length pool')) as Hp'.
  { intros pool' ->. rewrite <-Hp, <-(app_assoc qs). apply Permutation_app_head, (Permutation_middle fs). }
  assert (u16 (mq_entry x + 1) = zlen (qs ++ [i])) as He'.
  { rewrite wrapU_small by lia. rewrite He. unfold zlen. rewrite length_app. simpl. lia. }
  unfold mq_link_tail. destruct (decide (qs = [])) as [->|Hne].
  - simpl in Hh. rewrite Ht; simpl. rewrite Hh. eexists. split; [done|]. split; [|done].
    constructor; unfold mq_count; simpl; try done; [|by apply Hp'].
    split; [done|]. by exists m.
  - destruct (last qs) as [t|] eqn:E; [|by apply last_None in E]. rewrite Ht.
    apply last_Some in E as [l ->].
    assert (t ≠ i) as Hti by set_solver. assert (t ∉ fs) as Htf.
    { apply NoDup_app in Hnd as (_ & Hdis & _). intros ?. apply (Hdis t); set_solver. }
    assert (∃ mt, mq_msg_pool x !! t = Some mt) as [mt Hmt].
    { assert (t ∈ seq 0 (length (mq_msg_pool x))) as Hin by (rewrite <-Hp; set_solver).
      apply elem_of_seq in Hin. apply lookup_lt_is_Some_2. lia. }
    unfold set_next. rewrite Hmt. eexists. split; [done|]. simpl.
    split; [|split; [|split; [split_and!; simpl; try done; apply length_insert|done]]].
    + constructor; unfold mq_count; simpl; try done.
      * destruct (msg_queue_head x) as [h|] eqn:Eh; [|by destruct l; destruct Hh].
        eapply chain_snoc; [|done|done|exact Hm|done|done]. by apply NoDup_app in Hnd as [? _].
      * by apply chain_insert.
      * by rewrite last_snoc.
      * apply Hp', length_insert.
      * unfold zlen. by rewrite length_insert.
      * apply Forall_insert; [done|]. apply (Forall_lookup_1 _ _ _ _ Hd Hmt).
    + unfold messages. rewrite fmap_app. f_equal; [|simpl; f_equal].
      * apply list_fmap_ext. intros j y Hj. unfold slot_data, mq_count; simpl.
        destruct (decide (t = y)) as [->|Hy]; [|by rewrite list_lookup_insert_ne].
        rewrite list_lookup_insert_eq by by eapply lookup_lt_Some. by rewrite Hmt.
      * unfold slot_data, mq_count; simpl. by rewrite list_lookup_insert_ne.
Qed.
End Sections.

(** ** Initialisation *)
Lemma push_free_spec n : ∀ temp x fs,
  mq_wf x [] fs (seq temp n) →
  ∃ x', push_free n temp x = Ok x' ∧ mq_wf x' [] (rev (seq temp n) ++ fs) [] ∧ mq_same x x'.
Proof.
  induction n as [|n IH]; intros temp x fs H; simpl in *; [by exists x|].
  destruct (put_free_spec _ _ _ _ _ H) as (x1 & -> & H1 & _ & Hs1).
  destruct (IH _ _ _ H1) as (x2 & -> & H2 & Hs2). exists x2. split; [done|]. split.
  - by rewrite <-app_assoc.
  - destruct Hs1 as (? & ? & ? & ?), Hs2 as (? & ? & ? & ?). split_and!; congruence.
Qed.

Lemma mq_fresh_wf pool parent size max :
  zlen pool ≤ RT_MQ_ENTRY_MAX → Forall (λ m, zlen (msg_data m) = size) pool →
  mq_wf (mkMq parent pool size max 0 None None None) [] [] (seq 0 (length pool)).
Proof. intros. by constructor. Qed.

(** ** Emptying the queue *)
Lemma put_free_entry i e x y :
  mq_put_free i (x <| mq_entry := e |>) = Ok y →
  ∃ y0, mq_put_free i x = Ok y0 ∧ y = y0 <| mq_entry := e |>.
Proof.
  unfold mq_put_free, set_next; simpl. destruct (mq_msg_pool x !! i); [|done].
  intros [= <-]. by eexists.
Qed.

Lemma mq_drain_spec qs : ∀ fuel x fs ins,
  (length qs ≤ fuel)%nat → mq_wf (x <| mq_entry := zlen qs |>) qs fs ins →
  ∃ x', mq_drain fuel x = Ok x' ∧ mq_wf (x' <| mq_entry := 0 |>) [] (rev qs ++ fs) ins ∧ mq_same x x'.
Proof.
  induction qs as [|i qs IH]; intros fuel x fs ins Hf H; simpl in *.
  { exists x. pose proof (qw_head _ _ _ _ H) as Hh. simpl in Hh.
    split; [destruct fuel; simpl; by rewrite Hh|done]. }
  destruct fuel as [|fuel]; [lia|]. simpl.
  pose proof (qw_head _ _ _ _ H) as (Hh & _). simpl in Hh. rewrite Hh.
  destruct (unlink_head_spec _ _ _ _ _ H) as (y & Ey & Hy & _ & _ & Hsy).
  unfold mq_unlink_head, slot_next in *. simpl in Ey.
  destruct (mq_msg_pool x !! i) as [m|]; [|done].
  destruct (put_free_spec _ _ _ _ _ Hy) as (z & Ez & Hz & _ & Hsz).
  match goal with |- context [mq_put_free i ?a0] => set (a := a0) end.
  assert (y = a <| mq_entry := zlen qs |>) as ->.
  { injection Ey as <-. unfold a. simpl. f_equal. unfold zlen; simpl; lia. }
  destruct (put_free_entry _ _ _ _ Ez) as (z0 & -> & ->).
  destruct (IH fuel z0 _ _ ltac:(lia) Hz) as (x' & -> & Hx' & Hs'). exists x'. split; [done|].
  split; [by rewrite <-app_assoc|].
  destruct Hsz as (? & ? & ? & ?), Hs' as (? & ? & ? & ?). simpl in *. split_and!; congruence.
Qed.

(** ** Sending and receiving *)

(** The queue [mq] holds [msgs], oldest first, and no slot is in flight. *)
Record mqueue_ok (k : kernel) (mq : addr) (x : rt_messagequeue) (msgs : list (list Z)) : Prop := {
  qo_lookup : mqueues k !! mq = Some x;
  qo_null : mq ≠ RT_NULL;
  qo_type : rt_object_get_type (mq_parent x) = RT_Object_Class_MessageQueue;
  qo_flag : obj_flag (mq_parent x) = RT_IPC_FLAG_FIFO ∨ obj_flag (mq_parent x) = RT_IPC_FLAG_PRIO;
  qo_wf : ∃ qs fs, mq_wf x qs fs [] ∧ messages x qs = msgs
}.

Lemma wp_get_mq mq x k (Q : rt_messagequeue → kernel → Prop) :
  mqueues k !! mq = Some x → Q x k → wp (get_mq mq) k Q.
Proof. intros. unfold get_mq. by ksteps. Qed.
Lemma assert_mq_ok mq x msgs k (Q : unit → kernel → Prop) :
  mqueue_ok k mq x msgs → Q tt k → wp (assert_mq mq) k Q.
Proof.
  intros [Hx Hn Ht _ _] HQ. unfold assert_mq. ksteps. eapply wp_get_mq; [done|]. by ksteps.
Qed.
Lemma wp_upd_mq mq f x x' k (Q : unit → kernel → Prop) :
  mqueues k !! mq = Some x → f x = Ok x' →
  Q tt (k <| mqueues := <[mq := x']> (mqueues k) |>) → wp (upd_mq mq f) k Q.
Proof.
  intros Hx Hf HQ. unfold upd_mq. ksteps. eapply wp_get_mq; [done|]. ksteps. unfold put_mq. by ksteps.
Qed.
(** The queue now holds [msgs], and the first waiter of [q] has been woken. *)
Record mq_done (q : qid) (mq : addr) (x : rt_messagequeue) (msgs : list (list Z)) (k k' : kernel) : Prop := {
  qd_inv : kernel_inv k';
  qd_cur : current_ok k';
  qd_ok : ∃ x', mqueue_ok k' mq x' msgs ∧ mq_same x x';
  qd_queue : queue k' q = tail (queue k q);
  qd_others : ∀ q', ¬ ready_list q' → q' ≠ q → queue k' q' = queue k q';
  qd_handed : ∀ t l, queue k q = t :: l → handed t k k'
}.

Lemma mq_same_trans x y z : mq_same x y → mq_same y z → mq_same x z.
Proof. intros (? & ? & ? & ?) (? & ? & ? & ?). split_and!; congruence. Qed.

Lemma mq_done_intro q mq x x' msgs msgs' qs fs temp k k1 k' :
  mqueue_ok k mq x msgs → mq_same x x' → mq_wf x' qs fs [] → messages x' qs = msgs' →
  threads k1 = threads k → queues k1 = queues k → mqueues k1 = <[mq := x']> (mqueues k) →
  woke q temp k1 k' → mq_done q mq x msgs' k k'.
Proof.
  intros Hok Hsame Hwf Hm Et Eq Em Hw.
  assert (∀ q', queue k1 q' = queue k q') as Eqs by (intros q'; unfold queue; by rewrite Eq).
  destruct (objs_fields _ _ (wo_objs _ _ _ _ Hw)) as (_ & _ & _ & _ & Emq & _).
  constructor; [apply Hw|apply Hw| | | |].
  - exists x'. split; [|done]. destruct Hok, Hsame as (Ep & _).
    constructor; try done; [|by rewrite Ep..|by exists qs, fs].
    rewrite Emq. ksimpl. rewrite Em. apply lookup_insert_eq.
  - rewrite <-Eqs. apply Hw.
  - intros q' Hn Hne. rewrite <-Eqs. by apply (wo_others _ _ _ _ Hw).
  - intros t l Hl. rewrite <-Eqs in Hl. destruct (wo_handed _ _ _ _ Hw _ _ Hl) as (th & th' & ? & ? & ?).
    exists th, th'. by rewrite <-Et.
Qed.

Section Transfer.
Context (k : kernel) (mq : addr) (x : rt_messagequeue) (msgs : list (list Z)).
Context (H : kernel_inv k) (Hc : current_ok k) (Hok : mqueue_ok k mq x msgs).

Lemma mq_publish_done x1 qs fs msgs' temp k1 :
  mq_same x x1 → mq_wf (mq_count x1) qs fs [] → messages (mq_count x1) qs = msgs' →
  mq_entry x1 < RT_MQ_ENTRY_MAX → kernel_inv k1 → current_ok k1 →
  threads k1 = threads k → queues k1 = queues k → mqueues k1 = <[mq := x1]> (mqueues k) →
  wp (mq_publish mq temp) k1 (λ r k', r = RT_EOK ∧ mq_done (QSuspend mq) mq x msgs' k k').
Proof.
  intros Hsame Hwf Hm He H1 Hc1 Et Eq Em. unfold mq_publish. ksteps.
  eapply wp_get_mq; [rewrite Em; apply lookup_insert_eq|]. rewrite decide_True by done. unfold put_mq. ksteps.
  eapply wake_waiter_spec; [|done|done|].
  - by eapply kernel_inv_ext; [exact H1|..].
  - intros k' Hw. split; [done|].
    eapply (mq_done_intro _ _ x (mq_count x1)); [done|done|exact Hwf|done| | | |exact Hw]; ksimpl.
    + exact Et.
    + exact Eq.
    + by rewrite Em, insert_insert_eq.
Qed.

(** The message a sender leaves: its bytes, then what the slot held before. *)
Definition stores (buffer : list Z) (size : Z) (m : list Z) : Prop :=
  zlen m = mq_msg_size x ∧ take (Z.to_nat size) m = take (Z.to_nat size) buffer.

Lemma stores_intro (buffer : list Z) (size : Z) old :
  0 ≤ size ≤ mq_msg_size x → size ≤ zlen buffer → zlen old = mq_msg_size x →
  stores buffer size (take (Z.to_nat size) buffer ++ drop (Z.to_nat size) old).
Proof.
  unfold zlen. intros Hs Hb Ho. split.
  - unfold zlen. rewrite length_app, length_take, length_drop. lia.
  - rewrite take_app_le by (rewrite length_take; lia). rewrite take_take. f_equal. lia.
Qed.

Lemma slot_data_size x' qs fs ins i :
  mq_wf x' qs fs ins → i ∈ qs ++ fs ++ ins → zlen (slot_data x' i) = mq_msg_size x'.
Proof.
  intros Hwf Hi. destruct (qw_slot _ _ _ _ _ Hwf Hi) as [m Hm]. unfold slot_data. rewrite Hm. simpl.
  apply (Forall_lookup_1 _ _ _ _ (qw_data _ _ _ _ Hwf) Hm).
Qed.

Lemma mq_send_slot_spec i buffer size qs fs temp :
  mq_wf x qs (i :: fs) [] → messages x qs = msgs → 0 ≤ size ≤ mq_msg_size x → size ≤ zlen buffer →
  wp (mq_send_slot mq i buffer size temp) (k <| primask := 1 |>) (λ r k', r = RT_EOK ∧
    ∃ m, stores buffer size m ∧ mq_done (QSuspend mq) mq x (msgs ++ [m]) k k').
Proof.
  intros Hwf Hm Hs Hb.
  destruct (take_free_spec _ _ _ _ _ Hwf) as (x1 & E1 & H1 & M1 & S1).
  destruct (set_next_spec _ _ _ _ _ None H1) as (x2 & E2 & H2 & M2 & S2 & _ & N2).
  pose proof (mq_same_trans _ _ _ S1 S2) as S12.
  assert (mq_msg_size x2 = mq_msg_size x) as Z2 by apply S12.
  destruct (set_data_spec _ _ _ _ _ buffer size H2) as (x3 & E3 & H3 & M3 & S3 & D3 & N3); [lia|done|].
  rewrite N2 in N3. destruct (link_tail_spec _ _ _ _ _ H3 N3) as (x4 & E4 & H4 & M4 & S4 & En4).
  unfold mq_send_slot. ksteps.
  eapply wp_upd_mq; [apply Hok|exact E1|]. ksteps.
  eapply wp_upd_mq; [apply lookup_insert_eq|exact E2|]. ksteps.
  eapply wp_upd_mq; [apply lookup_insert_eq|exact E3|]. ksteps.
  eapply wp_upd_mq; [apply lookup_insert_eq|exact E4|]. ksimpl. rewrite !insert_insert_eq.
  eapply wp_mono; [eapply (mq_publish_done x4 _ _ _ temp); [|exact H4|exact M4|..]; try done|].
  - eauto using mq_same_trans.
  - rewrite En4. by eapply in_flight_room.
  - by eapply kernel_inv_ext; [exact H|..].
  - intros r k' [-> Hd]. split; [done|]. eexists. split; [|by rewrite M3, M2, M1, Hm in Hd].
    rewrite D3. apply stores_intro; [done|done|]. rewrite <-Z2.
    eapply slot_data_size; [exact H2|set_solver].
Qed.

(** There is a free slot exactly when fewer messages than slots are queued. *)
Lemma mq_free_slot :
  (length msgs < length (mq_msg_pool x))%nat →
  ∃ i qs fs, mq_wf x qs (i :: fs) [] ∧ messages x qs = msgs ∧ msg_queue_free x = Some i.
Proof.
  intros Hl. destruct (qo_wf _ _ _ _ Hok) as (qs & [|i fs] & Hwf & Hm).
  - pose proof (Permutation_length (qw_slots _ _ _ _ Hwf)) as E.
    rewrite !length_app, length_seq in E. simpl in E.
    rewrite <-Hm in Hl. unfold messages in Hl. rewrite length_fmap in Hl. lia.
  - exists i, qs, fs. split; [done|]. split; [done|]. apply (qw_free _ _ _ _ Hwf).
Qed.
Lemma mq_no_free_slot :
  length msgs = length (mq_msg_pool x) → msg_queue_free x = None.
Proof.
  intros Hl. destruct (qo_wf _ _ _ _ Hok) as (qs & [|i fs] & Hwf & Hm); [apply Hwf|].
  pose proof (Permutation_length (qw_slots _ _ _ _ Hwf)) as E.
  rewrite !length_app, length_seq in E. simpl in E.
  rewrite <-Hm in Hl. unfold messages in Hl. rewrite length_fmap in Hl. lia.
Qed.
Lemma mq_entry_length : mq_entry x = zlen msgs.
Proof.
  destruct (qo_wf _ _ _ _ Hok) as (qs & fs & Hwf & <-).
  rewrite (qw_entry _ _ _ _ Hwf). unfold zlen, messages. by rewrite length_fmap.
Qed.

Lemma mq_send_spec buffer size timeout :
  (length msgs < length (mq_msg_pool x))%nat → 0 < size ≤ mq_msg_size x → size ≤ zlen buffer →
  wp (rt_mq_send_wait mq buffer size timeout) k (λ r k', r = Return RT_EOK ∧
    ∃ m, stores buffer size m ∧ mq_done (QSuspend mq) mq x (msgs ++ [m]) k k').
Proof.
  intros Hl Hs Hb. destruct (mq_free_slot Hl) as (i & qs & fs & Hwf & Hm & Hf).
  unfold rt_mq_send_wait. ksteps. eapply assert_mq_ok; [done|]. ksteps; [lia|].
  eapply wp_get_mq; [apply Hok|]. rewrite decide_False by lia. ksteps.
  eapply wp_get_mq; [apply Hok|]. rewrite decide_False by naive_solver. unfold mq_send_locked. ksteps.
  eapply wp_get_mq; [apply Hok|]. rewrite Hf. ksteps.
  eapply wp_mono; [by apply (mq_send_slot_spec i buffer size qs fs); [..|lia|]|].
  intros r k' [-> Hd]. by ksteps.
Qed.
Lemma mq_send_too_long buffer size timeout :
  mq_msg_size x < size → 0 < size → rt_mq_send_wait mq buffer size timeout k = Ok (Return (- RT_ERROR), k).
Proof.
  intros Hs H0. apply wp_exact. unfold rt_mq_send_wait. ksteps. eapply assert_mq_ok; [done|]. ksteps; [lia|].
  eapply wp_get_mq; [apply Hok|]. rewrite decide_True by lia. by ksteps.
Qed.
Lemma mq_send_full buffer size :
  length msgs = length (mq_msg_pool x) → 0 < size ≤ mq_msg_size x →
  rt_mq_send mq buffer size k = Ok (Return (- RT_EFULL), k).
Proof.
  intros Hl Hs. apply wp_exact. unfold rt_mq_send, rt_mq_send_wait. ksteps.
  eapply assert_mq_ok; [done|]. ksteps; [lia|].
  eapply wp_get_mq; [apply Hok|]. rewrite decide_False by lia. ksteps.
  eapply wp_get_mq; [apply Hok|]. rewrite decide_True by (by split; [apply mq_no_free_slot|]).
  ksteps. by destruct k.
Qed.

Lemma mq_urgent_spec buffer size :
  (length msgs < length (mq_msg_pool x))%nat → 0 < size ≤ mq_msg_size x → size ≤ zlen buffer →
  wp (rt_mq_urgent mq buffer size) k (λ r k', r = RT_EOK ∧
    ∃ m, stores buffer size m ∧ mq_done (QSuspend mq) mq x (m :: msgs) k k').
Proof.
  intros Hl Hs Hb. destruct (mq_free_slot Hl) as (i & qs & fs & Hwf & Hm & Hf).
  destruct (take_free_spec _ _ _ _ _ Hwf) as (x1 & E1 & H1 & M1 & S1).
  assert (mq_msg_size x1 = mq_msg_size x) as Z1 by apply S1.
  destruct (set_data_spec _ _ _ _ _ buffer size H1) as (x3 & E3 & H3 & M3 & S3 & D3 & N3); [lia|done|].
  destruct (link_head_spec _ _ _ _ _ H3) as (x4 & E4 & H4 & M4 & S4 & En4).
  unfold rt_mq_urgent. ksteps. eapply assert_mq_ok; [done|]. ksteps; [lia|].
  eapply wp_get_mq; [apply Hok|]. rewrite decide_False by lia. ksteps.
  eapply wp_get_mq; [apply Hok|]. rewrite Hf. ksteps.
  eapply wp_upd_mq; [apply Hok|exact E1|]. ksteps.
  eapply wp_upd_mq; [apply lookup_insert_eq|exact E3|]. ksteps.
  eapply wp_upd_mq; [apply lookup_insert_eq|exact E4|]. ksimpl. rewrite !insert_insert_eq.
  eapply wp_mono; [eapply (mq_publish_done x4 _ _ _ (primask k)); [|exact H4|exact M4|..]; try done|].
  - eauto using mq_same_trans.
  - rewrite En4. by eapply in_flight_room.
  - by eapply kernel_inv_ext; [exact H|..].
  - intros r k' [-> Hd]. split; [done|]. eexists. split; [|by rewrite M3, M1, Hm in Hd].
    rewrite D3. apply stores_intro; [lia|done|]. rewrite <-Z1.
    eapply slot_data_size; [exact H1|set_solver].
Qed.

(** The oldest message goes out, cut to the receiver's buffer, and its slot
    is free again; the first waiting sender is woken. *)
Lemma mq_recv_spec size timeout m l :
  msgs = m :: l → 0 < size →
  wp (rt_mq_recv mq size timeout) k (λ r k',
    r = Return (RT_EOK, take (Z.to_nat (Z.min size (mq_msg_size x))) m) ∧
    mq_done (QSender mq) mq x l k k').
Proof.
  intros Emsgs Hs. pose proof mq_entry_length as Hent. rewrite Emsgs in Hent.
  destruct (qo_wf _ _ _ _ Hok) as (qs0 & fs & Hwf & Hm). rewrite Emsgs in Hm.
  destruct qs0 as [|i qs]; [done|]. injection Hm as Hd Hm. pose proof (qw_head _ _ _ _ Hwf) as [Hh _].
  destruct (unlink_head_spec _ _ _ _ _ Hwf) as (x1 & E1 & H1 & M1 & D1 & S1).
  destruct (put_free_spec _ _ _ _ _ H1) as (x2 & E2 & H2 & M2 & S2).
  destruct (qw_in_flight _ _ _ _ _ H1) as (_ & _ & s & Hslot).
  assert (msg_data s = m) as Hsm by (unfold slot_data in *; rewrite Hslot in D1; simpl in D1; congruence).
  unfold zlen in Hent. simpl in Hent. unfold rt_mq_recv. ksteps. eapply assert_mq_ok; [done|]. ksteps; [lia|].
  eapply wp_get_mq; [apply Hok|]. rewrite decide_False by lia. unfold mq_recv_locked. ksteps.
  eapply wp_get_mq; [apply Hok|]. rewrite decide_False by lia. unfold mq_recv_slot. ksteps.
  eapply wp_get_mq; [apply Hok|]. ksteps.
  eapply wp_upd_mq; [apply Hok|exact E1|]. ksteps.
  eapply wp_get_mq; [apply lookup_insert_eq|]. ksteps.
  eapply wp_upd_mq; [apply lookup_insert_eq|exact E2|]. ksimpl. rewrite insert_insert_eq.
  eapply wake_waiter_spec; [|done|done|].
  - by eapply kernel_inv_ext; [exact H|..].
  - intros k' Hw. ksteps. rewrite Hsm. split.
    + do 4 f_equal. assert (mq_msg_size x1 = mq_msg_size x) as -> by apply S1. case_decide; lia.
    + eapply (mq_done_intro _ _ x x2); [exact Hok|by eapply mq_same_trans|exact H2| | | | |exact Hw]; try done.
      by rewrite M2, M1.
Qed.
Lemma mq_recv_empty size :
  msgs = [] → 0 < size → rt_mq_recv mq size 0 k = Ok (Return (- RT_ETIMEOUT, []), k).
Proof.
  intros Emsgs Hs. pose proof mq_entry_length as Hent. rewrite Emsgs in Hent. apply wp_exact. unfold rt_mq_recv. ksteps.
  eapply assert_mq_ok; [done|]. ksteps; [lia|].
  eapply wp_get_mq; [apply Hok|]. rewrite decide_True by done. ksteps. by destruct k.
Qed.
End Transfer.

(** *** Waiting *)
Section Blocking.
Context (k : kernel) (mq : addr) (x : rt_messagequeue) (msgs : list (list Z)) (th : rt_thread).
Context (H : kernel_inv k) (Hr : running k th) (Hnest : rt_interrupt_nest k = 0)
  (Hok : mqueue_ok k mq x msgs).

Lemma mq_waits_ok q flag timeout temp k0 k' :
  mqueues k0 = mqueues k → waits q (no_error th) flag timeout temp k0 k' → mqueue_ok k' mq x msgs.
Proof.
  intros E Hw. destruct (objs_fields _ _ (wa_objs _ _ _ _ _ _ _ Hw)) as (_ & _ & _ & _ & Em & _).
  destruct Hok. constructor; try done. rewrite Em. ksimpl. by rewrite E.
Qed.

Lemma mq_send_blocks buffer size timeout :
  length msgs = length (mq_msg_pool x) → 0 < size ≤ mq_msg_size x →
  timeout ≠ 0 → timeout < RT_TICK_MAX / 2 →
  wp (rt_mq_send_wait mq buffer size timeout) k (λ r k',
    r = Park (mkLocals (rt_current_thread k) timeout (wait_start k timeout)) ∧
    waits (QSender mq) (no_error th) (obj_flag (mq_parent x)) timeout (primask k) (waiting_state k th) k' ∧
    mqueue_ok k' mq x msgs).
Proof.
  intros Hl Hs Ht0 Ht1. pose proof Hr as [Ht Hst]. pose proof (mq_no_free_slot k mq x msgs Hok Hl) as Hf.
  unfold rt_mq_send_wait. ksteps. eapply assert_mq_ok; [done|]. ksteps; [lia|].
  eapply wp_get_mq; [apply Hok|]. rewrite decide_False by lia. ksteps.
  eapply wp_get_mq; [apply Hok|]. rewrite decide_False by tauto. unfold mq_send_locked. ksteps.
  eapply wp_get_mq; [apply Hok|]. rewrite Hf. ksteps. rewrite decide_False by done.
  ksteps. eapply wp_mono; [apply (timed_wait_spec k th); [done..|apply Hok|done]|].
  intros w k' [-> Hw]. ksteps. split; [done|]. split; [done|]. by eapply mq_waits_ok; [|exact Hw].
Qed.

Lemma mq_recv_blocks size timeout :
  msgs = [] → 0 < size → timeout ≠ 0 → timeout < RT_TICK_MAX / 2 →
  wp (rt_mq_recv mq size timeout) k (λ r k',
    r = Park (mkLocals (rt_current_thread k) timeout (wait_start k timeout)) ∧
    waits (QSuspend mq) (no_error th) (obj_flag (mq_parent x)) timeout (primask k) (waiting_state k th) k' ∧
    mqueue_ok k' mq x msgs).
Proof.
  intros Em Hs Ht0 Ht1. pose proof Hr as [Ht Hst].
  pose proof (mq_entry_length k mq x msgs Hok) as He. rewrite Em in He.
  unfold rt_mq_recv. ksteps. eapply assert_mq_ok; [done|]. ksteps; [lia|].
  eapply wp_get_mq; [apply Hok|]. rewrite decide_False by tauto. unfold mq_recv_locked. ksteps.
  eapply wp_get_mq; [apply Hok|]. rewrite decide_True by done. ksteps.
  eapply thread_context; [by apply kernel_inv_primask|done|done|]. ksteps. rewrite decide_False by done.
  ksteps. eapply wp_mono; [apply (timed_wait_spec k th); [done..|apply Hok|done]|].
  intros w k' [-> Hw]. ksteps. split; [done|]. split; [done|]. by eapply mq_waits_ok; [|exact Hw].
Qed.
End Blocking.

(** ** Refinement: non-blocking operations against a bounded double-ended queue *)
Inductive mq_op := MSend (b : list Z) | MUrgent (b : list Z) | MRecv (size : Z).

Definition mq_run_op (mq : addr) (op : mq_op) : M kernel (Z * list Z) :=
  match op with
  | MSend b =>
      c ← rt_mq_send mq b (zlen b);
      match c with Return r => mret (r, []) | Park _ => fail FFuel end
  | MUrgent b => r ← rt_mq_urgent mq b (zlen b); mret (r, [])
  | MRecv size =>
      c ← rt_mq_recv mq size 0;
      match c with Return r => mret r | Park _ => fail FFuel end
  end.
Fixpoint mq_run (mq : addr) (ops : list mq_op) : M kernel (list (Z * list Z)) :=
  match ops with
  | [] => mret []
  | op :: ops => r ← mq_run_op mq op; rs ← mq_run mq ops; mret (r :: rs)
  end.

(** A slot of [size] bytes that starts with [b]; the code leaves the bytes
    behind [b] as they were. *)
Definition carries (size : Z) (b m : list Z) : Prop := zlen m = size ∧ b `prefix_of` m.

Inductive deque_op (cap : nat) (size : Z) : list (list Z) → mq_op → list (list Z) → Z * list Z → Prop :=
  | deque_send l b m : (length l < cap)%nat → carries size b m →
      deque_op cap size l (MSend b) (l ++ [m]) (RT_EOK, [])
  | deque_send_full l b : length l = cap → deque_op cap size l (MSend b) l (- RT_EFULL, [])
  | deque_urgent l b m : (length l < cap)%nat → carries size b m →
      deque_op cap size l (MUrgent b) (m :: l) (RT_EOK, [])
  | deque_urgent_full l b : length l = cap → deque_op cap size l (MUrgent b) l (- RT_EFULL, [])
  | deque_recv m l n : deque_op cap size (m :: l) (MRecv n) l (RT_EOK, take (Z.to_nat (Z.min n size)) m)
  | deque_recv_empty n : deque_op cap size [] (MRecv n) [] (- RT_ETIMEOUT, []).
Inductive deque_run (cap : nat) (size : Z) :
    list (list Z) → list mq_op → list (list Z) → list (Z * list Z) → Prop :=
  | deque_nil l : deque_run cap size l [] l []
  | deque_cons l op l1 r ops l2 rs :
      deque_op cap size l op l1 r → deque_run cap size l1 ops l2 rs →
      deque_run cap size l (op :: ops) l2 (r :: rs).

Definition mq_op_fits (size : Z) (op : mq_op) : Prop :=
  match op with MSend b | MUrgent b => 0 < zlen b ≤ size | MRecv n => 0 < n end.

Lemma stores_carries x b m : stores x b (zlen b) m → carries (mq_msg_size x) b m.
Proof.
  intros [Hz Ht]. split; [done|]. unfold zlen in Ht. rewrite Nat2Z.id, firstn_all in Ht.
  exists (drop (length b) m). rewrite <-Ht at 1. by rewrite take_drop.
Qed.

Lemma mq_urgent_full k mq x msgs buffer size :
  mqueue_ok k mq x msgs → length msgs = length (mq_msg_pool x) → 0 < size ≤ mq_msg_size x →
  rt_mq_urgent mq buffer size k = Ok (- RT_EFULL, k).
Proof.
  intros Hok Hl Hs. apply wp_exact. unfold rt_mq_urgent. ksteps.
  eapply assert_mq_ok; [done|]. ksteps; [lia|].
  eapply wp_get_mq; [apply Hok|]. rewrite decide_False by lia. ksteps.
  eapply wp_get_mq; [apply Hok|]. rewrite (mq_no_free_slot _ _ _ _ Hok Hl). ksteps. by destruct k.
Qed.

Lemma mq_length k mq x msgs : mqueue_ok k mq x msgs → (length msgs ≤ length (mq_msg_pool x))%nat.
Proof.
  intros Hok. destruct (qo_wf _ _ _ _ Hok) as (qs & fs & Hwf & <-). unfold messages. rewrite length_fmap.
  pose proof (Permutation_length (qw_slots _ _ _ _ Hwf)) as E. rewrite !length_app, length_seq in E. lia.
Qed.

Lemma mq_op_refines mq op k x msgs :
  kernel_inv k → current_ok k → mqueue_ok k mq x msgs → mq_op_fits (mq_msg_size x) op →
  wp (mq_run_op mq op) k (λ r k', kernel_inv k' ∧ current_ok k' ∧ ∃ x' msgs',
    mqueue_ok k' mq x' msgs' ∧ mq_same x x' ∧
    deque_op (length (mq_msg_pool x)) (mq_msg_size x) msgs op msgs' r).
Proof.
  intros H Hc Hok Hop. pose proof (mq_length _ _ _ _ Hok) as Hlen.
  destruct op as [b|b|n]; unfold mq_run_op; simpl in Hop; ksteps.
  - destruct (decide (length msgs = length (mq_msg_pool x))) as [Hl|Hl].
    + eapply wp_eq; [by apply (mq_send_full k mq x msgs)|]. ksteps. split_and!; [done|done|].
      exists x, msgs. split_and!; [done|done|by constructor].
    + eapply wp_mono; [apply (mq_send_spec k mq x msgs H Hc Hok b (zlen b) 0); lia|].
      intros ? k' (-> & m & Hm & Hd). ksteps. split_and!; [apply Hd|apply Hd|].
      destruct (qd_ok _ _ _ _ _ _ Hd) as (x' & Hok' & Hs). exists x', (msgs ++ [m]).
      split_and!; [done|done|]. constructor; [lia|by apply stores_carries].
  - destruct (decide (length msgs = length (mq_msg_pool x))) as [Hl|Hl].
    + eapply wp_eq; [by eapply mq_urgent_full|]. ksteps. split_and!; [done|done|].
      exists x, msgs. split_and!; [done|done|by constructor].
    + eapply wp_mono; [apply (mq_urgent_spec k mq x msgs H Hc Hok b (zlen b)); lia|].
      intros ? k' (-> & m & Hm & Hd). ksteps. split_and!; [apply Hd|apply Hd|].
      destruct (qd_ok _ _ _ _ _ _ Hd) as (x' & Hok' & Hs). exists x', (m :: msgs).
      split_and!; [done|done|]. constructor; [lia|by apply stores_carries].
  - destruct msgs as [|m l].
    + eapply wp_eq; [by apply (mq_recv_empty k mq x [])|]. ksteps. split_and!; [done|done|].
      exists x, []. split_and!; [done|done|constructor].
    + eapply wp_mono; [by apply (mq_recv_spec k mq x (m :: l) H Hc Hok n 0)|].
      intros ? k' (-> & Hd). ksteps. split_and!; [apply Hd|apply Hd|].
      destruct (qd_ok _ _ _ _ _ _ Hd) as (x' & Hok' & Hs). exists x', l.
      split_and!; [done|done|constructor].
Qed.

(** C10: any sequence of [rt_mq_send], [rt_mq_urgent] and non-waiting
    [rt_mq_recv] calls on a message queue answers as a bounded double-ended
    queue does: sends append, urgent sends prepend, receives take the oldest
    message cut to the receiver's buffer. *)
Theorem mq_run_refines mq ops : ∀ k x msgs,
  kernel_inv k → current_ok k → mqueue_ok k mq x msgs → Forall (mq_op_fits (mq_msg_size x)) ops →
  wp (mq_run mq ops) k (λ rs k', kernel_inv k' ∧ current_ok k' ∧ ∃ x' msgs',
    mqueue_ok k' mq x' msgs' ∧ mq_same x x' ∧
    deque_run (length (mq_msg_pool x)) (mq_msg_size x) msgs ops msgs' rs).
Proof.
  induction ops as [|op ops IH]; intros k x msgs H Hc Hok Hall; simpl.
  { ksteps. split_and!; [done|done|]. exists x, msgs. split_and!; [done|done|constructor]. }
  apply Forall_cons in Hall as [Hop Hall]. ksteps.
  eapply wp_mono; [by apply mq_op_refines|]. intros r k1 (H1 & Hc1 & x1 & l1 & Hok1 & Hs1 & Hd1). ksteps.
  pose proof Hs1 as (_ & Hz & Hn & _).
  eapply wp_mono; [apply (IH k1 x1 l1); [done..|by rewrite Hz]|].
  intros rs k' (H' & Hc' & x' & l' & Hok' & Hs' & Hd'). ksteps.
  split_and!; [done|done|]. exists x', l'. split_and!; [done|by eapply mq_same_trans|].
  rewrite Hz, Hn in Hd'. by econstructor.
Qed.

(** [rt_mq_init] puts every slot of the pool on the free list and leaves a
    queue that holds no message and nobody waits on, and whose capacity is the
    number of slots that fit the pool. *)
Theorem mq_init_empty k mq name msgpool msg_size pool_size flag x0 :
  let size := u16 (RT_ALIGN msg_size RT_ALIGN_SIZE) in
  kernel_inv k → current_ok k → 0 ≤ rt_scheduler_lock_nest k < 32767 →
  mqueues k !! mq = Some x0 → mq ≠ RT_NULL → Obj mq ∉ object_list k RT_Object_Class_MessageQueue →
  flag = RT_IPC_FLAG_FIFO ∨ flag = RT_IPC_FLAG_PRIO →
  zlen msgpool = pool_size / (size + 4) → zlen msgpool ≤ RT_MQ_ENTRY_MAX →
  Forall (λ m, zlen (msg_data m) = size) msgpool →
  wp (rt_mq_init mq name msgpool msg_size pool_size flag) k (λ r k', r = RT_EOK ∧ kernel_inv k' ∧
    queue k' (QSuspend mq) = [] ∧ queue k' (QSender mq) = [] ∧
    ∃ x, mqueue_ok k' mq x [] ∧ mq_msg_size x = size ∧ length (mq_msg_pool x) = length msgpool ∧
      mq_max_msgs x = zlen msgpool).
Proof.
  intros size H Hc Hl Hmq Hn Hnew Hflag Hmax Hle Hdata.
  assert (object_header k RT_Object_Class_MessageQueue (Obj mq) = Some (mq_parent x0)) as Hh.
  { change ((mq_parent <$> mqueues k !! mq) = Some (mq_parent x0)). by rewrite Hmq. }
  assert (u16 (pool_size / (size + 4)) = zlen msgpool) as Hu.
  { rewrite <-Hmax. apply wrapU_small. unfold RT_MQ_ENTRY_MAX, RT_UINT16_MAX, zlen in *. lia. }
  unfold rt_mq_init. ksteps.
  eapply wp_mono; [by apply (object_init_spec k (Obj mq) RT_Object_Class_MessageQueue name (mq_parent x0))|].
  intros ? k2 (k1 & (H1 & Hc1 & Hh1 & _) & ->). set (h := mkObject _ _ _).
  change (set_header RT_Object_Class_MessageQueue (Obj mq) h k1) with
    (k1 <| mqueues := alter (λ x, x <| mq_parent := h |>) mq (mqueues k1) |>).
  specialize (Hh1 RT_Object_Class_MessageQueue (Obj mq)). rewrite Hh in Hh1.
  change (object_header k1 RT_Object_Class_MessageQueue (Obj mq)) with (mq_parent <$> mqueues k1 !! mq) in Hh1.
  apply fmap_Some in Hh1 as (x1 & Hx1 & _).
  ksteps. eapply wp_get_mq; [ksimpl; by rewrite lookup_alter_eq, Hx1|]. unfold rt_list_init_head, set_queue. ksteps.
  fold size. rewrite Hu. set (x2 := mkMq _ _ _ _ _ _ _ _).
  assert (mq_wf x2 [] [] (seq 0 (length msgpool))) as Hwf by by apply mq_fresh_wf.
  destruct (push_free_spec (length msgpool) 0 x2 [] Hwf) as (x3 & E3 & H3 & S3).
  unfold zlen at 1. rewrite Nat2Z.id. ksteps. unfold put_mq. ksteps. split; [done|].
  rewrite app_nil_r in H3. split; [|split; [|split]].
  - match goal with |- kernel_inv ?kf =>
      eapply (kernel_inv_ext (k1 <| queues := <[QSender mq := []]> (<[QSuspend mq := []]> (queues k1)) |>
        <| mqueues := mqueues kf |>)) end; try done.
    pose (k1 <| queues := <[QSuspend mq := []]> (queues k1) |> <| mqueues := mqueues k1 |>) as ka.
    apply (clear_waiting_inv ka (QSender mq)); [done|]. by apply clear_waiting_inv.
  - unfold queue. ksimpl. by rewrite lookup_insert_ne, lookup_insert_eq.
  - unfold queue. ksimpl. by rewrite lookup_insert_eq.
  - exists x3. destruct S3 as (P1 & P2 & P3 & P4). split; [|by rewrite P2, P3, P4].
    constructor; try done; rewrite ?P1; [ksimpl; apply lookup_insert_eq|done| |by eexists _, _].
    simpl. destruct Hflag as [-> | ->]; [by left|by right].
Qed.

(** ** Concrete instances *)
Definition a_slot (n : option nat) (d : Z) : rt_mq_message := mkMessage n [d; 0; 0; 0].
(** Two messages queued in slots 2 and 0, slot 1 free. *)
Definition a_queue : rt_messagequeue :=
  mkMq (an_object RT_Object_Class_MessageQueue RT_IPC_FLAG_FIFO)
    [a_slot None 1; a_slot None 2; a_slot (Some 0%nat) 3] 4 3 2 (Some 2%nat) (Some 0%nat) (Some 1%nat).
Definition mq_scene : kernel := scene_with (QSuspend 1) ∅ ∅ ∅ ∅ {[O_mq := a_queue]}.
Lemma mq_scene_ok : mqueue_ok mq_scene O_mq a_queue [[3; 0; 0; 0]; [1; 0; 0; 0]].
Proof.
  constructor; [done|done|done|by left|]. exists [2; 0]%nat, [1%nat]. split; [|done].
  constructor; try done.
  - split; [done|]. eexists; split; [done|]. split; [done|]. by eexists.
  - split; [done|]. by eexists.
  - simpl. change [2; 0; 1]%nat with ([2]%nat ++ [0; 1]%nat). by rewrite Permutation_app_comm.
  - by repeat constructor.
Qed.
Lemma mq_run_refines_witness :
  wp (mq_run O_mq [MUrgent [7]; MSend [8]; MRecv 2]) mq_scene (λ rs k', kernel_inv k' ∧ current_ok k' ∧
    ∃ x' msgs', mqueue_ok k' O_mq x' msgs' ∧ mq_same a_queue x' ∧
      deque_run 3 4 [[3; 0; 0; 0]; [1; 0; 0; 0]] [MUrgent [7]; MSend [8]; MRecv 2] msgs' rs).
Proof.
  apply (mq_run_refines O_mq [MUrgent [7]; MSend [8]; MRecv 2] mq_scene).
  - by_check.
  - by apply (running_ok _ (a_thread RT_THREAD_RUNNING 10 RT_EOK)).
  - apply mq_scene_ok.
  - by repeat constructor.
Defined.
Lemma mq_init_empty_witness :
  wp (rt_mq_init O_mq [109] [a_slot None 0; a_slot None 0] 3 16 RT_IPC_FLAG_PRIO) mq_scene (λ r k', r = RT_EOK ∧
    kernel_inv k' ∧ queue k' (QSuspend O_mq) = [] ∧ queue k' (QSender O_mq) = [] ∧
    ∃ x, mqueue_ok k' O_mq x [] ∧ mq_msg_size x = 4 ∧ length (mq_msg_pool x) = 2%nat ∧ mq_max_msgs x = 2).
Proof.
  apply (mq_init_empty mq_scene O_mq [109] [a_slot None 0; a_slot None 0] 3 16 RT_IPC_FLAG_PRIO a_queue); try done.
  - by_check.
  - by apply (running_ok _ (a_thread RT_THREAD_RUNNING 10 RT_EOK)).
  - by intros ?%not_elem_of_nil.
  - by right.
  - by repeat constructor.
Defined.
