(* ===== verification/Heap.v ===== *)
(** * The heap ([src/mem.c])

    The first-fit allocator: blocks that tile the arena, each with a header in
    front that links it to its neighbours.  A pointer into the arena is held as
    its offset from [heap_ptr] in the headers and in [lfree], as the code's own
    [next] and [prev] are; the addresses that callers see are absolute.  The
    operations here are the code between [rt_sem_take(&heap_sem)] and
    [rt_sem_release(&heap_sem)]; HeapLock.v adds the lock and the kernel. *)
From S2P Require Import Prelude.

(** ** State *)
Definition HEAP_MAGIC : Z := 0x1ea0.
Definition MIN_SIZE : Z := 12.
Definition MIN_SIZE_ALIGNED : Z := Eval cbv in RT_ALIGN MIN_SIZE RT_ALIGN_SIZE.
Definition SIZEOF_STRUCT_MEM : Z := Eval cbv in RT_ALIGN 12 RT_ALIGN_SIZE.

Record heap_mem := mkMem { magic : Z; used : Z; next : Z; prev : Z }.
#[global] Instance eta_heap_mem : EtaRecord heap_mem := λ m,
  mkMem (magic m) (used m) (next m) (prev m).

(** [heads] are the headers in the arena, by offset; [data] is the rest of its
    bytes, by offset. *)
Record heap := mkHeap {
  heads : gmap Z heap_mem;
  data : gmap Z Z;
  heap_ptr : Z;
  mem_size_aligned : Z;
  lfree : Z;
  used_mem : Z;
  max_mem : Z
}.
#[global] Instance eta_heap : EtaRecord heap := λ h,
  mkHeap (heads h) (data h) (heap_ptr h) (mem_size_aligned h) (lfree h) (used_mem h) (max_mem h).

Definition heap_end (h : heap) : Z := mem_size_aligned h + SIZEOF_STRUCT_MEM.

Definition get_mem (ptr : Z) : M heap heap_mem :=
  m ← gets (λ h, heads h !! ptr); of_option FBadPointer m.
Definition put_mem (ptr : Z) (m : heap_mem) : M heap unit :=
  modify (λ h, h <| heads := <[ptr := m]> (heads h) |>).
Definition upd_mem (ptr : Z) (f : heap_mem → heap_mem) : M heap unit :=
  m ← get_mem ptr; put_mem ptr (f m).

(** ** Operations *)
(** [plug_holes]: the next block, then the block before. *)
Definition plug_right (mem : Z) : M heap unit :=
  m ← get_mem mem;
  RT_ASSERT (used m = 0);;
  n ← get_mem (next m);
  h ← gets id;
  when (mem ≠ next m ∧ used n = 0 ∧ next m ≠ heap_end h) (
    when (lfree h = next m) (modify (λ h, h <| lfree := mem |>));;
    upd_mem mem (λ m, m <| next := next n |>);;
    upd_mem (next n) (λ x, x <| prev := mem |>)).
Definition plug_left (mem : Z) : M heap unit :=
  m ← get_mem mem;
  p ← get_mem (prev m);
  when (prev m ≠ mem ∧ used p = 0) (
    h ← gets id;
    when (lfree h = mem) (modify (λ h, h <| lfree := prev m |>));;
    upd_mem (prev m) (λ p, p <| next := next m |>);;
    upd_mem (next m) (λ x, x <| prev := prev m |>)).
Definition plug_holes (mem : Z) : M heap unit :=
  h ← gets id;
  RT_ASSERT (0 ≤ mem);;
  RT_ASSERT (mem < heap_end h);;
  plug_right mem;;
  plug_left mem.

(** [None]: the error message; otherwise the initial heap. *)
Definition rt_system_heap_init (begin_addr end_addr : Z) : option heap :=
  let begin_align := RT_ALIGN begin_addr RT_ALIGN_SIZE in
  let end_align := RT_ALIGN_DOWN end_addr RT_ALIGN_SIZE in
  if decide (2 * SIZEOF_STRUCT_MEM < end_align ∧
             begin_align ≤ u32 (end_align - 2 * SIZEOF_STRUCT_MEM)) then
    let size := u32 (end_align - begin_align - 2 * SIZEOF_STRUCT_MEM) in
    let last := u32 (size + SIZEOF_STRUCT_MEM) in
    Some (mkHeap (<[last := mkMem HEAP_MAGIC 1 last last]> {[0 := mkMem HEAP_MAGIC 0 last 0]})
            ∅ begin_align size 0 0 0)
  else None.

Definition count_used (n : Z) : M heap unit :=
  modify (λ h, h <| used_mem := u32 (used_mem h + n) |>
                 <| max_mem := if decide (max_mem h < u32 (used_mem h + n))
                               then u32 (used_mem h + n) else max_mem h |>).
Definition uncount_used (n : Z) : M heap unit :=
  modify (λ h, h <| used_mem := u32 (used_mem h - n) |>).

(** [while (lfree->used && lfree != heap_end) lfree = lfree->next] *)
Fixpoint lfree_advance (fuel : nat) : M heap unit :=
  match fuel with
  | O => fail FFuel
  | S fuel =>
      h ← gets id;
      m ← get_mem (lfree h);
      if decide (used m ≠ 0 ∧ lfree h ≠ heap_end h) then
        modify (λ h, h <| lfree := next m |>);;
        lfree_advance fuel
      else mret tt
  end.
(** More steps than the arena has blocks. *)
Definition heap_fuel (h : heap) : nat := S (Z.to_nat (heap_end h)).

(** Cutting a block of [size] bytes off the front of the block at [ptr]. *)
Definition split_block (ptr size : Z) : M heap unit :=
  h ← gets id;
  mem ← get_mem ptr;
  let ptr2 := ptr + SIZEOF_STRUCT_MEM + size in
  put_mem ptr2 (mkMem HEAP_MAGIC 0 (next mem) ptr);;
  upd_mem ptr (λ m, m <| next := ptr2 |>);;
  when (next mem ≠ heap_end h) (upd_mem (next mem) (λ x, x <| prev := ptr2 |>)).

(** Lines 372-403: the magic number, the lowest free block, the assertions. *)
Definition malloc_finish (ptr size : Z) : M heap Z :=
  upd_mem ptr (λ m, m <| magic := HEAP_MAGIC |>);;
  h ← gets id;
  when (lfree h = ptr) (
    lfree_advance (heap_fuel h);;
    h ← gets id;
    m ← get_mem (lfree h);
    RT_ASSERT (lfree h = heap_end h ∨ used m = 0));;
  h ← gets id;
  RT_ASSERT (heap_ptr h + ptr + SIZEOF_STRUCT_MEM + size ≤ heap_ptr h + heap_end h);;
  RT_ASSERT ((heap_ptr h + ptr + SIZEOF_STRUCT_MEM) mod RT_ALIGN_SIZE = 0);;
  RT_ASSERT (Z.land (heap_ptr h + ptr) (RT_ALIGN_SIZE - 1) = 0);;
  mret (heap_ptr h + ptr + SIZEOF_STRUCT_MEM).

(** Lines 316-403: the block at [ptr] serves the request. *)
Definition malloc_take (ptr size : Z) : M heap Z :=
  mem ← get_mem ptr;
  (if decide (u32 (size + SIZEOF_STRUCT_MEM + MIN_SIZE_ALIGNED) ≤
              u32 (next mem - (ptr + SIZEOF_STRUCT_MEM))) then
     split_block ptr size;;
     upd_mem ptr (λ m, m <| used := 1 |>);;
     count_used (size + SIZEOF_STRUCT_MEM)
   else
     upd_mem ptr (λ m, m <| used := 1 |>);;
     count_used (next mem - ptr));;
  malloc_finish ptr size.

Fixpoint malloc_loop (fuel : nat) (ptr size : Z) : M heap Z :=
  match fuel with
  | O => fail FFuel
  | S fuel =>
      h ← gets id;
      if decide (ptr < u32 (mem_size_aligned h - size)) then
        mem ← get_mem ptr;
        if decide (used mem = 0 ∧ size ≤ u32 (next mem - (ptr + SIZEOF_STRUCT_MEM))) then
          malloc_take ptr size
        else malloc_loop fuel (next mem) size
      else mret 0
  end.

(** [rt_malloc] inside the lock; [size] is not zero. *)
Definition malloc_search (size : Z) : M heap Z :=
  h ← gets id;
  malloc_loop (heap_fuel h) (lfree h) size.
(** The size [rt_malloc] works with, [None] when it refuses at once. *)
Definition malloc_size (size : Z) (h : heap) : option Z :=
  if decide (size = 0) then None
  else if decide (mem_size_aligned h < RT_ALIGN size RT_ALIGN_SIZE) then None
  else Some (if decide (RT_ALIGN size RT_ALIGN_SIZE < MIN_SIZE_ALIGNED)
             then MIN_SIZE_ALIGNED else RT_ALIGN size RT_ALIGN_SIZE).
Definition malloc_locked (size : Z) : M heap Z :=
  h ← gets id;
  match malloc_size size h with
  | Some size => malloc_search size
  | None => mret 0
  end.

Definition in_heap (h : heap) (rmem : Z) : Prop :=
  heap_ptr h ≤ rmem < heap_ptr h + heap_end h.
#[global] Instance in_heap_dec h rmem : Decision (in_heap h rmem).
Proof. unfold in_heap. apply _. Defined.

(** [rt_free] before it takes the lock, and under it. *)
Definition free_check (rmem : Z) : M heap unit :=
  h ← gets id;
  RT_ASSERT (Z.land rmem (RT_ALIGN_SIZE - 1) = 0);;
  RT_ASSERT (in_heap h rmem).
Definition free_block (rmem : Z) : M heap unit :=
  h ← gets id;
  let mem := rmem - SIZEOF_STRUCT_MEM - heap_ptr h in
  m ← get_mem mem;
  RT_ASSERT (used m ≠ 0);;
  RT_ASSERT (magic m = HEAP_MAGIC);;
  upd_mem mem (λ m, m <| used := 0 |> <| magic := HEAP_MAGIC |>);;
  when (mem < lfree h) (modify (λ h, h <| lfree := mem |>));;
  uncount_used (next m - mem);;
  plug_holes mem.
Definition free_locked (rmem : Z) : M heap unit :=
  if decide (rmem = 0) then mret tt
  else free_check rmem;; free_block rmem.

(** [rt_memcpy] and [rt_memset] between bytes of the arena, by offset. *)
Fixpoint copy_bytes (n : nat) (dst src : Z) (d : gmap Z Z) : gmap Z Z :=
  match n with
  | O => d
  | S n => copy_bytes n (dst + 1) (src + 1) (<[dst := default 0 (d !! src)]> d)
  end.
Fixpoint fill_bytes (n : nat) (dst v : Z) (d : gmap Z Z) : gmap Z Z :=
  match n with
  | O => d
  | S n => fill_bytes n (dst + 1) v (<[dst := v]> d)
  end.
Definition heap_copy (dst src n : Z) : M heap unit :=
  modify (λ h, h <| data := copy_bytes (Z.to_nat n) (dst - heap_ptr h) (src - heap_ptr h) (data h) |>).
Definition heap_fill (dst v n : Z) : M heap unit :=
  modify (λ h, h <| data := fill_bytes (Z.to_nat n) (dst - heap_ptr h) v (data h) |>).

(** Lines 471-504: the block keeps its place and gives its end back. *)
Definition realloc_shrink (ptr size newsize : Z) : M heap unit :=
  uncount_used (size - newsize);;
  split_block ptr newsize;;
  let ptr2 := ptr + SIZEOF_STRUCT_MEM + newsize in
  h ← gets id;
  when (ptr2 < lfree h) (modify (λ h, h <| lfree := ptr2 |>));;
  plug_holes ptr2.

Definition realloc_locked (rmem newsize : Z) : M heap Z :=
  h ← gets id;
  let newsize := RT_ALIGN newsize RT_ALIGN_SIZE in
  if decide (mem_size_aligned h < newsize) then mret 0
  else if decide (newsize = 0) then free_locked rmem;; mret 0
  else if decide (rmem = 0) then malloc_locked newsize
  else if decide (¬ in_heap h rmem) then mret rmem
  else
    let ptr := rmem - SIZEOF_STRUCT_MEM - heap_ptr h in
    mem ← get_mem ptr;
    let size := u32 (next mem - ptr - SIZEOF_STRUCT_MEM) in
    if decide (size = newsize) then mret rmem
    else if decide (u32 (newsize + SIZEOF_STRUCT_MEM + MIN_SIZE) < size) then
      realloc_shrink ptr size newsize;;
      mret rmem
    else
      nmem ← malloc_locked newsize;
      when (nmem ≠ 0) (
        heap_copy nmem rmem (if decide (size < newsize) then size else newsize);;
        free_locked rmem);;
      mret nmem.

Definition calloc_locked (count size : Z) : M heap Z :=
  p ← malloc_locked (u32 (count * size));
  when (p ≠ 0) (heap_fill p 0 (u32 (count * size)));;
  mret p.

Definition rt_memory_info (h : heap) : Z * Z * Z := (mem_size_aligned h, used_mem h, max_mem h).

(** ** The arena as a list of blocks *)
Record blk := mkBlk { blen : Z; busy : bool }.

(** A block has room for its header and four bytes, and keeps the alignment. *)
Definition blk_ok (b : blk) : Prop := 16 ≤ blen b ∧ blen b mod 4 = 0.

Fixpoint total (bs : list blk) : Z :=
  match bs with [] => 0 | b :: bs => blen b + total bs end.
Fixpoint used_total (bs : list blk) : Z :=
  match bs with [] => 0 | b :: bs => (if busy b then blen b else 0) + used_total bs end.
Fixpoint first_free (off : Z) (bs : list blk) : Z :=
  match bs with
  | [] => off
  | b :: bs => if busy b then first_free (off + blen b) bs else off
  end.
(** Where the last block starts. *)
Fixpoint last_off (off before : Z) (bs : list blk) : Z :=
  match bs with [] => before | b :: bs => last_off (off + blen b) off bs end.

Definition head_of (off before : Z) (b : blk) : heap_mem :=
  mkMem HEAP_MAGIC (if busy b then 1 else 0) (off + blen b) before.
Fixpoint seg (hs : gmap Z heap_mem) (off before : Z) (bs : list blk) : Prop :=
  match bs with
  | [] => True
  | b :: bs => hs !! off = Some (head_of off before b) ∧ seg hs (off + blen b) off bs
  end.
(** Blocks from [off] to the end marker at [e]. *)
Definition tail_seg (hs : gmap Z heap_mem) (off before e : Z) (bs : list blk) : Prop :=
  seg hs off before bs ∧ off + total bs = e ∧ ∃ p, hs !! e = Some (mkMem HEAP_MAGIC 1 e p).
Definition tiles (hs : gmap Z heap_mem) (e : Z) (bs : list blk) : Prop :=
  Forall blk_ok bs ∧ tail_seg hs 0 0 e bs.

Section Segments.
Implicit Types (hs : gmap Z heap_mem) (l r bs : list blk).

Lemma total_app l r : total (l ++ r) = total l + total r.
Proof. induction l; simpl; lia. Qed.
Lemma used_total_app l r : used_total (l ++ r) = used_total l + used_total r.
Proof. induction l; simpl; lia. Qed.
Lemma total_nonneg bs : Forall blk_ok bs → 0 ≤ total bs.
Proof. induction 1 as [|b bs [? ?] ? IH]; simpl; lia. Qed.
Lemma total_aligned bs : Forall blk_ok bs → total bs mod 4 = 0.
Proof.
  induction 1 as [|b bs [? Hb] ? IH]; simpl; [done|]. by rewrite Z.add_mod, Hb, IH by lia.
Qed.
Lemma used_total_bounds bs : Forall blk_ok bs → 0 ≤ used_total bs ≤ total bs.
Proof. induction 1 as [|b bs [? ?] ? IH]; simpl; [lia|]. destruct (busy b); lia. Qed.
Lemma last_off_app off before l b : last_off off before (l ++ [b]) = off + total l.
Proof. revert off before. induction l as [|c l IH]; intros; simpl; [lia|]. rewrite IH. lia. Qed.

Lemma seg_app hs off before l r :
  seg hs off before (l ++ r) ↔
  seg hs off before l ∧ seg hs (off + total l) (last_off off before l) r.
Proof.
  revert off before. induction l as [|b l IH]; intros; simpl.
  - rewrite Z.add_0_r. naive_solver.
  - rewrite IH, Z.add_assoc. naive_solver.
Qed.
Lemma seg_frame hs hs' off before bs :
  Forall blk_ok bs → (∀ k, off ≤ k < off + total bs → hs' !! k = hs !! k) →
  seg hs off before bs → seg hs' off before bs.
Proof.
  intros Hok. revert off before. induction Hok as [|b bs [Hb _] Hok IH]; intros off before Hs; simpl; [done|].
  pose proof (total_nonneg bs Hok). intros [Hl Hr]. split.
  - rewrite Hs; [done|]. simpl. lia.
  - apply IH; [|done]. intros k Hk. apply Hs. simpl. lia.
Qed.
Lemma tail_seg_frame hs hs' off before e bs :
  Forall blk_ok bs → (∀ k, off ≤ k → hs' !! k = hs !! k) →
  tail_seg hs off before e bs → tail_seg hs' off before e bs.
Proof.
  intros Hok Hs (Hseg & He & p & Hp). pose proof (total_nonneg bs Hok). split; [|split; [done|]].
  - eapply seg_frame; [done| |done]. intros k Hk. apply Hs. lia.
  - exists p. rewrite Hs; [done|lia].
Qed.
(** The header at [off]: the next block's, or the end marker, which counts as used. *)
Definition head_busy bs : bool := match bs with [] => true | b :: _ => busy b end.
Lemma tail_seg_head hs off before e bs :
  tail_seg hs off before e bs → ∃ m, hs !! off = Some m ∧ used m = (if head_busy bs then 1 else 0).
Proof.
  intros (Hseg & He & q & Hq). destruct bs as [|b bs]; simpl in *.
  - rewrite Z.add_0_r in He. subst e. eauto.
  - destruct Hseg as [Hl _]. eauto.
Qed.
Lemma tail_seg_end hs off before e bs :
  Forall blk_ok bs → tail_seg hs off before e bs → off = e ↔ bs = [].
Proof.
  intros Hok (_ & He & _). destruct bs as [|b bs]; simpl in *; [split; [done|lia]|].
  apply Forall_cons in Hok as [[Hb _] Hok]. pose proof (total_nonneg bs Hok). split; [lia|done].
Qed.
(** Pointing the header at [off] back to another block. *)
Lemma tail_seg_relink hs off before p e bs m :
  Forall blk_ok bs → tail_seg hs off before e bs → hs !! off = Some m →
  tail_seg (<[off := m <| prev := p |>]> hs) off p e bs.
Proof.
  intros Hok (Hseg & He & q & Hq) Hm. destruct bs as [|b bs]; simpl in *.
  - rewrite Z.add_0_r in He. subst e. rewrite Hm in Hq. injection Hq as ->.
    split; [done|]. split; [simpl; lia|]. exists p. by rewrite lookup_insert_eq.
  - apply Forall_cons in Hok as [[Hb _] Hok]. pose proof (total_nonneg bs Hok). destruct Hseg as [Hl Hr].
    rewrite Hm in Hl. injection Hl as ->. split; [|split; [done|]].
    + simpl. split; [by rewrite lookup_insert_eq|].
      eapply seg_frame; [done| |exact Hr]. intros k Hk. rewrite lookup_insert_ne; [done|lia].
    + exists q. rewrite lookup_insert_ne; [done|lia].
Qed.
End Segments.

(** ** What the header updates do to the list of blocks *)
Section Tiles.
Context (e : Z).
Implicit Types (hs : gmap Z heap_mem) (l r bs : list blk).

Record tiled hs l b r : Prop := {
  td_left : Forall blk_ok l;
  td_ok : blk_ok b;
  td_right : Forall blk_ok r;
  td_seg : seg hs 0 0 l;
  td_head : hs !! total l = Some (head_of (total l) (last_off 0 0 l) b);
  td_tail : tail_seg hs (total l + blen b) (total l) e r
}.
Lemma tiles_at hs l b r : tiles hs e (l ++ b :: r) ↔ tiled hs l b r.
Proof.
  unfold tiles, tail_seg. rewrite seg_app, total_app, Forall_app, Forall_cons. simpl. rewrite !Z.add_0_l. split.
  - intros ((? & ? & ?) & (? & ? & ?) & ? & ?). split; try done.
    split; [done|]. split; [lia|done].
  - intros [? ? ? ? ? (? & ? & ?)]. split; [done|]. split; [done|]. split; [lia|done].
Qed.
Lemma total_nonneg_left hs l b r : tiled hs l b r → 0 ≤ total l.
Proof. intros H. apply total_nonneg, H. Qed.

Lemma tiles_used hs l b r (u : bool) :
  tiles hs e (l ++ b :: r) →
  tiles (<[total l := (head_of (total l) (last_off 0 0 l) b) <| used := if u then 1 else 0 |>]> hs) e
    (l ++ mkBlk (blen b) u :: r).
Proof.
  rewrite !tiles_at. intros [Hl [Hb Ha] Hr Hs Hh Ht]. pose proof (total_nonneg l Hl). split; try done; simpl.
  - eapply seg_frame; [done| |done]. intros k Hk. rewrite lookup_insert_ne; [done|lia].
  - by rewrite lookup_insert_eq.
  - eapply tail_seg_frame; [done| |done]. intros k Hk. rewrite lookup_insert_ne; [done|lia].
Qed.

Lemma tiles_split hs l b r n :
  16 ≤ n → n mod 4 = 0 → 16 ≤ blen b - n →
  tiles hs e (l ++ b :: r) →
  let off := total l in let ptr2 := off + n in let nxt := off + blen b in
  let hs1 := <[off := (head_of off (last_off 0 0 l) b) <| next := ptr2 |>]>
               (<[ptr2 := mkMem HEAP_MAGIC 0 nxt off]> hs) in
  ∃ m, hs1 !! nxt = Some m ∧
    tiles (if decide (nxt = e) then hs1 else <[nxt := m <| prev := ptr2 |>]> hs1) e
      (l ++ mkBlk n (busy b) :: mkBlk (blen b - n) false :: r).
Proof.
  intros Hn Hn4 Hrest. rewrite tiles_at. intros [Hl [Hb Ha] Hr Hs Hh Ht] off ptr2 nxt hs1.
  fold off in Hh, Ht. fold nxt in Ht. pose proof (total_nonneg l Hl) as Hl0. fold off in Hl0.
  pose proof (total_nonneg r Hr) as Hr0.
  assert (ptr2 = off + n) as E2 by done. assert (nxt = off + blen b) as E3 by done.
  assert (∀ k, k ≠ off → k ≠ ptr2 → hs1 !! k = hs !! k) as Hout.
  { intros k H1 H2. unfold hs1. by rewrite !lookup_insert_ne by congruence. }
  assert (tail_seg hs1 nxt off e r) as Ht1.
  { eapply tail_seg_frame; [done| |exact Ht]. intros k Hk. apply Hout; lia. }
  destruct (tail_seg_head _ _ _ _ _ Ht1) as (m & Hm & _). exists m. split; [done|].
  pose proof (tail_seg_relink _ _ _ ptr2 _ _ _ Hr Ht1 Hm) as Ht2.
  set (hs2 := if decide (nxt = e) then hs1 else <[nxt := m <| prev := ptr2 |>]> hs1).
  assert (∀ k, k < nxt → hs2 !! k = hs1 !! k) as Hlow.
  { intros k Hk. unfold hs2. destruct (decide _); [done|]. rewrite lookup_insert_ne; [done|lia]. }
  assert (tail_seg hs2 nxt ptr2 e r) as Ht3.
  { unfold hs2. destruct (decide (nxt = e)) as [He|]; [|done].
    rewrite (tail_seg_end _ _ _ _ _ Hr Ht1) in He. subst r. done. }
  apply tiles_at. split; simpl; fold off.
  - done.
  - split; simpl; lia.
  - apply Forall_cons. split; [|done]. split; simpl; [lia|].
    rewrite Zminus_mod, Ha, Hn4. done.
  - eapply seg_frame; [done| |done]. intros k Hk. fold off in Hk. rewrite Hlow by lia. apply Hout; lia.
  - rewrite Hlow by lia. unfold hs1. by rewrite lookup_insert_eq.
  - fold ptr2. split; simpl.
    + split.
      * rewrite Hlow by lia. unfold hs1. rewrite lookup_insert_ne, lookup_insert_eq by lia.
        unfold head_of; simpl. do 2 f_equal. lia.
      * replace (ptr2 + (blen b - n)) with nxt by lia. apply Ht3.
    + destruct Ht3 as (_ & He & Hend). split; [lia|done].
Qed.

Lemma tiles_merge hs l a b r :
  tiles hs e (l ++ a :: b :: r) →
  let off := total l in let nxt := off + blen a + blen b in
  let hs1 := <[off := (head_of off (last_off 0 0 l) a) <| next := nxt |>]> hs in
  ∃ m, hs1 !! nxt = Some m ∧
    tiles (<[nxt := m <| prev := off |>]> hs1) e (l ++ mkBlk (blen a + blen b) (busy a) :: r).
Proof.
  rewrite tiles_at. intros [Hl [Ha Ha4] Hbr Hs Hh Ht] off nxt hs1. fold off in Hh, Ht.
  apply Forall_cons in Hbr as [[Hb Hb4] Hr].
  pose proof (total_nonneg l Hl) as Hl0. fold off in Hl0. pose proof (total_nonneg r Hr) as Hr0.
  destruct Ht as ((Hhb & Hsr) & He & Hend). simpl in He.
  assert (nxt = off + blen a + blen b) as En by done.
  assert (∀ k, k ≠ off → hs1 !! k = hs !! k) as Hout.
  { intros k Hk. unfold hs1. by rewrite lookup_insert_ne by congruence. }
  assert (tail_seg hs1 nxt (off + blen a) e r) as Ht1.
  { eapply tail_seg_frame; [done| |split; [exact Hsr|split; [lia|exact Hend]]]. intros k Hk. apply Hout; lia. }
  destruct (tail_seg_head _ _ _ _ _ Ht1) as (m & Hm & _). exists m. split; [done|].
  pose proof (tail_seg_relink _ _ _ off _ _ _ Hr Ht1 Hm) as Ht2.
  set (hs2 := <[nxt := m <| prev := off |>]> hs1) in *.
  assert (∀ k, k < nxt → hs2 !! k = hs1 !! k) as Hlow.
  { intros k Hk. unfold hs2. rewrite lookup_insert_ne; [done|lia]. }
  apply tiles_at. split; simpl; fold off.
  - done.
  - split; simpl; [lia|]. by rewrite Z.add_mod, Ha4, Hb4 by lia.
  - done.
  - eapply seg_frame; [done| |done]. intros k Hk. fold off in Hk. rewrite Hlow by lia. apply Hout; lia.
  - rewrite Hlow by lia. unfold hs1. rewrite lookup_insert_eq. unfold head_of; simpl. do 2 f_equal. lia.
  - replace (off + (blen a + blen b)) with nxt by lia. done.
Qed.
End Tiles.

(** ** The representation invariant *)

(** No two neighbours are free. *)
Fixpoint no_holes_from (before : bool) (bs : list blk) : Prop :=
  match bs with
  | [] => True
  | b :: bs => (before = true ∨ busy b = true) ∧ no_holes_from (busy b) bs
  end.
Definition no_holes : list blk → Prop := no_holes_from true.
Fixpoint last_busy (before : bool) (bs : list blk) : bool :=
  match bs with [] => before | b :: bs => last_busy (busy b) bs end.

Record arena_ok (h : heap) : Prop := {
  ar_ptr : 0 < heap_ptr h;
  ar_aligned : heap_ptr h mod 4 = 0;
  ar_size : MIN_SIZE ≤ mem_size_aligned h;
  ar_end : heap_ptr h + heap_end h + SIZEOF_STRUCT_MEM ≤ 2 ^ 32
}.

Record heap_rep (h : heap) (bs : list blk) : Prop := {
  hr_arena : arena_ok h;
  hr_tiles : tiles (heads h) (heap_end h) bs;
  hr_holes : no_holes bs;
  hr_lfree : lfree h = first_free 0 bs;
  hr_used : used_mem h = used_total bs
}.

(** What no operation on the heap changes. *)
Definition same_arena (h h' : heap) : Prop :=
  heap_ptr h' = heap_ptr h ∧ mem_size_aligned h' = mem_size_aligned h.
#[global] Instance same_arena_equiv : Equivalence same_arena.
Proof.
  unfold same_arena. split; [by split|by intros ? ? [-> ->]|].
  by intros ? ? ? [E1 E2] [-> ->].
Qed.
Lemma same_arena_end h h' : same_arena h h' → heap_end h' = heap_end h.
Proof. unfold heap_end. by intros [_ ->]. Qed.
Lemma same_arena_ok h h' : same_arena h h' → arena_ok h → arena_ok h'.
Proof. intros Hs [? ? ? ?]. pose proof (same_arena_end _ _ Hs). destruct Hs as [E1 E2]. split; congruence. Qed.

Ltac hunfold := unfold SIZEOF_STRUCT_MEM, MIN_SIZE_ALIGNED, MIN_SIZE, RT_ALIGN_SIZE in *.

Lemma wp_get_mem ptr m h (Q : heap_mem → heap → Prop) :
  heads h !! ptr = Some m → Q m h → wp (get_mem ptr) h Q.
Proof. intros. unfold get_mem. by wp_steps. Qed.
Lemma wp_put_mem ptr m h (Q : unit → heap → Prop) :
  Q tt (h <| heads := <[ptr := m]> (heads h) |>) → wp (put_mem ptr m) h Q.
Proof. intros. unfold put_mem. by wp_steps. Qed.
Lemma wp_upd_mem ptr m f h (Q : unit → heap → Prop) :
  heads h !! ptr = Some m → Q tt (h <| heads := <[ptr := f m]> (heads h) |>) → wp (upd_mem ptr f) h Q.
Proof. intros. unfold upd_mem. wp_steps. eapply wp_get_mem; [done|]. by apply wp_put_mem. Qed.

Section ListOps.
Implicit Types (l r bs : list blk).
Lemma length_total bs : Forall blk_ok bs → Z.of_nat (length bs) ≤ total bs.
Proof. induction 1 as [|b bs [? ?] ? IH]; simpl; lia. Qed.
Lemma first_free_busy off l r :
  Forall (λ b, busy b = true) l → first_free off (l ++ r) = first_free (off + total l) r.
Proof.
  intros Hl. revert off. induction Hl as [|b l Hb Hl IH]; intros off; simpl; [f_equal; lia|].
  rewrite Hb, IH. f_equal. lia.
Qed.
Lemma first_free_found off l r :
  ¬ Forall (λ b, busy b = true) l → Forall blk_ok l →
  first_free off (l ++ r) = first_free off l ∧ first_free off l < off + total l.
Proof.
  intros Hn Hok. revert off Hn. induction Hok as [|b l [Hb _] Hok IH]; intros off Hn; simpl; [by destruct Hn|].
  pose proof (total_nonneg l Hok). destruct (busy b) eqn:E; [|lia].
  destruct (IH (off + blen b)) as [E1 E2]; [|split; [done|lia]].
  intros Hl. apply Hn. by constructor.
Qed.
Lemma first_free_ge bs off : Forall blk_ok bs → off ≤ first_free off bs.
Proof.
  intros Hok. revert off. induction Hok as [|c bs [? _] Hok IH]; intros off; simpl; [lia|].
  destruct (busy c); [|lia]. specialize (IH (off + blen c)). lia.
Qed.
Lemma no_holes_app p l r :
  no_holes_from p (l ++ r) ↔ no_holes_from p l ∧ no_holes_from (last_busy p l) r.
Proof. revert p. induction l as [|b l IH]; intros p; simpl; [naive_solver|]. rewrite IH. naive_solver. Qed.
Lemma no_holes_true p bs : no_holes_from p bs → no_holes_from true bs.
Proof. destruct bs; [done|]. simpl. naive_solver. Qed.
Lemma last_busy_snoc p l b : last_busy p (l ++ [b]) = busy b.
Proof. revert p. by induction l; simpl. Qed.
End ListOps.

(** ** Looking for the lowest free block *)
Lemma lfree_advance_spec h l r fuel :
  tiles (heads h) (heap_end h) (l ++ r) → (length r < fuel)%nat → lfree h = total l →
  lfree_advance fuel h = Ok (tt, h <| lfree := first_free (total l) r |>).
Proof.
  revert h l r. induction fuel as [|fuel IH]; intros h l r Ht Hf El; [lia|].
  destruct r as [|b r]; simpl in *.
  - rewrite app_nil_r in Ht. destruct Ht as (_ & _ & Ee & p & Hp). rewrite Z.add_0_l in Ee.
    rewrite <-Ee in Hp. apply wp_exact. wp_steps. unfold id. eapply wp_get_mem; [rewrite El; exact Hp|].
    rewrite decide_False by (rewrite El; naive_solver). wp_steps.
    rewrite <-El. by destruct h.
  - pose proof Ht as Ht'. apply tiles_at in Ht' as [Hl [Hb _] Hr _ Hh (_ & He & _)].
    pose proof (total_nonneg r Hr).
    destruct (busy b) eqn:Eb.
    + apply wp_exact. wp_steps. unfold id. eapply wp_get_mem; [rewrite El; exact Hh|].
      rewrite decide_True.
      2:{ unfold head_of; simpl. rewrite Eb, El. split; [done|lia]. }
      wp_steps. simpl next. eapply wp_eq; [apply (IH _ (l ++ [b]) r)|].
      * by rewrite <-app_assoc.
      * lia.
      * simpl. rewrite total_app. simpl. lia.
      * rewrite total_app. simpl. rewrite Z.add_0_r. by destruct h.
    + apply wp_exact. wp_steps. unfold id. eapply wp_get_mem; [rewrite El; exact Hh|].
      rewrite decide_False.
      2:{ unfold head_of; simpl. rewrite Eb. naive_solver. }
      wp_steps. rewrite <-El. by destruct h.
Qed.

(** ** Allocation *)
Definition all_busy (l : list blk) : Prop := Forall (λ b, busy b = true) l.
#[global] Instance all_busy_dec l : Decision (all_busy l).
Proof. unfold all_busy. apply _. Defined.

Lemma aligned_land x : Z.land x (4 - 1) = x mod 4.
Proof. exact (Z.land_ones x 2 ltac:(lia)). Qed.
Lemma first_free_head hs off before e bs :
  tail_seg hs off before e bs →
  ∃ m, hs !! first_free off bs = Some m ∧ (first_free off bs = e ∨ used m = 0).
Proof.
  revert off before. induction bs as [|b bs IH]; intros off before (Hs & He & p & Hp); simpl in *.
  - rewrite Z.add_0_r in He. subst. eauto.
  - destruct Hs as [Hh Hs]. destruct (busy b) eqn:Eb.
    + apply (IH _ off). split; [done|]. split; [lia|eauto].
    + eexists. split; [exact Hh|]. right. unfold head_of; simpl. by rewrite Eb.
Qed.

Lemma tiles_offset hs e l r : tiles hs e (l ++ r) → 0 ≤ total l ∧ total l mod 4 = 0 ∧ e = total l + total r.
Proof.
  intros (Hok & _ & He & _). apply Forall_app in Hok as [Hl Hr]. rewrite total_app in He.
  split; [by apply total_nonneg|]. split; [by apply total_aligned|lia].
Qed.

Lemma malloc_finish_spec h l c r size :
  arena_ok h → tiles (heads h) (heap_end h) (l ++ c :: r) → busy c = true → size + 12 ≤ blen c →
  lfree h = (if decide (all_busy l) then total l else first_free 0 l) →
  malloc_finish (total l) size h =
    Ok (heap_ptr h + total l + 12, h <| lfree := first_free 0 (l ++ c :: r) |>).
Proof.
  intros [Hp Ha Hs He] Ht Hc Hsize Hlf. pose proof (tiles_offset _ _ _ _ Ht) as (Hl0 & Hl4 & Hl).
  simpl in Hl. pose proof Ht as Ht'. apply tiles_at in Ht' as [Hokl [Hbc Hc4] Hokr _ Hh _].
  pose proof (total_nonneg r Hokr).
  apply wp_exact. unfold malloc_finish. wp_steps.
  eapply wp_upd_mem; [exact Hh|]. 
  assert (<[total l:=(head_of (total l) (last_off 0 0 l) c) <| magic := HEAP_MAGIC |>]> (heads h) = heads h) as Eh.
  { apply insert_id. exact Hh. }
  rewrite Eh. assert (h <| heads := heads h |> = h) as -> by by destruct h.
  wp_steps. unfold id.
  assert (heap_ptr h + total l + SIZEOF_STRUCT_MEM + size ≤ heap_ptr h + heap_end h) as A1
    by (hunfold; lia).
  assert ((heap_ptr h + total l + SIZEOF_STRUCT_MEM) mod RT_ALIGN_SIZE = 0) as A2.
  { hunfold. by rewrite Z.add_mod, (Z.add_mod (heap_ptr h)), Ha, Hl4. }
  assert (Z.land (heap_ptr h + total l) (RT_ALIGN_SIZE - 1) = 0) as A3.
  { hunfold. by rewrite aligned_land, Z.add_mod, Ha, Hl4. }
  assert (∀ h', h' = h <| lfree := first_free 0 (l ++ c :: r) |> →
    wp (h ← gets id;
  RT_ASSERT (heap_ptr h + total l + SIZEOF_STRUCT_MEM + size ≤ heap_ptr h + heap_end h);;
  RT_ASSERT ((heap_ptr h + total l + SIZEOF_STRUCT_MEM) mod RT_ALIGN_SIZE = 0);;
  RT_ASSERT (Z.land (heap_ptr h + total l) (RT_ALIGN_SIZE - 1) = 0);;
  mret (heap_ptr h + total l + SIZEOF_STRUCT_MEM)) h' (λ p h'', p = heap_ptr h + total l + 12 ∧
     h'' = h <| lfree := first_free 0 (l ++ c :: r) |>)) as Htail.
  { intros h' ->. by wp_steps. }
  revert Hlf. destruct (decide (all_busy l)) as [Hall|Hnall]; intros Hlf.
  - apply wp_when; [|by intros []]. intros _. wp_steps.
    eapply wp_eq; [apply (lfree_advance_spec h l (c :: r))|]; [done| |done|].
    { unfold heap_fuel. pose proof (length_total r Hokr). simpl. lia. }
    assert (first_free (total l) (c :: r) = first_free 0 (l ++ c :: r)) as ->
      by (by rewrite first_free_busy).
    wp_steps. unfold id.
    set (f := first_free 0 (l ++ c :: r)).
    assert (∃ m, heads h !! f = Some m ∧ (f = heap_end h ∨ used m = 0)) as (m & Hm & Hf).
    { eapply first_free_head. exact (proj2 Ht). }
    eapply wp_get_mem; [exact Hm|]. by wp_steps.
  - apply wp_when.
    { intros E. rewrite Hlf in E. pose proof (proj2 (first_free_found 0 l [] Hnall Hokl)). lia. }
    intros _. apply Htail. rewrite (proj1 (first_free_found 0 l _ Hnall Hokl)), <-Hlf. by destruct h.
Qed.

(** The blocks a request of [size] bytes makes of the free block [b]. *)
Definition carve (size : Z) (b : blk) : list blk :=
  if decide (size + 36 ≤ blen b) then
    [mkBlk (size + 12) true; mkBlk (blen b - (size + 12)) false]
  else [mkBlk (blen b) true].

Lemma split_block_spec h l b r size :
  tiles (heads h) (heap_end h) (l ++ b :: r) → 4 ≤ size → size mod 4 = 0 → size + 28 ≤ blen b →
  ∃ hs, split_block (total l) size h = Ok (tt, h <| heads := hs |>) ∧
    tiles hs (heap_end h) (l ++ mkBlk (size + 12) (busy b) :: mkBlk (blen b - (size + 12)) false :: r).
Proof.
  intros Ht H4 Hm Hsize.
  destruct (tiles_split (heap_end h) (heads h) l b r (size + 12)) as (m & Hnxt & Ht'); [lia| |lia|done|].
  { by rewrite Z.add_mod, Hm. }
  apply tiles_at in Ht as [Hokl _ _ _ Hh _]. pose proof (total_nonneg l Hokl).
  eexists. split; [|exact Ht'].
  apply wp_exact. unfold split_block. wp_steps. eapply wp_get_mem; [exact Hh|]. wp_steps.
  apply wp_put_mem. wp_steps. eapply wp_upd_mem.
  { simpl. rewrite lookup_insert_ne by (hunfold; lia). exact Hh. }
  wp_steps. unfold id. simpl (next (head_of _ _ _)).
  replace (total l + SIZEOF_STRUCT_MEM + size) with (total l + (size + 12)) by (hunfold; lia).
  apply wp_when; intros Hne.
  - rewrite decide_False by done. eapply wp_upd_mem; [simpl; exact Hnxt|done].
  - rewrite decide_True by lia. done.
Qed.

(** Handing out the free block [b]. *)
Lemma malloc_take_spec h l b r size :
  heap_rep h (l ++ b :: r) → busy b = false → MIN_SIZE_ALIGNED ≤ size → size mod 4 = 0 →
  size + 12 ≤ blen b →
  wp (malloc_take (total l) size) h (λ p h',
    p = heap_ptr h + total l + 12 ∧ heap_rep h' (l ++ carve size b ++ r) ∧
    same_arena h h' ∧ data h' = data h).
Proof.
  intros [Har Ht Hno Hlf Hu] Hb Hmin Hs4 Hsize. hunfold.
  pose proof (tiles_offset _ _ _ _ Ht) as (Hl0 & Hl4 & He). simpl in He.
  pose proof Ht as Ht'. apply tiles_at in Ht' as [Hokl [Hb16 Hb4] Hokr _ Hh _].
  pose proof (total_nonneg r Hokr) as Hr0. pose proof (used_total_bounds l Hokl) as Hul.
  pose proof (used_total_bounds r Hokr) as Hur.
  assert (0 < heap_ptr h ∧ heap_ptr h + heap_end h + 12 ≤ 2 ^ 32) as [Hp0 Hp1] by by destruct Har; hunfold.
  rewrite used_total_app in Hu. simpl in Hu. rewrite Hb in Hu.
  apply no_holes_app in Hno as [Hnl Hnr]. simpl in Hnr. destruct Hnr as [Hlb Hnr]. rewrite Hb in Hnr.
  assert (last_busy true l = true) as Hlast by (destruct Hlb; congruence).
  assert (lfree h = if decide (all_busy l) then total l else first_free 0 l) as Hlf'.
  { rewrite Hlf. destruct (decide (all_busy l)) as [Ha|Ha].
    - rewrite first_free_busy by done. simpl. by rewrite Hb.
    - by apply first_free_found. }
  unfold malloc_take. wp_steps. eapply wp_get_mem; [exact Hh|]. simpl (next (head_of _ _ _)). hunfold.
  rewrite !wrapU_small by lia. apply wp_bind. unfold carve.
  destruct (decide (size + 36 ≤ blen b)) as [Hbig|Hbig].
  - rewrite decide_True by lia.
    destruct (split_block_spec h l b r size) as (hs & Hsplit & Ht1); [done|lia|done|lia|].
    wp_steps. eapply wp_eq; [exact Hsplit|]. wp_steps. pose proof Ht1 as Ht1'.
    apply tiles_at in Ht1' as [_ _ _ _ Hh1 _].
    eapply wp_upd_mem; [exact Hh1|]. unfold count_used. wp_steps.
    pose proof (tiles_used _ _ _ _ _ true Ht1) as Ht2.
    set (h2 := _ : heap). 
    eapply wp_eq; [apply (malloc_finish_spec h2 l (mkBlk (size + 12) true)); [by destruct Har|exact Ht2|done|simpl; lia|exact Hlf']|].
    split; [done|]. split; [|by repeat split]. split; simpl.
    + by destruct Har.
    + exact Ht2.
    + unfold no_holes. rewrite no_holes_app, Hlast. simpl. auto.
    + done.
    + rewrite Hu, used_total_app. simpl. rewrite wrapU_small; lia.
  - rewrite decide_False by lia. wp_steps. eapply wp_upd_mem; [exact Hh|]. unfold count_used. wp_steps.
    pose proof (tiles_used _ _ _ _ _ true Ht) as Ht2.
    set (h2 := _ : heap).
    eapply wp_eq; [apply (malloc_finish_spec h2 l (mkBlk (blen b) true)); [by destruct Har|exact Ht2|done|simpl; lia|exact Hlf']|].
    split; [done|]. split; [|by repeat split]. split; simpl.
    + by destruct Har.
    + exact Ht2.
    + unfold no_holes. rewrite no_holes_app, Hlast. simpl. split; [done|]. split; [by right|].
      by eapply no_holes_true.
    + done.
    + rewrite Hu, used_total_app. simpl. rewrite wrapU_small; lia.
Qed.

(** ** The search *)
Fixpoint first_fit (msa size off : Z) (bs : list blk) : option (list blk * blk * list blk) :=
  match bs with
  | [] => None
  | b :: bs =>
      if decide (busy b = false ∧ off < msa - size ∧ size + 12 ≤ blen b) then Some ([], b, bs)
      else '(l, c, r) ← first_fit msa size (off + blen b) bs; Some (b :: l, c, r)
  end.

Lemma first_fit_split msa size off bs l b r :
  first_fit msa size off bs = Some (l, b, r) →
  bs = l ++ b :: r ∧ busy b = false ∧ off + total l < msa - size ∧ size + 12 ≤ blen b.
Proof.
  revert off l. induction bs as [|c bs IH]; intros off l; simpl; [done|]. case_decide as Hd.
  - intros [= <- <- <-]. simpl. rewrite Z.add_0_r. naive_solver.
  - destruct (first_fit msa size (off + blen c) bs) as [[[l' b'] r']|] eqn:E; simpl; [|done].
    intros [= <- <- <-]. destruct (IH _ _ E) as (-> & ? & ? & ?). simpl. repeat split; (done || lia).
Qed.
Lemma first_fit_none msa size off bs :
  first_fit msa size off bs = None → ∀ l b r, bs = l ++ b :: r → busy b = false →
  msa - size ≤ off + total l ∨ blen b < size + 12.
Proof.
  revert off. induction bs as [|c bs IH]; intros off; simpl; [by intros _ []|]. case_decide as Hd; [done|].
  destruct (first_fit msa size (off + blen c) bs) as [[[l' b'] r']|] eqn:E; simpl; [done|].
  intros _ [|d l] b r; simpl; intros [= -> ->] Hb.
  - rewrite Z.add_0_r. destruct (decide (off < msa - size)); [|lia].
    destruct (decide (size + 12 ≤ blen b)); [|lia]. by destruct Hd.
  - rewrite Z.add_assoc. by eapply IH.
Qed.
Lemma first_fit_past msa size off bs :
  Forall blk_ok bs → msa - size ≤ off → first_fit msa size off bs = None.
Proof.
  intros Hok. revert off. induction Hok as [|b bs [Hb _] Hok IH]; intros off Ho; simpl; [done|].
  rewrite decide_False by lia. by rewrite IH by lia.
Qed.
Lemma first_fit_busy msa size off l r :
  all_busy l → first_fit msa size off (l ++ r) =
    ('(l', b, r') ← first_fit msa size (off + total l) r; Some (l ++ l', b, r')).
Proof.
  intros Hl. revert off. induction Hl as [|c l Hc Hl IH]; intros off; simpl.
  - rewrite Z.add_0_r. by destruct (first_fit msa size off r) as [[[? ?] ?]|].
  - rewrite decide_False by (intros (? & ? & ?); congruence || done). rewrite IH, Z.add_assoc.
    by destruct (first_fit msa size (off + blen c + total l) r) as [[[? ?] ?]|].
Qed.

Definition heap_alloc (msa size : Z) (bs : list blk) : option (Z * list blk) :=
  '(l, b, r) ← first_fit msa size 0 bs; Some (total l, l ++ carve size b ++ r).

Lemma malloc_loop_spec h bs size l r fuel :
  heap_rep h bs → bs = l ++ r → MIN_SIZE_ALIGNED ≤ size ≤ mem_size_aligned h → size mod 4 = 0 →
  (length r < fuel)%nat →
  wp (malloc_loop fuel (total l) size) h (λ p h',
    match first_fit (mem_size_aligned h) size (total l) r with
    | Some (l', b, r') => p = heap_ptr h + total (l ++ l') + 12 ∧
        heap_rep h' ((l ++ l') ++ carve size b ++ r') ∧ same_arena h h' ∧ data h' = data h
    | None => p = 0 ∧ h' = h
    end).
Proof.
  intros H Hbs Hsize Hs4. revert l r Hbs. induction fuel as [|fuel IH]; intros l r Hbs Hf; [lia|].
  pose proof (hr_tiles _ _ H) as Ht. rewrite Hbs in Ht.
  pose proof (tiles_offset _ _ _ _ Ht) as (Hl0 & _ & He). destruct (hr_arena _ _ H) as [Hp _ _ Hp1]. hunfold.
  unfold heap_end in He, Hp1. hunfold.
  assert (Forall blk_ok r) as Hokr by by destruct Ht as [[_ ?]%Forall_app _].
  pose proof (total_nonneg r Hokr).
  simpl. wp_steps. unfold id. rewrite wrapU_small by lia.
  destruct (decide (total l < mem_size_aligned h - size)) as [Hd|Hd].
  2:{ rewrite first_fit_past by (done || lia). by wp_steps. }
  destruct r as [|b r]; simpl in *; [lia|].
  pose proof Ht as Ht'. apply tiles_at in Ht' as [Hokl [Hb16 _] Hokr' _ Hh _].
  pose proof (total_nonneg r Hokr') as Hr0. 
  wp_steps. eapply wp_get_mem; [exact Hh|]. unfold head_of; simpl. hunfold.
  rewrite wrapU_small by lia.
  assert (total (l ++ [b]) = total l + blen b) as Etl by (rewrite total_app; simpl; lia).
  destruct (busy b) eqn:Eb.
  - rewrite decide_False by lia. rewrite decide_False by (intros (? & ? & ?); congruence || done).
    rewrite <-Etl. eapply wp_mono; [apply (IH (l ++ [b]) r)|].
    + by rewrite <-app_assoc.
    + lia.
    + intros p h'.
      destruct (first_fit (mem_size_aligned h) size (total (l ++ [b])) r) as [[[l' b'] r']|]; simpl; [|done].
      by rewrite <-!app_assoc.
  - destruct (decide (size + 12 ≤ blen b)) as [Hfit|Hfit].
    + rewrite decide_True by lia. rewrite decide_True by (split; [done|lia]). rewrite app_nil_r.
      eapply malloc_take_spec; [by rewrite <-Hbs|done|hunfold; lia|done|done].
    + rewrite decide_False by lia. rewrite decide_False by (intros (? & ? & ?); congruence || done).
      rewrite <-Etl. eapply wp_mono; [apply (IH (l ++ [b]) r)|].
      * by rewrite <-app_assoc.
      * lia.
      * intros p h'.
        destruct (first_fit (mem_size_aligned h) size (total (l ++ [b])) r) as [[[l' b'] r']|]; simpl; [|done].
        by rewrite <-!app_assoc.
Qed.

(** ** Merging a free block with its neighbours *)
Definition join_right (b : blk) (r : list blk) : blk * list blk :=
  match r with
  | c :: r' => if busy c then (b, r) else (mkBlk (blen b + blen c) false, r')
  | [] => (b, r)
  end.
Lemma join_right_facts b r :
  busy b = false → no_holes_from true r →
  let '(b', r') := join_right b r in
  busy b' = false ∧ no_holes_from false r' ∧ used_total r' = used_total r ∧
  blen b' + total r' = blen b + total r.
Proof.
  intros Hb Hr. destruct r as [|c r]; simpl in *; [done|]. destruct Hr as [_ Hr].
  destruct (busy c) eqn:Ec; simpl.
  - rewrite Ec. repeat split; [done|by right|done].
  - repeat split; [|lia]. destruct r; simpl in *; [done|]. by destruct Hr as [[|] ?]; auto.
Qed.

Lemma plug_right_spec h l b r :
  tiles (heads h) (heap_end h) (l ++ b :: r) → busy b = false → lfree h ≤ total l →
  ∃ hs, plug_right (total l) h = Ok (tt, h <| heads := hs |>) ∧
    tiles hs (heap_end h) (l ++ (join_right b r).1 :: (join_right b r).2).
Proof.
  intros Ht Hb Hlf. pose proof Ht as Ht'.
  apply tiles_at in Ht' as [Hokl [Hb16 Hb4] Hokr _ Hh Htl].
  destruct (tail_seg_head _ _ _ _ _ Htl) as (n & Hn & Hun).
  destruct r as [|c r]; simpl in Hun |- *.
  - exists (heads h). split; [|done]. apply wp_exact. unfold plug_right. wp_steps.
    eapply wp_get_mem; [exact Hh|]. wp_steps; [unfold head_of; simpl; by rewrite Hb|]. wp_steps.
    simpl (next (head_of _ _ _)). eapply wp_get_mem; [exact Hn|]. wp_steps. unfold id.
    apply wp_when; [intros (_ & ? & _); congruence|]. intros _. by destruct h.
  - apply Forall_cons in Hokr as [[Hc16 _] Hokr]. pose proof (total_nonneg r Hokr).
    destruct (busy c) eqn:Ec; simpl.
    + exists (heads h). split; [|done]. apply wp_exact. unfold plug_right. wp_steps.
      eapply wp_get_mem; [exact Hh|]. wp_steps; [unfold head_of; simpl; by rewrite Hb|]. wp_steps.
      simpl (next (head_of _ _ _)). eapply wp_get_mem; [exact Hn|]. wp_steps. unfold id.
      apply wp_when; [intros (_ & ? & _); congruence|]. intros _. by destruct h.
    + destruct (tiles_merge _ _ _ _ _ _ Ht) as (m & Hm & Ht2). rewrite Hb in Ht2.
      eexists. split; [|exact Ht2]. destruct Htl as ((Hn' & _) & He & _). simpl in He.
      rewrite Hn' in Hn. injection Hn as <-.
      apply wp_exact. unfold plug_right. wp_steps.
      eapply wp_get_mem; [exact Hh|]. wp_steps; [unfold head_of; simpl; by rewrite Hb|]. wp_steps.
      simpl (next (head_of _ _ b)). eapply wp_get_mem; [exact Hn'|]. wp_steps. unfold id. simpl.
      apply wp_when; [intros _|intros Hno; destruct Hno; rewrite Ec; repeat split; simpl; lia].
      wp_steps. apply wp_when; [lia|intros _]. wp_steps.
      eapply wp_upd_mem; [exact Hh|]. wp_steps. by eapply wp_upd_mem; [exact Hm|].
Qed.

Definition join_left (l : list blk) (b : blk) : list blk :=
  match reverse l with
  | a :: l' => if busy a then l ++ [b] else reverse l' ++ [mkBlk (blen a + blen b) false]
  | [] => [b]
  end.
Lemma join_left_nil b : join_left [] b = [b].
Proof. done. Qed.
Lemma join_left_snoc l a b :
  join_left (l ++ [a]) b = if busy a then l ++ [a; b] else l ++ [mkBlk (blen a + blen b) false].
Proof.
  unfold join_left. rewrite reverse_app. simpl. destruct (busy a).
  - by rewrite <-app_assoc.
  - by rewrite reverse_involutive.
Qed.

Lemma plug_left_spec h l b r :
  tiles (heads h) (heap_end h) (l ++ b :: r) → lfree h = first_free 0 (l ++ b :: r) →
  ∃ hs, plug_left (total l) h = Ok (tt, h <| heads := hs |>) ∧
    tiles hs (heap_end h) (join_left l b ++ r).
Proof.
  intros Ht Hlf. pose proof Ht as Ht'. apply tiles_at in Ht' as [Hokl [Hb16 Hb4] Hokr Hs Hh Htl].
  destruct l as [|a l _] using rev_ind.
  - exists (heads h). split; [|done]. apply wp_exact. unfold plug_left. wp_steps.
    eapply wp_get_mem; [exact Hh|]. wp_steps. eapply wp_get_mem; [exact Hh|].
    apply wp_when; [intros [[] _]; done|]. intros _. by destruct h.
  - rewrite join_left_snoc. apply Forall_app in Hokl as [Hokl Hoka].
    pose proof (Forall_inv Hoka) as [Ha16 Ha4]. rewrite <-app_assoc in Ht. simpl in Ht.
    pose proof Ht as Ht'. apply tiles_at in Ht' as [_ _ _ _ Hha _].
    pose proof Hh as Hh'. rewrite last_off_app, Z.add_0_l in Hh'.
    assert (total (l ++ [a]) = total l + blen a) as Et by (rewrite total_app; simpl; lia).
    destruct (busy a) eqn:Ea.
    + exists (heads h). rewrite <-app_assoc. simpl. split; [|done]. apply wp_exact. unfold plug_left. wp_steps.
      eapply wp_get_mem; [exact Hh'|]. wp_steps. eapply wp_get_mem; [exact Hha|].
      apply wp_when; [|intros _; by destruct h]. unfold head_of; simpl. rewrite Ea. by intros [_ ?].
    + destruct (tiles_merge _ _ _ _ _ _ Ht) as (m & Hm & Ht2). rewrite Ea in Ht2.
      eexists. rewrite <-app_assoc. simpl. split; [|exact Ht2].
      apply wp_exact. unfold plug_left. wp_steps.
      eapply wp_get_mem; [exact Hh'|]. wp_steps. eapply wp_get_mem; [exact Hha|]. simpl.
      apply wp_when; [intros _|intros Hno; destruct Hno; rewrite Ea; split; [lia|done]].
      wp_steps. unfold id. apply wp_when.
      { intros E. rewrite Hlf, <-app_assoc in E. simpl in E.
        destruct (decide (all_busy l)) as [Hall|Hn].
        - rewrite first_free_busy in E by done. simpl in E. rewrite Ea in E. lia.
        - pose proof (first_free_found 0 l (a :: b :: r) Hn Hokl). lia. }
      intros _. wp_steps. eapply wp_upd_mem; [exact Hha|]. simpl.
      rewrite Et. rewrite Et in Hh.  
      eapply wp_upd_mem; [exact Hm|done].
Qed.

(** The blocks after [b] is given back between [l] and [r]. *)
Definition coalesce (l : list blk) (b : blk) (r : list blk) : list blk :=
  join_left l (join_right b r).1 ++ (join_right b r).2.

Lemma join_left_facts l b r :
  busy b = false → no_holes_from true l → no_holes_from false r →
  no_holes (join_left l b ++ r) ∧ used_total (join_left l b) = used_total l ∧
  first_free 0 (join_left l b ++ r) = first_free 0 (l ++ b :: r).
Proof.
  intros Hb Hl Hr. unfold no_holes. destruct l as [|a l _] using rev_ind.
  - simpl. rewrite Hb. split; [split; [by left|done]|done].
  - rewrite join_left_snoc. apply no_holes_app in Hl as [Hl Ha]. simpl in Ha. destruct (busy a) eqn:Ea.
    + rewrite <-!app_assoc. simpl. rewrite !used_total_app. simpl. rewrite Ea, Hb, no_holes_app. simpl.
      rewrite Ea, Hb. repeat split; first [done|by left|by right|lia].
    + rewrite <-!app_assoc. simpl. rewrite !used_total_app. simpl. rewrite Ea, no_holes_app. simpl.
      split; [split; [done|split; [apply Ha|done]]|]. split; [lia|].
      destruct (decide (all_busy l)) as [Hall|Hn].
      * rewrite !first_free_busy by done. simpl. by rewrite Ea.
      * clear -Hn. revert Hn. generalize 0. induction l as [|c l IH]; intros off Hn; simpl; [by destruct Hn; constructor|].
        destruct (busy c) eqn:Ec; [|done]. apply IH. intros Hl. apply Hn. by constructor.
Qed.

Lemma plug_holes_spec h l b r :
  arena_ok h → tiles (heads h) (heap_end h) (l ++ b :: r) → busy b = false →
  no_holes_from true l → no_holes_from true r →
  lfree h = first_free 0 (l ++ b :: r) → used_mem h = used_total l + used_total r →
  ∃ h', plug_holes (total l) h = Ok (tt, h') ∧ heap_rep h' (coalesce l b r) ∧
    same_arena h h' ∧ data h' = data h.
Proof.
  intros Har Ht Hb Hl Hr Hlf Hu. pose proof (tiles_offset _ _ _ _ Ht) as (Hl0 & _ & He). simpl in He.
  pose proof Ht as Ht'. apply tiles_at in Ht' as [Hokl [Hb16 _] Hokr _ _ _]. pose proof (total_nonneg r Hokr).
  assert (lfree h ≤ total l) as Hle.
  { rewrite Hlf. destruct (decide (all_busy l)) as [Hall|Hn].
    - rewrite first_free_busy by done. simpl. by rewrite Hb.
    - pose proof (first_free_found 0 l (b :: r) Hn Hokl). lia. }
  destruct (plug_right_spec h l b r Ht Hb Hle) as (hs1 & E1 & Ht1).
  pose proof (join_right_facts b r Hb Hr) as Hj. 
  assert (first_free 0 (l ++ (join_right b r).1 :: (join_right b r).2) = first_free 0 (l ++ b :: r)) as Hff.
  { destruct r as [|c r]; simpl; [done|]. destruct (busy c); simpl; [done|].
    destruct (decide (all_busy l)) as [Hall|Hn].
    - rewrite !first_free_busy by done. simpl. by rewrite Hb.
    - by rewrite !(proj1 (first_free_found _ _ _ Hn Hokl)). }
  unfold coalesce. destruct (join_right b r) as [b' r'] eqn:Ej. simpl in *. destruct Hj as (Hb' & Hr' & Hu' & Ht').
  set (h1 := h <| heads := hs1 |>) in *.
  destruct (plug_left_spec h1 l b' r') as (hs2 & E2 & Ht2); [done|by rewrite Hff|].
  destruct (join_left_facts l b' r' Hb' Hl Hr') as (Hno & Hut & Hfl).
  exists (h <| heads := hs2 |>). split; [|split; [|done]].
  - apply wp_exact. unfold plug_holes. wp_steps; [unfold id; lia|]. wp_steps.
    eapply wp_eq; [exact E1|]. eapply wp_eq; [exact E2|]. by destruct h.
  - split; simpl.
    + by destruct Har.
    + exact Ht2.
    + done.
    + by rewrite Hfl, Hff.
    + rewrite used_total_app, Hut. lia.
Qed.

(** ** The operations against the list of blocks *)
Lemma first_free_split bs : ∃ l r, bs = l ++ r ∧ all_busy l ∧ ∀ off, first_free off bs = off + total l.
Proof.
  induction bs as [|b bs (l & r & -> & Hl & Hf)].
  - exists [], []. repeat split; [by constructor|]. intros. simpl. lia.
  - destruct (busy b) eqn:Eb.
    + exists (b :: l), r. repeat split; [by constructor|]. intros. simpl. rewrite Eb, Hf. lia.
    + exists [], (b :: l ++ r). repeat split; [by constructor|]. intros. simpl. rewrite Eb. lia.
Qed.

Lemma malloc_search_spec h bs size :
  heap_rep h bs → MIN_SIZE_ALIGNED ≤ size ≤ mem_size_aligned h → size mod 4 = 0 →
  wp (malloc_search size) h (λ p h',
    match heap_alloc (mem_size_aligned h) size bs with
    | Some (off, bs') => p = heap_ptr h + off + 12 ∧ heap_rep h' bs' ∧ same_arena h h' ∧ data h' = data h
    | None => p = 0 ∧ h' = h
    end).
Proof.
  intros H Hsize Hs4. destruct (first_free_split bs) as (l & r & Hbs & Hl & Hf).
  unfold malloc_search. wp_steps. unfold id. rewrite (hr_lfree _ _ H), Hf, Z.add_0_l.
  pose proof (hr_tiles _ _ H) as Ht. pose proof (proj1 Ht) as Hok. rewrite Hbs in Hok.
  apply Forall_app in Hok as [Hokl Hokr].
  eapply wp_mono; [eapply (malloc_loop_spec h bs size l r); [done|done|done|done|]|].
  - unfold heap_fuel. pose proof (length_total r Hokr). pose proof (total_nonneg l Hokl).
    rewrite Hbs in Ht. pose proof (tiles_offset _ _ _ _ Ht). lia.
  - intros p h'. unfold heap_alloc. rewrite Hbs, (first_fit_busy _ _ 0) by done. rewrite Z.add_0_l.
    destruct (first_fit (mem_size_aligned h) size (total l) r) as [[[l' b] r']|]; simpl; [|done].
    by rewrite <-!app_assoc.
Qed.

(** The size a request is served with. *)
Definition rounded (size : Z) : Z := Z.max MIN_SIZE_ALIGNED (RT_ALIGN size RT_ALIGN_SIZE).

Lemma rounded_facts size :
  0 < size ≤ 2 ^ 32 - 4 → size ≤ rounded size ∧ rounded size mod 4 = 0 ∧ MIN_SIZE_ALIGNED ≤ rounded size.
Proof.
  intros H. unfold rounded. rewrite RT_ALIGN_4 by lia. hunfold.
  pose proof (Z.mul_succ_div_gt (size + 3) 4 ltac:(lia)).
  split; [lia|]. split; [|lia].
  destruct (Z.max_spec 12 (4 * ((size + 3) / 4))) as [[_ ->]|[_ ->]]; [|done].
  rewrite Z.mul_comm. by apply Z.mod_mul.
Qed.

Lemma malloc_locked_spec h bs size :
  heap_rep h bs → 0 < size ≤ 2 ^ 32 - 4 →
  wp (malloc_locked size) h (λ p h',
    match heap_alloc (mem_size_aligned h) (rounded size) bs with
    | Some (off, bs') => p = heap_ptr h + off + 12 ∧ heap_rep h' bs' ∧ same_arena h h' ∧ data h' = data h
    | None => p = 0 ∧ h' = h
    end).
Proof.
  intros H Hsize. destruct (rounded_facts size Hsize) as (Hr1 & Hr2 & Hr3).
  unfold malloc_locked. wp_steps. unfold id, malloc_size. rewrite decide_False by lia. case_decide as Hbig.
  - apply wp_ret. unfold heap_alloc. destruct (first_fit _ _ 0 bs) as [[[l b] r]|] eqn:E; [|done].
    apply first_fit_split in E as (-> & _ & Hlt & _).
    pose proof (tiles_offset _ _ _ _ (hr_tiles _ _ H)) as [Hl _]. unfold rounded in Hlt. lia.
  - destruct (hr_arena _ _ H) as [_ _ Hmin _].
    replace (if decide (RT_ALIGN size RT_ALIGN_SIZE < MIN_SIZE_ALIGNED) then MIN_SIZE_ALIGNED
             else RT_ALIGN size RT_ALIGN_SIZE) with (rounded size)
      by (unfold rounded; case_decide; lia).
    apply malloc_search_spec; [done| |done]. unfold rounded in *. hunfold. lia.
Qed.

Lemma free_locked_spec h l b r :
  heap_rep h (l ++ b :: r) → busy b = true →
  wp (free_locked (heap_ptr h + total l + 12)) h (λ _ h',
    heap_rep h' (coalesce l (mkBlk (blen b) false) r) ∧ same_arena h h' ∧ data h' = data h).
Proof.
  intros [Har Ht Hno Hlf Hu] Hb.
  pose proof (tiles_offset _ _ _ _ Ht) as (Hl0 & Hl4 & He). simpl in He.
  pose proof Ht as Ht'. apply tiles_at in Ht' as [Hokl [Hb16 Hb4] Hokr _ Hh _].
  pose proof (total_nonneg r Hokr) as Hr0. pose proof (used_total_bounds l Hokl) as Hul.
  pose proof (used_total_bounds r Hokr) as Hur. pose proof Har as [Hp0 Hp4 _ Hp1].
  rewrite used_total_app in Hu. simpl in Hu. rewrite Hb in Hu.
  apply no_holes_app in Hno as [Hnl Hnr]. simpl in Hnr. destruct Hnr as [_ Hnr]. rewrite Hb in Hnr.
  unfold free_locked, free_check, free_block. rewrite decide_False by lia. hunfold. wp_steps.
  { rewrite aligned_land, Z.add_mod, (Z.add_mod (heap_ptr h)), Hp4, Hl4 by lia. done. }
  wp_steps. { unfold in_heap, id. lia. }
  wp_steps. unfold id. replace (heap_ptr h + total l + 12 - 12 - heap_ptr h) with (total l) by lia.
  eapply wp_get_mem; [exact Hh|]. wp_steps; [unfold head_of; simpl; by rewrite Hb|]. wp_steps.
  eapply wp_upd_mem; [exact Hh|].
  pose proof (tiles_used _ _ _ _ _ false Ht) as Ht2.
  set (hs := <[total l := _]> (heads h)) in Ht2. 
  match goal with |- context [<[total l := ?x]> (heads h)] => change (<[total l := x]> (heads h)) with hs end.
  wp_steps.
  set (h2 := h <| heads := hs |> <| lfree := first_free 0 (l ++ mkBlk (blen b) false :: r) |>
               <| used_mem := used_total l + used_total r |>).
  destruct (plug_holes_spec h2 l (mkBlk (blen b) false) r) as (h' & E & Hrep & Hsame & Hd);
    [by destruct Har|exact Ht2|done|done|done|done|done|].
  assert (wp (uncount_used (blen b);; plug_holes (total l)) (h <| heads := hs |>
    <| lfree := first_free 0 (l ++ mkBlk (blen b) false :: r) |>) (λ _ h',
    heap_rep h' (coalesce l (mkBlk (blen b) false) r) ∧ same_arena h h' ∧ data h' = data h)) as Hfin.
  { unfold uncount_used. wp_steps. unfold used_mem at 1. 
    match goal with |- wp _ ?x _ => replace x with h2 end.
    - by eapply wp_eq; [exact E|].
    - unfold h2. simpl. rewrite Hu. rewrite wrapU_small by lia. f_equal. lia. }
  replace (next (head_of (total l) (last_off 0 0 l) b) - total l) with (blen b) by (simpl; lia).
  assert ((total l < lfree h → first_free 0 (l ++ mkBlk (blen b) false :: r) = total l) ∧
          (¬ total l < lfree h → first_free 0 (l ++ mkBlk (blen b) false :: r) = lfree h)) as Hlow.
  { rewrite Hlf. destruct (decide (all_busy l)) as [Hall|Hn].
    - rewrite !first_free_busy by done. simpl. rewrite Hb. split; [lia|].
      pose proof (first_free_ge r (0 + total l + blen b) Hokr). lia.
    - rewrite !(proj1 (first_free_found _ _ _ Hn Hokl)).
      pose proof (proj2 (first_free_found 0 l [] Hn Hokl)). split; [lia|done]. }
  apply wp_when; intros Hlt; [apply wp_modify|]; cbv beta;
    match goal with |- wp _ ?x _ => replace x with
      (h <| heads := hs |> <| lfree := first_free 0 (l ++ mkBlk (blen b) false :: r) |>); [exact Hfin|] end.
  - by rewrite (proj1 Hlow Hlt).
  - rewrite (proj2 Hlow Hlt). by destruct h.
Qed.

Lemma realloc_shrink_spec h l b r newsize :
  heap_rep h (l ++ b :: r) → busy b = true → 4 ≤ newsize → newsize mod 4 = 0 → newsize + 36 < blen b →
  wp (realloc_shrink (total l) (blen b - 12) newsize) h (λ _ h',
    heap_rep h' (coalesce (l ++ [mkBlk (newsize + 12) true]) (mkBlk (blen b - (newsize + 12)) false) r) ∧
    same_arena h h' ∧ data h' = data h).
Proof.
  intros [Har Ht Hno Hlf Hu] Hb Hn4 Hnm Hsize.
  pose proof (tiles_offset _ _ _ _ Ht) as (Hl0 & Hl4 & He). simpl in He.
  pose proof Ht as Ht'. apply tiles_at in Ht' as [Hokl [Hb16 Hb4] Hokr _ _ _].
  pose proof (total_nonneg r Hokr) as Hr0. pose proof (used_total_bounds l Hokl) as Hul.
  pose proof (used_total_bounds r Hokr) as Hur. pose proof Har as [Hp0 Hp4 _ Hp1]. hunfold.
  rewrite used_total_app in Hu. simpl in Hu. rewrite Hb in Hu.
  apply no_holes_app in Hno as [Hnl Hnr]. simpl in Hnr. destruct Hnr as [_ Hnr]. rewrite Hb in Hnr.
  set (c := mkBlk (newsize + 12) true). set (d := mkBlk (blen b - (newsize + 12)) false).
  assert (total (l ++ [c]) = total l + 12 + newsize) as Etc by (rewrite total_app; simpl; lia).
  unfold realloc_shrink, uncount_used. wp_steps. 
  match goal with |- wp _ ?x _ => set (h1 := x) end.
  destruct (split_block_spec h1 l b r newsize) as (hs & E1 & Ht1); [done|done|done|lia|].
  rewrite Hb in Ht1. fold c d in Ht1.
  eapply wp_eq; [exact E1|]. hunfold. wp_steps. unfold id. rewrite <-Etc.
  set (f := first_free 0 ((l ++ [c]) ++ d :: r)).
  assert ((total (l ++ [c]) < lfree h → f = total (l ++ [c])) ∧
          (¬ total (l ++ [c]) < lfree h → f = lfree h)) as Hlow.
  { unfold f. rewrite Hlf, Etc, <-app_assoc. simpl. destruct (decide (all_busy l)) as [Hall|Hn].
    - rewrite !first_free_busy by done. simpl. rewrite Hb.
      pose proof (first_free_ge r (0 + total l + blen b) Hokr). lia.
    - rewrite !(proj1 (first_free_found _ _ _ Hn Hokl)).
      pose proof (proj2 (first_free_found 0 l [] Hn Hokl)). split; [lia|done]. }
  set (h2 := h <| heads := hs |> <| lfree := f |> <| used_mem := used_total (l ++ [c]) + used_total r |>).
  destruct (plug_holes_spec h2 (l ++ [c]) d r) as (h' & E & Hrep & Hsame & Hd).
  { by destruct Har. } { rewrite <-app_assoc. exact Ht1. } { done. }
  { apply no_holes_app. split; [done|]. simpl. split; [by right|done]. } { done. } { done. } { done. }
  assert (used_mem h1 = used_total (l ++ [c]) + used_total r) as Eu.
  { unfold h1. simpl. rewrite Hu, used_total_app. simpl. rewrite wrapU_small; lia. }
  apply wp_when; intros Hlt; [apply wp_modify|]; cbv beta;
    match goal with |- wp _ ?x _ => replace x with h2; [by eapply wp_eq; [exact E|]|] end.
  - unfold h2. rewrite <-Eu, (proj1 Hlow Hlt). done.
  - unfold h2. rewrite <-Eu, (proj2 Hlow Hlt). done.
Qed.

Lemma init_spec b e h :
  rt_system_heap_init b e = Some h → 0 < b → 0 ≤ e < 2 ^ 32 → b ≤ 2 ^ 32 - 4 → 
  MIN_SIZE ≤ mem_size_aligned h →
  heap_rep h [mkBlk (heap_end h) false] ∧ heap_ptr h = RT_ALIGN b RT_ALIGN_SIZE ∧
  b ≤ heap_ptr h ∧ heap_ptr h + heap_end h + SIZEOF_STRUCT_MEM ≤ e.
Proof.
  intros Hi Hb He Hb2. unfold rt_system_heap_init in Hi.
  rewrite RT_ALIGN_4 in Hi |- * by lia. rewrite RT_ALIGN_DOWN_4 in Hi by lia. hunfold.
  destruct (decide _) as [[H1 H2]|]; [|done]. injection Hi as <-. simpl. unfold heap_end. simpl. hunfold.
  pose proof (Z.mul_div_le e 4 ltac:(lia)). pose proof (Z.mul_div_le (b + 3) 4 ltac:(lia)).
  pose proof (Z.mul_succ_div_gt (b + 3) 4 ltac:(lia)).
  rewrite (wrapU_small 32 (4 * (e / 4) - 2 * 12)) in H2 by lia.
  rewrite (wrapU_small 32 (4 * (e / 4) - 4 * ((b + 3) / 4) - 2 * 12)) by lia.
  set (s := 4 * (e / 4) - 4 * ((b + 3) / 4) - 2 * 12) in *.
  assert (s mod 4 = 0) as Hs4.
  { unfold s. replace (4 * (e / 4) - 4 * ((b + 3) / 4) - 2 * 12) with ((e / 4 - (b + 3) / 4 - 6) * 4) by lia.
    apply Z.mod_mul. lia. }
  rewrite (wrapU_small 32 (s + 12)) by lia. intros Hmin.
  split; [|split; [done|]; lia]. split; simpl.
  - split; simpl; [lia| |done|]; [|unfold heap_end; simpl; hunfold; lia]. rewrite Z.mul_comm. by apply Z.mod_mul.
  - unfold heap_end; simpl; hunfold. split; [|split; [|split; [simpl; lia|]]].
    + constructor; [|done]. split; simpl; [lia|]. by rewrite Z.add_mod, Hs4.
    + simpl. split; [|done]. rewrite lookup_insert_ne, lookup_singleton_eq by lia. done.
    + eexists. by rewrite lookup_insert_eq.
  - by repeat split; left.
  - done.
  - done.
Qed.
