(* ===== verification/Allocator.v ===== *)
(** * What the heap promises

    The blocks in use as a finite map from addresses to sizes, and the
    contracts of the operations of Heap.v in terms of it. *)
From S2P Require Import Prelude Heap.

(** The payloads in use: address and size. *)
Fixpoint live (base off : Z) (bs : list blk) : gmap Z Z :=
  match bs with
  | [] => ∅
  | b :: bs =>
      if busy b then <[base + off + 12 := blen b - 12]> (live base (off + blen b) bs)
      else live base (off + blen b) bs
  end.
Definition in_use (h : heap) (bs : list blk) : gmap Z Z := live (heap_ptr h) 0 bs.

Section Live.
Context (base : Z).
Implicit Types (l r bs : list blk).

Lemma live_bounds off bs p n :
  Forall blk_ok bs → live base off bs !! p = Some n →
  base + off + 12 ≤ p ∧ p + n ≤ base + off + total bs ∧ 4 ≤ n.
Proof.
  intros Hok. revert off. induction Hok as [|b bs [Hb _] Hok IH]; intros off; simpl; [done|].
  pose proof (total_nonneg bs Hok). destruct (busy b).
  - rewrite lookup_insert_Some. intros [[<- <-]|[_ Hl]]; [lia|]. apply IH in Hl. lia.
  - intros Hl. apply IH in Hl. lia.
Qed.
Lemma live_aligned off bs p n :
  Forall blk_ok bs → base mod 4 = 0 → off mod 4 = 0 → live base off bs !! p = Some n →
  p mod 4 = 0 ∧ n mod 4 = 0.
Proof.
  intros Hok Hb4. revert off. induction Hok as [|b bs [Hb Hm] Hok IH]; intros off Ho; simpl; [done|].
  assert ((off + blen b) mod 4 = 0) by by rewrite Z.add_mod, Ho, Hm.
  destruct (busy b); [|by apply IH].
  rewrite lookup_insert_Some. intros [[<- <-]|[_ Hl]]; [|by eapply IH].
  rewrite Z.add_mod, (Z.add_mod base), Hb4, Ho by lia. split; [done|].
  by rewrite Zminus_mod, Hm.
Qed.
Lemma live_apart off bs p n q m :
  Forall blk_ok bs → live base off bs !! p = Some n → live base off bs !! q = Some m → p ≠ q →
  p + n + 12 ≤ q ∨ q + m + 12 ≤ p.
Proof.
  intros Hok. revert off. induction Hok as [|b bs [Hb _] Hok IH]; intros off; simpl; [done|].
  destruct (busy b); [|by apply IH].
  rewrite !lookup_insert_Some. intros [[<- <-]|[_ Hp]] [[<- <-]|[_ Hq]] Hne; [done| | |by eapply IH].
  - apply live_bounds in Hq; [lia|done].
  - apply live_bounds in Hp; [lia|done].
Qed.

Lemma live_cong off l r1 r2 :
  live base (off + total l) r1 = live base (off + total l) r2 →
  live base off (l ++ r1) = live base off (l ++ r2).
Proof.
  revert off. induction l as [|c l IH]; intros off; simpl; [by rewrite Z.add_0_r|].
  rewrite Z.add_assoc. intros E. by rewrite (IH _ E).
Qed.
(** The block after [l]: its payload is not the address of another one. *)
Lemma live_fresh off l n r :
  Forall blk_ok (l ++ mkBlk n false :: r) →
  live base off (l ++ mkBlk n false :: r) !! (base + off + total l + 12) = None.
Proof.
  revert off. induction l as [|c l IH]; intros off; simpl; intros [[Hc _] Hok]%Forall_cons.
  - destruct (live base (off + n) r !! _) as [m|] eqn:E; [|done]. apply live_bounds in E; [|done]. simpl in *. lia.
  - assert (0 ≤ total l) by (apply total_nonneg; by apply Forall_app in Hok as [? _]).
    specialize (IH (off + blen c) Hok).
    replace (base + (off + blen c) + total l + 12) with (base + off + (blen c + total l) + 12) in IH by lia.
    destruct (busy c); [|done]. rewrite lookup_insert_ne by lia. done.
Qed.
Lemma live_busy off l n r :
  Forall blk_ok (l ++ mkBlk n false :: r) →
  live base off (l ++ mkBlk n true :: r) =
    <[base + off + total l + 12 := n - 12]> (live base off (l ++ mkBlk n false :: r)).
Proof.
  revert off. induction l as [|c l IH]; intros off; simpl; intros [[Hc _] Hok]%Forall_cons.
  - by rewrite Z.add_0_r.
  - assert (0 ≤ total l) by (apply total_nonneg; by apply Forall_app in Hok as [? _]).
    rewrite (IH _ Hok).
    replace (base + (off + blen c) + total l + 12) with (base + off + (blen c + total l) + 12) by lia.
    destruct (busy c); [|done]. apply insert_insert_ne. lia.
Qed.
Lemma live_find off bs p n :
  live base off bs !! p = Some n →
  ∃ l b r, bs = l ++ b :: r ∧ busy b = true ∧ p = base + off + total l + 12 ∧ n = blen b - 12.
Proof.
  revert off. induction bs as [|b bs IH]; intros off; simpl; [done|].
  destruct (busy b) eqn:Eb.
  - rewrite lookup_insert_Some. intros [[<- <-]|[_ Hl]].
    + exists [], b, bs. simpl. repeat split; [done|lia].
    + destruct (IH _ Hl) as (l & c & r & -> & Hc & -> & ->). exists (b :: l), c, r. simpl.
      repeat split; [done|lia].
  - intros Hl. destruct (IH _ Hl) as (l & c & r & -> & Hc & -> & ->). exists (b :: l), c, r. simpl.
    repeat split; [done|lia].
Qed.
Lemma live_none off bs : live base off bs = ∅ → Forall (λ b, busy b = false) bs.
Proof.
  revert off. induction bs as [|b bs IH]; intros off; simpl; [by constructor|].
  destruct (busy b) eqn:Eb; [by intros ?%insert_non_empty|]. intros Hl. constructor; [done|by eapply IH].
Qed.
End Live.

(** ** Giving back and handing out *)
Lemma in_use_free base off l b r :
  Forall blk_ok (l ++ b :: r) → busy b = true →
  live base off (l ++ mkBlk (blen b) false :: r) = delete (base + off + total l + 12) (live base off (l ++ b :: r)).
Proof.
  intros Hok Hb. assert (b = mkBlk (blen b) true) as E by (destruct b; simpl in *; congruence).
  assert (Forall blk_ok (l ++ mkBlk (blen b) false :: r)) as Hok'.
  { apply Forall_app in Hok as [? [[? ?] ?]%Forall_cons]. apply Forall_app. split; [done|].
    apply Forall_cons. by repeat split. }
  rewrite E at 2. rewrite live_busy by done. rewrite delete_insert_id; [done|]. by apply live_fresh.
Qed.
Lemma live_coalesce base off l b r :
  busy b = false → live base off (coalesce l b r) = live base off (l ++ b :: r).
Proof.
  intros Hb. unfold coalesce.
  assert (∀ b' r', busy b' = false → live base off (join_left l b' ++ r') = live base off (l ++ b' :: r')) as Hleft.
  { intros b' r' Hb'. destruct l as [|a l _] using rev_ind; [done|]. rewrite join_left_snoc.
    destruct (busy a) eqn:Ea; rewrite <-!app_assoc; [done|]. simpl. apply live_cong. simpl. rewrite Ea, Hb'.
    f_equal. lia. }
  destruct r as [|c r]; simpl; [by apply Hleft|]. destruct (busy c) eqn:Ec; simpl; [by apply Hleft|].
  rewrite Hleft by done. apply live_cong. simpl. rewrite Hb, Ec. f_equal. lia.
Qed.

(** ** What a successful request gets: a new block that keeps off the others *)
Definition granted (h : heap) (lv : gmap Z Z) (size p : Z) (lv' : gmap Z Z) : Prop :=
  ∃ n, lv' = <[p := n]> lv ∧ size ≤ n ∧ p mod 4 = 0 ∧
    heap_ptr h + 12 ≤ p ∧ p + n ≤ heap_ptr h + heap_end h ∧
    ∀ q m, lv !! q = Some m → p + n + 12 ≤ q ∨ q + m + 12 ≤ p.

(** No free block serves a request of [size] bytes: each is too small or so
    near the end of the arena that the search does not look at it. *)
Definition no_room (h : heap) (bs : list blk) (size : Z) : Prop :=
  ∀ l b r, bs = l ++ b :: r → busy b = false →
    mem_size_aligned h - size ≤ total l ∨ blen b < size + 12.

Lemma in_use_carve h l b r size :
  Forall blk_ok (l ++ b :: r) → busy b = false → 4 ≤ size → size mod 4 = 0 → size + 12 ≤ blen b →
  ∃ n, size ≤ n ≤ blen b - 12 ∧
    live (heap_ptr h) 0 (l ++ carve size b ++ r) =
      <[heap_ptr h + total l + 12 := n]> (live (heap_ptr h) 0 (l ++ b :: r)).
Proof.
  intros Hok Hb H4 Hs4 Hsize. pose proof Hok as [Hl [[Hb16 Hb4] Hr]%Forall_cons]%Forall_app.
  unfold carve. destruct (decide (size + 36 ≤ blen b)).
  - exists size. split; [lia|]. simpl. rewrite live_busy.
    + rewrite Z.add_0_r. f_equal; [lia|]. apply live_cong. simpl. rewrite Hb. f_equal. lia.
    + apply Forall_app. split; [done|]. repeat (apply Forall_cons; split); [| |done]; split; simpl; try lia.
      * by rewrite Z.add_mod, Hs4.
      * by rewrite Zminus_mod, Z.add_mod, Hs4, Hb4.
  - exists (blen b - 12). split; [lia|]. simpl.
    assert (b = mkBlk (blen b) false) as E by (destruct b; simpl in *; congruence).
    rewrite live_busy by (by rewrite <-E). rewrite Z.add_0_r. by rewrite <-E.
Qed.

Lemma grant h bs l b r size h' :
  heap_rep h bs → bs = l ++ b :: r → busy b = false → 4 ≤ size → size mod 4 = 0 → size + 12 ≤ blen b →
  heap_rep h' (l ++ carve size b ++ r) → same_arena h h' →
  granted h (in_use h bs) size (heap_ptr h + total l + 12) (in_use h' (l ++ carve size b ++ r)).
Proof.
  intros H Hbs Hb H4 Hs4 Hsize H' [Ep _].
  pose proof (proj1 (hr_tiles _ _ H)) as Hok. pose proof (proj1 (hr_tiles _ _ H')) as Hok'.
  rewrite Hbs in Hok. destruct (in_use_carve h l b r size) as (n & Hn & Hl); [done..|].
  unfold in_use. rewrite Ep, Hl, Hbs. exists n. split; [done|]. split; [lia|].
  pose proof (hr_tiles _ _ H) as Ht. rewrite Hbs in Ht.
  destruct (tiles_offset _ _ _ _ Ht) as (Hl0 & Hl4 & He). simpl in He.
  pose proof Hok as [_ [_ Hokr]%Forall_cons]%Forall_app. pose proof (total_nonneg r Hokr).
  split; [|split; [lia|split; [lia|]]].
  - rewrite Z.add_mod, (Z.add_mod (heap_ptr h)), Hl4, (ar_aligned _ (hr_arena _ _ H)) by lia. done.
  - intros q m Hq. apply (live_apart (heap_ptr h) 0 (l ++ carve size b ++ r)).
    + done.
    + rewrite Hl. by rewrite lookup_insert_eq.
    + rewrite Hl. rewrite lookup_insert_ne; [done|]. intros <-.
      assert (b = mkBlk (blen b) false) as E by (destruct b; simpl in *; congruence).
      rewrite E in Hok, Hq. pose proof (live_fresh (heap_ptr h) 0 l (blen b) r Hok) as Hf.
      rewrite Z.add_0_r in Hf. congruence.
    + intros <-. assert (b = mkBlk (blen b) false) as E by (destruct b; simpl in *; congruence).
      rewrite E in Hok, Hq. pose proof (live_fresh (heap_ptr h) 0 l (blen b) r Hok) as Hf.
      rewrite Z.add_0_r in Hf. congruence.
Qed.

Lemma malloc_contract h bs size :
  heap_rep h bs → 0 < size ≤ 2 ^ 32 - 4 →
  wp (malloc_locked size) h (λ p h',
    (p = 0 ∧ h' = h ∧ no_room h bs (rounded size)) ∨
    (p ≠ 0 ∧ same_arena h h' ∧ data h' = data h ∧ ∃ bs', heap_rep h' bs' ∧
      granted h (in_use h bs) (rounded size) p (in_use h' bs'))).
Proof.
  intros H Hsize. destruct (rounded_facts size Hsize) as (Hr1 & Hr2 & Hr3).
  eapply wp_mono; [by apply malloc_locked_spec|]. intros p h'. unfold heap_alloc.
  destruct (first_fit _ _ 0 bs) as [[[l b] r]|] eqn:E; simpl.
  - intros (-> & Hrep & Hs & Hd). right. apply first_fit_split in E as (E & Hb & _ & Hfit).
    pose proof (hr_tiles _ _ H) as Ht. rewrite E in Ht. pose proof (tiles_offset _ _ _ _ Ht) as [? _].
    pose proof (ar_ptr _ (hr_arena _ _ H)). split; [lia|]. split; [done|]. split; [done|].
    eexists. split; [done|]. hunfold. eapply grant; [done|done|done|lia|done|done|done|done].
  - intros [-> ->]. left. split; [done|]. split; [done|]. intros l b r El Hb.
    destruct (first_fit_none _ _ _ _ E l b r El Hb); [left; lia|by right].
Qed.

Lemma free_contract h bs p n :
  heap_rep h bs → in_use h bs !! p = Some n →
  wp (free_locked p) h (λ _ h', same_arena h h' ∧ data h' = data h ∧
    ∃ bs', heap_rep h' bs' ∧ in_use h' bs' = delete p (in_use h bs)).
Proof.
  intros H Hp. destruct (live_find _ _ _ _ _ Hp) as (l & b & r & E & Hb & -> & ->).
  rewrite Z.add_0_r. rewrite E in H.
  pose proof (proj1 (hr_tiles _ _ H)) as Hok.
  eapply wp_mono; [by apply free_locked_spec|]. intros _ h' (Hrep & Hs & Hd). split; [done|]. split; [done|].
  eexists. split; [done|]. unfold in_use. destruct Hs as [-> _].
  rewrite live_coalesce, in_use_free by done. by rewrite E, Z.add_0_r.
Qed.

(** ** Growing and shrinking *)
Lemma copy_bytes_out n dst src d k :
  ¬ (dst ≤ k < dst + Z.of_nat n) → copy_bytes n dst src d !! k = d !! k.
Proof.
  revert dst src d. induction n as [|n IH]; intros dst src d Hk; simpl; [done|].
  rewrite IH by lia. by rewrite lookup_insert_ne by lia.
Qed.
Lemma copy_bytes_in n dst src d i :
  dst + Z.of_nat n ≤ src ∨ src + Z.of_nat n ≤ dst → 0 ≤ i < Z.of_nat n →
  copy_bytes n dst src d !! (dst + i) = Some (default 0 (d !! (src + i))).
Proof.
  revert dst src d i. induction n as [|n IH]; intros dst src d i Hd Hi; simpl; [lia|].
  destruct (decide (i = 0)) as [->|].
  - rewrite copy_bytes_out by lia. by rewrite !Z.add_0_r, lookup_insert_eq.
  - replace (dst + i) with ((dst + 1) + (i - 1)) by lia. rewrite IH by lia.
    replace (src + 1 + (i - 1)) with (src + i) by lia. by rewrite lookup_insert_ne by lia.
Qed.
Lemma fill_bytes_in n dst v d i :
  0 ≤ i < Z.of_nat n → fill_bytes n dst v d !! (dst + i) = Some v.
Proof.
  revert dst d i. induction n as [|n IH]; intros dst d i Hi; simpl; [lia|].
  destruct (decide (i = 0)) as [->|].
  - rewrite Z.add_0_r. assert (∀ m e d', dst < e → fill_bytes m e v d' !! dst = d' !! dst) as Hout.
    { clear. induction m as [|m IH]; intros e d' He; simpl; [done|].
      rewrite IH by lia. by rewrite lookup_insert_ne by lia. }
    rewrite Hout by lia. by rewrite lookup_insert_eq.
  - replace (dst + i) with ((dst + 1) + (i - 1)) by lia. apply IH. lia.
Qed.

(** The bytes of the payload at [p]. *)
Definition byte_at (h : heap) (p i : Z) : Z := default 0 (data h !! (p - heap_ptr h + i)).

Lemma in_use_shrink base off l b r n :
  busy b = true → 16 ≤ n → 16 ≤ blen b - n → n mod 4 = 0 → Forall blk_ok (l ++ b :: r) →
  live base off (coalesce (l ++ [mkBlk n true]) (mkBlk (blen b - n) false) r) =
    <[base + off + total l + 12 := n - 12]> (live base off (l ++ b :: r)).
Proof.
  intros Hb Hn Hrest Hn4 Hok. pose proof Hok as [Hokl [[_ Hb4] Hokr]%Forall_cons]%Forall_app.
  rewrite live_coalesce by done. rewrite <-app_assoc. simpl.
  assert (b = mkBlk (blen b) true) as E by (destruct b; simpl in *; congruence).
  rewrite live_busy.
  - rewrite E at 2. rewrite live_busy.
    + rewrite insert_insert_eq. f_equal. apply live_cong. simpl. f_equal. lia.
    + apply Forall_app. split; [done|]. apply Forall_cons. split; [|done].
      apply Forall_app in Hok as [_ [[? ?] _]%Forall_cons]. by split.
  - apply Forall_app. split; [done|]. repeat (apply Forall_cons; split); [| |done]; split; simpl; try lia.
    by rewrite Zminus_mod, Hb4, Hn4.
Qed.

Section Realloc.
Context (h : heap) (bs : list blk) (p n : Z) (H : heap_rep h bs) (Hp : in_use h bs !! p = Some n).

Lemma payload_in_heap : in_heap h p ∧ p ≠ 0.
Proof.
  pose proof (proj1 (hr_tiles _ _ H)) as Hok.
  destruct (live_bounds _ _ _ _ _ Hok Hp) as (H1 & H2 & H3).
  destruct (hr_tiles _ _ H) as (_ & _ & He & _). destruct (hr_arena _ _ H).
  unfold in_heap. hunfold. lia.
Qed.
Lemma payload_head :
  ∃ m, heads h !! (p - SIZEOF_STRUCT_MEM - heap_ptr h) = Some m ∧
    u32 (next m - (p - SIZEOF_STRUCT_MEM - heap_ptr h) - SIZEOF_STRUCT_MEM) = n.
Proof.
  destruct (live_find _ _ _ _ _ Hp) as (l & b & r & E & Hb & -> & ->).
  pose proof (hr_tiles _ _ H) as Ht. rewrite E in Ht. pose proof (tiles_offset _ _ _ _ Ht) as (Hl0 & _ & He).
  simpl in He. apply tiles_at in Ht as [_ [Hb16 _] Hokr _ Hh _]. pose proof (total_nonneg r Hokr).
  destruct (hr_arena _ _ H). hunfold. eexists.
  replace (heap_ptr h + 0 + total l + 12 - 12 - heap_ptr h) with (total l) by lia. split; [exact Hh|].
  simpl. rewrite wrapU_small; lia.
Qed.

(** [rt_realloc]: the block stays and is cut, or moves with its bytes, or
    nothing happens. *)
Definition reallocated (newsize : Z) (q : Z) (h' : heap) : Prop :=
  (q = 0 ∧ h' = h) ∨
  (same_arena h h' ∧ ∃ bs', heap_rep h' bs' ∧
    ((q = p ∧ data h' = data h ∧ ∃ m, newsize ≤ m ≤ n ∧ in_use h' bs' = <[p := m]> (in_use h bs)) ∨
     (granted h (delete p (in_use h bs)) newsize q (in_use h' bs') ∧ q ≠ p ∧
      ∀ i, 0 ≤ i < Z.min n newsize → byte_at h' q i = byte_at h p i))).

Lemma realloc_contract newsize :
  0 < newsize ≤ 2 ^ 32 - 32 →
  wp (realloc_locked p newsize) h (reallocated newsize).
Proof.
  intros Hns. destruct payload_in_heap as [Hin Hp0]. destruct payload_head as (m & Hm & Hsize).
  pose proof (proj1 (hr_tiles _ _ H)) as Hok.
  destruct (live_find _ _ _ _ _ Hp) as (l & b & r & E & Hb & Ep & En).
  pose proof (hr_tiles _ _ H) as Ht. rewrite E in Ht. pose proof (tiles_offset _ _ _ _ Ht) as (Hl0 & Hl4 & He).
  simpl in He. pose proof (proj1 Ht) as Hok'. 
  pose proof Hok' as [Hokl [[Hb16 Hb4] Hokr]%Forall_cons]%Forall_app. pose proof (total_nonneg r Hokr).
  destruct (hr_arena _ _ H) as [Ha1 Ha2 _ Ha4].
  set (ns := RT_ALIGN newsize RT_ALIGN_SIZE).
  assert (newsize ≤ ns < newsize + 4 ∧ 4 ≤ ns ∧ ns mod 4 = 0) as (Hns1 & Hns2 & Hns4).
  { unfold ns. rewrite RT_ALIGN_4 by lia. pose proof (Z.mul_div_le (newsize + 3) 4 ltac:(lia)).
    pose proof (Z.mul_succ_div_gt (newsize + 3) 4 ltac:(lia)). split; [lia|]. split; [lia|].
    rewrite Z.mul_comm. by apply Z.mod_mul. }
  unfold realloc_locked. wp_steps. unfold id. fold ns.
  apply wp_decide; intros Hbig; [apply wp_ret; by left|].
  rewrite decide_False by lia. rewrite decide_False by done.
  rewrite decide_False by (intros Hn; by destruct Hn).
  wp_steps. eapply wp_get_mem; [exact Hm|]. rewrite Hsize.
  apply wp_decide; intros Heq.
  { apply wp_ret. right. split; [reflexivity|]. exists bs. split; [done|]. left. split; [done|]. split; [done|].
    exists n. split; [lia|]. by rewrite insert_id. }
  hunfold. rewrite (wrapU_small 32 (ns + 12 + 12)) by lia.
  apply wp_decide; intros Hcut.
  - replace (p - 12 - heap_ptr h) with (total l) by lia. rewrite En. wp_steps.
    pose proof H as H'. rewrite E in H'.
    eapply wp_mono; [apply realloc_shrink_spec; [exact H'|done|lia|done|lia]|].
    intros _ h' (Hrep & Hs & Hd). wp_steps. right. split; [done|]. eexists. split; [exact Hrep|]. left.
    split; [done|]. split; [done|]. exists ns. split; [lia|]. unfold in_use. destruct Hs as [-> _].
    rewrite in_use_shrink; [|done|lia|lia|by rewrite Z.add_mod, Hns4|done].
    rewrite E. f_equal; lia.
  - wp_steps. eapply wp_mono; [apply (malloc_contract h bs ns); [done|lia]|].
    intros q h1 [(-> & -> & _)|(Hq & Hs1 & Hd1 & bs1 & Hrep1 & Hg)].
    { wp_steps. apply wp_when; [done|]. intros _. wp_steps. by left. }
    wp_steps. apply wp_when; [intros _|done].
    destruct Hg as (n' & El & Hn' & Hq4 & Hq1 & Hq2 & Hap). destruct (rounded_facts ns) as (Hr1 & _); [lia|].
    pose proof (Hap _ _ Hp) as Hqp.
    assert (q ≠ p) as Hqne. { assert (4 ≤ n) by lia. lia. }
    unfold heap_copy. wp_steps. 
    match goal with |- wp _ ?x _ => set (h2 := x) end.
    assert (heap_rep h2 bs1) as Hrep2 by by destruct Hrep1 as [[] ? ? ? ?].
    assert (in_use h2 bs1 !! p = Some n) as Hp2.
    { change (in_use h2 bs1) with (in_use h1 bs1). rewrite El. by rewrite lookup_insert_ne. }
    eapply wp_mono; [by apply (free_contract h2 bs1 p n)|].
    intros _ h3 (Hs3 & Hd3 & bs3 & Hrep3 & El3). wp_steps. right.
    assert (same_arena h h3) as Hs by (etrans; [exact Hs1|exact Hs3]). split; [done|].
    exists bs3. split; [done|]. right. split; [|split; [done|]].
    + exists n'. change (in_use h2 bs1) with (in_use h1 bs1) in El3. rewrite El3, El.
      split; [by rewrite delete_insert_ne by congruence|]. split; [lia|]. split; [done|]. split; [lia|]. split; [lia|].
      intros q' m' Hq'. apply lookup_delete_Some in Hq' as [_ Hq']. eauto.
    + intros i Hi. unfold byte_at. destruct Hs as [-> _]. rewrite Hd3. unfold h2. simpl.
      destruct Hs1 as [-> _]. rewrite Hd1.
      assert ((if decide (n < ns) then n else ns) = Z.min n ns) as -> by (case_decide; lia).
      rewrite copy_bytes_in by lia. done.
Qed.
End Realloc.

Lemma calloc_contract h bs count size :
  heap_rep h bs → 0 < count * size ≤ 2 ^ 32 - 4 →
  wp (calloc_locked count size) h (λ p h',
    (p = 0 ∧ h' = h ∧ no_room h bs (rounded (count * size))) ∨
    (p ≠ 0 ∧ same_arena h h' ∧ (∀ i, 0 ≤ i < count * size → byte_at h' p i = 0) ∧
     ∃ bs', heap_rep h' bs' ∧ granted h (in_use h bs) (rounded (count * size)) p (in_use h' bs'))).
Proof.
  intros H Hsize. unfold calloc_locked. rewrite wrapU_small by lia. wp_steps.
  eapply wp_mono; [by apply malloc_contract|].
  intros p h' [(-> & -> & Hno)|(Hp & Hs & Hd & bs' & Hrep & Hg)].
  - wp_steps. apply wp_when; [done|]. intros _. wp_steps. by left.
  - wp_steps. apply wp_when; [intros _|done]. unfold heap_fill. wp_steps. right. split; [done|].
    split; [done|]. split.
    + intros i Hi. unfold byte_at. simpl. by rewrite fill_bytes_in by lia.
    + exists bs'. split; [by destruct Hrep as [[] ? ? ? ?]|done].
Qed.

(** ** The heap as an abstract allocator *)
Inductive heap_call := Malloc (size : Z) | Calloc (count size : Z) | Realloc (p size : Z) | Free (p : Z).

Definition heap_do (c : heap_call) : M heap Z :=
  match c with
  | Malloc size => malloc_locked size
  | Calloc count size => calloc_locked count size
  | Realloc p size => realloc_locked p size
  | Free p => free_locked p;; mret 0
  end.

(** What a call may do to the blocks in use; [h] gives the arena only. *)
Inductive heap_step (h : heap) (lv : gmap Z Z) : heap_call → Z → gmap Z Z → Prop :=
  | step_refuse c : (∀ p, c ≠ Free p) → heap_step h lv c 0 lv
  | step_malloc size p lv' : granted h lv size p lv' → heap_step h lv (Malloc size) p lv'
  | step_calloc count size p lv' : granted h lv (count * size) p lv' → heap_step h lv (Calloc count size) p lv'
  | step_keep p n m size : lv !! p = Some n → size ≤ m ≤ n →
      heap_step h lv (Realloc p size) p (<[p := m]> lv)
  | step_move p n q size lv' : lv !! p = Some n → granted h (delete p lv) size q lv' →
      heap_step h lv (Realloc p size) q lv'
  | step_free p : heap_step h lv (Free p) 0 (delete p lv).

(** The calls a client may make: sizes that do not wrap, and only pointers
    that are in use. *)
Definition call_ok (lv : gmap Z Z) (c : heap_call) : Prop :=
  match c with
  | Malloc size => 0 < size ≤ 2 ^ 32 - 4
  | Calloc count size => 0 < count * size ≤ 2 ^ 32 - 4
  | Realloc p size => is_Some (lv !! p) ∧ 0 < size ≤ 2 ^ 32 - 32
  | Free p => is_Some (lv !! p)
  end.

(** A client: the next call, from the results so far. *)
Definition client : Type := list Z → heap_call.
Inductive heap_trace (h : heap) (lv : gmap Z Z) (c : client) : list Z → gmap Z Z → Prop :=
  | trace_nil : heap_trace h lv c [] lv
  | trace_snoc rs lv1 r lv2 :
      heap_trace h lv c rs lv1 → heap_step h lv1 (c rs) r lv2 → heap_trace h lv c (rs ++ [r]) lv2.
Fixpoint heap_run (c : client) (n : nat) (rs : list Z) : M heap (list Z) :=
  match n with
  | O => mret rs
  | S n => r ← heap_do (c rs); heap_run c n (rs ++ [r])
  end.

(** What a client holds, as it can tell from its own calls and their results:
    what it was given and has not given back. *)
Definition held_after (c : heap_call) (r : Z) (S : gset Z) : gset Z :=
  match c with
  | Free p => S ∖ {[p]}
  | Realloc p _ => if decide (r = 0) then S else {[r]} ∪ (S ∖ {[p]})
  | Malloc _ | Calloc _ _ => if decide (r = 0) then S else {[r]} ∪ S
  end.
Fixpoint held_from (c : client) (done : list Z) (rs : list Z) (S : gset Z) : gset Z :=
  match rs with
  | [] => S
  | r :: rs => held_from c (done ++ [r]) rs (held_after (c done) r S)
  end.
Definition held (c : client) (rs : list Z) : gset Z := held_from c [] rs ∅.

Lemma held_from_snoc c rs r : ∀ done S,
  held_from c done (rs ++ [r]) S = held_after (c (done ++ rs)) r (held_from c done rs S).
Proof.
  induction rs as [|r' rs IH]; intros done S; simpl; [by rewrite app_nil_r|]. by rewrite IH, <-app_assoc.
Qed.
Lemma granted_dom h lv size p lv' : 0 < heap_ptr h → granted h lv size p lv' → p ≠ 0 ∧ dom lv' = {[p]} ∪ dom lv.
Proof. intros Hh (n & -> & _ & _ & Hlo & _). split; [lia|]. by rewrite dom_insert_L. Qed.
Lemma step_held h lv c r lv' :
  0 < heap_ptr h → 0 ∉ dom lv → heap_step h lv c r lv' → (0 ∉ dom lv') ∧ dom lv' = held_after c r (dom lv).
Proof.
  intros Hh H0 Hstep.
  destruct Hstep as [c Hc|size p lv' Hg|count size p lv' Hg|p n m size Hp|p n q size lv' Hp Hg|p]; simpl.
  - split; [done|]. destruct c; rewrite ?decide_True by done; [done..|]. by destruct (Hc p).
  - destruct (granted_dom _ _ _ _ _ Hh Hg) as [Hp ->]. rewrite decide_False by done. set_solver.
  - destruct (granted_dom _ _ _ _ _ Hh Hg) as [Hp ->]. rewrite decide_False by done. set_solver.
  - apply elem_of_dom_2 in Hp. rewrite decide_False by set_solver. rewrite dom_insert_L. split; [set_solver|].
    apply set_eq. intros x. rewrite !elem_of_union, elem_of_difference, elem_of_singleton. destruct (decide (x = p)); tauto.
  - destruct (granted_dom _ _ _ _ _ Hh Hg) as [Hq E]. rewrite dom_delete_L in E. rewrite E.
    rewrite decide_False by done. set_solver.
  - rewrite dom_delete_L. set_solver.
Qed.
Lemma trace_held h c rs lv : 0 < heap_ptr h → heap_trace h ∅ c rs lv → (0 ∉ dom lv) ∧ dom lv = held c rs.
Proof.
  intros Hh. induction 1 as [|rs lv1 r lv2 Ht IH Hs].
  - by rewrite dom_empty_L.
  - destruct IH as [H0 IHd]. destruct (step_held _ _ _ _ _ Hh H0 Hs) as [Hz E]. split; [done|].
    rewrite E. unfold held in *. by rewrite held_from_snoc, <-IHd.
Qed.

Lemma granted_same h h' lv size p lv' : same_arena h h' → granted h' lv size p lv' → granted h lv size p lv'.
Proof.
  intros Hs (n & Hg). exists n. rewrite (same_arena_end _ _ Hs) in Hg. destruct Hs as [E _].
  by rewrite E in Hg.
Qed.
Lemma granted_le h lv a b p lv' : a ≤ b → granted h lv b p lv' → granted h lv a p lv'.
Proof. intros Hle (n & ? & ? & ?). exists n. split; [done|]. split; [lia|done]. Qed.

Lemma heap_do_spec h bs c :
  heap_rep h bs → call_ok (in_use h bs) c →
  wp (heap_do c) h (λ r h', same_arena h h' ∧
    ∃ bs', heap_rep h' bs' ∧ heap_step h (in_use h bs) c r (in_use h' bs')).
Proof.
  intros H Hc. destruct c as [size|count size|p size|p]; simpl in Hc |- *.
  - eapply wp_mono; [by apply malloc_contract|]. intros p h' [(-> & -> & _)|(_ & Hs & _ & bs' & Hrep & Hg)].
    + split; [done|]. exists bs. split; [done|]. by constructor.
    + split; [done|]. exists bs'. split; [done|]. constructor.
      eapply granted_le; [|done]. by apply rounded_facts.
  - eapply wp_mono; [by apply calloc_contract|]. intros p h' [(-> & -> & _)|(_ & Hs & _ & bs' & Hrep & Hg)].
    + split; [done|]. exists bs. split; [done|]. by constructor.
    + split; [done|]. exists bs'. split; [done|]. constructor.
      eapply granted_le; [|done]. by apply rounded_facts.
  - destruct Hc as [[n Hp] Hsize]. eapply wp_mono; [by eapply realloc_contract|].
    intros q h' [[-> ->]|(Hs & bs' & Hrep & [(-> & _ & m & Hm & El)|(Hg & _)])].
    + split; [done|]. exists bs. split; [done|]. by constructor.
    + split; [done|]. exists bs'. split; [done|]. rewrite El. by eapply step_keep.
    + split; [done|]. exists bs'. split; [done|]. by eapply step_move.
  - destruct Hc as [n Hp]. wp_steps. eapply wp_mono; [by eapply free_contract|].
    intros _ h' (Hs & _ & bs' & Hrep & El). wp_steps. split; [done|]. exists bs'. split; [done|].
    rewrite El. constructor.
Qed.

Lemma heap_step_same h h' lv c r lv' : same_arena h h' → heap_step h' lv c r lv' → heap_step h lv c r lv'.
Proof.
  intros Hs Hstep. destruct Hstep; econstructor; eauto using granted_same.
Qed.

Lemma heap_run_from h0 h bs c n rs lv0 :
  heap_rep h bs → same_arena h0 h → heap_trace h0 lv0 c rs (in_use h bs) →
  (∀ rs lv, heap_trace h0 lv0 c rs lv → call_ok lv (c rs)) →
  wp (heap_run c n rs) h (λ rs' h', ∃ bs', heap_rep h' bs' ∧ same_arena h0 h' ∧
    length rs' = (length rs + n)%nat ∧ heap_trace h0 lv0 c rs' (in_use h' bs')).
Proof.
  revert h bs rs. induction n as [|n IH]; intros h bs rs H Hs Ht Hok; simpl.
  - apply wp_ret. exists bs. rewrite Nat.add_0_r. done.
  - wp_steps. eapply wp_mono; [apply heap_do_spec; [done|by apply Hok]|].
    intros r h' (Hs' & bs' & H' & Hstep). eapply wp_mono; [eapply (IH h' bs'); [done|by etrans| |done]|].
    + econstructor; [done|]. by eapply heap_step_same.
    + intros rs' h'' (bs'' & ? & ? & Hlen & ?). exists bs''. rewrite Hlen, length_app. simpl.
      split; [done|]. split; [done|]. split; [lia|done].
Qed.

(** ** The properties *)
Lemma drained_one bs e hs :
  tiles hs e bs → 0 < e → no_holes bs → Forall (λ b, busy b = false) bs → bs = [mkBlk e false].
Proof.
  intros (Hok & _ & He & _) Hpos Hno Hf. destruct bs as [|b [|c bs]]; simpl in *; [lia| |].
  - apply Forall_cons in Hf as [Hb _]. destruct b as [n u]. simpl in *. subst u. do 2 f_equal. lia.
  - apply Forall_cons in Hf as [Hb Hf]. apply Forall_cons in Hf as [Hc _].
    destruct Hno as (_ & [?|?] & _); congruence.
Qed.

Lemma drained_rep h bs : heap_rep h bs → in_use h bs = ∅ → bs = [mkBlk (heap_end h) false].
Proof.
  intros H Hlv. pose proof (hr_arena _ _ H) as [_ _ Hmin _].
  eapply drained_one; [apply H| |apply H|by eapply live_none]. unfold heap_end. hunfold. lia.
Qed.
Lemma drained_serves h size :
  heap_rep h [mkBlk (heap_end h) false] → 0 < size ≤ 2 ^ 32 - 4 →
  wp (malloc_locked size) h (λ p _,
    p = if decide (rounded size < mem_size_aligned h) then heap_ptr h + 12 else 0).
Proof.
  intros H Hsize. pose proof (hr_arena _ _ H) as [Ha _ Hmin _]. destruct (rounded_facts size Hsize) as (Hr1 & Hr2 & Hr3).
  eapply wp_mono; [by apply (malloc_locked_spec h _ size H)|].
  unfold heap_alloc, heap_end. simpl. hunfold. intros p h'.
  destruct (decide (rounded size < mem_size_aligned h)) as [Hlt|Hge].
  - rewrite decide_True by (split; [done|lia]). simpl. intros (-> & _). lia.
  - rewrite decide_False by lia. simpl. by intros [-> _].
Qed.

(** Addresses and sizes of the blocks in use: inside the arena, aligned, and
    apart from each other. *)
Definition separate (h : heap) (lv : gmap Z Z) : Prop :=
  ∀ p n, lv !! p = Some n →
    heap_ptr h ≤ p ∧ p + n ≤ heap_ptr h + heap_end h ∧ p mod 4 = 0 ∧
    ∀ q m, lv !! q = Some m → p ≠ q → p + n ≤ q ∨ q + m ≤ p.
Lemma in_use_separate h bs : heap_rep h bs → separate h (in_use h bs).
Proof.
  intros H p n Hp. pose proof (hr_tiles _ _ H) as (Hok & _ & He & _).
  destruct (live_bounds _ _ _ _ _ Hok Hp). split; [lia|]. split; [lia|]. split.
  - by destruct (live_aligned (heap_ptr h) 0 _ _ _ Hok (ar_aligned _ (hr_arena _ _ H)) eq_refl Hp).
  - intros q m Hq Hne. destruct (live_apart _ _ _ _ _ _ _ Hok Hp Hq Hne); lia.
Qed.

(** C11: any number of calls of a client that frees and resizes only blocks it
    holds runs without a fault on a heap set up over [b..e), each call does
    what the abstract allocator allows, and at the end the blocks in use lie
    in the arena, aligned, and no two of them overlap. *)
Theorem heap_run_refines b e h (c : client) n :
  rt_system_heap_init b e = Some h → 0 < b ≤ 2 ^ 32 - 4 → 0 ≤ e < 2 ^ 32 → MIN_SIZE ≤ mem_size_aligned h →
  (∀ rs lv, heap_trace h ∅ c rs lv → call_ok lv (c rs)) →
  wp (heap_run c n []) h (λ rs h', ∃ bs, heap_rep h' bs ∧ length rs = n ∧
    heap_trace h ∅ c rs (in_use h' bs) ∧ separate h (in_use h' bs) ∧
    b ≤ heap_ptr h ∧ heap_ptr h + heap_end h ≤ e).
Proof.
  intros Hi [Hb1 Hb2] He Hmin Hok. destruct (init_spec b e h Hi) as (H & _ & Hlo & Hhi); [lia..|].
  eapply wp_mono; [eapply (heap_run_from h h _ c n [] ∅ H); [done|constructor|done]|].
  intros rs h' (bs & Hrep & Hs & Hlen & Ht). exists bs. split; [done|]. split; [done|]. split; [done|].
  split; [|hunfold; lia]. pose proof (in_use_separate _ _ Hrep) as Hsep. intros p m Hp.
  rewrite <-(same_arena_end _ _ Hs). destruct Hs as [<- _]. by apply Hsep.
Qed.

(** C32: [rt_malloc] is first fit: the lowest free block that is large enough
    and starts below the search limit serves the request, cut to size when the
    rest can hold a block; with none, nothing changes and [RT_NULL] is
    returned.  The statistics count the blocks in use. *)
Theorem malloc_first_fit h bs size :
  heap_rep h bs → 0 < size ≤ 2 ^ 32 - 4 →
  wp (malloc_locked size) h (λ p h',
    match heap_alloc (mem_size_aligned h) (rounded size) bs with
    | Some (off, bs') => p = heap_ptr h + off + 12 ∧ heap_rep h' bs' ∧ (rt_memory_info h').1.2 = used_total bs'
    | None => p = 0 ∧ h' = h
    end).
Proof.
  intros H Hsize. eapply wp_mono; [by apply malloc_locked_spec|]. intros p h'.
  destruct (heap_alloc _ _ bs) as [[off bs']|]; [|done]. intros (-> & Hrep & _ & _).
  split; [done|]. split; [done|]. apply Hrep.
Qed.

(** a block that [rt_realloc] moves or cuts keeps its bytes, up to the
    smaller of the two sizes. *)
Theorem realloc_preserves h bs p n newsize :
  heap_rep h bs → in_use h bs !! p = Some n → 0 < newsize ≤ 2 ^ 32 - 32 →
  wp (realloc_locked p newsize) h (λ q h', ∃ bs', heap_rep h' bs' ∧
    if decide (q = 0) then h' = h ∧ bs' = bs
    else (∀ i, 0 ≤ i < Z.min n newsize → byte_at h' q i = byte_at h p i) ∧
         ∃ m, in_use h' bs' !! q = Some m ∧ newsize ≤ m).
Proof.
  intros H Hp Hsize. destruct (payload_in_heap h bs p n H Hp) as [_ Hp0].
  eapply wp_mono; [by eapply realloc_contract|]. pose proof (hr_arena _ _ H) as [Ha _ _ _].
  intros q h' [[-> ->]|(Hs & bs' & Hrep & [(-> & Hd & m & Hm & El)|(Hg & Hne & Hbytes)])].
  - exists bs. by rewrite decide_True.
  - exists bs'. split; [done|]. rewrite decide_False by done. split.
    + intros i Hi. unfold byte_at. destruct Hs as [-> _]. by rewrite Hd.
    + exists m. rewrite El, lookup_insert_eq. split; [done|lia].
  - exists bs'. split; [done|]. destruct Hg as (m & El & Hm & _ & Hlo & _).
    rewrite decide_False by lia. split; [done|]. exists m. by rewrite El, lookup_insert_eq.
Qed.

(** C34: freeing merges.  When a client has given back all the blocks that it was
    given, in whatever order and however it allocated and resized them before,
    the arena is one free block again, as [rt_system_heap_init] left it, and
    serves any request that is smaller than the arena; a request for exactly the
    whole arena is refused. *)
Theorem heap_drains b e h (c : client) n size :
  rt_system_heap_init b e = Some h → 0 < b ≤ 2 ^ 32 - 4 → 0 ≤ e < 2 ^ 32 → MIN_SIZE ≤ mem_size_aligned h →
  (∀ rs lv, heap_trace h ∅ c rs lv → call_ok lv (c rs)) → 0 < size ≤ 2 ^ 32 - 4 →
  wp (heap_run c n []) h (λ rs h', length rs = n ∧ (held c rs = ∅ →
    heap_rep h' [mkBlk (heap_end h) false] ∧
    wp (malloc_locked size) h' (λ p _,
      p = if decide (rounded size < mem_size_aligned h) then heap_ptr h + 12 else 0))).
Proof.
  intros Hi [Hb1 Hb2] He Hmin Hok Hsize. destruct (init_spec b e h Hi) as (H & _); [lia..|].
  eapply wp_mono; [eapply (heap_run_from h h _ c n [] ∅ H); [done|constructor|done]|].
  intros rs h' (bs & Hrep & Hs & Hlen & Ht). split; [done|]. intros Hnone.
  destruct (trace_held _ _ _ _ (ar_ptr _ (hr_arena _ _ H)) Ht) as [_ Hd]. rewrite Hnone in Hd.
  apply dom_empty_inv_L, (drained_rep _ _ Hrep) in Hd. rewrite Hd in Hrep.
  rewrite <-(same_arena_end _ _ Hs). split; [done|]. destruct Hs as [<- <-]. by apply drained_serves.
Qed.

(** ** Concrete instances *)
Definition demo_heap : heap :=
  default (mkHeap ∅ ∅ 0 0 0 0 0) (rt_system_heap_init 0x20001002 0x20001401).
(** A heap with two blocks in use. *)
Definition taken_blocks : list blk := [mkBlk 60 true; mkBlk 28 true; mkBlk 920 false].
Definition taken_heap : heap :=
  match (malloc_locked 48;; malloc_locked 16) demo_heap with Ok (_, h) => h | Err _ => demo_heap end.
Lemma taken_rep : heap_rep taken_heap taken_blocks.
Proof.
  split; [by vm_compute| |by vm_compute; intuition|by vm_compute|by vm_compute].
  split; [|split; [|split]].
  - repeat constructor; by vm_compute.
  - repeat split; by vm_compute.
  - by vm_compute.
  - eexists. by vm_compute.
Qed.
(** A client that asks for 20 bytes, gives the block back if it got one, and
    then alternates between small requests and zeroed ones. *)
Definition demo_client : client := λ rs,
  match rs with
  | [] => Malloc 20
  | [p] => if decide (p = 0) then Malloc 4 else Free p
  | [_; _] => Calloc 3 5
  | _ => Malloc 7
  end.

Lemma trace_one h lv c p lv' : heap_trace h lv c [p] lv' → heap_step h lv (c []) p lv'.
Proof.
  intros Ht. remember [p] as rs eqn:E. destruct Ht as [|rs lv1 r lv2 Ht Hs]; [done|].
  destruct rs as [|? [|? ?]]; simplify_eq/=. remember [] as rs eqn:E.
  destruct Ht as [|rs ? ? ? ? ?]; [done|by destruct rs].
Qed.
Lemma demo_client_ok rs lv :
  heap_trace demo_heap ∅ demo_client rs lv → call_ok lv (demo_client rs).
Proof.
  intros Ht. destruct rs as [|p [|q [|q' rs]]]; simpl; try lia.
  case_decide as Hp; simpl; [lia|]. apply trace_one in Ht.
  inversion Ht as [|? ? ? (m & -> & _)| | | |]; subst; [done|].
  rewrite lookup_insert_eq. by eexists.
Qed.

Lemma heap_run_refines_witness :
  wp (heap_run demo_client 5 []) demo_heap (λ rs h', ∃ bs, heap_rep h' bs ∧ length rs = 5%nat ∧
    heap_trace demo_heap ∅ demo_client rs (in_use h' bs) ∧ separate demo_heap (in_use h' bs) ∧
    0x20001002 ≤ heap_ptr demo_heap ∧ heap_ptr demo_heap + heap_end demo_heap ≤ 0x20001401).
Proof.
  apply heap_run_refines; [vm_compute; reflexivity|lia|lia|by vm_compute|apply demo_client_ok].
Defined.

(** Two blocks in use, the first of them freed again. *)
Definition demo_blocks : list blk := [mkBlk 36 false; mkBlk 40 true; mkBlk 932 false].
Definition demo_used : heap :=
  match (malloc_locked 24;; malloc_locked 27;; free_locked 0x20001010) demo_heap with
  | Ok (_, h) => h
  | Err _ => demo_heap
  end.
Lemma demo_rep : heap_rep demo_used demo_blocks.
Proof.
  split.
  - by vm_compute.
  - split; [|split; [|split]].
    + repeat constructor; by vm_compute.
    + repeat split; by vm_compute.
    + by vm_compute.
    + eexists. by vm_compute.
  - vm_compute. intuition.
  - by vm_compute.
  - by vm_compute.
Qed.

Lemma malloc_first_fit_witness :
  heap_rep demo_used demo_blocks ∧
  wp (malloc_locked 25) demo_used (λ p h',
    match heap_alloc (mem_size_aligned demo_used) (rounded 25) demo_blocks with
    | Some (off, bs') => p = heap_ptr demo_used + off + 12 ∧ heap_rep h' bs' ∧
        (rt_memory_info h').1.2 = used_total bs'
    | None => p = 0 ∧ h' = demo_used
    end).
Proof. split; [apply demo_rep|]. apply malloc_first_fit; [apply demo_rep|lia]. Defined.

Lemma realloc_preserves_witness :
  wp (realloc_locked 0x20001034 60) demo_used (λ q h', ∃ bs', heap_rep h' bs' ∧
    if decide (q = 0) then h' = demo_used ∧ bs' = demo_blocks
    else (∀ i, 0 ≤ i < Z.min 28 60 → byte_at h' q i = byte_at demo_used 0x20001034 i) ∧
         ∃ m, in_use h' bs' !! q = Some m ∧ 60 ≤ m).
Proof. apply realloc_preserves; [apply demo_rep|by vm_compute|lia]. Defined.

(** A client that asks for three blocks and then gives back the second, the first
    and the third. *)
Definition return_client : client := λ rs,
  match rs with
  | [] => Malloc 20
  | [_] => Malloc 30
  | [_; _] => Malloc 40
  | p :: q :: r :: rs =>
      if decide (NoDup [0; p; q; r]) then
        match rs with [] => Free q | [_] => Free p | [_; _] => Free r | _ => Malloc 4 end
      else Malloc 4
  end.
Lemma return_client_ok rs lv :
  heap_trace demo_heap ∅ return_client rs lv → call_ok lv (return_client rs).
Proof.
  intros Ht. assert (0 < heap_ptr demo_heap) as Hh by by vm_compute.
  destruct (trace_held _ _ _ _ Hh Ht) as [_ Hd].
  destruct rs as [|p [|q [|r rs]]]; simpl; try lia. case_decide as Hdup; [|simpl; lia].
  assert (p ≠ 0 ∧ q ≠ 0 ∧ r ≠ 0 ∧ p ≠ q ∧ p ≠ r ∧ q ≠ r) as (Hp & Hq & Hr & Hpq & Hpr & Hqr).
  { apply NoDup_cons in Hdup as [H0 Hdup]. apply NoDup_cons in Hdup as [H1 Hdup]. apply NoDup_cons in Hdup as [H2 _]. set_solver. }
  destruct rs as [|a [|b [|d rs]]]; simpl; [..|lia]; apply elem_of_dom; rewrite Hd; unfold held;
    cbn [held_from return_client held_after app]; rewrite ?(decide_True (P := NoDup [0; p; q; r])) by done; cbn [held_after];
    rewrite !decide_False by done; set_solver.
Qed.

Lemma heap_drains_witness :
  ∃ rs h', heap_run return_client 6 [] demo_heap = Ok (rs, h') ∧ held return_client rs = ∅ ∧
    heap_rep h' [mkBlk (heap_end demo_heap) false] ∧
    wp (malloc_locked 980) h' (λ p _, p = heap_ptr demo_heap + 12).
Proof.
  assert (wp (heap_run return_client 6 []) demo_heap (λ rs h', length rs = 6%nat ∧ (held return_client rs = ∅ →
    heap_rep h' [mkBlk (heap_end demo_heap) false] ∧
    wp (malloc_locked 980) h' (λ p _,
      p = if decide (rounded 980 < mem_size_aligned demo_heap) then heap_ptr demo_heap + 12 else 0)))) as Hrun.
  { apply (heap_drains 0x20001002 0x20001401 demo_heap return_client 6 980);
      [vm_compute; reflexivity|lia|lia|by vm_compute|apply return_client_ok|lia]. }
  assert (∃ rs h', heap_run return_client 6 [] demo_heap = Ok (rs, h') ∧ held return_client rs = ∅) as (rs & h' & E & Hheld).
  { destruct (heap_run return_client 6 [] demo_heap) as [[rs h']|f] eqn:E; [|by vm_compute in E].
    exists rs, h'. split; [done|].
    assert (rs = match heap_run return_client 6 [] demo_heap with Ok (rs, _) => rs | Err _ => [] end) as -> by by rewrite E.
    vm_compute. reflexivity. }
  exists rs, h'. unfold wp in Hrun at 1. rewrite E in Hrun. destruct Hrun as [_ Hrun]. destruct (Hrun Hheld) as [Hrep Hserve].
  split; [exact E|]. split; [exact Hheld|]. split; [exact Hrep|].
  assert (rounded 980 < mem_size_aligned demo_heap) as Hlt by by vm_compute.
  rewrite (decide_True (P := rounded 980 < mem_size_aligned demo_heap) _ _ Hlt) in Hserve. exact Hserve.
Defined.
