(* ===== verification/HeapLock.v ===== *)
(** * The heap under its lock ([src/mem.c], [heap_sem])

    [rt_malloc], [rt_free] and [rt_calloc] with the semaphore that keeps the
    threads apart.  A call that finds the semaphore taken is parked and goes on
    in its resume function.  The assertions about the pointer and the size that
    [rt_malloc] makes after it has released the semaphore look only at values
    that no other thread changes; they are made before. *)
From S2P Require Import Prelude Kernel Scheduler Object Timer Thread Ipc Decide Scenario Semaphore Heap Allocator.

Section Lock.
Context {S : Type} `{Part S kernel, Part S heap}.
(** The address of the static [heap_sem]. *)
Context (heap_sem : addr).

(** [rt_sem_take(&heap_sem, RT_WAITING_FOREVER)]; its result is ignored. *)
Definition heap_take : M S (call unit addr) :=
  r ← zoom (rt_sem_take heap_sem RT_WAITING_FOREVER);
  match r with
  | Return _ => mret (Return tt)
  | Park thread => mret (Park thread)
  end.
Definition heap_release : M S unit := zoom (rt_sem_release heap_sem);; mret tt.

(** Lines 305-409 and the release. *)
Definition malloc_critical (size : Z) : M S Z :=
  p ← zoom (malloc_search size);
  heap_release;;
  mret p.
Definition rt_malloc (size : Z) : M S (call Z (addr * Z)) :=
  if decide (size = 0) then mret (Return 0)
  else
    zoom RT_DEBUG_NOT_IN_INTERRUPT;;
    h ← zoom (gets id);
    match malloc_size size h with
    | None => mret (Return 0)
    | Some size =>
        r ← heap_take;
        match r with
        | Return _ => p ← malloc_critical size; mret (Return p)
        | Park thread => mret (Park (thread, size))
        end
    end.
Definition rt_malloc_resume (w : addr * Z) : M S Z :=
  zoom (rt_sem_take_resume w.1);;
  malloc_critical w.2.

Definition free_critical (rmem : Z) : M S unit :=
  zoom (free_block rmem);;
  heap_release.
Definition rt_free (rmem : Z) : M S (call unit (addr * Z)) :=
  if decide (rmem = 0) then mret (Return tt)
  else
    zoom RT_DEBUG_NOT_IN_INTERRUPT;;
    zoom (free_check rmem);;
    r ← heap_take;
    match r with
    | Return _ => free_critical rmem;; mret (Return tt)
    | Park thread => mret (Park (thread, rmem))
    end.
Definition rt_free_resume (w : addr * Z) : M S unit :=
  zoom (rt_sem_take_resume w.1);;
  free_critical w.2.

(** [rt_memset] on the new block. *)
Definition calloc_clear (count size p : Z) : M S Z :=
  (if decide (p ≠ 0) then zoom (heap_fill p 0 (u32 (count * size))) else mret tt);;
  mret p.
Definition rt_calloc (count size : Z) : M S (call Z (addr * Z)) :=
  r ← rt_malloc (u32 (count * size));
  match r with
  | Return p => p ← calloc_clear count size p; mret (Return p)
  | Park w => mret (Park w)
  end.
Definition rt_calloc_resume (count size : Z) (w : addr * Z) : M S Z :=
  p ← rt_malloc_resume w;
  calloc_clear count size p.

(** ** An uncontended call *)
Context `{!PartLaws S kernel, !PartLaws S heap, !PartsApart S kernel heap}.
Implicit Types s : S.
Abbreviation kern := (part_get (A := kernel)).
Abbreviation arena := (part_get (A := heap)).

Definition sem_set (x : rt_semaphore) (v : Z) (k : kernel) : kernel :=
  k <| semaphores := <[heap_sem := x <| sem_value := v |>]> (semaphores k) |>.
Lemma sem_set_set x v w k : sem_set (x <| sem_value := v |>) w (sem_set x v k) = sem_set x w k.
Proof. unfold sem_set. destruct k. simpl. by rewrite insert_insert_eq. Qed.
Lemma sem_set_id x k : semaphores k !! heap_sem = Some x → sem_set x (sem_value x) k = k.
Proof. intros E. unfold sem_set. destruct k, x. simpl in *. by rewrite insert_id. Qed.

(** Nobody holds the heap. *)
Record heap_free (k : kernel) (x : rt_semaphore) : Prop := {
  hf_sem : sem_ok k heap_sem x;
  hf_value : sem_value x = 1;
  hf_nest : rt_interrupt_nest k = 0
}.

Lemma take_sets k x :
  heap_free k x → rt_sem_take heap_sem RT_WAITING_FOREVER k = Ok (Return RT_EOK, sem_set x 0 k).
Proof.
  intros [Hok Hv _]. rewrite (sem_take_available _ _ _ _ Hok ltac:(lia)). by rewrite Hv.
Qed.
Lemma heap_release_restores k x : heap_free k x → rt_sem_release heap_sem (sem_set x 0 k) = Ok (RT_EOK, k).
Proof.
  intros [Hok Hv _]. pose proof (so_waiters _ _ _ Hok ltac:(lia)) as Hq.
  assert (sem_ok (sem_set x 0 k) heap_sem (x <| sem_value := 0 |>)) as Hok0 by (apply sem_ok_set; done).
  rewrite (sem_release_count _ _ _ Hok0 Hq ltac:(done)). do 2 f_equal.
  change (sem_set (x <| sem_value := 0 |>) 1 (sem_set x 0 k) = k).
  rewrite sem_set_set, <-Hv. apply sem_set_id, Hok.
Qed.

(** The semaphore is taken and released around an operation on the heap. *)
Lemma bracket_eq {A L} (f : M heap A) (g : addr → L) s x :
  heap_free (kern s) x →
  (r ← heap_take; match r with
                  | Return _ => p ← zoom f; heap_release;; mret (Return p)
                  | Park t => mret (Park (g t))
                  end) s =
  match f (arena s) with
  | Ok (p, h') => Ok (Return p, part_set h' s)
  | Err e => Err e
  end.
Proof.
  intros Hf. unfold mbind, M_bind, heap_take. unfold mbind, M_bind.
  rewrite (zoom_ok _ _ _ _ (take_sets _ _ Hf)). simpl. unfold zoom at 1. rewrite part_apart_l.
  destruct (f (arena s)) as [[p h']|e]; [|done].
  unfold heap_release, mbind, M_bind, zoom. rewrite part_apart_r, part_get_set.
  rewrite heap_release_restores by done. simpl. unfold mret, M_ret.
  rewrite part_apart_comm, part_set_set. by rewrite part_set_get.
Qed.

Definition of_heap {A} (o : outcome (A * heap)) s : outcome (call A (addr * Z) * S) :=
  match o with
  | Ok (p, h') => Ok (Return p, part_set h' s)
  | Err e => Err e
  end.

Lemma not_in_interrupt k : rt_interrupt_nest k = 0 → RT_DEBUG_NOT_IN_INTERRUPT k = Ok (tt, k).
Proof. intros Hn. apply wp_exact. unfold RT_DEBUG_NOT_IN_INTERRUPT. by ksteps. Qed.
Lemma nest_ok s : rt_interrupt_nest (kern s) = 0 → zoom RT_DEBUG_NOT_IN_INTERRUPT s = Ok (tt, s).
Proof. intros Hn. rewrite (zoom_ok _ _ _ _ (not_in_interrupt _ Hn)). by rewrite part_set_get. Qed.
Lemma arena_eq s : zoom (gets id) s = Ok (arena s, s).
Proof. unfold zoom. simpl. by rewrite part_set_get. Qed.

Lemma malloc_locked_eq size h :
  malloc_locked size h = match malloc_size size h with Some n => malloc_search n h | None => Ok (0, h) end.
Proof. unfold malloc_locked, mbind, M_bind, gets, id. by destruct (malloc_size size h). Qed.

Lemma malloc_uncontended s x size :
  heap_free (kern s) x → rt_malloc size s = of_heap (malloc_locked size (arena s)) s.
Proof.
  intros Hf. unfold rt_malloc, of_heap. rewrite malloc_locked_eq.
  destruct (decide (size = 0)) as [->|Hs].
  { unfold malloc_size. rewrite decide_True by done. by rewrite part_set_get. }
  unfold mbind at 1, M_bind at 1. rewrite (nest_ok s (hf_nest _ _ Hf)). unfold mbind at 1, M_bind at 1. rewrite arena_eq.
  destruct (malloc_size size (arena s)) as [n|]; [|by rewrite part_set_get].
  rewrite <-(bracket_eq (malloc_search n) (λ t, (t, n)) s x Hf). unfold malloc_critical, mbind, M_bind.
  destruct (heap_take s) as [[[|t] s']|]; [|done|done]. destruct (zoom (malloc_search n) s') as [[p s2]|]; [|done].
  by destruct (heap_release s2) as [[[] s3]|].
Qed.

Lemma free_check_same rmem h : free_check rmem h = Ok (tt, h) ∨ ∃ e, free_check rmem h = Err e.
Proof.
  unfold free_check, RT_ASSERT, gets, mbind, M_bind. unfold id.
  case_decide; [|right; by eexists]. unfold mret, M_ret. case_decide; [by left|right; by eexists].
Qed.
Lemma free_check_ok rmem h :
  Z.land rmem (RT_ALIGN_SIZE - 1) = 0 → in_heap h rmem → free_check rmem h = Ok (tt, h).
Proof.
  intros Ha Hi. unfold free_check, RT_ASSERT, gets, mbind, M_bind, id.
  by rewrite !decide_True by done.
Qed.
Lemma free_uncontended s x rmem :
  heap_free (kern s) x → rt_free rmem s = of_heap (free_locked rmem (arena s)) s.
Proof.
  intros Hf. unfold rt_free, of_heap, free_locked.
  destruct (decide (rmem = 0)) as [->|Hs]; [simpl; by rewrite part_set_get|].
  unfold mbind at 1, M_bind at 1. rewrite (nest_ok s (hf_nest _ _ Hf)).
  unfold mbind at 1, M_bind at 1. unfold zoom at 1.
  change ((free_check rmem;; free_block rmem) (arena s)) with
    (match free_check rmem (arena s) with Ok (_, h) => free_block rmem h | Err e => Err e end).
  destruct (free_check_same rmem (arena s)) as [->|[e ->]]; [|done]. rewrite part_set_get.
  rewrite <-(bracket_eq (free_block rmem) (λ t, (t, rmem)) s x Hf). unfold free_critical, mbind, M_bind.
  destruct (heap_take s) as [[[|t] s']|]; [|done|done]. destruct (zoom (free_block rmem) s') as [[[] s2]|]; [|done].
  by destruct (heap_release s2) as [[[] s3]|].
Qed.

(** [rt_memset] after the allocation looks at the new block only. *)
Definition calloc_zeroed (n p : Z) (h : heap) : heap :=
  if decide (p ≠ 0) then h <| data := fill_bytes (Z.to_nat n) (p - heap_ptr h) 0 (data h) |> else h.
Lemma calloc_clear_eq count size p s :
  calloc_clear count size p s = Ok (p, part_set (calloc_zeroed (u32 (count * size)) p (arena s)) s).
Proof.
  unfold calloc_clear, calloc_zeroed, mbind, M_bind. case_decide; [done|]. unfold mret, M_ret. by rewrite part_set_get.
Qed.
Lemma calloc_locked_eq count size h :
  calloc_locked count size h =
  match malloc_locked (u32 (count * size)) h with
  | Ok (p, h') => Ok (p, calloc_zeroed (u32 (count * size)) p h')
  | Err e => Err e
  end.
Proof.
  unfold calloc_locked, mbind, M_bind. destruct (malloc_locked _ h) as [[p h']|e]; [|done].
  unfold when, calloc_zeroed. by case_decide.
Qed.
Lemma calloc_uncontended s x count size :
  heap_free (kern s) x → rt_calloc count size s = of_heap (calloc_locked count size (arena s)) s.
Proof.
  intros Hf. unfold rt_calloc, mbind at 1, M_bind at 1. rewrite (malloc_uncontended s x _ Hf), calloc_locked_eq.
  unfold of_heap. destruct (malloc_locked _ (arena s)) as [[p h']|e]; [|done].
  unfold mbind, M_bind. rewrite calloc_clear_eq, part_get_set. unfold mret, M_ret. by rewrite part_set_set.
Qed.

(** ** Exclusion *)

(** The running thread has joined the threads that wait for the heap, which is
    as it was. *)
Record waits_for_heap (x : rt_semaphore) (s s' : S) : Prop := {
  wh_arena : arena s' = arena s;
  wh_queue : ∃ l1 l2, queue (kern s) (QSuspend heap_sem) = l1 ++ l2 ∧
    queue (kern s') (QSuspend heap_sem) = l1 ++ rt_current_thread (kern s) :: l2;
  wh_sem : sem_ok (kern s') heap_sem x;
  wh_inv : kernel_inv (kern s');
  wh_cur : current_ok (kern s')
}.

Section Held.
Context (s : S) (x : rt_semaphore).
Context (Hok : sem_ok (kern s) heap_sem x) (Hv : sem_value x = 0).

Section Call.
Context (th : rt_thread) (Hk : kernel_inv (kern s)) (Hr : running (kern s) th) (Hn : rt_interrupt_nest (kern s) = 0).

(** What the three functions share: [rt_sem_take] parks the caller. *)
Lemma take_held : wp heap_take s (λ r s', r = Park (rt_current_thread (kern s)) ∧ waits_for_heap x s s').
Proof using All.
  unfold heap_take. wp_steps. apply wp_zoom.
  eapply wp_mono; [apply (sem_take_blocks _ heap_sem x th RT_WAITING_FOREVER); done|].
  intros r k' (-> & Hw & Hok'). wp_steps. split; [done|]. constructor; rewrite ?part_get_set, ?part_apart_l.
  - done.
  - destruct (wa_queue _ _ _ _ _ _ _ Hw) as (l1 & l2 & E1 & E2 & _). exists l1, l2.
    split; [exact E1|exact E2].
  - done.
  - apply Hw.
  - apply Hw.
Qed.
Lemma malloc_held size :
  wp (rt_malloc size) s (λ r s',
    match malloc_size size (arena s) with
    | Some n => r = Park (rt_current_thread (kern s), n) ∧ waits_for_heap x s s'
    | None => r = Return 0 ∧ s' = s
    end).
Proof using All.
  unfold rt_malloc. case_decide as Hz.
  { subst size. unfold malloc_size. rewrite decide_True by done. by wp_steps. }
  wp_steps. eapply wp_eq; [by apply nest_ok|]. wp_steps. eapply wp_eq; [apply arena_eq|]. cbv beta.
  destruct (malloc_size size (arena s)) as [n|]; [|by wp_steps].
  wp_steps. eapply wp_mono; [apply take_held|]. intros r s' [-> Hw]. by wp_steps.
Qed.
Lemma free_held p :
  p ≠ 0 → free_check p (arena s) = Ok (tt, arena s) →
  wp (rt_free p) s (λ r s', r = Park (rt_current_thread (kern s), p) ∧ waits_for_heap x s s').
Proof using All.
  intros Hp Hc. unfold rt_free. rewrite decide_False by done. wp_steps. eapply wp_eq; [by apply nest_ok|].
  wp_steps. eapply wp_eq; [apply (zoom_ok _ _ _ _ Hc)|]. rewrite part_set_get.
  wp_steps. eapply wp_mono; [apply take_held|]. intros r s' [-> Hw]. by wp_steps.
Qed.
Lemma calloc_held count size :
  wp (rt_calloc count size) s (λ r s',
    match malloc_size (u32 (count * size)) (arena s) with
    | Some n => r = Park (rt_current_thread (kern s), n) ∧ waits_for_heap x s s'
    | None => r = Return 0 ∧ s' = s
    end).
Proof using All.
  unfold rt_calloc. wp_steps. eapply wp_mono; [apply malloc_held|]. intros r s'.
  destruct (malloc_size _ _) as [n|]; intros [-> Hw]; [by wp_steps|]. subst s'. wp_steps.
  unfold wp. rewrite calloc_clear_eq. unfold calloc_zeroed. rewrite decide_False by by intros []. by rewrite part_set_get.
Qed.
End Call.

(** A thread to which the semaphore has been handed does its part and gives it back. *)
Definition completed {A} (f : M heap A) : outcome (A * S) :=
  match f (arena s) with
  | Ok (p, h') => Ok (p, part_set (sem_set x 1 (kern s)) (part_set h' s))
  | Err e => Err e
  end.

Section Resume.
Context (t : addr) (th : rt_thread) (Ht : threads (kern s) !! t = Some th).
Context (Hq : queue (kern s) (QSuspend heap_sem) = []).

Lemma take_resume_eq : ∃ r, zoom (rt_sem_take_resume t) s = Ok (r, s).
Proof using All.
  unfold zoom, rt_sem_take_resume, get_thread, of_option, gets, mbind, M_bind, id. rewrite Ht.
  unfold mret, M_ret. rewrite part_set_get. by eexists.
Qed.
Lemma release_after h' : heap_release (part_set h' s) = Ok (tt, part_set (sem_set x 1 (kern s)) (part_set h' s)).
Proof using All.
  unfold heap_release, mbind, M_bind, zoom. rewrite part_apart_r.
  rewrite (sem_release_count _ _ _ Hok Hq) by by rewrite Hv. by rewrite Hv.
Qed.
Lemma bracket_resume {A} (f : M heap A) : (p ← zoom f; heap_release;; mret p) s = completed f.
Proof using All.
  unfold mbind, M_bind, completed. unfold zoom at 1. destruct (f (arena s)) as [[p h']|e]; [|done].
  by rewrite release_after.
Qed.
Lemma malloc_resumed n : rt_malloc_resume (t, n) s = completed (malloc_search n).
Proof using All.
  destruct take_resume_eq as [r E]. unfold rt_malloc_resume. rewrite (bind_ok _ _ _ _ _ E). apply bracket_resume.
Qed.
Lemma free_resumed p : rt_free_resume (t, p) s = completed (free_block p).
Proof using All.
  destruct take_resume_eq as [r E]. unfold rt_free_resume. rewrite (bind_ok _ _ _ _ _ E).
  rewrite <-bracket_resume. unfold free_critical, mbind, M_bind.
  simpl. destruct (zoom (free_block p) s) as [[[] s']|]; [|done]. by destruct (heap_release s') as [[[] ?]|].
Qed.
Lemma calloc_resumed count size n :
  rt_calloc_resume count size (t, n) s =
  completed (p ← malloc_search n; modify (calloc_zeroed (u32 (count * size)) p);; mret p).
Proof using All.
  unfold rt_calloc_resume, mbind at 1, M_bind at 1. rewrite malloc_resumed. unfold completed, mbind, M_bind.
  destruct (malloc_search n (arena s)) as [[p h']|e]; [|done]. rewrite calloc_clear_eq.
  rewrite part_apart_l, part_get_set. simpl. by rewrite <-part_apart_comm, part_set_set.
Qed.
End Resume.
End Held.

Lemma release_held s x t l :
  kernel_inv (kern s) → current_ok (kern s) → sem_ok (kern s) heap_sem x →
  queue (kern s) (QSuspend heap_sem) = t :: l →
  wp heap_release s (λ _ s', arena s' = arena s ∧ sem_ok (kern s') heap_sem x ∧ handed t (kern s) (kern s') ∧
    queue (kern s') (QSuspend heap_sem) = l ∧ kernel_inv (kern s') ∧ current_ok (kern s')).
Proof.
  intros Hk Hc Hok Hq. unfold heap_release. wp_steps. apply wp_zoom.
  eapply wp_mono; [by apply (sem_release_hands _ heap_sem x t l)|].
  intros r k' (-> & Hh & Hok'). wp_steps. rewrite part_get_set, part_apart_l.
  split; [done|]. split; [done|]. split; [apply (ha_handed _ _ _ _ _ _ Hh)|].
  split; [apply (ha_queue _ _ _ _ _ _ Hh)|]. split; apply Hh.
Qed.
End Lock.

(** C20: the heap semaphore makes the allocator safe to share.  While it is free,
    [rt_malloc], [rt_free] and [rt_calloc] are the operations of the unshared
    allocator and leave the kernel as it was.  While a thread holds it, each of
    the three parks its caller in the semaphore's list without touching the heap
    (a request for nothing, or for more than the arena, is refused at once); a release with
    threads waiting hands the semaphore to the first of them, without setting
    it free in between; and a thread that goes on after that does its whole part
    on the heap as it is then, and sets the semaphore free when nobody waits. *)
Theorem heap_lock {S : Type} `{Part S kernel, Part S heap, !PartLaws S kernel, !PartLaws S heap,
    !PartsApart S kernel heap} heap_sem (s : S) x th size count p :
  let k := part_get s : kernel in let h := part_get s : heap in
  kernel_inv k → running k th → rt_interrupt_nest k = 0 → sem_ok k heap_sem x → sem_value x ≤ 1 →
  if decide (sem_value x = 1) then
    rt_malloc heap_sem size s = of_heap (malloc_locked size h) s ∧
    rt_free heap_sem p s = of_heap (free_locked p h) s ∧
    rt_calloc heap_sem count size s = of_heap (calloc_locked count size h) s
  else
    wp (rt_malloc heap_sem size) s (λ r s',
      match malloc_size size h with
      | Some n => r = Park (rt_current_thread k, n) ∧ waits_for_heap heap_sem x s s'
      | None => r = Return 0 ∧ s' = s
      end) ∧
    (p ≠ 0 → free_check p h = Ok (tt, h) →
       wp (rt_free heap_sem p) s (λ r s', r = Park (rt_current_thread k, p) ∧ waits_for_heap heap_sem x s s')) ∧
    wp (rt_calloc heap_sem count size) s (λ r s',
      match malloc_size (u32 (count * size)) h with
      | Some n => r = Park (rt_current_thread k, n) ∧ waits_for_heap heap_sem x s s'
      | None => r = Return 0 ∧ s' = s
      end) ∧
    (∀ t l, queue k (QSuspend heap_sem) = t :: l →
       wp (heap_release heap_sem) s (λ _ s', part_get s' = h ∧
         let k' := part_get s' in
         sem_ok k' heap_sem x ∧ handed t k k' ∧ queue k' (QSuspend heap_sem) = l ∧
         kernel_inv k' ∧ current_ok k')) ∧
    (∀ t t_th n, threads k !! t = Some t_th → queue k (QSuspend heap_sem) = [] →
       rt_malloc_resume heap_sem (t, n) s = completed heap_sem s x (malloc_search n) ∧
       rt_free_resume heap_sem (t, p) s = completed heap_sem s x (free_block p) ∧
       rt_calloc_resume heap_sem count size (t, n) s =
         completed heap_sem s x (q ← malloc_search n; modify (calloc_zeroed (u32 (count * size)) q);; mret q)).
Proof.
  intros k h Hk Hr Hn Hok Hle. pose proof (so_range _ _ _ Hok) as Hrange. case_decide as Hv.
  - assert (heap_free heap_sem k x) as Hf by done.
    split; [by eapply malloc_uncontended|]. split; [by eapply free_uncontended|by eapply calloc_uncontended].
  - assert (sem_value x = 0) as Hv0 by lia. split; [by eapply malloc_held|]. split; [by eapply free_held|].
    split; [by eapply calloc_held|]. split.
    + intros t l Hq. apply (release_held _ s x t l); [done|by eapply running_ok|done|done].
    + intros t t_th n Ht Hq. split; [by eapply malloc_resumed|]. split; [by eapply free_resumed|by eapply calloc_resumed].
Qed.

(** ** What the rest of the kernel uses

    [RT_KERNEL_MALLOC] and [RT_KERNEL_FREE], and what they promise.  Calls made
    while a thread holds the heap are described above; the interface promises
    nothing about them. *)
Class AllocOps (S : Type) := { alloc : Z → M S Z; release : Z → M S unit }.

Class AllocSpec (S : Type) `{Part S kernel, Part S heap, !AllocOps S} := {
  (** Addresses the heap may hand out. *)
  heap_area : addr → Prop;
  (** The semaphore that guards the heap; nobody holds it. *)
  guard : addr;
  unguarded : kernel → Prop;
  guard_frame k k' :
    unguarded k → semaphores k' !! guard = semaphores k !! guard →
    queue k' (QSuspend guard) = queue k (QSuspend guard) →
    rt_interrupt_nest k' = rt_interrupt_nest k → unguarded k';
  guard_outside : ¬ heap_area guard;
  null_outside : ¬ heap_area RT_NULL;
  unguarded_nest k : unguarded k → rt_interrupt_nest k = 0;
  (** The addresses and sizes of the blocks in use. *)
  blocks : heap → gmap addr Z → Prop;
  blocks_inside h bs p n : blocks h bs → bs !! p = Some n → heap_area p;
  alloc_spec (s : S) bs size :
    unguarded (part_get s) → blocks (part_get s) bs → 0 ≤ size ≤ 2 ^ 32 - 4 →
    wp (alloc size) s (λ p s', (p = RT_NULL ∧ s' = s) ∨
      (heap_area p ∧ bs !! p = None ∧ 0 < size ∧ ∃ h' n, s' = part_set h' s ∧ size ≤ n ∧
        blocks h' (<[p := n]> bs)));
  release_spec (s : S) bs p n :
    unguarded (part_get s) → blocks (part_get s) bs → bs !! p = Some n →
    wp (release p) s (λ _ s', ∃ h', s' = part_set h' s ∧ blocks h' (delete p bs))
}.

(** The heap of [src/mem.c] over an arena in [lo..hi).  A call that would have
    to wait for the semaphore is left out. *)
Definition lock_alloc {S} `{Part S kernel, Part S heap} (heap_sem : addr) : AllocOps S := {|
  alloc n := r ← rt_malloc heap_sem n; match r with Return p => mret p | Park _ => fail FConfig end;
  release p := r ← rt_free heap_sem p; match r with Return _ => mret tt | Park _ => fail FConfig end
|}.

Section Implementation.
Context {S : Type} `{Part S kernel, Part S heap, !PartLaws S kernel, !PartLaws S heap, !PartsApart S kernel heap}.
Context (heap_sem lo hi : addr).

Definition arena_blocks (h : heap) (bs : gmap addr Z) : Prop :=
  lo ≤ heap_ptr h ∧ heap_ptr h + heap_end h ≤ hi ∧ ∃ l, heap_rep h l ∧ bs = in_use h l.
Lemma malloc_locked_zero h : malloc_locked 0 h = Ok (0, h).
Proof. done. Qed.

Lemma lock_alloc_spec (s : S) bs size :
  (∃ x, heap_free heap_sem (part_get s) x) → arena_blocks (part_get s) bs → 0 ≤ size ≤ 2 ^ 32 - 4 →
  wp (@alloc S (lock_alloc heap_sem) size) s (λ p s', (p = RT_NULL ∧ s' = s) ∨
    (lo ≤ p < hi ∧ bs !! p = None ∧ 0 < size ∧ ∃ h' n, s' = part_set h' s ∧ size ≤ n ∧
      arena_blocks h' (<[p := n]> bs))).
Proof.
  intros [x Hf] (Hlo & Hhi & l & Hrep & ->) Hsize. simpl. wp_steps.
  pose proof (malloc_uncontended heap_sem s x size Hf) as E. unfold wp. rewrite E. unfold of_heap.
  destruct (decide (size = 0)) as [->|Hz].
  { rewrite malloc_locked_zero. left. by rewrite part_set_get. }
  pose proof (malloc_contract _ _ size Hrep ltac:(lia)) as Hm. unfold wp in Hm.
  destruct (malloc_locked size (part_get s)) as [[p h']|]; [|done]. cbv beta iota in *.
  destruct Hm as [(-> & -> & _)|(Hp & Hs & _ & l' & Hrep' & n & El & Hn & _ & Hb1 & Hb2 & Hap)].
  - left. by rewrite part_set_get.
  - right. destruct (rounded_facts size ltac:(lia)) as (Hr & _ & _).
    pose proof (in_use_separate _ _ Hrep' p n) as Hsep. rewrite El, lookup_insert_eq in Hsep.
    split; [lia|]. split.
    { destruct (in_use (part_get s) l !! p) as [m|] eqn:Em; [|done].
      destruct (live_bounds _ _ _ _ _ (proj1 (hr_tiles _ _ Hrep)) Em) as (_ & _ & Hm).
      destruct (Hap p m Em); lia. }
    split; [lia|]. exists h', n. split; [done|]. split; [lia|].
    unfold arena_blocks. rewrite <-El. rewrite (same_arena_end _ _ Hs). destruct Hs as [-> _].
    split; [done|]. split; [done|]. by exists l'.
Qed.
Lemma lock_release_spec (s : S) bs p n :
  (∃ x, heap_free heap_sem (part_get s) x) → arena_blocks (part_get s) bs → bs !! p = Some n →
  wp (@release S (lock_alloc heap_sem) p) s (λ _ s', ∃ h', s' = part_set h' s ∧ arena_blocks h' (delete p bs)).
Proof.
  intros [x Hf] (Hlo & Hhi & l & Hrep & ->) Hp. simpl. wp_steps.
  pose proof (free_uncontended heap_sem s x p Hf) as E. unfold wp. rewrite E. unfold of_heap.
  pose proof (free_contract _ _ p n Hrep Hp) as Hm. unfold wp in Hm.
  destruct (free_locked p (part_get s)) as [[[] h']|]; [|done]. cbv beta iota in *.
  destruct Hm as (Hs & _ & l' & Hrep' & El). exists h'. split; [done|].
  unfold arena_blocks. rewrite <-El. rewrite (same_arena_end _ _ Hs). destruct Hs as [-> _].
  split; [done|]. split; [done|]. by exists l'.
Qed.
Lemma heap_free_frame k k' x :
  heap_free heap_sem k x → semaphores k' !! heap_sem = semaphores k !! heap_sem →
  queue k' (QSuspend heap_sem) = queue k (QSuspend heap_sem) →
  rt_interrupt_nest k' = rt_interrupt_nest k → heap_free heap_sem k' x.
Proof.
  intros [[H1 H2 H3 H4 H5 H6] Hv Hn] Es Eq En. split; [|done|by rewrite En].
  split; [by rewrite Es|done|done|done|done|]. by rewrite Eq.
Qed.

Definition lock_alloc_contract (Hsem : ¬ lo ≤ heap_sem < hi) (Hlo : 0 < lo) :
  @AllocSpec S _ _ (lock_alloc heap_sem).
Proof.
  refine (@Build_AllocSpec S _ _ (lock_alloc heap_sem) (λ p, lo ≤ p < hi) heap_sem
    (λ k, ∃ x, heap_free heap_sem k x) _ Hsem _ _ arena_blocks _ lock_alloc_spec lock_release_spec).
  - intros k k' [x Hf] Es Eq En. exists x. by eapply heap_free_frame.
  - unfold RT_NULL. lia.
  - by intros k [x []].
  - intros h bs p n (H1 & H2 & l & Hrep & ->) Hp.
    destruct (live_bounds _ _ _ _ _ (proj1 (hr_tiles _ _ Hrep)) Hp) as (? & ? & ?).
    destruct (hr_tiles _ _ Hrep) as (_ & _ & ? & _). lia.
Defined.
End Implementation.

(** ** Concrete instances *)
#[global] Instance pair_kernel : Part (kernel * heap) kernel := MkPart _ _ fst (λ k s, (k, s.2)).
#[global] Instance pair_heap : Part (kernel * heap) heap := MkPart _ _ snd (λ h s, (s.1, h)).
#[global] Instance pair_kernel_laws : PartLaws (kernel * heap) kernel.
Proof. split; try done. by intros []. Qed.
#[global] Instance pair_heap_laws : PartLaws (kernel * heap) heap.
Proof. split; try done. by intros []. Qed.
#[global] Instance pair_apart : PartsApart (kernel * heap) kernel heap.
Proof. by split. Qed.

(** The heap free, held, and held with nobody waiting for it; block 0x20001010 is
    the first of the arena. *)
Lemma heap_lock_witness :
  (rt_malloc O_sem 20 (sem_scene 1 (QSuspend 1), demo_heap) =
     of_heap (malloc_locked 20 demo_heap) (sem_scene 1 (QSuspend 1), demo_heap)) ∧
  (let s := (sem_scene 0 (QSuspend O_sem), taken_heap) in
   wp (rt_malloc O_sem 20) s (λ r s', r = Park (T_run, 20) ∧ waits_for_heap O_sem (a_sem 0) s s') ∧
   wp (rt_free O_sem 0x20001010) s (λ r s', r = Park (T_run, 0x20001010) ∧ waits_for_heap O_sem (a_sem 0) s s') ∧
   wp (rt_calloc O_sem 5 20) s (λ r s', r = Park (T_run, 100) ∧ waits_for_heap O_sem (a_sem 0) s s') ∧
   wp (heap_release O_sem) s (λ _ s', handed T_wait s.1 s'.1)) ∧
  (let s := (sem_scene 0 (QSuspend 1), taken_heap) in
   rt_free_resume O_sem (T_wait, 0x20001010) s = completed O_sem s (a_sem 0) (free_block 0x20001010)).
Proof.
  assert (∀ v q, 0 ≤ v ≤ 1 → (0 < v → queue (sem_scene v q) (QSuspend O_sem) = []) →
    sem_ok (sem_scene v q) O_sem (a_sem v)) as Hok.
  { intros v q Hv Hq. constructor; [done|done|done|by left|simpl; unfold RT_SEM_VALUE_MAX, RT_UINT16_MAX; lia|done]. }
  assert (∀ v q, v ∈ [0; 1] → q ∈ [QSuspend 1; QSuspend O_sem] → kernel_inv (sem_scene v q)) as Hinv.
  { intros v q Hv Hq. apply list_elem_of_In in Hv, Hq.
    destruct Hv as [<-|[<-|[]]], Hq as [<-|[<-|[]]]; by_check. }
  assert (0x20001010 ≠ 0) as Hnz by done.
  assert (in_heap taken_heap 0x20001010) as Hin by (apply (bool_decide_eq_true_1 _); by vm_compute).
  split; [|split].
  - pose proof (heap_lock O_sem (sem_scene 1 (QSuspend 1), demo_heap) (a_sem 1)
      (a_thread RT_THREAD_RUNNING 10 RT_EOK) 20 1 0 (Hinv 1 (QSuspend 1) ltac:(set_solver) ltac:(set_solver))
      ltac:(done) ltac:(done) (Hok 1 (QSuspend 1) ltac:(lia) ltac:(done)) ltac:(done)) as Hl.
    rewrite decide_True in Hl by done. exact (proj1 Hl).
  - pose proof (heap_lock O_sem (sem_scene 0 (QSuspend O_sem), taken_heap) (a_sem 0)
      (a_thread RT_THREAD_RUNNING 10 RT_EOK) 20 5 0x20001010 (Hinv 0 (QSuspend O_sem) ltac:(set_solver) ltac:(set_solver))
      ltac:(done) ltac:(done) (Hok 0 (QSuspend O_sem) ltac:(lia) ltac:(lia)) ltac:(done)) as Hl.
    rewrite decide_False in Hl by done. destruct Hl as (H1 & H2 & H3 & H4 & _).
    split; [|split; [|split]].
    + assert (malloc_size 20 taken_heap = Some 20) as Em by by vm_compute.
      eapply wp_mono; [exact H1|]. intros r s' Hp. cbv beta in Hp.
      change (part_get (_, taken_heap)) with taken_heap in Hp at 1. rewrite Em in Hp. exact Hp.
    + pose proof (free_check_ok 0x20001010 taken_heap eq_refl Hin) as Hcheck.
      exact (H2 Hnz Hcheck).
    + assert (malloc_size (u32 (5 * 20)) taken_heap = Some 100) as Em by by vm_compute.
      eapply wp_mono; [exact H3|]. intros r s' Hp. cbv beta in Hp.
      change (part_get (_, taken_heap)) with taken_heap in Hp at 1. rewrite Em in Hp. exact Hp.
    + eapply wp_mono; [apply (H4 T_wait []); by vm_compute|]. intros r s' (_ & _ & Hh & _). exact Hh.
  - pose proof (heap_lock O_sem (sem_scene 0 (QSuspend 1), taken_heap) (a_sem 0)
      (a_thread RT_THREAD_RUNNING 10 RT_EOK) 20 5 0x20001010 (Hinv 0 (QSuspend 1) ltac:(set_solver) ltac:(set_solver))
      ltac:(done) ltac:(done) (Hok 0 (QSuspend 1) ltac:(lia) ltac:(lia)) ltac:(done)) as Hl.
    rewrite decide_False in Hl by done. destruct Hl as (_ & _ & _ & _ & H5).
    assert (threads (sem_scene 0 (QSuspend 1)) !! T_wait = Some (a_thread RT_THREAD_SUSPEND 4 RT_EOK)) as Et by by vm_compute.
    assert (queue (sem_scene 0 (QSuspend 1)) (QSuspend O_sem) = []) as Eq by by vm_compute.
    exact (proj1 (proj2 (H5 T_wait (a_thread RT_THREAD_SUSPEND 4 RT_EOK) 20 Et Eq))).
Defined.
