(* ===== verification/MemPool.v ===== *)
(** * Memory pools ([src/mempool.c])

    Pools of equal blocks.  The word in front of a block links the free blocks
    of the pool and names the pool while the block is in use. *)
From S2P Require Import Prelude Kernel Scheduler Object Timer Thread Ipc Decide Scenario Scheduling Registry.

(** ** Operations *)
Definition get_mp (mp : addr) : M kernel rt_mempool :=
  x ← gets (λ k, mempools k !! mp); of_option FBadPointer x.
Definition put_mp (mp : addr) (x : rt_mempool) : M kernel unit :=
  modify (λ k, k <| mempools := <[mp := x]> (mempools k) |>).
Definition get_word (a : addr) : M kernel Z :=
  w ← gets (λ k, pool_words k !! a); of_option FBadPointer w.
(** Storing the pointer [v] at [a]. *)
Definition put_word (a : addr) (v : Z) : M kernel unit :=
  modify (λ k, k <| pool_words := <[a := v]> (pool_words k) |>).
(** The same inside the memory the pool [x] was given; outside it is a fault. *)
Definition put_pool_word (x : rt_mempool) (a : addr) (v : Z) : M kernel unit :=
  if decide (mp_start_address x ≤ a ∧ a + 4 ≤ mp_start_address x + mp_size x) then put_word a v
  else fail FBounds.

(** [rt_set_errno] of kservice.c *)
Definition rt_set_errno (error : Z) : M kernel unit :=
  nest ← gets rt_interrupt_nest;
  if decide (nest ≠ 0) then modify (λ k, k <| rt_errno := error |>)
  else
    tid ← rt_thread_self;
    if decide (tid = RT_NULL) then modify (λ k, k <| rt_errno := error |>)
    else upd_thread tid (λ th, th <| Kernel.error := error |>).

(** The address of the block with the given index. *)
Definition block_at (x : rt_mempool) (offset : Z) : addr :=
  u32 (mp_start_address x + u32 (offset * (mp_block_size x + 4))).

Fixpoint link_blocks (x : rt_mempool) (n : nat) (offset : Z) : M kernel unit :=
  match n with
  | O => mret tt
  | S n => put_pool_word x (block_at x offset) (block_at x (offset + 1));;
           link_blocks x n (offset + 1)
  end.

(** The record of the pool over the memory at [start]. *)
Definition fresh_pool (h : rt_object) (start size block_size : Z) : rt_mempool :=
  let bs := RT_ALIGN block_size RT_ALIGN_SIZE in
  let total := RT_ALIGN_DOWN size RT_ALIGN_SIZE / u32 (bs + 4) in
  mkMempool h start (RT_ALIGN_DOWN size RT_ALIGN_SIZE) bs start total total.
(** [rt_mp_init] up to its loop, and from there on. *)
Definition mp_setup (mp : addr) (name : list Z) (start size block_size : Z) : M kernel rt_mempool :=
  RT_ASSERT (mp ≠ RT_NULL);;
  RT_ASSERT (start ≠ RT_NULL);;
  RT_ASSERT (0 < size ∧ 0 < block_size);;
  rt_object_init (Obj mp) RT_Object_Class_MemPool name;;
  x ← get_mp mp;
  put_mp mp (fresh_pool (mp_parent x) start size block_size);;
  rt_list_init_head (QSuspend mp);;
  mret (fresh_pool (mp_parent x) start size block_size).
Definition link_all (x : rt_mempool) : M kernel Z :=
  link_blocks x (Z.to_nat (block_total_count x)) 0;;
  put_pool_word x (block_at x (u32 (block_total_count x - 1))) RT_NULL;;
  mret RT_EOK.
Definition rt_mp_init (mp : addr) (name : list Z) (start size block_size : Z) : M kernel Z :=
  x ← mp_setup mp name start size block_size;
  link_all x.

(** [while (!rt_list_isempty(&(mp->suspend_thread)))] of [rt_mp_detach] is the
    loop of [rt_ipc_list_resume_all]. *)
Definition rt_mp_detach (mp : addr) : M kernel Z :=
  RT_ASSERT (mp ≠ RT_NULL);;
  x ← get_mp mp;
  RT_ASSERT (rt_object_get_type (mp_parent x) = RT_Object_Class_MemPool);;
  RT_ASSERT (rt_object_is_systemobject (mp_parent x) = true);;
  k ← gets id;
  resume_all_loop (S (length (queue k (QSuspend mp)))) (QSuspend mp);;
  rt_object_detach RT_Object_Class_MemPool (Obj mp);;
  mret RT_EOK.

(** Lines 372-390: the first free block. *)
Definition mp_take (mp : addr) (level : Z) : M kernel addr :=
  x ← get_mp mp;
  let x := x <| block_free_count := u32 (block_free_count x - 1) |> in
  put_mp mp x;;
  let block_ptr := mp_block_list x in
  RT_ASSERT (block_ptr ≠ RT_NULL);;
  next ← get_word block_ptr;
  put_mp mp (x <| mp_block_list := next |>);;
  put_word block_ptr mp;;
  rt_hw_interrupt_enable level;;
  mret (u32 (block_ptr + 4)).

(** Lines 334-356: the caller goes to the front of the wait list. *)
Definition mp_wait (mp thread : addr) (time level : Z) : M kernel wait_locals :=
  RT_DEBUG_NOT_IN_INTERRUPT;;
  upd_thread thread no_error;;
  rt_thread_suspend thread;;
  rt_list_insert_head (QSuspend mp) thread;;
  before_sleep ← wait_tick time;
  when (0 < time) (start_thread_timer thread time);;
  rt_hw_interrupt_enable level;;
  rt_schedule;;
  mret (mkLocals thread time before_sleep).

(** The [while (mp->block_free_count == 0)] loop from its test on. *)
Definition mp_alloc_locked (mp thread : addr) (time level : Z) : M kernel (call addr wait_locals) :=
  x ← get_mp mp;
  if decide (block_free_count x = 0) then
    if decide (time = 0) then
      rt_hw_interrupt_enable level;;
      rt_set_errno (- RT_ETIMEOUT);;
      mret (Return RT_NULL)
    else
      w ← mp_wait mp thread time level;
      mret (Park w)
  else
    p ← mp_take mp level;
    mret (Return p).
Definition rt_mp_alloc (mp : addr) (time : Z) : M kernel (call addr wait_locals) :=
  RT_ASSERT (mp ≠ RT_NULL);;
  thread ← rt_thread_self;
  level ← rt_hw_interrupt_disable;
  mp_alloc_locked mp thread time level.
Definition rt_mp_alloc_resume (mp : addr) (w : wait_locals) : M kernel (call addr wait_locals) :=
  th ← get_thread (wl_thread w);
  if decide (error th ≠ RT_EOK) then mret (Return RT_NULL)
  else
    now ← rt_tick_get;
    level ← rt_hw_interrupt_disable;
    mp_alloc_locked mp (wl_thread w) (time_left (wl_timeout w) (wl_tick w) now) level.

Definition rt_mp_free (block : addr) : M kernel unit :=
  if decide (block = RT_NULL) then mret tt
  else
    let block_ptr := block - 4 in
    mp ← get_word block_ptr;
    level ← rt_hw_interrupt_disable;
    x ← get_mp mp;
    put_word block_ptr (mp_block_list x);;
    put_mp mp (x <| block_free_count := u32 (block_free_count x + 1) |> <| mp_block_list := block_ptr |>);;
    k ← gets id;
    match queue k (QSuspend mp) with
    | thread :: _ =>
        upd_thread thread no_error;;
        rt_thread_resume thread;;
        rt_hw_interrupt_enable level;;
        rt_schedule
    | [] => rt_hw_interrupt_enable level
    end.

(** ** The pool as a stack of free blocks *)
Definition slot (x : rt_mempool) (i : nat) : addr := mp_start_address x + Z.of_nat i * (mp_block_size x + 4).
Definition slots (x : rt_mempool) : list addr := slot x <$> seq 0 (Z.to_nat (block_total_count x)).

Fixpoint chain (w : gmap addr Z) (p : addr) (l : list addr) : Prop :=
  match l with
  | [] => p = RT_NULL
  | a :: l => p = a ∧ ∃ q, w !! a = Some q ∧ chain w q l
  end.

(** [fs] are the free blocks, the next to be handed out first, and [us] those
    in use. *)
Record pool_wf (mp : addr) (x : rt_mempool) (w : gmap addr Z) (fs us : list addr) : Prop := {
  pw_chain : chain w (mp_block_list x) fs;
  pw_used : ∀ a, a ∈ us → w !! a = Some mp;
  pw_all : fs ++ us ≡ₚ slots x;
  pw_free : block_free_count x = Z.of_nat (length fs);
  pw_start : 0 < mp_start_address x;
  pw_block : 0 < mp_block_size x;
  pw_end : mp_start_address x + block_total_count x * (mp_block_size x + 4) ≤ 2 ^ 32
}.
Record pool_ok (k : kernel) (mp : addr) (x : rt_mempool) (fs us : list addr) : Prop := {
  po_lookup : mempools k !! mp = Some x;
  po_null : mp ≠ RT_NULL;
  po_wf : pool_wf mp x (pool_words k) fs us
}.

Lemma chain_frame w w' p l : (∀ a, a ∈ l → w' !! a = w !! a) → chain w p l → chain w' p l.
Proof.
  revert p. induction l as [|a l IH]; intros p Hw; simpl; [done|]. intros (-> & q & Hq & Hl).
  split; [done|]. exists q. split; [rewrite Hw; [done|left]|]. apply IH; [|done].
  intros b Hb. apply Hw. by right.
Qed.
Lemma slot_inj x : 0 < mp_block_size x → Inj (=) (=) (slot x).
Proof. intros Hb i j. unfold slot. nia. Qed.

Section Pool.
Context (mp : addr) (x : rt_mempool) (w : gmap addr Z) (fs us : list addr) (Hwf : pool_wf mp x w fs us).

Lemma slots_nodup : NoDup (fs ++ us).
Proof.
  rewrite (pw_all _ _ _ _ _ Hwf). pose proof (slot_inj x (pw_block _ _ _ _ _ Hwf)).
  apply NoDup_fmap_2; [done|]. apply NoDup_seq.
Qed.
Lemma slot_bounds a :
  a ∈ fs ++ us → mp_start_address x ≤ a ∧ a + mp_block_size x + 4 ≤ 2 ^ 32 ∧ a ≠ RT_NULL.
Proof.
  intros Ha. rewrite (pw_all _ _ _ _ _ Hwf) in Ha. apply list_elem_of_fmap in Ha as (i & -> & Hi).
  apply elem_of_seq in Hi. destruct Hwf as [_ _ _ _ H1 H2 H3]. unfold slot, RT_NULL in *. nia.
Qed.
Lemma pool_capacity : Z.of_nat (length fs + length us) = Z.max 0 (block_total_count x).
Proof.
  pose proof (Permutation_length (pw_all _ _ _ _ _ Hwf)) as Hl. rewrite length_app in Hl. rewrite Hl.
  unfold slots. rewrite length_fmap, length_seq. lia.
Qed.
Lemma pool_count_small : Z.of_nat (length fs + length us) < 2 ^ 32.
Proof. rewrite pool_capacity. destruct Hwf. nia. Qed.
End Pool.

(** Handing out the first free block, and giving a block back. *)
Definition pool_pop (x : rt_mempool) (next : addr) : rt_mempool :=
  x <| block_free_count := block_free_count x - 1 |> <| mp_block_list := next |>.
Definition pool_push (x : rt_mempool) (a : addr) : rt_mempool :=
  x <| block_free_count := block_free_count x + 1 |> <| mp_block_list := a |>.

Lemma pool_pop_wf mp x w a fs us q :
  pool_wf mp x w (a :: fs) us → w !! a = Some q →
  pool_wf mp (pool_pop x q) (<[a := mp]> w) fs (a :: us).
Proof.
  intros H Hq. pose proof (slots_nodup _ _ _ _ _ H) as Hnd. simpl in Hnd. apply NoDup_cons in Hnd as [Ha _].
  destruct H as [(_ & q' & Hq' & Hc) Hu Hp Hf ? ? ?]. rewrite Hq in Hq'. injection Hq' as <-.
  split; simpl; try done.
  - eapply chain_frame; [|done]. intros b Hb. rewrite lookup_insert_ne; [done|]. intros <-.
    apply Ha, elem_of_app. by left.
  - intros b [->|Hb]%elem_of_cons; [by rewrite lookup_insert_eq|].
    rewrite lookup_insert_ne; [by apply Hu|]. intros <-. apply Ha, elem_of_app. by right.
  - rewrite <-Permutation_middle. exact Hp.
  - simpl in Hf. lia.
Qed.
Lemma pool_push_wf mp x w a fs us1 us2 :
  pool_wf mp x w fs (us1 ++ a :: us2) →
  pool_wf mp (pool_push x a) (<[a := mp_block_list x]> w) (a :: fs) (us1 ++ us2).
Proof.
  intros H. pose proof (slots_nodup _ _ _ _ _ H) as Hnd. rewrite app_assoc, <-Permutation_middle in Hnd.
  apply NoDup_cons in Hnd as [Ha _]. rewrite <-app_assoc in Ha.
  destruct H as [Hc Hu Hp Hf ? ? ?]. split; simpl; try done.
  - split; [done|]. exists (mp_block_list x). split; [by rewrite lookup_insert_eq|].
    eapply chain_frame; [|done]. intros b Hb. rewrite lookup_insert_ne; [done|]. intros <-.
    apply Ha, elem_of_app. by left.
  - intros b Hb. rewrite lookup_insert_ne.
    + apply Hu. apply elem_of_app. apply elem_of_app in Hb as [?|?]; [by left|by right; right].
    + intros <-. apply Ha, elem_of_app. by right.
  - change (slots (pool_push x a)) with (slots x). rewrite <-Hp.
    by rewrite <-Permutation_middle, !app_assoc, <-Permutation_middle, !app_assoc.
  - lia.
Qed.

(** ** The calls *)
Lemma wp_get_mp mp x k (Q : rt_mempool → kernel → Prop) :
  mempools k !! mp = Some x → Q x k → wp (get_mp mp) k Q.
Proof. intros. unfold get_mp. by ksteps. Qed.
Lemma wp_get_word a v k (Q : Z → kernel → Prop) :
  pool_words k !! a = Some v → Q v k → wp (get_word a) k Q.
Proof. intros. unfold get_word. by ksteps. Qed.

(** The pool after a block [a] has been handed out; [q] is the next free one. *)
Definition popped (mp : addr) (x : rt_mempool) (a q : addr) (k : kernel) : kernel :=
  k <| mempools := <[mp := pool_pop x q]> (mempools k) |> <| pool_words := <[a := mp]> (pool_words k) |>.

Lemma mp_take_spec k mp x a fs us level p :
  pool_ok k mp x (a :: fs) us →
  ∃ q, mp_take mp level (k <| primask := p |>) = Ok (a + 4, (popped mp x a q k) <| primask := level |>) ∧
    pool_ok (popped mp x a q k) mp (pool_pop x q) fs (a :: us).
Proof.
  intros [Hl Hn Hwf]. pose proof (pw_chain _ _ _ _ _ Hwf) as (Ea & q & Hq & _).
  destruct (slot_bounds _ _ _ _ _ Hwf a) as (Ha1 & Ha2 & Ha0); [by left|].
  pose proof (pool_count_small _ _ _ _ _ Hwf) as Hcnt. pose proof (pw_free _ _ _ _ _ Hwf) as Hf.
  simpl in Hcnt, Hf. pose proof (pw_start _ _ _ _ _ Hwf). pose proof (pw_block _ _ _ _ _ Hwf).
  exists q. split.
  - apply wp_exact. unfold mp_take, put_mp, put_word. ksteps. eapply wp_get_mp; [exact Hl|]. ksteps.
    { ksimpl. simpl. congruence. }
    ksteps. simpl. eapply wp_get_word; [rewrite Ea; exact Hq|]. ksteps. split; [rewrite Ea, wrapU_small; lia|].
    rewrite Ea, wrapU_small by lia. unfold popped, pool_pop. simpl. by rewrite insert_insert_eq.
  - split; [apply lookup_insert_eq|done|]. by apply pool_pop_wf.
Qed.

Lemma mp_alloc_spec k mp x a fs us time :
  kernel_inv k → pool_ok k mp x (a :: fs) us →
  ∃ k' q, rt_mp_alloc mp time k = Ok (Return (a + 4), k') ∧ kernel_inv k' ∧ k' = popped mp x a q k ∧
    pool_ok k' mp (pool_pop x q) fs (a :: us).
Proof.
  intros H Hok. destruct (mp_take_spec k mp x a fs us (primask k) 1 Hok) as (q & E & Hok').
  exists (popped mp x a q k), q. split; [|split; [|split; [done|done]]].
  - apply wp_exact. unfold rt_mp_alloc. ksteps; [by destruct Hok|]. ksteps. unfold mp_alloc_locked. ksteps.
    eapply wp_get_mp; [apply Hok|]. rewrite decide_False.
    2:{ rewrite (pw_free _ _ _ _ _ (po_wf _ _ _ _ _ Hok)). simpl. lia. }
    ksteps. eapply wp_eq; [exact E|]. ksteps. split; [done|]. by destruct k.
  - by eapply kernel_inv_ext; [exact H|..].
Qed.

(** An empty pool refuses at once a caller that will not wait. *)
Lemma mp_alloc_empty k mp x us th :
  kernel_inv k → running k th → rt_interrupt_nest k = 0 → pool_ok k mp x [] us →
  rt_mp_alloc mp 0 k =
    Ok (Return RT_NULL,
        k <| threads := <[rt_current_thread k := th <| error := - RT_ETIMEOUT |>]> (threads k) |>).
Proof.
  intros H [Ht Hs] Hnest [Hl Hn Hwf]. pose proof (live_not_null _ _ _ H Ht) as Hcur.
  apply wp_exact. unfold rt_mp_alloc. ksteps. unfold mp_alloc_locked. ksteps. eapply wp_get_mp; [exact Hl|].
  rewrite decide_True by by rewrite (pw_free _ _ _ _ _ Hwf). rewrite decide_True by done. ksteps.
  unfold rt_set_errno. ksteps. rewrite decide_False by (ksimpl; rewrite Hnest; by intros []). ksteps.
  rewrite decide_False by done. ksteps. by destruct k.
Qed.

Lemma mp_free_quiet k mp x a fs us1 us2 :
  kernel_inv k → pool_ok k mp x fs (us1 ++ a :: us2) → queue k (QSuspend mp) = [] →
  ∃ k', rt_mp_free (a + 4) k = Ok (tt, k') ∧ kernel_inv k' ∧
    k' = k <| pool_words := <[a := mp_block_list x]> (pool_words k) |>
           <| mempools := <[mp := pool_push x a]> (mempools k) |> ∧
    pool_ok k' mp (pool_push x a) (a :: fs) (us1 ++ us2).
Proof.
  intros H [Hl Hn Hwf] Hq.
  destruct (slot_bounds _ _ _ _ _ Hwf a) as (Ha1 & _ & _); [apply elem_of_app; right; apply elem_of_app; right; left|].
  pose proof (pw_start _ _ _ _ _ Hwf). pose proof (pool_count_small _ _ _ _ _ Hwf) as Hcnt.
  rewrite length_app in Hcnt. simpl in Hcnt. pose proof (pw_free _ _ _ _ _ Hwf) as Hf.
  eexists. split; [|split; [|split; [reflexivity|]]].
  - apply wp_exact. unfold rt_mp_free, put_mp, put_word. rewrite decide_False by (unfold RT_NULL; lia).
    replace (a + 4 - 4) with a by lia. ksteps.
    eapply wp_get_word; [apply (pw_used _ _ _ _ _ Hwf); apply elem_of_app; right; left|]. ksteps.
    eapply wp_get_mp; [exact Hl|]. ksteps. unfold id.
    match goal with |- context [queue ?s (QSuspend mp)] => change (queue s (QSuspend mp)) with (queue k (QSuspend mp)) end.
    rewrite Hq. ksteps. split; [done|]. unfold pool_push. rewrite wrapU_small by lia. by destruct k.
  - by eapply kernel_inv_ext; [exact H|..].
  - split; [apply lookup_insert_eq|done|]. by apply pool_push_wf.
Qed.

Lemma wp_unit {S} (m : M S unit) s Q : wp (m;; mret tt) s Q → wp m s Q.
Proof. unfold wp, mbind, M_bind. destruct (m s) as [[[] s']|]; done. Qed.
Lemma wake_first {A} k q t l (rest : M kernel A) Q :
  queue k q = t :: l → wp (rt_ipc_list_resume q;; rest) k Q → wp (rt_thread_resume t;; rest) k Q.
Proof.
  intros Hq. unfold rt_ipc_list_resume, wp, mbind, M_bind, gets, id. simpl. rewrite Hq. simpl.
  by destruct (rt_thread_resume t k) as [[r k']|].
Qed.

Lemma pool_ok_ext k k' mp x fs us :
  mempools k' = mempools k → pool_words k' = pool_words k → pool_ok k mp x fs us → pool_ok k' mp x fs us.
Proof. intros E1 E2 []. split; [by rewrite E1|done|by rewrite E2]. Qed.
Lemma pool_ok_objs k k' mp x fs us : objs_same k k' → pool_ok k mp x fs us → pool_ok k' mp x fs us.
Proof. intros Ho. destruct (objs_fields_rest _ _ Ho) as (? & _ & ? & _). by apply pool_ok_ext. Qed.

(** A block given back while threads wait: the first of them is woken, with no
    error, and the block is there for it. *)
Lemma mp_free_wakes k mp x a fs us1 us2 t l :
  kernel_inv k → current_ok k → pool_ok k mp x fs (us1 ++ a :: us2) → queue k (QSuspend mp) = t :: l →
  wp (rt_mp_free (a + 4)) k (λ _ k', kernel_inv k' ∧ current_ok k' ∧
    pool_ok k' mp (pool_push x a) (a :: fs) (us1 ++ us2) ∧ queue k' (QSuspend mp) = l ∧
    ∃ th', threads k' !! t = Some th' ∧ stat_class th' = RT_THREAD_READY ∧ error th' = RT_EOK).
Proof.
  intros H Hc [Hl Hn Hwf] Hq.
  destruct (slot_bounds _ _ _ _ _ Hwf a) as (Ha1 & _ & _); [apply elem_of_app; right; apply elem_of_app; right; left|].
  pose proof (pw_start _ _ _ _ _ Hwf). pose proof (pool_count_small _ _ _ _ _ Hwf) as Hcnt.
  rewrite length_app in Hcnt. simpl in Hcnt. pose proof (pw_free _ _ _ _ _ Hwf) as Hf.
  destruct (waiter_thread _ (QSuspend mp) _ _ H I Hq) as (th & Ht & Hs).
  apply wp_unit. unfold rt_mp_free, put_mp, put_word. rewrite decide_False by (unfold RT_NULL; lia).
  replace (a + 4 - 4) with a by lia. ksteps.
  eapply wp_get_word; [apply (pw_used _ _ _ _ _ Hwf); apply elem_of_app; right; left|]. ksteps.
  eapply wp_get_mp; [exact Hl|]. ksteps. unfold id.
  match goal with |- context [queue ?s (QSuspend mp)] => change (queue s (QSuspend mp)) with (queue k (QSuspend mp)) end.
  rewrite Hq. rewrite wrapU_small by lia. ksteps.
  match goal with |- wp _ ?s _ => set (k1 := s) end.
  assert (kernel_inv k1) as H1.
  { eapply kernel_inv_ext; [apply (kernel_inv_error k t th RT_EOK H Ht)|done..]. }
  assert (current_ok k1) as Hc1 by by apply (current_ok_error k t th RT_EOK).
  assert (pool_ok k1 mp (pool_push x a) (a :: fs) (us1 ++ us2)) as Hok1.
  { split; [apply lookup_insert_eq|done|]. by apply pool_push_wf. }
  assert (queue k1 (QSuspend mp) = t :: l) as Hq1 by exact Hq.
  pose proof (wake_spec (A:=unit) k1 (QSuspend mp) t l (primask k) (mret tt)) as Hw.
  assert (wp (rt_thread_resume t;; rt_hw_interrupt_enable (primask k);; rt_schedule;; mret tt) k1 (λ _ k',
    kernel_inv k' ∧ current_ok k' ∧
    pool_ok k' mp (pool_push x a) (a :: fs) (us1 ++ us2) ∧ queue k' (QSuspend mp) = l ∧
    ∃ th', threads k' !! t = Some th' ∧ stat_class th' = RT_THREAD_READY ∧ error th' = RT_EOK)) as Hfin.
  { eapply wake_first; [exact Hq1|]. apply Hw; try done. intros k' Hh. ksteps.
    split; [apply Hh|]. split; [apply Hh|]. split; [|split; [apply Hh|]].
    - eapply pool_ok_objs; [apply Hh|]. by eapply pool_ok_ext; [..|exact Hok1].
    - destruct (ha_handed _ _ _ _ _ _ Hh) as (th0 & th' & Ht0 & Ht' & Hcl & He).
      exists th'. split; [done|]. split; [done|].
      assert (threads k1 !! t = Some (no_error th)) as Et by apply lookup_insert_eq.
      rewrite Et in Ht0. injection Ht0 as <-. by rewrite He. }
  unfold wp, mbind, M_bind in Hfin |- *.
  destruct (rt_thread_resume t k1) as [[? k2]|]; [|done].
  destruct (rt_hw_interrupt_enable (primask k) k2) as [[? k3]|]; [|done].
  by destruct (rt_schedule k3) as [[[] ?]|].
Qed.

(** What the woken thread runs. *)
Lemma mp_resume_spec k mp x a fs us w th :
  kernel_inv k → pool_ok k mp x (a :: fs) us → threads k !! wl_thread w = Some th → error th = RT_EOK →
  wp (rt_mp_alloc_resume mp w) k (λ r k', r = Return (a + 4) ∧ kernel_inv k' ∧
    queue k' (QSuspend mp) = queue k (QSuspend mp) ∧ ∃ x', pool_ok k' mp x' fs (a :: us)).
Proof.
  intros H Hok Ht He. destruct (mp_take_spec k mp x a fs us (primask k) 1 Hok) as (q & E & Hok').
  unfold rt_mp_alloc_resume. ksteps. rewrite decide_False by (rewrite He; by intros []).
  ksteps. unfold mp_alloc_locked. ksteps. eapply wp_get_mp; [apply Hok|]. rewrite decide_False.
  2:{ rewrite (pw_free _ _ _ _ _ (po_wf _ _ _ _ _ Hok)). simpl. lia. }
  ksteps. eapply wp_eq; [exact E|]. ksteps. split; [done|]. split.
  - by eapply kernel_inv_ext; [exact H|..].
  - split; [done|]. exists (pool_pop x q). by eapply pool_ok_ext; [..|exact Hok'].
Qed.

(** A caller that waits is linked in front of those that already wait. *)
Lemma mp_alloc_blocks k mp x us th time :
  kernel_inv k → running k th → rt_interrupt_nest k = 0 → pool_ok k mp x [] us →
  time ≠ 0 → time < RT_TICK_MAX / 2 →
  wp (rt_mp_alloc mp time) k (λ r k',
    r = Park (mkLocals (rt_current_thread k) time (wait_start k time)) ∧
    kernel_inv k' ∧ current_ok k' ∧ pool_ok k' mp x [] us ∧
    queue k' (QSuspend mp) = rt_current_thread k :: queue k (QSuspend mp) ∧
    ∃ th', threads k' !! rt_current_thread k = Some th' ∧ stat_of th' = RT_THREAD_SUSPEND ∧ error th' = RT_EOK).
Proof.
  intros H Hr Hnest Hok Ht0 Htime. pose proof Hr as [Ht Hs]. set (cur := rt_current_thread k) in *.
  set (k0 := waiting_state k th). set (q := QSuspend mp).
  assert (kernel_inv k0) as H0.
  { eapply kernel_inv_ext; [apply (kernel_inv_error k _ th RT_EOK H Ht)|done..]. }
  assert (threads k0 !! cur = Some (no_error th)) as Et0 by apply lookup_insert_eq.
  assert (running k0 (no_error th)) as Hr0 by (split; [exact Et0|done]).
  pose proof (suspended_queue k0 (no_error th) q H0 Hr0) as Hq0. fold cur in Hq0.
  change (rt_current_thread k0) with cur in Hq0. change (queue k0 q) with (queue k q) in Hq0.
  set (k1 := parked cur (no_error th) q [] (queue k q) k0).
  assert (kernel_inv k1) as H1.
  { eapply kernel_inv_wait; [|apply suspended_thread| | |done|by rewrite Hq0].
    - apply suspended_inv; [done|done|by eapply running_live|].
      change (stat_of (no_error th)) with (stat_of th). by rewrite Hs.
    - by rewrite stat_of_with_stat.
    - intros q'. apply suspended_unlinked. }
  assert (current_ok k1) as Hc1 by exact (current_ok_suspended k0 (no_error th)).
  assert (threads k1 !! cur = Some (with_stat RT_THREAD_SUSPEND (no_error th))) as Et1 by apply suspended_thread.
  set (Post := λ (w : wait_locals) (k' : kernel), w = mkLocals cur time (wait_start k time) ∧
    kernel_inv k' ∧ current_ok k' ∧ pool_ok k' mp x [] us ∧ queue k' q = cur :: queue k q ∧
    ∃ th', threads k' !! cur = Some th' ∧ stat_of th' = RT_THREAD_SUSPEND ∧ error th' = RT_EOK).
  assert (∀ k2, kernel_inv k2 → current_ok k2 → objs_same k1 k2 → threads k2 = threads k1 → queues k2 = queues k1 →
    wp (rt_hw_interrupt_enable (primask k);; rt_schedule;; mret (mkLocals cur time (wait_start k time))) k2 Post) as Hfin.
  { intros k2 H2 Hc2 Ho Et Eq. ksteps.
    eapply wp_mono; [apply (schedule_keeps (k2 <| primask := primask k |>)); [by apply kernel_inv_primask|done]|].
    intros ? k' [Hsc H']. ksteps. split; [done|]. split; [done|]. split; [apply Hsc|]. split; [|split].
    - eapply pool_ok_objs; [by apply objs_scheduled|]. eapply (pool_ok_ext k2); [done|done|].
      eapply pool_ok_objs; [exact Ho|]. by eapply (pool_ok_ext k).
    - unfold queue. rewrite (fr_queues _ _ (sc_frame _ _ Hsc)) by by intros []. ksimpl. rewrite Eq.
      unfold k1, parked. ksimpl. apply qof_insert_eq.
    - destruct (scheduled_suspended _ _ cur (with_stat RT_THREAD_SUSPEND (no_error th)) Hsc)
        as (th' & ? & ? & Hcore); [ksimpl; by rewrite Et|by rewrite stat_of_with_stat|].
      exists th'. split; [done|]. split; [done|]. by apply (f_equal error) in Hcore. }
  unfold rt_mp_alloc. ksteps; [by destruct Hok|]. ksteps. unfold mp_alloc_locked. ksteps.
  eapply wp_get_mp; [apply Hok|]. rewrite decide_True by by rewrite (pw_free _ _ _ _ _ (po_wf _ _ _ _ _ Hok)).
  rewrite decide_False by done. ksteps.
  eapply (wp_mono _ _ Post); [|intros w k' [-> Hrest]; ksteps; split; [done|exact Hrest]].
  unfold mp_wait, RT_DEBUG_NOT_IN_INTERRUPT. ksteps.
  fold k0. change (k <| primask := 1 |> <| threads := <[cur:=no_error th]> (threads k) |>) with k0.
  eapply wp_eq; [apply (suspend_eq cur (no_error th) k0 H0 Et0); right; exact Hs|]. ksteps.
  apply wp_insert_head; [intros q'; apply suspended_unlinked|]. fold q. rewrite Hq0.
  change (suspended cur (no_error th) k0 <| queues := <[q := cur :: queue k q]>
    (queues (suspended cur (no_error th) k0)) |>) with k1.
  assert (wp (wait_tick time) k1 (λ b k', b = wait_start k time ∧ k' = k1)) as Htick.
  { unfold wait_tick, wait_start. case_decide; ksteps; split; done. }
  ksteps. eapply wp_mono; [exact Htick|]. intros b ? [-> ->]. ksteps. apply wp_when; intros Htm.
  - eapply wp_mono; [eapply arm_timer_spec; [done|exact Et1|by rewrite stat_of_with_stat|lia]|].
    intros ? k2 Ha. destruct (armed_fields _ _ _ _ Ha) as (Et & Eq & Ec & _).
    apply Hfin; [apply Ha|by apply (current_ok_armed _ _ _ _ Ha)|exact (objs_armed _ _ _ _ Ha)|done|done].
  - by apply Hfin.
Qed.

(** ** Sequences of calls against a stack of blocks *)

(** [PFree i] gives back the [i]-th of the blocks the caller holds. *)
Inductive mp_op := PAlloc | PFree (i : nat).

Fixpoint mp_run (mp : addr) (ops : list mp_op) (held : list addr) : M kernel (list addr * list addr) :=
  match ops with
  | [] => mret ([], held)
  | PAlloc :: ops =>
      c ← rt_mp_alloc mp 0;
      match c with
      | Return p =>
          '(rs, held) ← mp_run mp ops (if decide (p = RT_NULL) then held else p :: held);
          mret (p :: rs, held)
      | Park _ => fail FFuel
      end
  | PFree i :: ops =>
      match held !! i with
      | Some p =>
          rt_mp_free p;;
          '(rs, held) ← mp_run mp ops (delete i held);
          mret (p :: rs, held)
      | None => mp_run mp ops held
      end
  end.

Definition payload (a : addr) : addr := a + 4.

(** The specification: the free blocks are a stack, addresses are those of the
    payloads, four bytes behind the header. *)
Fixpoint stack_run (fs us : list addr) (ops : list mp_op) : list addr * list addr * list addr :=
  match ops with
  | [] => (fs, us, [])
  | PAlloc :: ops =>
      match fs with
      | [] => let '(fs, us, rs) := stack_run [] us ops in (fs, us, RT_NULL :: rs)
      | a :: fs => let '(fs, us, rs) := stack_run fs (a :: us) ops in (fs, us, a + 4 :: rs)
      end
  | PFree i :: ops =>
      match us !! i with
      | Some a => let '(fs, us, rs) := stack_run (a :: fs) (delete i us) ops in (fs, us, a + 4 :: rs)
      | None => stack_run fs us ops
      end
  end.

(** C31: any sequence of allocations and releases on a pool nobody waits for
    behaves as a stack of blocks: an allocation returns the block given back
    last, [RT_NULL] only when every block is in use, and no block is handed
    out twice. *)
Theorem mp_run_refines mp ops : ∀ k x th fs us,
  kernel_inv k → running k th → rt_interrupt_nest k = 0 → pool_ok k mp x fs us →
  queue k (QSuspend mp) = [] →
  wp (mp_run mp ops (payload <$> us)) k (λ '(rs, held) k', kernel_inv k' ∧ ∃ x' fs' us',
    pool_ok k' mp x' fs' us' ∧ NoDup (fs' ++ us') ∧ held = payload <$> us' ∧
    stack_run fs us ops = (fs', us', rs)).
Proof.
  induction ops as [|op ops IH]; intros k x th fs us H Hr Hnest Hok Hq; simpl.
  { apply wp_ret. split; [done|]. exists x, fs, us. split; [done|].
    split; [by eapply slots_nodup, po_wf|done]. }
  destruct op as [|i].
  - destruct fs as [|a fs].
    + ksteps. eapply wp_eq; [by eapply mp_alloc_empty|]. simpl. ksteps.
      pose proof Hr as [Ht Hs].
      eapply wp_mono; [eapply (IH _ x (th <| error := - RT_ETIMEOUT |>) [] us)|].
      * by apply kernel_inv_error.
      * split; [apply lookup_insert_eq|done].
      * done.
      * by eapply pool_ok_ext; [..|exact Hok].
      * done.
      * intros [rs held] k' (H' & x' & fs' & us' & ? & ? & ? & E). ksteps. split; [done|].
        exists x', fs', us'. by rewrite E.
    + destruct (mp_alloc_spec k mp x a fs us 0 H Hok) as (k1 & q & E1 & H1 & Ek1 & Hok1).
      destruct (slot_bounds _ _ _ _ _ (po_wf _ _ _ _ _ Hok) a) as (Ha & _ & _); [by left|].
      pose proof (pw_start _ _ _ _ _ (po_wf _ _ _ _ _ Hok)).
      ksteps. eapply wp_eq; [exact E1|]. cbv beta iota. rewrite decide_False by (unfold RT_NULL; lia). ksteps.
      eapply wp_mono; [eapply (IH k1 (pool_pop x q) th fs (a :: us)); try done; by subst k1|].
      intros [rs held] k' (H' & x' & fs' & us' & ? & ? & ? & E). ksteps. split; [done|].
      exists x', fs', us'. by rewrite E.
  - rewrite list_lookup_fmap. destruct (us !! i) as [a|] eqn:Ei; simpl; [|by eapply IH].
    pose proof (take_drop_middle us i a Ei) as Eus.
    rewrite <-Eus in Hok.
    destruct (mp_free_quiet k mp x a fs _ _ H Hok Hq) as (k1 & E1 & H1 & Ek1 & Hok1).
    ksteps. eapply wp_eq; [exact E1|]. ksteps. rewrite <-list_fmap_delete, delete_take_drop.
    eapply wp_mono; [eapply (IH k1 (pool_push x a) th (a :: fs)); try done; by subst k1|].
    intros [rs held] k' (H' & x' & fs' & us' & ? & ? & ? & E). ksteps. split; [done|].
    exists x', fs', us'. by rewrite E.
Qed.

(** the thread that started to wait last is served first.  A caller finds
    the pool empty and waits; when a block in use is given back, the caller is
    woken before the threads that waited already, gets that block, and the
    others keep waiting in their order. *)
Theorem mp_waiter_lifo k mp x us1 a us2 th time :
  kernel_inv k → running k th → rt_interrupt_nest k = 0 → pool_ok k mp x [] (us1 ++ a :: us2) →
  time ≠ 0 → time < RT_TICK_MAX / 2 →
  wp (c ← rt_mp_alloc mp time;
      rt_mp_free (a + 4);;
      match c with
      | Park w => rt_mp_alloc_resume mp w
      | Return p => mret (Return p)
      end) k (λ r k', r = Return (a + 4) ∧ kernel_inv k' ∧
        queue k' (QSuspend mp) = queue k (QSuspend mp) ∧
        ∃ x', pool_ok k' mp x' [] (a :: us1 ++ us2)).
Proof.
  intros H Hr Hnest Hok Ht0 Htime. ksteps.
  eapply wp_mono; [by eapply mp_alloc_blocks|].
  intros ? k1 (-> & H1 & Hc1 & Hok1 & Hq1 & _). ksteps.
  eapply wp_mono; [by eapply mp_free_wakes|].
  intros _ k2 (H2 & Hc2 & Hok2 & Hq2 & th2 & Ht2 & _ & He2).
  eapply wp_mono; [by eapply mp_resume_spec|].
  intros r k3 (-> & H3 & Hq3 & x3 & Hok3). split; [done|]. split; [done|]. split; [by rewrite Hq3|].
  by exists x3.
Qed.

(** ** Initialisation *)
Section Init.
Context (x : rt_mempool).
Context (Hstart : 0 < mp_start_address x) (Hblock : 0 < mp_block_size x).
Context (Hend : mp_start_address x + block_total_count x * (mp_block_size x + 4) ≤ 2 ^ 32).
Context (Hsize : block_total_count x * (mp_block_size x + 4) ≤ mp_size x).

Lemma block_at_slot i : Z.of_nat i < block_total_count x → block_at x (Z.of_nat i) = slot x i.
Proof. intros Hi. unfold block_at, slot. rewrite (wrapU_small 32 (_ * _)), wrapU_small; nia. Qed.

Lemma put_slot k i v :
  Z.of_nat i < block_total_count x →
  put_pool_word x (slot x i) v k = Ok (tt, k <| pool_words := <[slot x i := v]> (pool_words k) |>).
Proof.
  intros Hi. apply wp_exact. unfold put_pool_word, put_word. rewrite decide_True; [by ksteps|].
  unfold slot. nia.
Qed.

Lemma link_blocks_spec n : ∀ i k,
  Z.of_nat (i + n) ≤ block_total_count x → ∃ w,
  link_blocks x n (Z.of_nat i) k = Ok (tt, k <| pool_words := w |>) ∧
  ∀ j, (i ≤ j < i + n)%nat → (S j < i + n)%nat → w !! slot x j = Some (slot x (S j)).
Proof.
  induction n as [|n IH]; intros i k Hn; simpl.
  { exists (pool_words k). split; [by destruct k|lia]. }
  destruct (IH (S i) (k <| pool_words := <[slot x i := block_at x (Z.of_nat i + 1)]> (pool_words k) |>)) as (w & E & Hw).
  { lia. }
  assert (∀ n k j, (i < j)%nat → Z.of_nat (j + n) ≤ block_total_count x → 
    wp (link_blocks x n (Z.of_nat j)) k (λ _ k', pool_words k' !! slot x i = pool_words k !! slot x i)) as Hkeep.
  { clear -Hstart Hblock Hend Hsize. intros n. induction n as [|n IH]; intros k j Hj Hn; simpl; [by apply wp_ret|].
    wp_steps. rewrite (block_at_slot j) by lia. eapply wp_eq; [apply put_slot; lia|].
    replace (Z.of_nat j + 1) with (Z.of_nat (S j)) by lia.
    eapply wp_mono; [apply IH; lia|]. intros ? k' ->. ksimpl. rewrite lookup_insert_ne; [done|].
    intros ?%(slot_inj x Hblock). lia. }
  exists w. split.
  - apply wp_exact. wp_steps. rewrite (block_at_slot i) by lia.
    eapply wp_eq; [apply put_slot; lia|]. replace (Z.of_nat i + 1) with (Z.of_nat (S i)) in * by lia.
    eapply wp_eq; [exact E|]. by destruct k.
  - intros j Hj HSj. destruct (decide (j = i)) as [->|]; [|apply Hw; lia].
    pose proof (Hkeep n (k <| pool_words := <[slot x i := block_at x (Z.of_nat i + 1)]> (pool_words k) |>) (S i)
      ltac:(lia) ltac:(lia)) as Hk.
    unfold wp in Hk. rewrite E in Hk. ksimpl. simpl in Hk. rewrite Hk, lookup_insert_eq. f_equal.
    replace (Z.of_nat i + 1) with (Z.of_nat (S i)) by lia. apply block_at_slot. lia.
Qed.

(** The links make a chain of all the blocks. *)
Lemma linked_chain w n : ∀ i,
  (∀ j, (i ≤ j < i + n)%nat → w !! slot x j = Some (slot x (S j))) → w !! slot x (i + n)%nat = Some RT_NULL →
  chain w (slot x i) (slot x <$> seq i (S n)).
Proof.
  induction n as [|n IH]; intros i Hw Hlast; simpl.
  - split; [done|]. rewrite Nat.add_0_r in Hlast. by exists RT_NULL.
  - split; [done|]. exists (slot x (S i)). split; [apply Hw; lia|]. apply (IH (S i)).
    + intros j Hj. apply Hw. lia.
    + by rewrite Nat.add_succ_r in Hlast.
Qed.
End Init.

Record pool_args (k : kernel) (mp : addr) (start size block_size : Z) : Prop := {
  pa_inv : kernel_inv k;
  pa_cur : current_ok k;
  pa_lock : 0 ≤ rt_scheduler_lock_nest k < 32767;
  pa_here : is_Some (mempools k !! mp);
  pa_null : mp ≠ RT_NULL;
  pa_new : Obj mp ∉ object_list k RT_Object_Class_MemPool;
  pa_start : 0 < start;
  pa_size : 0 < size ∧ start + size ≤ 2 ^ 32;
  pa_block : 0 < block_size ≤ 2 ^ 32 - 8
}.

Section MpInit.
Context (k : kernel) (mp : addr) (name : list Z) (start size block_size : Z).
Context (Ha : pool_args k mp start size block_size).

Lemma fresh_pool_facts h :
  let x := fresh_pool h start size block_size in
  0 < mp_block_size x ∧ mp_size x ≤ size ∧ block_total_count x * (mp_block_size x + 4) ≤ mp_size x ∧
  0 ≤ block_total_count x < 2 ^ 32 ∧ block_size ≤ mp_block_size x < block_size + 4 ∧
  u32 (mp_block_size x + 4) = mp_block_size x + 4.
Proof.
  destruct Ha as [_ _ _ _ _ _ ? [? ?] ?]. unfold fresh_pool. simpl.
  rewrite RT_ALIGN_4, RT_ALIGN_DOWN_4 by lia.
  pose proof (Z.mul_div_le size 4 ltac:(lia)). pose proof (Z.mul_succ_div_gt (block_size + 3) 4 ltac:(lia)).
  pose proof (Z.mul_div_le (block_size + 3) 4 ltac:(lia)).
  pose proof (Z.div_pos size 4 ltac:(lia) ltac:(lia)).
  set (q := (block_size + 3) / 4) in *. set (s := size / 4) in *.
  rewrite (wrapU_small 32 (4 * q + 4)) by lia.
  pose proof (Z.div_pos (4 * s) (4 * q + 4) ltac:(lia) ltac:(lia)).
  pose proof (Z.mul_div_le (4 * s) (4 * q + 4) ltac:(lia)).
  split; [lia|]. split; [lia|]. split; [lia|]. split; [nia|lia].
Qed.

Lemma mp_setup_spec :
  wp (mp_setup mp name start size block_size) k (λ x k1, ∃ h, x = fresh_pool h start size block_size ∧
    kernel_inv k1 ∧ current_ok k1 ∧ queue k1 (QSuspend mp) = [] ∧ mempools k1 !! mp = Some x).
Proof.
  destruct Ha as [H Hc Hl [x0 Hmp] Hn Hnew Hst [Hsz _] [Hb _]]. unfold mp_setup.
  assert (object_header k RT_Object_Class_MemPool (Obj mp) = Some (mp_parent x0)) as Hh.
  { change ((mp_parent <$> mempools k !! mp) = Some (mp_parent x0)). by rewrite Hmp. }
  ksteps; [unfold RT_NULL; lia|]. ksteps.
  eapply wp_mono; [by apply (object_init_spec k (Obj mp) RT_Object_Class_MemPool name (mp_parent x0))|].
  intros ? k2 (k1 & (H1 & Hc1 & Hh1 & _) & ->). set (h := mkObject _ _ _).
  change (set_header RT_Object_Class_MemPool (Obj mp) h k1) with
    (k1 <| mempools := alter (λ x, x <| mp_parent := h |>) mp (mempools k1) |>).
  specialize (Hh1 RT_Object_Class_MemPool (Obj mp)). rewrite Hh in Hh1.
  change (object_header k1 RT_Object_Class_MemPool (Obj mp)) with (mp_parent <$> mempools k1 !! mp) in Hh1.
  apply fmap_Some in Hh1 as (x1 & Hx1 & _).
  ksteps. eapply wp_get_mp; [ksimpl; by rewrite lookup_alter_eq, Hx1|]. unfold put_mp, rt_list_init_head, set_queue.
  ksteps. exists h. split; [done|]. split; [|split; [done|split]].
  - match goal with |- kernel_inv ?kf =>
      eapply (kernel_inv_ext (k1 <| queues := <[QSuspend mp := []]> (queues k1) |> <| mqueues := mqueues k1 |>)) end; try done.
    by apply clear_waiting_inv.
  - unfold queue. ksimpl. by rewrite lookup_insert_eq.
  - ksimpl. by rewrite lookup_insert_eq.
Qed.
End MpInit.

(** [rt_mp_init] makes a pool in which every block is free and nobody
    waits: [size / (block_size + 4)] blocks, sizes rounded to words, each
    inside the memory given, in the order of their addresses. *)
Theorem mp_init_all_free k mp name start size block_size :
  pool_args k mp start size block_size →
  RT_ALIGN block_size RT_ALIGN_SIZE + 4 ≤ RT_ALIGN_DOWN size RT_ALIGN_SIZE →
  wp (rt_mp_init mp name start size block_size) k (λ r k', r = RT_EOK ∧ kernel_inv k' ∧
    queue k' (QSuspend mp) = [] ∧ ∃ x, pool_ok k' mp x (slots x) [] ∧ block_size ≤ mp_block_size x ∧
      ∀ a, a ∈ slots x → start ≤ a ∧ payload a + block_size ≤ start + size).
Proof.
  intros Ha Hfit. unfold rt_mp_init. ksteps. eapply wp_mono; [by apply mp_setup_spec|].
  intros ? k1 (h & -> & H1 & Hc1 & Hq1 & Hmp1). destruct (fresh_pool_facts _ _ _ _ _ Ha h) as (Hb & Hs & Ht & Htot & Hbs & Hu).
  set (x := fresh_pool h start size block_size) in *.
  pose proof (pa_start _ _ _ _ _ Ha) as Hst. pose proof (pa_size _ _ _ _ _ Ha) as [_ Hse].
  assert (1 ≤ block_total_count x) as H1t.
  { unfold x, fresh_pool in Hu |- *. simpl in *. rewrite Hu. apply Z.div_le_lower_bound; lia. }
  assert (mp_start_address x = start) as Es by done.
  assert (mp_start_address x + block_total_count x * (mp_block_size x + 4) ≤ 2 ^ 32) as Hend by lia.
  assert (∃ n, n = Z.to_nat (block_total_count x) ∧ Z.of_nat n = block_total_count x) as (n & En & Hn)
    by (eexists; split; [done|lia]).
  unfold link_all. rewrite <-En. ksteps.
  destruct (link_blocks_spec x ltac:(lia) Hb Hend Ht n 0 k1) as (w & E & Hw); [lia|].
  eapply wp_eq; [exact E|]. ksteps.
  assert (block_at x (u32 (block_total_count x - 1)) = slot x (n - 1)) as ->.
  { rewrite wrapU_small by lia. rewrite <-(block_at_slot x) by (done || lia). f_equal. lia. }
  eapply wp_eq; [apply put_slot; (done || lia)|]. ksteps. split; [done|].
  split; [by eapply kernel_inv_ext; [exact H1|..]|]. split; [exact Hq1|].
  exists x. split; [|split; [lia|]].
  - split; [exact Hmp1|apply Ha|]. ksimpl. unfold slots. rewrite <-En. split; try done.
    + replace (seq 0 n) with (seq 0 (S (n - 1))) by (f_equal; lia).
      change (mp_block_list x) with start.
      replace start with (slot x 0) by (unfold slot; rewrite Es; lia).
      apply linked_chain.
      * intros j Hj. rewrite lookup_insert_ne; [apply Hw; lia|]. intros ?%(slot_inj x Hb). lia.
      * simpl. by rewrite lookup_insert_eq.
    + by intros a ?%not_elem_of_nil.
    + rewrite app_nil_r. unfold slots. by rewrite <-En.
    + rewrite length_fmap, length_seq. change (block_free_count x) with (block_total_count x). lia.
  - intros a (i & -> & Hi)%list_elem_of_fmap. apply elem_of_seq in Hi. unfold payload, slot. rewrite Es. nia.
Qed.

(** a memory that is too small for one block makes [rt_mp_init] write the
    end of its list outside that memory. *)
Theorem mp_init_overrun k mp name start size block_size :
  pool_args k mp start size block_size →
  RT_ALIGN_DOWN size RT_ALIGN_SIZE < RT_ALIGN block_size RT_ALIGN_SIZE + 4 →
  RT_ALIGN block_size RT_ALIGN_SIZE + 4 ≤ start →
  rt_mp_init mp name start size block_size k = Err FBounds.
Proof.
  intros Ha Hfit Hlow. pose proof (mp_setup_spec k mp name start size block_size Ha) as Hs.
  unfold rt_mp_init, wp, mbind, M_bind in *. destruct (mp_setup _ _ _ _ _ k) as [[x k1]|]; [|done].
  destruct Hs as (h & -> & _). destruct (fresh_pool_facts _ _ _ _ _ Ha h) as (Hb & Hs & Ht & Htot & Hbs & Hu).
  set (x := fresh_pool h start size block_size) in *.
  change (RT_ALIGN block_size RT_ALIGN_SIZE) with (mp_block_size x) in Hfit, Hlow.
  change (RT_ALIGN_DOWN size RT_ALIGN_SIZE) with (mp_size x) in Hfit.
  assert (block_total_count x = 0) as E0 by nia.
  unfold link_all. rewrite E0. simpl. unfold mbind, M_bind. simpl.
  unfold put_pool_word. rewrite decide_False; [done|].
  unfold block_at. change (mp_start_address x) with start.
  pose proof (pa_size _ _ _ _ _ Ha) as [_ Hse]. change (u32 (0 - 1)) with (2 ^ 32 - 1).
  replace (u32 ((2 ^ 32 - 1) * (mp_block_size x + 4))) with (2 ^ 32 - (mp_block_size x + 4)).
  - unfold wrapU. rewrite <-(Z.mod_unique_pos (start + (2 ^ 32 - (mp_block_size x + 4))) (2 ^ 32) 1
      (start - (mp_block_size x + 4))) by lia. lia.
  - apply (Z.mod_unique_pos _ (2 ^ 32) (mp_block_size x + 3)); lia.
Qed.

(** ** Concrete instances *)
Definition O_mp : addr := 0x20001500.
Definition P_mem : addr := 0x20003000.
(** Four blocks of eight bytes; [first] is the first free one. *)
Definition a_pool (first free : Z) : rt_mempool :=
  mkMempool (an_object RT_Object_Class_MemPool 0) P_mem 48 8 first 4 free.
Definition mp_scene (q : qid) (x : rt_mempool) (w : gmap addr Z) : kernel :=
  (scene_with q ∅ ∅ ∅ ∅ ∅) <| mempools := {[O_mp := x]} |> <| pool_words := w |>.

(** Blocks 1 and 3 are free, blocks 0 and 2 in use. *)
Definition half_words : gmap addr Z :=
  list_to_map [(P_mem, O_mp); (P_mem + 12, P_mem + 36); (P_mem + 24, O_mp); (P_mem + 36, 0)].
Definition half_scene : kernel := mp_scene (QSuspend 1) (a_pool (P_mem + 12) 2) half_words.
Lemma half_ok : pool_ok half_scene O_mp (a_pool (P_mem + 12) 2) [P_mem + 12; P_mem + 36] [P_mem + 24; P_mem].
Proof.
  split; [done|done|]. split; try done.
  - split; [done|]. eexists. split; [done|]. split; [done|]. by eexists.
  - intros a. rewrite !elem_of_cons. by intros [->|[->|?%not_elem_of_nil]].
  - apply (bool_decide_eq_true_1 _). by vm_compute.
Qed.
Lemma mp_run_refines_witness :
  wp (mp_run O_mp [PFree 1; PAlloc; PAlloc; PAlloc; PAlloc] (payload <$> [P_mem + 24; P_mem])) half_scene
    (λ '(rs, held) k', kernel_inv k' ∧ ∃ x' fs' us',
      pool_ok k' O_mp x' fs' us' ∧ NoDup (fs' ++ us') ∧ held = payload <$> us' ∧
      stack_run [P_mem + 12; P_mem + 36] [P_mem + 24; P_mem] [PFree 1; PAlloc; PAlloc; PAlloc; PAlloc] = (fs', us', rs)).
Proof.
  apply (mp_run_refines O_mp [PFree 1; PAlloc; PAlloc; PAlloc; PAlloc] half_scene (a_pool (P_mem + 12) 2)
    (a_thread RT_THREAD_RUNNING 10 RT_EOK)).
  - by_check.
  - done.
  - done.
  - apply half_ok.
  - done.
Defined.

(** No block is free, and a thread waits. *)
Definition full_words : gmap addr Z :=
  list_to_map [(P_mem, O_mp); (P_mem + 12, O_mp); (P_mem + 24, O_mp); (P_mem + 36, O_mp)].
Definition full_scene : kernel := mp_scene (QSuspend O_mp) (a_pool 0 0) full_words.
Lemma full_ok : pool_ok full_scene O_mp (a_pool 0 0) [] ([P_mem; P_mem + 12] ++ P_mem + 24 :: [P_mem + 36]).
Proof.
  split; [done|done|]. split; try done.
  intros a. simpl. rewrite !elem_of_cons. by intros [->|[->|[->|[->|?%not_elem_of_nil]]]].
Qed.
Lemma mp_waiter_lifo_witness :
  queue full_scene (QSuspend O_mp) = [T_wait] ∧
  wp (c ← rt_mp_alloc O_mp 100;
      rt_mp_free (P_mem + 24 + 4);;
      match c with
      | Park w => rt_mp_alloc_resume O_mp w
      | Return p => mret (Return p)
      end) full_scene (λ r k', r = Return (P_mem + 24 + 4) ∧ kernel_inv k' ∧
        queue k' (QSuspend O_mp) = queue full_scene (QSuspend O_mp) ∧
        ∃ x', pool_ok k' O_mp x' [] (P_mem + 24 :: [P_mem; P_mem + 12] ++ [P_mem + 36])).
Proof.
  split; [done|]. eapply (mp_waiter_lifo full_scene O_mp (a_pool 0 0) _ _ _ (a_thread RT_THREAD_RUNNING 10 RT_EOK) 100).
  - by_check.
  - done.
  - done.
  - apply full_ok.
  - done.
  - done.
Defined.

Lemma demo_args size block_size :
  0 < size ≤ 1000 → 0 < block_size ≤ 1000 → pool_args full_scene O_mp P_mem size block_size.
Proof.
  intros. split; try done.
  - by_check.
  - by apply (running_ok _ (a_thread RT_THREAD_RUNNING 10 RT_EOK)).
  - by intros ?%not_elem_of_nil.
  - unfold P_mem. lia.
  - lia.
Qed.
Lemma mp_init_all_free_witness :
  wp (rt_mp_init O_mp [112; 0] P_mem 50 6) full_scene (λ r k', r = RT_EOK ∧ kernel_inv k' ∧
    queue k' (QSuspend O_mp) = [] ∧ ∃ x, pool_ok k' O_mp x (slots x) [] ∧ 6 ≤ mp_block_size x ∧
      ∀ a, a ∈ slots x → P_mem ≤ a ∧ payload a + 6 ≤ P_mem + 50).
Proof. apply mp_init_all_free; [apply demo_args; lia|by vm_compute]. Defined.
Lemma mp_init_overrun_witness : rt_mp_init O_mp [112; 0] P_mem 8 6 full_scene = Err FBounds.
Proof. apply mp_init_overrun; [apply demo_args; lia|by vm_compute|by vm_compute]. Defined.
