(* ===== verification/Device.v ===== *)
(** * Devices ([src/device.c])

    The layer between applications and drivers: it finds a device by name,
    counts its users, initialises it on first use and forwards reads, writes
    and control commands to the functions the driver put in the device. *)
From S2P Require Import Prelude Kernel Scheduler Object Timer Thread Ipc Decide Scenario Scheduling Registry MemPool.

Definition RT_DEVICE_FLAG_STANDALONE : Z := 0x008.
Definition RT_DEVICE_FLAG_ACTIVATED : Z := 0x010.
Definition RT_DEVICE_FLAG_SUSPENDED : Z := 0x020.
Definition RT_DEVICE_FLAG_STREAM : Z := 0x040.
Definition RT_DEVICE_FLAG_RDWR : Z := 0x003.
Definition RT_DEVICE_FLAG_INT_RX : Z := 0x100.
Definition RT_DEVICE_FLAG_DMA_RX : Z := 0x200.
Definition RT_DEVICE_FLAG_INT_TX : Z := 0x400.
Definition RT_DEVICE_FLAG_DMA_TX : Z := 0x800.
Definition RT_DEVICE_OFLAG_CLOSE : Z := 0x000.
Definition RT_DEVICE_OFLAG_OPEN : Z := 0x008.
Definition RT_DEVICE_OFLAG_MASK : Z := 0xf0f.

Abbreviation has_flag f m := (Z.land f m ≠ 0) (only parsing).

(** [dev->flag &= ~m] on the 16-bit flags. *)
Definition clear_flag (f m : Z) : Z := Z.land f (notU 16 m).

Definition get_dev (dev : addr) : M kernel rt_device :=
  d ← gets (λ k, devices k !! dev); of_option FBadPointer d.
Definition put_dev (dev : addr) (d : rt_device) : M kernel unit :=
  modify (λ k, k <| devices := <[dev := d]> (devices k) |>).
Definition upd_dev (dev : addr) (f : rt_device → rt_device) : M kernel unit :=
  d ← get_dev dev; put_dev dev (f d).

(** ** Registration: no driver function is called *)
Definition rt_device_find (name : option (list Z)) : M kernel (option ref) :=
  rt_object_find name RT_Object_Class_Device.

Definition rt_device_register (dev : addr) (name : list Z) (flags : Z) : M kernel Z :=
  if decide (dev = RT_NULL) then mret (- RT_ERROR)
  else
    found ← rt_device_find (Some name);
    if decide (found ≠ None) then mret (- RT_ERROR)
    else
      rt_object_init (Obj dev) RT_Object_Class_Device name;;
      upd_dev dev (λ d, d <| dev_flag := flags |> <| ref_count := 0 |> <| open_flag := 0 |>);;
      mret RT_EOK.

Definition assert_device (dev : addr) : M kernel unit :=
  RT_ASSERT (dev ≠ RT_NULL);;
  d ← get_dev dev;
  RT_ASSERT (rt_object_get_type (dev_parent d) = RT_Object_Class_Device).

Definition rt_device_unregister (dev : addr) : M kernel Z :=
  assert_device dev;;
  d ← get_dev dev;
  RT_ASSERT (rt_object_is_systemobject (dev_parent d) = true);;
  rt_object_detach RT_Object_Class_Device (Obj dev);;
  mret RT_EOK.

Definition rt_device_set_rx_indicate (dev : addr) (rx_ind : Z) : M kernel Z :=
  assert_device dev;;
  upd_dev dev (λ d, d <| rx_indicate := rx_ind |>);;
  mret RT_EOK.
Definition rt_device_set_tx_complete (dev : addr) (tx_done : Z) : M kernel Z :=
  assert_device dev;;
  upd_dev dev (λ d, d <| tx_complete := tx_done |>);;
  mret RT_EOK.

(** ** The functions of a driver

    [S] is the state the driver works on, which has the kernel as a part;
    [Arg] is what the pointer argument of [control] points at.  A read returns
    the bytes it stored in the caller's buffer, as many as its count. *)
Record device_methods (S Arg : Type) := mkMethods {
  m_init : option (M S Z);
  m_open : option (Z → M S Z);
  m_close : option (M S Z);
  m_read : option (Z → Z → M S (list Z));
  m_write : option (Z → list Z → M S Z);
  m_control : option (Z → Arg → M S Z)
}.
Arguments mkMethods {S Arg}.
Arguments m_init {S Arg} d.
Arguments m_open {S Arg} d.
Arguments m_close {S Arg} d.
Arguments m_read {S Arg} d.
Arguments m_write {S Arg} d.
Arguments m_control {S Arg} d.

Section Operations.
Context {S Arg : Type} `{Part S kernel} (methods : addr → device_methods S Arg).

Definition rt_device_init (dev : addr) : M S Z :=
  RT_ASSERT (dev ≠ RT_NULL);;
  match m_init (methods dev) with
  | Some init =>
      d ← zoom (get_dev dev);
      if decide (has_flag (dev_flag d) RT_DEVICE_FLAG_ACTIVATED) then mret RT_EOK
      else
        result ← init;
        (if decide (result ≠ RT_EOK) then mret tt
         else zoom (upd_dev dev (λ d, d <| dev_flag := Z.lor (dev_flag d) RT_DEVICE_FLAG_ACTIVATED |>)));;
        mret result
  | None => mret RT_EOK
  end.

(** The initialisation [rt_device_open] begins with: the error to return, if
    any. *)
Definition open_activate (dev : addr) : M S (option Z) :=
  d ← zoom (get_dev dev);
  if decide (has_flag (dev_flag d) RT_DEVICE_FLAG_ACTIVATED) then mret None
  else
    result ← match m_init (methods dev) with Some init => init | None => mret RT_EOK end;
    if decide (result ≠ RT_EOK) then mret (Some result)
    else
      zoom (upd_dev dev (λ d, d <| dev_flag := Z.lor (dev_flag d) RT_DEVICE_FLAG_ACTIVATED |>));;
      mret None.
Definition rt_device_open (dev : addr) (oflag : Z) : M S Z :=
  zoom (assert_device dev);;
  failed ← open_activate dev;
  match failed with
  | Some result => mret result
  | None =>
      d ← zoom (get_dev dev);
      if decide (has_flag (dev_flag d) RT_DEVICE_FLAG_STANDALONE ∧
                 has_flag (open_flag d) RT_DEVICE_OFLAG_OPEN) then mret (- RT_EBUSY)
      else
        result ← match m_open (methods dev) with
                 | Some open => open oflag
                 | None =>
                     zoom (upd_dev dev (λ d, d <| open_flag := Z.land oflag RT_DEVICE_OFLAG_MASK |>));;
                     mret RT_EOK
                 end;
        (if decide (result = RT_EOK ∨ result = - RT_ENOSYS) then
           zoom (upd_dev dev (λ d, d <| open_flag := Z.lor (open_flag d) RT_DEVICE_OFLAG_OPEN |>
                                     <| ref_count := u8 (ref_count d + 1) |>));;
           d ← zoom (get_dev dev);
           RT_ASSERT (ref_count d ≠ 0)
         else mret tt);;
        mret result
  end.

Definition rt_device_close (dev : addr) : M S Z :=
  zoom (assert_device dev);;
  d ← zoom (get_dev dev);
  if decide (ref_count d = 0) then mret (- RT_ERROR)
  else
    zoom (upd_dev dev (λ d, d <| ref_count := u8 (ref_count d - 1) |>));;
    d ← zoom (get_dev dev);
    if decide (ref_count d ≠ 0) then mret RT_EOK
    else
      result ← match m_close (methods dev) with Some close => close | None => mret RT_EOK end;
      (if decide (result = RT_EOK ∨ result = - RT_ENOSYS) then
         zoom (upd_dev dev (λ d, d <| open_flag := RT_DEVICE_OFLAG_CLOSE |>))
       else mret tt);;
      mret result.

Definition rt_device_read (dev : addr) (pos size : Z) : M S (list Z) :=
  zoom (assert_device dev);;
  d ← zoom (get_dev dev);
  if decide (ref_count d = 0) then zoom (rt_set_errno (- RT_ERROR));; mret []
  else
    match m_read (methods dev) with
    | Some read => read pos size
    | None => zoom (rt_set_errno (- RT_ENOSYS));; mret []
    end.
Definition rt_device_write (dev : addr) (pos : Z) (buffer : list Z) : M S Z :=
  zoom (assert_device dev);;
  d ← zoom (get_dev dev);
  if decide (ref_count d = 0) then zoom (rt_set_errno (- RT_ERROR));; mret 0
  else
    match m_write (methods dev) with
    | Some write => write pos buffer
    | None => zoom (rt_set_errno (- RT_ENOSYS));; mret 0
    end.
Definition rt_device_control (dev cmd : Z) (arg : Arg) : M S Z :=
  zoom (assert_device dev);;
  match m_control (methods dev) with
  | Some control => control cmd arg
  | None => mret (- RT_ENOSYS)
  end.
End Operations.
