(* ===== verification/Pin.v ===== *)
(** * Pins ([components/drivers/misc/pin.c])

    The pin device and the functions by which programs drive single pins.  The
    board driver behind it is the class [PinOps]; [PinSpec] is what a program may
    expect of an output pin. *)
From S2P Require Import Prelude Kernel Scheduler Object Timer Thread Device.

Definition PIN_LOW : Z := 0.
Definition PIN_HIGH : Z := 1.
Definition PIN_MODE_OUTPUT : Z := 0.
Definition PIN_MODE_INPUT_PULLUP : Z := 2.

(** [struct rt_pin_ops]; the functions that may be null are options.  The device
    pointer, which is always that of [_hw_pin], is left out. *)
Class PinOps (D : Type) := {
  pin_mode : Z → Z → M D unit;
  pin_write : Z → Z → M D unit;
  pin_read : Z → M D Z;
  pin_attach_irq : option (Z → Z → Z → Z → M D Z);
  pin_detach_irq : option (Z → M D Z);
  pin_irq_enable : option (Z → Z → M D Z);
  pin_get : option (list Z → M D Z)
}.

(** [_hw_pin]: whether its [ops] are set, and the hardware. *)
Record pins (D : Type) := mkPins { hw_ops : bool; pin_hw : D }.
Arguments mkPins {D}.
Arguments hw_ops {D} p.
Arguments pin_hw {D} p.
#[global] Instance pins_hw D : Part (pins D) D := MkPart _ _ pin_hw (λ d p, mkPins (hw_ops p) d).

(** [struct rt_device_pin_status] has two [rt_uint16_t], and so has
    [struct rt_device_pin_mode]. *)
Definition SIZEOF_STATUS : Z := 4.
(** 'P' *)
Definition char_P : Z := 80.

Section Pin.
Context {D : Type} `{!PinOps D}.

(** [_hw_pin.ops->f]; [pin_op] follows the pointer, [checked_op] asserts that it
    is set before. *)
Definition pin_op {A} (f : M D A) : M (pins D) A :=
  p ← gets id;
  if hw_ops p then zoom f else fail FBadPointer.
Definition checked_op {A} (f : M D A) : M (pins D) A :=
  p ← gets id;
  RT_ASSERT (hw_ops p = true);;
  pin_op f.
Definition optional_op (f : option (M D Z)) : M (pins D) Z :=
  p ← gets id;
  RT_ASSERT (hw_ops p = true);;
  match f with Some f => pin_op f | None => mret RT_ENOSYS end.

(** *** The methods of the device

    The buffer is null or the pin and status of a [rt_device_pin_status]; reading
    gives the new status. *)
Definition _pin_read (buffer : option (Z * Z)) (size : Z) : M (pins D) (Z * option Z) :=
  match buffer with
  | Some (pin, _) =>
      if decide (size ≠ SIZEOF_STATUS) then mret (0, None)
      else status ← pin_op (pin_read (u16 pin)); mret (size, Some (u16 status))
  | None => mret (0, None)
  end.
Definition _pin_write (buffer : option (Z * Z)) (size : Z) : M (pins D) Z :=
  match buffer with
  | Some (pin, status) =>
      if decide (size ≠ SIZEOF_STATUS) then mret 0
      else pin_op (pin_write (u16 pin) (u16 status));; mret size
  | None => mret 0
  end.
Definition _pin_control (cmd : Z) (args : option (Z * Z)) : M (pins D) Z :=
  match args with
  | Some (pin, mode) => pin_op (pin_mode (u16 pin) (u16 mode));; mret 0
  | None => mret (- RT_ERROR)
  end.

(** *** The functions for programs *)
Definition rt_pin_attach_irq (pin mode hdr args : Z) : M (pins D) Z :=
  optional_op ((λ f, f pin mode hdr args) <$> pin_attach_irq).
Definition rt_pin_detach_irq (pin : Z) : M (pins D) Z := optional_op ((λ f, f pin) <$> pin_detach_irq).
Definition rt_pin_irq_enable (pin enabled : Z) : M (pins D) Z := optional_op ((λ f, f pin enabled) <$> pin_irq_enable).
Definition rt_pin_mode (pin mode : Z) : M (pins D) unit := checked_op (pin_mode pin mode).
Definition rt_pin_write (pin value : Z) : M (pins D) unit := checked_op (pin_write pin value).
Definition rt_pin_read (pin : Z) : M (pins D) Z := checked_op (pin_read pin).
Definition rt_pin_get (name : list Z) : M (pins D) Z :=
  p ← gets id;
  RT_ASSERT (hw_ops p = true);;
  c ← lift_outcome (array_get name 0);
  RT_ASSERT (c = char_P);;
  match pin_get with Some f => pin_op (f name) | None => mret (- RT_ENOSYS) end.

(** [hw_pin] is the address of [_hw_pin]; the result of the registration is
    dropped by the code.  The methods of the device are given by the model of the
    program, and its type and user data are not part of the records. *)
Definition rt_device_pin_register {S} `{Part S kernel, Part S (pins D)} (hw_pin : addr) (name : list Z) : M S Z :=
  zoom (upd_dev hw_pin (λ d, d <| rx_indicate := RT_NULL |> <| tx_complete := RT_NULL |>));;
  zoom (modify (λ p : pins D, mkPins true (pin_hw p)));;
  zoom (rt_device_register hw_pin name RT_DEVICE_FLAG_RDWR);;
  mret 0.
End Pin.

(** ** What programs rely on: the level of an output pin is the one that was
    written last *)
Class PinSpec (D : Type) `{!PinOps D} := {
  level : D → Z → Z;
  pin_write_spec : ∀ d pin v, ∃ d', pin_write pin v d = Ok (tt, d') ∧ level d' pin = v ∧ ∀ q, q ≠ pin → level d' q = level d q
}.

Section Facts.
Context {D : Type} `{!PinOps D, !PinSpec D}.

Lemma rt_pin_write_run d pin v : ∃ d', rt_pin_write pin v (mkPins true d) = Ok (tt, mkPins true d') ∧
  level d' pin = v ∧ ∀ q, q ≠ pin → level d' q = level d q.
Proof.
  destruct (pin_write_spec d pin v) as (d' & E & H). exists d'. split; [|exact H].
  unfold rt_pin_write, checked_op, pin_op. erewrite bind_ok by reflexivity. unfold id. cbn [hw_ops].
  erewrite bind_ok by reflexivity. erewrite bind_ok by reflexivity. unfold id. cbn [hw_ops]. unfold zoom. simpl. by rewrite E.
Qed.
(** Without the driver a program stops at the assertion. *)
Lemma rt_pin_write_unregistered d pin v : rt_pin_write pin v (mkPins false d) = Err FAssert.
Proof. done. Qed.
End Facts.

(** Pins that keep what is written to them. *)
#[global] Instance latch_ops : PinOps (gmap Z Z) := {
  pin_mode := λ _ _, mret tt;
  pin_write := λ pin v, modify (λ d, <[pin := v]> d);
  pin_read := λ pin, gets (λ d, default 0 (d !! pin));
  pin_attach_irq := None; pin_detach_irq := None; pin_irq_enable := None; pin_get := None
}.
#[global] Instance latch_spec : PinSpec (gmap Z Z).
Proof.
  exists (λ d pin, default 0 (d !! pin)). intros d pin v. eexists. split; [reflexivity|]. split.
  - by rewrite lookup_insert_eq.
  - intros q Hq. by rewrite lookup_insert_ne.
Defined.
