(* ===== verification/Dynamic.v ===== *)
(** * Objects on the heap

    The functions that create and delete kernel objects: [rt_object_allocate]
    and [rt_object_delete] ([src/object.c]), the creating and deleting halves
    of [src/ipc.c], [src/mempool.c], [src/timer.c] and [src/device.c],
    [rt_thread_create] ([src/thread.c]) and the idle thread's clean-up
    ([src/idle.c]).  An object that is created enters the map of its class with
    all fields zero, as [rt_memset] leaves it, and one that is deleted leaves it. *)
From S2P Require Import Prelude Kernel Scheduler Object Timer Thread Ipc Decide Scenario Scheduling Registry Semaphore Mutex Event Mailbox MessageQueue Heap Allocator HeapLock MemPool Device.

(** ** The structs *)

(** [rt_object_container[].object_size]: [sizeof] of the struct of each class
    on this processor (pointers and enumerations of a device of 4 and 1
    bytes). *)
Definition object_size (type : Z) : Z :=
  if decide (type = RT_Object_Class_Thread) then 128
  else if decide (type = RT_Object_Class_Semaphore) then 32
  else if decide (type = RT_Object_Class_Mutex) then 36
  else if decide (type = RT_Object_Class_Event) then 32
  else if decide (type = RT_Object_Class_MailBox) then 48
  else if decide (type = RT_Object_Class_MessageQueue) then 60
  else if decide (type = RT_Object_Class_MemPool) then 52
  else if decide (type = RT_Object_Class_Device) then 64
  else if decide (type = RT_Object_Class_Timer) then 44
  else 0.

(** The structs with every byte zero. *)
Definition zero_object : rt_object := mkObject (replicate 8 0) 0 0.
Definition zero_timer : rt_timer := mkTimer zero_object (Fn_user 0) 0 0 0.
Definition zero_thread : rt_thread := mkThread zero_object 0 0 0 0 0 0 0 0 0 0 0 0 0 0 0 0 0.
Definition zero_device : rt_device := mkDevice zero_object 0 0 0 0 0.

(** [rt_memset(object, 0x0, information->object_size)] on new memory. *)
Definition clear_object (type : Z) (a : addr) (k : kernel) : kernel :=
  if decide (type = RT_Object_Class_Thread) then
    k <| threads := <[a := zero_thread]> (threads k) |>
      <| timers := <[ThreadTimer a := zero_timer]> (timers k) |>
  else if decide (type = RT_Object_Class_Timer) then
    k <| timers := <[Obj a := zero_timer]> (timers k) |>
  else if decide (type = RT_Object_Class_Semaphore) then
    k <| semaphores := <[a := mkSemaphore zero_object 0]> (semaphores k) |>
  else if decide (type = RT_Object_Class_Mutex) then
    k <| mutexes := <[a := mkMutex zero_object 0 0 0 0]> (mutexes k) |>
  else if decide (type = RT_Object_Class_Event) then
    k <| events := <[a := mkEvent zero_object 0]> (events k) |>
  else if decide (type = RT_Object_Class_MailBox) then
    k <| mailboxes := <[a := mkMailbox zero_object [] 0 0 0 0]> (mailboxes k) |>
  else if decide (type = RT_Object_Class_MessageQueue) then
    k <| mqueues := <[a := mkMq zero_object [] 0 0 0 None None None]> (mqueues k) |>
  else if decide (type = RT_Object_Class_MemPool) then
    k <| mempools := <[a := mkMempool zero_object 0 0 0 0 0 0]> (mempools k) |>
  else k <| devices := <[a := zero_device]> (devices k) |>.

(** The memory at [a] is an object no more. *)
Definition drop_object (type : Z) (a : addr) (k : kernel) : kernel :=
  let k := k <| queues := delete (QSender a) (delete (QSuspend a) (queues k)) |> in
  if decide (type = RT_Object_Class_Thread) then
    k <| threads := delete a (threads k) |> <| timers := delete (ThreadTimer a) (timers k) |>
  else if decide (type = RT_Object_Class_Timer) then k <| timers := delete (Obj a) (timers k) |>
  else if decide (type = RT_Object_Class_Semaphore) then k <| semaphores := delete a (semaphores k) |>
  else if decide (type = RT_Object_Class_Mutex) then k <| mutexes := delete a (mutexes k) |>
  else if decide (type = RT_Object_Class_Event) then k <| events := delete a (events k) |>
  else if decide (type = RT_Object_Class_MailBox) then k <| mailboxes := delete a (mailboxes k) |>
  else if decide (type = RT_Object_Class_MessageQueue) then k <| mqueues := delete a (mqueues k) |>
  else if decide (type = RT_Object_Class_MemPool) then k <| mempools := delete a (mempools k) |>
  else k <| devices := delete a (devices k) |>.

(** The [msg_pool] pointers of the mailboxes and queues that were created;
    what they point to is in the objects' records. *)
Definition pool_table : Type := gmap addr addr.

Section Objects.
Context {S : Type} `{!AllocOps S, Part S kernel, Part S pool_table}.
(** What the memory of a new block holds before it is written: a word, or the
    bytes of a message slot. *)
Context (stale_word : addr → Z) (stale_bytes : addr → list Z).

(** ** [object.c] *)
Definition rt_object_allocate (type : Z) (name : list Z) : M S addr :=
  zoom RT_DEBUG_NOT_IN_INTERRUPT;;
  RT_ASSERT (rt_object_get_information type ≠ None);;
  object ← alloc (object_size type);
  if decide (object = RT_NULL) then mret RT_NULL
  else
    zoom (modify (clear_object type object));;
    zoom (upd_header type (Obj object) (λ o, o <| obj_type := u8 type |>));;
    zoom (upd_header type (Obj object) (λ o, o <| obj_flag := 0 |>));;
    zoom (upd_header type (Obj object) (λ o, o <| obj_name := object_name name |>));;
    temp ← zoom rt_hw_interrupt_disable;
    zoom (modify (λ k, k <| object_lists := <[type := Obj object :: object_list k type]> (object_lists k) |>));;
    zoom (rt_hw_interrupt_enable temp);;
    mret object.

(** [type] names the class whose struct holds the object. *)
Definition rt_object_delete (type : Z) (object : addr) : M S unit :=
  RT_ASSERT (object ≠ RT_NULL);;
  o ← zoom (gets (λ k, object_header k type (Obj object)));
  o ← of_option FBadPointer o;
  RT_ASSERT (Z.land (obj_type o) RT_Object_Class_Static = 0);;
  zoom (upd_header type (Obj object) (λ o, o <| obj_type := RT_Object_Class_Null |>));;
  temp ← zoom rt_hw_interrupt_disable;
  zoom (modify (λ k, k <| object_lists := remove_from_objects (Obj object) (object_lists k) |>));;
  zoom (rt_hw_interrupt_enable temp);;
  zoom (modify (drop_object type object));;
  zoom (modify (delete object : pool_table → pool_table));;
  release object.

(** [rt_ipc_object_init(&(ipc->parent))] *)
Definition rt_ipc_object_init (ipc : addr) : M kernel Z :=
  rt_list_init_head (QSuspend ipc);; mret RT_EOK.

Definition set_obj_flag (flag : Z) (o : rt_object) : rt_object := o <| obj_flag := u8 flag |>.

(** ** Semaphores, mutexes and events *)
Definition rt_sem_create (name : list Z) (value flag : Z) : M S addr :=
  zoom RT_DEBUG_NOT_IN_INTERRUPT;;
  RT_ASSERT (value < 65536);;
  sem ← rt_object_allocate RT_Object_Class_Semaphore name;
  if decide (sem = RT_NULL) then mret sem
  else
    zoom (rt_ipc_object_init sem);;
    x ← zoom (get_sem sem);
    zoom (put_sem sem (x <| sem_value := u16 value |>));;
    zoom (upd_header RT_Object_Class_Semaphore (Obj sem) (set_obj_flag flag));;
    mret sem.
Definition rt_sem_delete (sem : addr) : M S Z :=
  zoom RT_DEBUG_NOT_IN_INTERRUPT;;
  zoom (assert_sem sem);;
  x ← zoom (get_sem sem);
  RT_ASSERT (rt_object_is_systemobject (sem_parent x) = false);;
  zoom (rt_ipc_list_resume_all (QSuspend sem));;
  rt_object_delete RT_Object_Class_Semaphore sem;;
  mret RT_EOK.

Definition rt_mutex_create (name : list Z) (flag : Z) : M S addr :=
  zoom RT_DEBUG_NOT_IN_INTERRUPT;;
  mutex ← rt_object_allocate RT_Object_Class_Mutex name;
  if decide (mutex = RT_NULL) then mret mutex
  else
    zoom (rt_ipc_object_init mutex);;
    x ← zoom (get_mutex mutex);
    zoom (put_mutex mutex (mkMutex (mutex_parent x) 1 255 0 RT_NULL));;
    zoom (upd_header RT_Object_Class_Mutex (Obj mutex) (set_obj_flag flag));;
    mret mutex.
Definition rt_mutex_delete (mutex : addr) : M S Z :=
  zoom RT_DEBUG_NOT_IN_INTERRUPT;;
  zoom (assert_mutex mutex);;
  x ← zoom (get_mutex mutex);
  RT_ASSERT (rt_object_is_systemobject (mutex_parent x) = false);;
  zoom (rt_ipc_list_resume_all (QSuspend mutex));;
  rt_object_delete RT_Object_Class_Mutex mutex;;
  mret RT_EOK.

Definition rt_event_create (name : list Z) (flag : Z) : M S addr :=
  zoom RT_DEBUG_NOT_IN_INTERRUPT;;
  event ← rt_object_allocate RT_Object_Class_Event name;
  if decide (event = RT_NULL) then mret event
  else
    zoom (upd_header RT_Object_Class_Event (Obj event) (set_obj_flag flag));;
    zoom (rt_ipc_object_init event);;
    x ← zoom (get_event event);
    zoom (put_event event (x <| evset := 0 |>));;
    mret event.
Definition rt_event_delete (event : addr) : M S Z :=
  zoom (assert_event event);;
  x ← zoom (get_event event);
  RT_ASSERT (rt_object_is_systemobject (event_parent x) = false);;
  zoom RT_DEBUG_NOT_IN_INTERRUPT;;
  zoom (rt_ipc_list_resume_all (QSuspend event));;
  rt_object_delete RT_Object_Class_Event event;;
  mret RT_EOK.

(** ** Mailboxes and message queues *)
Definition set_pool (a p : addr) : M S unit :=
  zoom (modify (λ ps : pool_table, <[a := p]> ps)).
(** [mb->msg_pool], [mq->msg_pool] *)
Definition get_pool (a : addr) : M S addr :=
  p ← zoom (gets (λ ps : pool_table, ps !! a)); of_option FBadPointer p.

(** The words at [p]. *)
Definition new_words (p n : Z) : list Z := (λ i, stale_word (p + 4 * Z.of_nat i)) <$> seq 0 (Z.to_nat n).

Definition rt_mb_create (name : list Z) (size flag : Z) : M S addr :=
  zoom RT_DEBUG_NOT_IN_INTERRUPT;;
  mb ← rt_object_allocate RT_Object_Class_MailBox name;
  if decide (mb = RT_NULL) then mret mb
  else
    zoom (upd_header RT_Object_Class_MailBox (Obj mb) (set_obj_flag flag));;
    zoom (rt_ipc_object_init mb);;
    x ← zoom (get_mb mb);
    zoom (put_mb mb (x <| mb_size := u16 size |>));;
    msg_pool ← alloc (u16 size * 4);
    set_pool mb msg_pool;;
    if decide (msg_pool = RT_NULL) then
      rt_object_delete RT_Object_Class_MailBox mb;; mret RT_NULL
    else
      x ← zoom (get_mb mb);
      zoom (put_mb mb (mkMailbox (mb_parent x) (new_words msg_pool (u16 size)) (mb_size x) 0 0 0));;
      zoom (rt_list_init_head (QSender mb));;
      mret mb.
Definition rt_mb_delete (mb : addr) : M S Z :=
  zoom RT_DEBUG_NOT_IN_INTERRUPT;;
  zoom (assert_mb mb);;
  x ← zoom (get_mb mb);
  RT_ASSERT (rt_object_is_systemobject (mb_parent x) = false);;
  zoom (rt_ipc_list_resume_all (QSuspend mb));;
  zoom (rt_ipc_list_resume_all (QSender mb));;
  msg_pool ← get_pool mb;
  release msg_pool;;
  rt_object_delete RT_Object_Class_MailBox mb;;
  mret RT_EOK.

(** The slots at [p], not linked yet; each has [msg_size] bytes after its
    header. *)
Definition new_slots (p msg_size n : Z) : list rt_mq_message :=
  (λ i, mkMessage None (take (Z.to_nat msg_size)
          (stale_bytes (p + (msg_size + 4) * Z.of_nat i + 4) ++ replicate (Z.to_nat msg_size) 0)))
    <$> seq 0 (Z.to_nat n).

Definition rt_mq_create (name : list Z) (msg_size max_msgs flag : Z) : M S addr :=
  zoom RT_DEBUG_NOT_IN_INTERRUPT;;
  mq ← rt_object_allocate RT_Object_Class_MessageQueue name;
  if decide (mq = RT_NULL) then mret mq
  else
    zoom (upd_header RT_Object_Class_MessageQueue (Obj mq) (set_obj_flag flag));;
    zoom (rt_ipc_object_init mq);;
    let size := u16 (RT_ALIGN msg_size RT_ALIGN_SIZE) in
    let max := u16 max_msgs in
    x ← zoom (get_mq mq);
    zoom (put_mq mq (x <| mq_msg_size := size |> <| mq_max_msgs := max |>));;
    msg_pool ← alloc (u32 ((size + 4) * max));
    set_pool mq msg_pool;;
    if decide (msg_pool = RT_NULL) then
      rt_object_delete RT_Object_Class_MessageQueue mq;; mret RT_NULL
    else
      x ← zoom (get_mq mq);
      let x := mkMq (mq_parent x) (new_slots msg_pool size max) size max (mq_entry x) None None None in
      x ← lift_outcome (push_free (Z.to_nat max) 0 x);
      zoom (put_mq mq (x <| mq_entry := 0 |>));;
      zoom (rt_list_init_head (QSender mq));;
      mret mq.
Definition rt_mq_delete (mq : addr) : M S Z :=
  zoom RT_DEBUG_NOT_IN_INTERRUPT;;
  zoom (assert_mq mq);;
  x ← zoom (get_mq mq);
  RT_ASSERT (rt_object_is_systemobject (mq_parent x) = false);;
  zoom (rt_ipc_list_resume_all (QSuspend mq));;
  zoom (rt_ipc_list_resume_all (QSender mq));;
  msg_pool ← get_pool mq;
  release msg_pool;;
  rt_object_delete RT_Object_Class_MessageQueue mq;;
  mret RT_EOK.

(** ** Memory pools ([mempool.c]) *)
Definition rt_mp_create (name : list Z) (block_count block_size : Z) : M S addr :=
  zoom RT_DEBUG_NOT_IN_INTERRUPT;;
  RT_ASSERT (0 < block_count ∧ 0 < block_size);;
  mp ← rt_object_allocate RT_Object_Class_MemPool name;
  if decide (mp = RT_NULL) then mret RT_NULL
  else
    let bs := u32 (RT_ALIGN block_size RT_ALIGN_SIZE) in
    let size := u32 (u32 (bs + 4) * block_count) in
    x ← zoom (get_mp mp);
    zoom (put_mp mp (x <| mp_block_size := bs |> <| mp_size := size |>));;
    start ← alloc size;
    x ← zoom (get_mp mp);
    zoom (put_mp mp (x <| mp_start_address := start |>));;
    if decide (start = RT_NULL) then
      rt_object_delete RT_Object_Class_MemPool mp;; mret RT_NULL
    else
      x ← zoom (get_mp mp);
      let x := x <| block_total_count := block_count |> <| block_free_count := block_count |> in
      zoom (put_mp mp x);;
      zoom (rt_list_init_head (QSuspend mp));;
      zoom (link_all x);;
      zoom (put_mp mp (x <| mp_block_list := start |>));;
      mret mp.
(** The words of the blocks go with the memory they are in. *)
Definition drop_words (start size : Z) (k : kernel) : kernel :=
  k <| pool_words := filter (λ w, ¬ (start ≤ w.1 < start + size)) (pool_words k) |>.
Definition rt_mp_delete (mp : addr) : M S Z :=
  zoom RT_DEBUG_NOT_IN_INTERRUPT;;
  RT_ASSERT (mp ≠ RT_NULL);;
  x ← zoom (get_mp mp);
  RT_ASSERT (rt_object_get_type (mp_parent x) = RT_Object_Class_MemPool);;
  RT_ASSERT (rt_object_is_systemobject (mp_parent x) = false);;
  k ← zoom (gets id);
  zoom (resume_all_loop (Datatypes.S (length (queue k (QSuspend mp)))) (QSuspend mp));;
  zoom (modify (drop_words (mp_start_address x) (mp_size x)));;
  release (mp_start_address x);;
  rt_object_delete RT_Object_Class_MemPool mp;;
  mret RT_EOK.

(** ** Timers ([timer.c]) *)
Definition rt_timer_create (name : list Z) (timeout : timer_fn) (parameter time flag : Z) : M S addr :=
  timer ← rt_object_allocate RT_Object_Class_Timer name;
  if decide (timer = RT_NULL) then mret RT_NULL
  else
    zoom (_rt_timer_init (Obj timer) timeout parameter time flag);;
    mret timer.
Definition rt_timer_delete (timer : addr) : M S Z :=
  zoom (assert_timer (Obj timer));;
  tm ← zoom (get_timer (Obj timer));
  RT_ASSERT (rt_object_is_systemobject (tm_parent tm) = false);;
  level ← zoom rt_hw_interrupt_disable;
  zoom (_rt_timer_remove (Obj timer));;
  zoom (upd_timer (Obj timer) (λ tm, flag_clear tm RT_TIMER_FLAG_ACTIVATED));;
  zoom (rt_hw_interrupt_enable level);;
  rt_object_delete RT_Object_Class_Timer timer;;
  mret RT_EOK.

(** ** Threads ([thread.c], [idle.c]) *)
Definition rt_thread_create (name : list Z) (entry_ parameter_ stack_size_ priority tick : Z) : M S addr :=
  thread ← rt_object_allocate RT_Object_Class_Thread name;
  if decide (thread = RT_NULL) then mret RT_NULL
  else
    stack_start ← alloc (u32 stack_size_);
    if decide (stack_start = RT_NULL) then
      rt_object_delete RT_Object_Class_Thread thread;; mret RT_NULL
    else
      zoom (_rt_thread_init thread entry_ parameter_ stack_start stack_size_ (u8 priority) (u32 tick));;
      mret thread.

(** [while (1)]: every turn takes one thread off the list of the defunct. *)
Fixpoint idle_loop (fuel : nat) : M S unit :=
  match fuel with
  | O => fail FFuel
  | Datatypes.S fuel =>
      lock ← zoom rt_hw_interrupt_disable;
      k ← zoom (gets id);
      match queue k QDefunct with
      | [] => zoom (rt_hw_interrupt_enable lock)
      | thread :: _ =>
          zoom (rt_list_remove thread);;
          th ← zoom (get_thread thread);
          release (stack_addr th);;
          rt_object_delete RT_Object_Class_Thread thread;;
          zoom (rt_hw_interrupt_enable lock);;
          idle_loop fuel
      end
  end.
Definition rt_thread_idle_excute : M S unit :=
  zoom RT_DEBUG_NOT_IN_INTERRUPT;;
  k ← zoom (gets id);
  idle_loop (Datatypes.S (length (queue k QDefunct))).

(** ** Devices ([device.c]) *)
Definition rt_device_create (type attach_size : Z) : M S addr :=
  let size := u32 (RT_ALIGN (object_size RT_Object_Class_Device) RT_ALIGN_SIZE + RT_ALIGN (u32 attach_size) RT_ALIGN_SIZE) in
  device ← alloc size;
  when (device ≠ RT_NULL) (zoom (modify (clear_object RT_Object_Class_Device device)));;
  mret device.
Definition rt_device_destroy (dev : addr) : M S unit :=
  RT_ASSERT (dev ≠ RT_NULL);;
  d ← zoom (get_dev dev);
  RT_ASSERT (rt_object_get_type (dev_parent d) = RT_Object_Class_Device);;
  RT_ASSERT (rt_object_is_systemobject (dev_parent d) = false);;
  zoom (rt_object_detach RT_Object_Class_Device (Obj dev));;
  zoom (modify (drop_object RT_Object_Class_Device dev));;
  release dev.
End Objects.

(** ** What is at an address *)

(** The kernel without whatever object is at [a]. *)
Definition erase_at (a : addr) (k : kernel) : kernel :=
  k <| threads := delete a (threads k) |>
    <| timers := delete (ThreadTimer a) (delete (Obj a) (timers k)) |>
    <| queues := delete (QSender a) (delete (QSuspend a) (queues k)) |>
    <| object_lists := remove_from_objects (ThreadTimer a) (remove_from_objects (Obj a) (object_lists k)) |>
    <| semaphores := delete a (semaphores k) |> <| mutexes := delete a (mutexes k) |>
    <| events := delete a (events k) |> <| mailboxes := delete a (mailboxes k) |>
    <| mqueues := delete a (mqueues k) |> <| mempools := delete a (mempools k) |>
    <| devices := delete a (devices k) |>.

(** No object is at [a]. *)
Definition vacant (a : addr) (k : kernel) : Prop := erase_at a k = k.
(** The two kernels differ at most in the object at [a]. *)
Definition local (a : addr) (k k' : kernel) : Prop := erase_at a k' = erase_at a k.
#[global] Instance local_equiv a : Equivalence (local a).
Proof. unfold local. split; [done|by intros ? ? ?|]. intros ? ? ? H1 H2. by rewrite H2. Qed.

Lemma vacant_unique a k k' : local a k k' → vacant a k → vacant a k' → k' = k.
Proof. unfold local, vacant. congruence. Qed.

Lemma remove_objects_out r ls :
  remove_from_objects r ls = ls ↔ ∀ type l, ls !! type = Some l → r ∉ l.
Proof.
  unfold remove_from_objects. split.
  - intros E type l Hl Hin. pose proof (f_equal (lookup type) E) as Ht. rewrite lookup_fmap, Hl in Ht.
    injection Ht as Ht. rewrite <-Ht in Hin. by apply list_elem_of_filter in Hin as [? _].
  - intros Hout. apply map_eq. intros type. rewrite lookup_fmap.
    destruct (ls !! type) as [l|] eqn:Hl; [|done]. simpl. f_equal. apply list_filter_ne_id. by eapply Hout.
Qed.
Lemma remove_objects_comm r r' ls :
  remove_from_objects r (remove_from_objects r' ls) = remove_from_objects r' (remove_from_objects r ls).
Proof.
  unfold remove_from_objects. apply map_eq. intros type. rewrite !lookup_fmap.
  destruct (ls !! type) as [l|]; [|done]. simpl. f_equal.
  rewrite !list_filter_filter. apply list_filter_iff. tauto.
Qed.
Lemma remove_objects_twice r ls : remove_from_objects r (remove_from_objects r ls) = remove_from_objects r ls.
Proof.
  apply remove_objects_out. intros type l. unfold remove_from_objects. rewrite lookup_fmap_Some.
  intros (l' & <- & _) Hin. by apply list_elem_of_filter in Hin as [? _].
Qed.

Lemma delete_both_twice {K A} `{Countable K} (m : gmap K A) i j :
  delete i (delete j (delete i (delete j m))) = delete i (delete j m).
Proof. by rewrite (delete_delete (delete j m) j i), !delete_delete_eq. Qed.

Lemma erase_erase a k : erase_at a (erase_at a k) = erase_at a k.
Proof.
  unfold erase_at. destruct k. simpl.
  by rewrite !delete_both_twice, !delete_delete_eq, (remove_objects_comm (Obj a) (ThreadTimer a)),
    !remove_objects_twice.
Qed.
Lemma erase_vacant a k : vacant a (erase_at a k).
Proof. apply erase_erase. Qed.

(** The fields in which an object at [a] shows. *)
Record vacant_at (a : addr) (k : kernel) : Prop := {
  va_thread : threads k !! a = None;
  va_timer : timers k !! Obj a = None;
  va_ttimer : timers k !! ThreadTimer a = None;
  va_suspend : queues k !! QSuspend a = None;
  va_sender : queues k !! QSender a = None;
  va_sem : semaphores k !! a = None;
  va_mutex : mutexes k !! a = None;
  va_event : events k !! a = None;
  va_mb : mailboxes k !! a = None;
  va_mq : mqueues k !! a = None;
  va_mp : mempools k !! a = None;
  va_dev : devices k !! a = None;
  va_list type l : object_lists k !! type = Some l → Obj a ∉ l ∧ ThreadTimer a ∉ l
}.
Lemma delete_id_iff {K A} `{Countable K} (m : gmap K A) i : delete i m = m ↔ m !! i = None.
Proof. split; [intros <-; apply lookup_delete_eq|apply delete_id]. Qed.

Lemma vacant_fields a k : vacant a k ↔ vacant_at a k.
Proof.
  split.
  - unfold vacant, erase_at. intros E. destruct k. simpl in E. injection E as E1 E2 E3 E4 E5 E6 E7 E8 E9 E10 E11.
    assert (∀ type l, object_lists !! type = Some l → Obj a ∉ l ∧ ThreadTimer a ∉ l) as Hl.
    { intros type l Hl. split.
      - apply (proj1 (remove_objects_out (Obj a) object_lists)) with type; [|done].
        rewrite <-E4. by rewrite remove_objects_comm, remove_objects_twice.
      - apply (proj1 (remove_objects_out (ThreadTimer a) object_lists)) with type; [|done].
        rewrite <-E4. by rewrite remove_objects_twice. }
    constructor; simpl; try by apply delete_id_iff.
    + rewrite <-E2. by rewrite lookup_delete_ne, lookup_delete_eq.
    + rewrite <-E2. by rewrite lookup_delete_eq.
    + rewrite <-E3. by rewrite lookup_delete_ne, lookup_delete_eq.
    + rewrite <-E3. by rewrite lookup_delete_eq.
    + exact Hl.
  - intros []. unfold vacant, erase_at. destruct k. simpl in *. rewrite !delete_id; try done.
    + f_equal. rewrite (proj2 (remove_objects_out (Obj a) _)) by naive_solver.
      apply remove_objects_out. naive_solver.
    + by rewrite delete_id.
    + by rewrite delete_id.
Qed.

(** Two kernels that differ at [a], seen from elsewhere. *)
Record local_at (a : addr) (k k' : kernel) : Prop := {
  lo_thread b : b ≠ a → threads k' !! b = threads k !! b;
  lo_timer r : r ≠ Obj a → r ≠ ThreadTimer a → timers k' !! r = timers k !! r;
  lo_queue q : q ≠ QSuspend a → q ≠ QSender a → queues k' !! q = queues k !! q;
  lo_objects b : b ≠ a →
    semaphores k' !! b = semaphores k !! b ∧ mutexes k' !! b = mutexes k !! b ∧ events k' !! b = events k !! b ∧
    mailboxes k' !! b = mailboxes k !! b ∧ mqueues k' !! b = mqueues k !! b ∧
    mempools k' !! b = mempools k !! b ∧ devices k' !! b = devices k !! b;
  lo_list type b l' : b ≠ a → object_lists k' !! type = Some l' → ∃ l, object_lists k !! type = Some l ∧
    (Obj b ∈ l' → Obj b ∈ l) ∧ (ThreadTimer b ∈ l' → ThreadTimer b ∈ l);
  lo_some type : is_Some (object_lists k' !! type) ↔ is_Some (object_lists k !! type);
  lo_rest : timer_queues k' = timer_queues k ∧ pool_words k' = pool_words k ∧
    rt_thread_ready_priority_group k' = rt_thread_ready_priority_group k ∧
    rt_current_thread k' = rt_current_thread k ∧ rt_interrupt_nest k' = rt_interrupt_nest k ∧
    rt_scheduler_lock_nest k' = rt_scheduler_lock_nest k ∧ rt_tick k' = rt_tick k ∧ primask k' = primask k
}.

Lemma delete_same_ne {K A} `{Countable K} (m m' : gmap K A) i j :
  delete i m' = delete i m → j ≠ i → m' !! j = m !! j.
Proof. intros E Hne. apply (f_equal (lookup j)) in E. by rewrite !lookup_delete_ne in E. Qed.
Lemma delete2_same_ne {K A} `{Countable K} (m m' : gmap K A) i1 i2 j :
  delete i1 (delete i2 m') = delete i1 (delete i2 m) → j ≠ i1 → j ≠ i2 → m' !! j = m !! j.
Proof. intros E H1 H2. apply (f_equal (lookup j)) in E. by rewrite !lookup_delete_ne in E. Qed.
Lemma remove_objects_lookup r ls type : remove_from_objects r ls !! type = filter (.≠ r) <$> (ls !! type).
Proof. apply lookup_fmap. Qed.

Lemma local_fields a k k' : local a k k' → local_at a k k'.
Proof.
  unfold local, erase_at. intros E. destruct k, k'. simpl in E.
  injection E as E1 E2 E3 Eq E4 E5 E6 E7 E8 E9 E10 Ew E11. intros. subst.
  assert (∀ type, filter (.≠ ThreadTimer a) <$> (filter (.≠ Obj a) <$> (object_lists0 !! type)) =
    filter (.≠ ThreadTimer a) <$> (filter (.≠ Obj a) <$> (object_lists !! type))) as El.
  { intros type. apply (f_equal (lookup type)) in E4. by rewrite !remove_objects_lookup in E4. }
  constructor; simpl.
  - intros b Hb. by eapply delete_same_ne.
  - intros r H1 H2. by eapply delete2_same_ne.
  - intros q H1 H2. by eapply delete2_same_ne.
  - intros b Hb. repeat split; by eapply delete_same_ne.
  - intros type b l' Hb Hl. specialize (El type). rewrite Hl in El.
    destruct (object_lists !! type) as [l|]; [|done]. injection El as El. exists l. split; [done|].
    split; intros Hin.
    + assert (Obj b ∈ filter (.≠ ThreadTimer a) (filter (.≠ Obj a) l')) as Hf.
      { rewrite !list_elem_of_filter. split; [done|]. split; [congruence|done]. }
      rewrite El, !list_elem_of_filter in Hf. by destruct Hf as (_ & _ & ?).
    + assert (ThreadTimer b ∈ filter (.≠ ThreadTimer a) (filter (.≠ Obj a) l')) as Hf.
      { rewrite !list_elem_of_filter. split; [congruence|]. by split. }
      rewrite El, !list_elem_of_filter in Hf. by destruct Hf as (_ & _ & ?).
  - intros type. specialize (El type). rewrite <-!not_eq_None_Some.
    destruct (object_lists0 !! type), (object_lists !! type); simpl in *; naive_solver.
  - done.
Qed.

Lemma local_vacant a b k k' : local a k k' → b ≠ a → vacant b k → vacant b k'.
Proof.
  intros Hl Hb Hv. apply vacant_fields in Hv as []. apply local_fields in Hl as [].
  destruct (lo_objects0 b Hb) as (? & ? & ? & ? & ? & ? & ?). apply vacant_fields.
  constructor; try congruence.
  - rewrite lo_thread0; done.
  - rewrite lo_timer0; congruence.
  - rewrite lo_timer0; congruence.
  - rewrite lo_queue0; congruence.
  - rewrite lo_queue0; congruence.
  - intros type l' Hl'. destruct (lo_list0 type b l' Hb Hl') as (l & El & ? & ?). naive_solver.
Qed.

(** No thread and no timer is at [a]. *)
Definition no_thread (a : addr) (k : kernel) : Prop :=
  threads k !! a = None ∧ timers k !! Obj a = None ∧ timers k !! ThreadTimer a = None.
Lemma vacant_no_thread a k : vacant a k → no_thread a k.
Proof. intros Hv. apply vacant_fields in Hv as []. done. Qed.

Lemma local_threads a k k' :
  local a k k' → no_thread a k → no_thread a k' → threads k' = threads k ∧ timers k' = timers k.
Proof.
  intros Hl (H1 & H2 & H3) (H1' & H2' & H3'). apply local_fields in Hl as []. split; apply map_eq.
  - intros b. destruct (decide (b = a)) as [->|]; [congruence|]. by apply lo_thread0.
  - intros r. destruct (decide (r = Obj a)) as [->|]; [congruence|].
    destruct (decide (r = ThreadTimer a)) as [->|]; [congruence|]. by apply lo_timer0.
Qed.

(** Emptying a wait list that only the object at [a] heads. *)
Lemma sched_inv_queues x ths qs qs' g c :
  SchedInv x ths qs g c →
  (∀ q, qof qs' q = qof qs q ∨ (waiting q ∧ qof qs' q = [])) → SchedInv x ths qs' g c.
Proof.
  intros H Hq.
  assert (∀ q t, t ∈ qof qs' q → t ∈ qof qs q) as Hin.
  { intros q t. destruct (Hq q) as [->|[_ ->]]; [done|]. by intros ?%not_elem_of_nil. }
  assert (∀ q, ¬ waiting q → qof qs' q = qof qs q) as Hsame.
  { intros q Hw. by destruct (Hq q) as [?|[? _]]. }
  destruct H. constructor; try done.
  - intros t q Hx Ht. eapply si_out; [done|by apply Hin].
  - intros p Hp. rewrite Hsame by by intros []. by apply si_group.
  - intros t p Hx. rewrite Hsame by by intros []. by apply si_ready.
  - intros t q Hw Ht. apply (si_waiting t q); [done|by apply Hin].
  - intros t Ht. apply si_defunct. by apply Hin.
  - intros q. destruct (Hq q) as [->|[_ ->]]; [done|constructor].
  - intros q1 q2 t H1 H2. by eapply si_disjoint; apply Hin.
Qed.

Lemma kernel_inv_local a k k' :
  kernel_inv k → local a k k' → no_thread a k → no_thread a k' →
  queue k' (QSuspend a) = [] → queue k' (QSender a) = [] → kernel_inv k'.
Proof.
  intros [Hs Ht] Hl Hn Hn' Hq1 Hq2. destruct (local_threads a k k' Hl Hn Hn') as [Eth Etm].
  apply local_fields in Hl as [? ? Hq ? ? ? (E1 & _ & E2 & E3 & _)]. constructor.
  - rewrite Eth, E2, E3. eapply sched_inv_queues; [exact Hs|]. intros q.
    destruct (decide (q = QSuspend a)) as [->|]; [by right|].
    destruct (decide (q = QSender a)) as [->|]; [by right|]. left. by rewrite Hq.
  - by rewrite Eth, Etm, E1.
Qed.
Lemma current_ok_local a k k' : current_ok k → local a k k' → rt_current_thread k ≠ a → current_ok k'.
Proof.
  intros (th & Ht & ?) Hl Ha. apply local_fields in Hl as []. destruct lo_rest0 as (_ & _ & _ & E & _).
  exists th. by rewrite E, lo_thread0.
Qed.

(** ** Creating and deleting, as functions on the kernel *)
Definition known_class (type : Z) : Prop := type ∈ rt_object_container.
Lemma known_class_iff type : known_class type ↔ rt_object_get_information type ≠ None.
Proof.
  unfold known_class, rt_object_get_information. split.
  - intros Hin E. destruct (list_find _ _) eqn:El; [done|]. apply list_find_None in El.
    rewrite Forall_forall in El. by apply (El type).
  - destruct (list_find _ _) as [[i t]|] eqn:El; [|done]. apply list_find_Some in El as (Hl & <- & _).
    intros _. by eapply list_elem_of_lookup_2.
Qed.
(** One goal per class. *)
Ltac class_cases H := unfold known_class, rt_object_container in H; rewrite !elem_of_cons in H;
  destruct H as [->|[->|[->|[->|[->|[->|[->|[->|[->|H]]]]]]]]]; [..|by apply not_elem_of_nil in H].

(** [object->list] out of every container. *)
Definition unlist (a : addr) (k : kernel) : kernel :=
  k <| object_lists := remove_from_objects (Obj a) (object_lists k) |>.
(** A new object with the given header and all other fields zero, first in its
    container. *)
Definition fresh (type : Z) (a : addr) (h : rt_object) (k : kernel) : kernel :=
  (set_header type (Obj a) h (clear_object type a k))
    <| object_lists := <[type := Obj a :: object_list k type]> (object_lists k) |>.

Lemma header_set type r h o k :
  known_class type → object_header k type r = Some o → object_header (set_header type r h k) type r = Some h.
Proof.
  intros Ht Ho. class_cases Ht; try by eapply alter_at_eq.
  change (tm_parent <$> alter (λ x, x <| tm_parent := h |>) r (timers k) !! r = Some h).
  change (tm_parent <$> timers k !! r = Some o) in Ho. rewrite lookup_alter_eq.
  by destruct (timers k !! r).
Qed.
Lemma set_header_twice type r h1 h2 k : set_header type r h2 (set_header type r h1 k) = set_header type r h2 k.
Proof.
  assert (∀ T (f g : T → T) (m : gmap addr T), (∀ x, f (g x) = f x) →
    alter_at f r (alter_at g r m) = alter_at f r m) as Ha.
  { intros T f g m E. destruct r as [a|]; [|done]. simpl. rewrite alter_alter_eq. apply alter_ext. intros x _. apply E. }
  unfold set_header. repeat case_decide; destruct k; simpl; f_equal; try by apply Ha.
  rewrite alter_alter_eq. by apply alter_ext; intros [].
Qed.
Lemma header_cleared type a k : known_class type → object_header (clear_object type a k) type (Obj a) = Some zero_object.
Proof.
  intros Ht. class_cases Ht; simpl;
    lazymatch goal with |- object_header (clear_object _ ?a _) _ _ = _ =>
      unfold object_header, clear_object; simpl; rewrite ?lookup_insert_ne by done; by rewrite lookup_insert_eq end.
Qed.

Lemma remove_objects_insert r type l l0 ls :
  ls !! type = Some l0 → filter (.≠ r) l = filter (.≠ r) l0 →
  remove_from_objects r (<[type := l]> ls) = remove_from_objects r ls.
Proof.
  intros Hl E. apply map_eq. intros i. rewrite !remove_objects_lookup.
  destruct (decide (i = type)) as [->|]; [|by rewrite lookup_insert_ne]. rewrite lookup_insert_eq, Hl. simpl. by rewrite E.
Qed.
Lemma local_lists a k l l0 type :
  object_lists k !! type = Some l0 → filter (.≠ Obj a) l = filter (.≠ Obj a) l0 →
  local a k (k <| object_lists := <[type := l]> (object_lists k) |>).
Proof. intros Hl E. unfold local, erase_at. destruct k. simpl in *. by erewrite remove_objects_insert. Qed.
Lemma local_clear a type k : local a k (clear_object type a k).
Proof.
  unfold local, erase_at, clear_object. repeat case_decide; destruct k; simpl; rewrite ?delete_insert_eq; try done.
  - by rewrite delete_insert_ne, delete_insert_eq by done.
Qed.
Lemma local_header a type h k : local a k (set_header type (Obj a) h k).
Proof.
  unfold local, erase_at, set_header. repeat case_decide; destruct k; simpl; rewrite ?delete_alter_eq; done.
Qed.
Lemma lists_cleared type a k : object_lists (clear_object type a k) = object_lists k.
Proof. unfold clear_object. by repeat case_decide. Qed.
Lemma lists_header type r h k : object_lists (set_header type r h k) = object_lists k.
Proof. unfold set_header. by repeat case_decide. Qed.

Lemma fresh_local type a h k : is_Some (object_lists k !! type) → local a k (fresh type a h k).
Proof.
  intros [l Hl]. unfold fresh. transitivity (set_header type (Obj a) h (clear_object type a k)).
  { transitivity (clear_object type a k); [apply local_clear|apply local_header]. }
  set (k1 := set_header _ _ _ _). assert (object_lists k1 = object_lists k) as E.
  { unfold k1. by rewrite lists_header, lists_cleared. }
  rewrite <-E. eapply local_lists; [by rewrite E|]. unfold object_list. rewrite Hl. simpl.
  by rewrite filter_cons_False by naive_solver.
Qed.

(** [a] is the address of an object of class [type] and of nothing else. *)
Record houses (type : Z) (a : addr) (k : kernel) : Prop := {
  ho_class : known_class type;
  ho_header : is_Some (object_header k type (Obj a));
  ho_other type' : type' ≠ type → object_header k type' (Obj a) = None;
  ho_ttimer : type ≠ RT_Object_Class_Thread → timers k !! ThreadTimer a = None;
  ho_list type' l : object_lists k !! type' = Some l → ThreadTimer a ∉ l
}.

Lemma fresh_houses type a h k :
  known_class type → vacant a k → houses type a (fresh type a h k).
Proof.
  intros Ht Hv%vacant_fields. destruct Hv. split; [done| | | |].
  - exists h. unfold fresh. rewrite <-(header_set type (Obj a) h _ _ Ht (header_cleared type a k Ht)).
    unfold object_header. by destruct (set_header _ _ _ _).
  - intros type' Hne. unfold object_header, header_at.
    class_cases Ht; simpl; rewrite ?lookup_alter_ne, ?lookup_insert_ne by done;
      repeat (case_decide; [subst; by simplify_map_eq|]); done.
  - intros Hne. class_cases Ht; try done; unfold fresh; simpl; by rewrite ?lookup_alter_ne, ?lookup_insert_ne by done.
  - intros type' l. unfold fresh. ksimpl. rewrite lookup_insert_Some. intros [[<- <-]|[_ Hl]]; [|by eapply va_list0].
    intros [|Hin]%elem_of_cons; [done|]. unfold object_list in Hin. destruct (object_lists k !! type) as [l'|] eqn:El.
    + by destruct (va_list0 _ _ El).
    + by apply not_elem_of_nil in Hin.
Qed.

Lemma houses_none type a k :
  houses type a k →
  (type ≠ RT_Object_Class_Thread → threads k !! a = None) ∧ (type ≠ RT_Object_Class_Timer → timers k !! Obj a = None) ∧
  (type ≠ RT_Object_Class_Semaphore → semaphores k !! a = None) ∧ (type ≠ RT_Object_Class_Mutex → mutexes k !! a = None) ∧
  (type ≠ RT_Object_Class_Event → events k !! a = None) ∧ (type ≠ RT_Object_Class_MailBox → mailboxes k !! a = None) ∧
  (type ≠ RT_Object_Class_MessageQueue → mqueues k !! a = None) ∧ (type ≠ RT_Object_Class_MemPool → mempools k !! a = None) ∧
  (type ≠ RT_Object_Class_Device → devices k !! a = None).
Proof.
  intros [_ _ Ho _ _].
  assert (∀ type', type ≠ type' → object_header k type' (Obj a) = None) as Ho' by (intros; by apply Ho).
  repeat split; intros Hne; apply Ho' in Hne; by apply fmap_None in Hne.
Qed.

(** Deleting an object leaves the kernel without it. *)
Lemma dropped_erase type a o k :
  houses type a k → drop_object type a (unlist a (set_header type (Obj a) o k)) = erase_at a k.
Proof.
  intros H. pose proof (houses_none _ _ _ H) as (H1 & H2 & H3 & H4 & H5 & H6 & H7 & H8 & H9).
  destruct H as [Ht _ _ Htt Hl].
  assert (remove_from_objects (ThreadTimer a) (remove_from_objects (Obj a) (object_lists k)) =
    remove_from_objects (Obj a) (object_lists k)) as El.
  { apply remove_objects_out. intros type' l. rewrite remove_objects_lookup, fmap_Some.
    intros (l' & Hl' & ->) [_ Hin]%list_elem_of_filter. by eapply Hl. }
  unfold erase_at, drop_object, unlist, set_header. rewrite El.
  class_cases Ht; destruct k; simpl in *; rewrite ?delete_alter_eq; f_equal; symmetry;
    solve [done | apply delete_id; auto | rewrite (delete_id timers) by auto; (done || (apply delete_id; auto))
          | apply delete_id; rewrite lookup_delete_ne by done; auto].
Qed.
