(* ===== verification/Lifecycle.v ===== *)
(** * The life of an object on the heap

    What the operations of Dynamic.v do to the kernel and to the heap, proved
    against the interface [AllocSpec]: creation hands out an object at an
    address where nothing was, deletion leaves the kernel as it would be without
    the object and returns the memory, and a creation that fails half-way
    leaves no trace. *)
From S2P Require Import Prelude Kernel Scheduler Object Timer Thread Ipc Decide Scenario Scheduling Registry Semaphore Mutex Event Mailbox MessageQueue Heap Allocator HeapLock MemPool Device Dynamic.

(** The state of the kernel with its heap. *)
Record system := mkSystem { sy_kernel : kernel; sy_pools : pool_table; sy_heap : heap }.
#[global] Instance eta_system : EtaRecord system := λ s, mkSystem (sy_kernel s) (sy_pools s) (sy_heap s).
#[global] Instance system_kernel : Part system kernel := MkPart _ _ sy_kernel (λ k s, s <| sy_kernel := k |>).
#[global] Instance system_pools : Part system pool_table := MkPart _ _ sy_pools (λ p s, s <| sy_pools := p |>).
#[global] Instance system_heap : Part system heap := MkPart _ _ sy_heap (λ h s, s <| sy_heap := h |>).
#[global] Instance system_kernel_laws : PartLaws system kernel.
Proof. split; try done. by intros []. Qed.
#[global] Instance system_heap_laws : PartLaws system heap.
Proof. split; try done. by intros []. Qed.
#[global] Instance system_apart : PartsApart system kernel heap.
Proof. by split. Qed.

Section Lifecycle.
Context `{!AllocOps system, !AllocSpec system}.
Implicit Types (k : kernel) (ps : pool_table) (h : heap) (bs : gmap addr Z).

(** Nobody holds the heap; no object is in memory that is free; the containers
    are set up. *)
Record world (k : kernel) (h : heap) (bs : gmap addr Z) : Prop := {
  wo_guard : unguarded k;
  wo_blocks : blocks h bs;
  wo_vacant a : heap_area a → bs !! a = None → vacant a k;
  wo_lists type : known_class type → is_Some (object_lists k !! type)
}.

Lemma wp_kernel {R} (m : M kernel R) k ps h (Q : R → system → Prop) :
  wp m k (λ r k', Q r (mkSystem k' ps h)) → wp (zoom m) (mkSystem k ps h) Q.
Proof. unfold wp, zoom. simpl. by destruct (m k) as [[r k']|]. Qed.
Lemma wp_pools {R} (m : M pool_table R) k ps h (Q : R → system → Prop) :
  wp m ps (λ r ps', Q r (mkSystem k ps' h)) → wp (zoom m) (mkSystem k ps h) Q.
Proof. unfold wp, zoom. simpl. by destruct (m ps) as [[r ps']|]. Qed.

Lemma guard_not a : heap_area a → guard ≠ a.
Proof. intros Ha <-. by apply guard_outside. Qed.
Lemma area_not_null a : heap_area a → a ≠ RT_NULL.
Proof. intros Ha ->. by apply null_outside. Qed.

Lemma unguarded_local a k k' : unguarded k → heap_area a → local a k k' → unguarded k'.
Proof.
  intros Hu Ha Hl%local_fields. pose proof (guard_not _ Ha) as Hg. destruct Hl as [_ _ Hq Ho _ _ (_ & _ & _ & _ & En & _)].
  apply (guard_frame k); [done|by apply Ho| |done]. unfold queue. by rewrite Hq by congruence.
Qed.
Lemma world_local a k k' h bs :
  world k h bs → is_Some (bs !! a) → local a k k' → world k' h bs.
Proof.
  intros [Hu Hb Hv Hls] [n Ha] Hl. pose proof (blocks_inside _ _ _ _ Hb Ha) as Hin. split.
  - by eapply unguarded_local.
  - done.
  - intros b Hb1 Hb2. eapply local_vacant; [done| |by apply Hv]. congruence.
  - intros type Ht. apply local_fields in Hl. by apply (lo_some _ _ _ Hl), Hls.
Qed.

Lemma alloc_world k ps h bs size :
  world k h bs → 0 ≤ size ≤ 2 ^ 32 - 4 →
  wp (alloc size) (mkSystem k ps h) (λ p s', (p = RT_NULL ∧ s' = mkSystem k ps h) ∨
    (p ≠ RT_NULL ∧ bs !! p = None ∧ vacant p k ∧ 0 < size ∧ ∃ h' n, s' = mkSystem k ps h' ∧ size ≤ n ∧
      world k h' (<[p := n]> bs))).
Proof.
  intros [Hu Hb Hv Hls] Hsize. eapply wp_mono; [by apply (alloc_spec (mkSystem k ps h) bs)|].
  intros p s' [?|(Ha & Hp & Hs & h' & n & -> & Hn & Hb')]; [by left|right].
  split; [by apply area_not_null|]. split; [done|]. split; [by apply Hv|]. split; [done|]. exists h', n.
  split; [done|]. split; [done|]. split; [done..| |done].
  intros a Ha' [Hna Hne]%lookup_insert_None. by apply Hv.
Qed.
Lemma release_world k ps h bs p n :
  world k h bs → bs !! p = Some n → vacant p k →
  wp (release p) (mkSystem k ps h) (λ _ s', ∃ h', s' = mkSystem k ps h' ∧ world k h' (delete p bs)).
Proof.
  intros [Hu Hb Hv Hls] Hp Hvp. eapply wp_mono; [by eapply (release_spec (mkSystem k ps h))|].
  intros _ s' (h' & -> & Hb'). exists h'. split; [done|]. split; [done..| |done].
  intros a Ha. rewrite lookup_delete_None. intros [->|Hna]; [done|by apply Hv].
Qed.

(** ** [rt_object_allocate] and [rt_object_delete] *)
Lemma not_in_interrupt_eq k ps h : unguarded k → zoom RT_DEBUG_NOT_IN_INTERRUPT (mkSystem k ps h) = Ok (tt, mkSystem k ps h).
Proof. intros Hu. unfold zoom. simpl. by rewrite (not_in_interrupt k (unguarded_nest k Hu)). Qed.

Lemma upd_header_set type r f o k :
  object_header k type r = Some o → upd_header type r f k = Ok (tt, set_header type r (f o) k).
Proof. intros Ho. apply wp_exact. unfold upd_header. by ksteps. Qed.

Definition new_header (type : Z) (name : list Z) : rt_object := mkObject (object_name name) (u8 type) 0.

Lemma allocate_spec type name k ps h bs :
  world k h bs → known_class type →
  wp (rt_object_allocate type name) (mkSystem k ps h) (λ a s', (a = RT_NULL ∧ s' = mkSystem k ps h) ∨
    (a ≠ RT_NULL ∧ bs !! a = None ∧ vacant a k ∧ ∃ h' n, object_size type ≤ n ∧
      let k' := fresh type a (new_header type name) k in
      s' = mkSystem k' ps h' ∧ world k' h' (<[a := n]> bs))).
Proof.
  intros Hw Ht. unfold rt_object_allocate. wp_steps.
  eapply wp_eq; [by apply not_in_interrupt_eq; apply Hw|]. wp_steps; [by apply known_class_iff|]. wp_steps.
  eapply wp_mono; [apply (alloc_world k ps h bs); [done|]|].
  { class_cases Ht; unfold object_size; simpl; lia. }
  intros a s' [[-> ->]|(Ha & Hb & Hv & _ & h' & n & -> & Hn & Hw')].
  { rewrite decide_True by done. wp_steps. by left. }
  rewrite decide_False by done.
  pose proof (header_cleared type a k Ht) as H0.
  wp_steps. apply wp_kernel. wp_steps. apply wp_kernel. eapply wp_eq; [by apply upd_header_set|].
  wp_steps. apply wp_kernel. eapply wp_eq; [by eapply upd_header_set, header_set|].
  wp_steps. apply wp_kernel. eapply wp_eq; [by eapply upd_header_set, header_set; [|eapply header_set]|].
  rewrite !set_header_twice. simpl.
  wp_steps. apply wp_kernel. ksteps. apply wp_kernel. ksteps. apply wp_kernel. ksteps.
  right. split; [done|]. split; [done|]. split; [done|]. exists h', n. split; [done|].
  match goal with |- mkSystem ?k1 _ _ = _ ∧ _ => assert (k1 = fresh type a (new_header type name) k) as -> end.
  { unfold fresh. fold (new_header type name). set (k1 := set_header _ _ _ _).
    assert (object_lists k1 = object_lists k) as E by (unfold k1; by rewrite lists_header, lists_cleared).
    unfold object_list. ksimpl. rewrite E. by destruct k1. }
  split; [done|]. eapply world_local; [exact Hw'|by eexists; apply lookup_insert_eq|].
  apply fresh_local. by apply (wo_lists _ _ _ Hw).
Qed.

Lemma delete_spec type a o n k ps h bs :
  world k h bs → houses type a k → object_header k type (Obj a) = Some o →
  Z.land (obj_type o) RT_Object_Class_Static = 0 → bs !! a = Some n →
  wp (rt_object_delete type a) (mkSystem k ps h) (λ _ s', ∃ h',
    s' = mkSystem (erase_at a k) (delete a ps) h' ∧ world (erase_at a k) h' (delete a bs)).
Proof.
  intros Hw Hh Ho Hty Hb.
  pose proof (area_not_null a (blocks_inside _ _ _ _ (wo_blocks _ _ _ Hw) Hb)) as Ha.
  unfold rt_object_delete. wp_steps. apply wp_kernel. wp_steps.
  apply wp_kernel. eapply wp_eq; [by apply upd_header_set|]. wp_steps.
  apply wp_kernel. ksteps. apply wp_kernel. ksteps. apply wp_kernel. ksteps. apply wp_kernel. ksteps. apply wp_pools. wp_steps.
  match goal with |- wp _ (mkSystem ?k1 _ _) _ => assert (k1 = erase_at a k) as -> end.
  { rewrite <-(dropped_erase type a (o <| obj_type := RT_Object_Class_Null |>) k Hh). by f_equal. }
  assert (local a k (erase_at a k)) as Hl by apply erase_erase.
  eapply wp_mono; [eapply release_world; [by eapply world_local|done|apply erase_vacant]|].
  intros _ s' (h' & -> & Hw'). by exists h'.
Qed.

(** ** Objects that are neither threads nor timers *)
Definition kernel_ok (k : kernel) : Prop := kernel_inv k ∧ current_ok k.

(** [k'] is [k] with one more object, of class [type] at [a], that nobody waits
    for. *)
Record born (type : Z) (a : addr) (k k' : kernel) : Prop := {
  bo_local : local a k k';
  bo_houses : houses type a k';
  bo_suspend : queue k' (QSuspend a) = [];
  bo_sender : queue k' (QSender a) = [];
  bo_listed : object_list k' type = Obj a :: object_list k type
}.

Lemma plain_known type : plain_class type → known_class type.
Proof. intros H. apply known_class_iff. by rewrite plain_class_known. Qed.
Lemma plain_no_thread type a k : plain_class type → houses type a k → no_thread a k.
Proof.
  intros Hp H. pose proof (houses_none _ _ _ H) as (H1 & H2 & _). pose proof (ho_ttimer _ _ _ H) as H3.
  repeat split; [apply H1|apply H2|apply H3]; by plain_cases Hp.
Qed.

Lemma born_fresh type a (h : rt_object) k :
  known_class type → vacant a k → is_Some (object_lists k !! type) → born type a k (fresh type a h k).
Proof.
  intros Ht Hv Hl. pose proof (proj1 (vacant_fields a k) Hv) as Hf.
  assert (queues (fresh type a h k) = queues k) as Eq.
  { unfold fresh, set_header, clear_object. ksimpl. by repeat case_decide. }
  split; [by apply fresh_local|by apply fresh_houses| | |].
  - unfold queue. by rewrite Eq, (va_suspend _ _ Hf).
  - unfold queue. by rewrite Eq, (va_sender _ _ Hf).
  - unfold object_list at 1, fresh. ksimpl. by rewrite lookup_insert_eq.
Qed.
Lemma current_not_vacant a k : current_ok k → vacant a k → rt_current_thread k ≠ a.
Proof. intros (th & Ht & _) Hv%vacant_fields <-. by rewrite (va_thread _ _ Hv) in Ht. Qed.
Lemma born_ok type a k k' : plain_class type → kernel_ok k → vacant a k → born type a k k' → kernel_ok k'.
Proof.
  intros Hp [Hk Hc] Hv []. split.
  - eapply kernel_inv_local; [done|done|by apply vacant_no_thread|by eapply plain_no_thread|done|done].
  - by eapply current_ok_local; [| |by apply current_not_vacant].
Qed.

(** What an initialisation may go on to change. *)
Lemma born_step type a k k1 k2 :
  born type a k k1 → local a k1 k2 → houses type a k2 → object_lists k2 = object_lists k1 →
  queues k2 = queues k1 ∨ queues k2 = <[QSuspend a := []]> (queues k1) ∨ queues k2 = <[QSender a := []]> (queues k1) →
  born type a k k2.
Proof.
  intros [Hl Hh Hq1 Hq2 Ho] Hl' Hh' Eo Hq. unfold queue in *.
  split; [by etrans|done| | |unfold object_list in *; by rewrite Eo]; unfold queue;
    destruct Hq as [->|[->| ->]]; rewrite ?lookup_insert_eq, ?lookup_insert_ne by done; done.
Qed.
Lemma houses_queues type a qs k : houses type a k → houses type a (k <| queues := qs |>).
Proof. by intros []. Qed.
Lemma houses_header type a (h : rt_object) k : houses type a k → houses type a (set_header type (Obj a) h k).
Proof.
  intros H. pose proof (ho_class _ _ _ H) as Ht. destruct H as [_ [o Ho] Ho' Htt Hl]. split; [done| | | |].
  - exists h. by eapply header_set.
  - intros type' Hne. rewrite <-(Ho' type' Hne). unfold object_header, header_at. class_cases Ht; simpl;
      repeat (case_decide; [by subst|]); rewrite ?lookup_alter_ne by done; done.
  - intros Hne. rewrite <-Htt by done. class_cases Ht; simpl; rewrite ?lookup_alter_ne by done; done.
  - intros type' l. rewrite lists_header. apply Hl.
Qed.

Ltac houses_put := intros [Ht Ho Ho' Htt Hl]; split;
  [done|unfold object_header; simpl; rewrite lookup_insert_eq; by eexists
  |intros type' Hne; rewrite <-(Ho' type' Hne); unfold object_header; repeat (case_decide; [by subst|]); done
  |done|done].
Ltac born_put := intros Hb; eapply born_step; [exact Hb| | |done|by left];
  [unfold local, erase_at; simpl; by rewrite delete_insert_eq|destruct Hb as [_ Hb _ _ _]; revert Hb; houses_put].

Section Steps.
Context (a : addr) (k k1 : kernel).
Lemma born_sem x : born RT_Object_Class_Semaphore a k k1 →
  born RT_Object_Class_Semaphore a k (k1 <| semaphores := <[a := x]> (semaphores k1) |>).
Proof. born_put. Qed.
Lemma born_mutex x : born RT_Object_Class_Mutex a k k1 →
  born RT_Object_Class_Mutex a k (k1 <| mutexes := <[a := x]> (mutexes k1) |>).
Proof. born_put. Qed.
Lemma born_event x : born RT_Object_Class_Event a k k1 →
  born RT_Object_Class_Event a k (k1 <| events := <[a := x]> (events k1) |>).
Proof. born_put. Qed.
Lemma born_mb x : born RT_Object_Class_MailBox a k k1 →
  born RT_Object_Class_MailBox a k (k1 <| mailboxes := <[a := x]> (mailboxes k1) |>).
Proof. born_put. Qed.
Lemma born_mq x : born RT_Object_Class_MessageQueue a k k1 →
  born RT_Object_Class_MessageQueue a k (k1 <| mqueues := <[a := x]> (mqueues k1) |>).
Proof. born_put. Qed.
Lemma born_header type (h : rt_object) : born type a k k1 → born type a k (set_header type (Obj a) h k1).
Proof.
  intros Hb. eapply born_step; [exact Hb|apply local_header|apply houses_header, Hb|apply lists_header|].
  left. unfold set_header. by repeat case_decide.
Qed.
Lemma born_suspend type : born type a k k1 → born type a k (k1 <| queues := <[QSuspend a := []]> (queues k1) |>).
Proof.
  intros Hb. eapply born_step; [exact Hb| |apply houses_queues, Hb|done|by right; left].
  unfold local, erase_at. simpl. by rewrite delete_insert_eq.
Qed.
Lemma born_senders type : born type a k k1 → born type a k (k1 <| queues := <[QSender a := []]> (queues k1) |>).
Proof.
  intros Hb. eapply born_step; [exact Hb| |apply houses_queues, Hb|done|by right; right].
  unfold local, erase_at. simpl. by rewrite delete_insert_ne, delete_insert_eq by done.
Qed.
End Steps.

(** ** Creation *)

(** The result of a creating call whose object needs no further memory. *)
Definition creation (type : Z) (k : kernel) ps h bs (at_end : addr → kernel → Prop) (a : addr) (s' : system) : Prop :=
  (a = RT_NULL ∧ s' = mkSystem k ps h) ∨
  (a ≠ RT_NULL ∧ bs !! a = None ∧ ∃ k' h' n, s' = mkSystem k' ps h' ∧ object_size type ≤ n ∧
    world k' h' (<[a := n]> bs) ∧ kernel_ok k' ∧ vacant a k ∧ born type a k k' ∧ at_end a k').

Lemma creation_done type k ps h bs (at_end : addr → kernel → Prop) a k1 k' h' n :
  plain_class type → kernel_ok k → a ≠ RT_NULL → bs !! a = None → vacant a k → object_size type ≤ n →
  world k1 h' (<[a := n]> bs) → local a k k1 → born type a k k' → at_end a k' →
  creation type k ps h bs at_end a (mkSystem k' ps h').
Proof.
  intros Hp Hk Ha Hb Hv Hn Hw Hl Hbo He. right. split; [done|]. split; [done|]. exists k', h', n.
  split; [done|]. split; [done|]. split.
  - eapply world_local; [exact Hw|eexists; apply lookup_insert_eq|]. transitivity k; [by symmetry|apply Hbo].
  - split; [by eapply born_ok|done].
Qed.

Lemma plain_allocate type name k ps h bs (Q : addr → system → Prop) :
  plain_class type → world k h bs → Q RT_NULL (mkSystem k ps h) →
  (∀ a h' n, a ≠ RT_NULL → bs !! a = None → vacant a k → object_size type ≤ n →
     let k' := fresh type a (new_header type name) k in
     world k' h' (<[a := n]> bs) → born type a k k' → Q a (mkSystem k' ps h')) →
  wp (rt_object_allocate type name) (mkSystem k ps h) Q.
Proof.
  intros Hp Hw Hnull Hnew. pose proof (plain_known _ Hp) as Ht.
  eapply wp_mono; [by apply (allocate_spec type name k ps h bs)|].
  intros a s' [[-> ->]|(Ha & Hb & Hv & h' & n & Hn & -> & Hw')]; [done|].
  apply (Hnew a h' n); try done. apply born_fresh; [done|done|by apply (wo_lists _ _ _ Hw)].
Qed.

(** What the map of its class holds for a new object. *)
Lemma fresh_struct a (o : rt_object) k :
  semaphores (fresh RT_Object_Class_Semaphore a o k) !! a = Some (mkSemaphore o 0) ∧
  mutexes (fresh RT_Object_Class_Mutex a o k) !! a = Some (mkMutex o 0 0 0 0) ∧
  events (fresh RT_Object_Class_Event a o k) !! a = Some (mkEvent o 0) ∧
  mailboxes (fresh RT_Object_Class_MailBox a o k) !! a = Some (mkMailbox o [] 0 0 0 0) ∧
  mqueues (fresh RT_Object_Class_MessageQueue a o k) !! a = Some (mkMq o [] 0 0 0 None None None) ∧
  mempools (fresh RT_Object_Class_MemPool a o k) !! a = Some (mkMempool o 0 0 0 0 0 0).
Proof. unfold fresh. simpl. by rewrite !alter_insert_eq, !lookup_insert_eq. Qed.

Lemma wp_ipc_init a k Q : Q RT_EOK (k <| queues := <[QSuspend a := []]> (queues k) |>) → wp (rt_ipc_object_init a) k Q.
Proof. done. Qed.
Lemma wp_init_head q k (Q : unit → kernel → Prop) :
  Q tt (k <| queues := <[q := []]> (queues k) |>) → wp (rt_list_init_head q) k Q.
Proof. done. Qed.

Section Structs.
Context (a : addr) (k : kernel).
Lemma header_sem x : semaphores k !! a = Some x → object_header k RT_Object_Class_Semaphore (Obj a) = Some (sem_parent x).
Proof. intros E. change (sem_parent <$> semaphores k !! a = Some (sem_parent x)). by rewrite E. Qed.
Lemma header_mutex x : mutexes k !! a = Some x → object_header k RT_Object_Class_Mutex (Obj a) = Some (mutex_parent x).
Proof. intros E. change (mutex_parent <$> mutexes k !! a = Some (mutex_parent x)). by rewrite E. Qed.
Lemma header_event x : events k !! a = Some x → object_header k RT_Object_Class_Event (Obj a) = Some (event_parent x).
Proof. intros E. change (event_parent <$> events k !! a = Some (event_parent x)). by rewrite E. Qed.
Lemma header_mb x : mailboxes k !! a = Some x → object_header k RT_Object_Class_MailBox (Obj a) = Some (mb_parent x).
Proof. intros E. change (mb_parent <$> mailboxes k !! a = Some (mb_parent x)). by rewrite E. Qed.
Lemma header_mq x : mqueues k !! a = Some x → object_header k RT_Object_Class_MessageQueue (Obj a) = Some (mq_parent x).
Proof. intros E. change (mq_parent <$> mqueues k !! a = Some (mq_parent x)). by rewrite E. Qed.

Lemma set_header_event x o : events k !! a = Some x →
  events (set_header RT_Object_Class_Event (Obj a) o k) !! a = Some (x <| event_parent := o |>).
Proof. intros E. change (events (set_header _ _ _ k)) with (alter (λ x, x <| event_parent := o |>) a (events k)). by rewrite lookup_alter_eq, E. Qed.
Lemma set_header_mb x o : mailboxes k !! a = Some x →
  mailboxes (set_header RT_Object_Class_MailBox (Obj a) o k) !! a = Some (x <| mb_parent := o |>).
Proof. intros E. change (mailboxes (set_header _ _ _ k)) with (alter (λ x, x <| mb_parent := o |>) a (mailboxes k)). by rewrite lookup_alter_eq, E. Qed.
Lemma set_header_mq x o : mqueues k !! a = Some x →
  mqueues (set_header RT_Object_Class_MessageQueue (Obj a) o k) !! a = Some (x <| mq_parent := o |>).
Proof. intros E. change (mqueues (set_header _ _ _ k)) with (alter (λ x, x <| mq_parent := o |>) a (mqueues k)). by rewrite lookup_alter_eq, E. Qed.

Lemma wp_put_sem x (Q : unit → kernel → Prop) :
  Q tt (k <| semaphores := <[a := x]> (semaphores k) |>) → wp (put_sem a x) k Q.
Proof. done. Qed.
Lemma wp_put_mutex x (Q : unit → kernel → Prop) :
  Q tt (k <| mutexes := <[a := x]> (mutexes k) |>) → wp (put_mutex a x) k Q.
Proof. done. Qed.
Lemma wp_put_event x (Q : unit → kernel → Prop) :
  Q tt (k <| events := <[a := x]> (events k) |>) → wp (put_event a x) k Q.
Proof. done. Qed.
Lemma wp_put_mb x (Q : unit → kernel → Prop) :
  Q tt (k <| mailboxes := <[a := x]> (mailboxes k) |>) → wp (put_mb a x) k Q.
Proof. done. Qed.
Lemma wp_put_mq x (Q : unit → kernel → Prop) :
  Q tt (k <| mqueues := <[a := x]> (mqueues k) |>) → wp (put_mq a x) k Q.
Proof. done. Qed.
End Structs.

(** The header a created object ends with. *)
Definition live_header (type : Z) (name : list Z) (flag : Z) : rt_object :=
  mkObject (object_name name) type (u8 flag).

Lemma sem_create_spec name value flag k ps h bs :
  world k h bs → kernel_ok k → value < 65536 →
  wp (rt_sem_create name value flag) (mkSystem k ps h)
    (creation RT_Object_Class_Semaphore k ps h bs (λ a k', semaphores k' !! a =
       Some (mkSemaphore (live_header RT_Object_Class_Semaphore name flag) (u16 value)))).
Proof.
  intros Hw Hk Hval. unfold rt_sem_create. wp_steps. eapply wp_eq; [by apply not_in_interrupt_eq; apply Hw|].
  wp_steps. eapply (plain_allocate _ name k ps h bs); [by_evaluation|done| |].
  { wp_steps. by left. }
  intros a h' n Ha Hb Hv Hn k1 Hw' Hbo. rewrite decide_False by done.
  pose proof (proj1 (fresh_struct a (new_header RT_Object_Class_Semaphore name) k)) as Hx. fold k1 in Hx.
  wp_steps. apply wp_kernel, wp_ipc_init. wp_steps. apply wp_kernel. eapply wp_get_sem; [exact Hx|]. wp_steps.
  apply wp_kernel, wp_put_sem. wp_steps. apply wp_kernel.
  eapply wp_eq; [eapply upd_header_set, header_sem; apply lookup_insert_eq|]. wp_steps.
  eapply creation_done; try done; [by_evaluation|apply Hbo| |].
  - by apply born_header, born_sem, born_suspend.
  - simpl. by rewrite lookup_alter_eq, lookup_insert_eq.
Qed.

Lemma mutex_create_spec name flag k ps h bs :
  world k h bs → kernel_ok k →
  wp (rt_mutex_create name flag) (mkSystem k ps h)
    (creation RT_Object_Class_Mutex k ps h bs (λ a k', mutexes k' !! a =
       Some (mkMutex (live_header RT_Object_Class_Mutex name flag) 1 255 0 RT_NULL))).
Proof.
  intros Hw Hk. unfold rt_mutex_create. wp_steps. eapply wp_eq; [by apply not_in_interrupt_eq; apply Hw|].
  wp_steps. eapply (plain_allocate _ name k ps h bs); [by_evaluation|done| |].
  { wp_steps. by left. }
  intros a h' n Ha Hb Hv Hn k1 Hw' Hbo. rewrite decide_False by done.
  pose proof (proj1 (proj2 (fresh_struct a (new_header RT_Object_Class_Mutex name) k))) as Hx. fold k1 in Hx.
  wp_steps. apply wp_kernel, wp_ipc_init. wp_steps. apply wp_kernel. eapply wp_get_mutex; [exact Hx|]. wp_steps.
  apply wp_kernel, wp_put_mutex. wp_steps. apply wp_kernel.
  eapply wp_eq; [eapply upd_header_set, header_mutex; apply lookup_insert_eq|]. wp_steps.
  eapply creation_done; try done; [by_evaluation|apply Hbo| |].
  - by apply born_header, born_mutex, born_suspend.
  - simpl. by rewrite lookup_alter_eq, lookup_insert_eq.
Qed.
Lemma event_create_spec name flag k ps h bs :
  world k h bs → kernel_ok k →
  wp (rt_event_create name flag) (mkSystem k ps h)
    (creation RT_Object_Class_Event k ps h bs (λ a k', events k' !! a =
       Some (mkEvent (live_header RT_Object_Class_Event name flag) 0))).
Proof.
  intros Hw Hk. unfold rt_event_create. wp_steps. eapply wp_eq; [by apply not_in_interrupt_eq; apply Hw|].
  wp_steps. eapply (plain_allocate _ name k ps h bs); [by_evaluation|done| |].
  { wp_steps. by left. }
  intros a h' n Ha Hb Hv Hn k1 Hw' Hbo. rewrite decide_False by done.
  pose proof (proj1 (proj2 (proj2 (fresh_struct a (new_header RT_Object_Class_Event name) k)))) as Hx. fold k1 in Hx.
  wp_steps. apply wp_kernel. eapply wp_eq; [by eapply upd_header_set, header_event|].
  wp_steps. apply wp_kernel, wp_ipc_init. wp_steps. apply wp_kernel.
  eapply wp_get_event; [by apply set_header_event|]. wp_steps.
  apply wp_kernel, wp_put_event. wp_steps.
  eapply creation_done; try done; [by_evaluation|apply Hbo| |].
  - by apply born_event, born_suspend, born_header.
  - by apply lookup_insert_eq.
Qed.

(** The result of a creating call whose object has a second block [p], of at
    least [need] bytes.  When there is no room for it the object is deleted
    again, and the kernel is what it was. *)
Definition pool_creation (type : Z) (need : Z) (k : kernel) ps bs (at_end : addr → addr → kernel → Prop)
    (a : addr) (s' : system) : Prop :=
  (a = RT_NULL ∧ ∃ b h', (s' = mkSystem k ps h' ∨ bs !! b = None ∧ s' = mkSystem k (delete b ps) h') ∧ world k h' bs) ∨
  (a ≠ RT_NULL ∧ bs !! a = None ∧ ∃ p k' h' n m, s' = mkSystem k' (<[a := p]> ps) h' ∧ object_size type ≤ n ∧
    p ≠ RT_NULL ∧ p ≠ a ∧ bs !! p = None ∧ vacant p k' ∧ need ≤ m ∧
    world k' h' (<[p := m]> (<[a := n]> bs)) ∧ kernel_ok k' ∧ vacant a k ∧ born type a k k' ∧ at_end a p k').

(** The object just allocated is deleted again. *)
Lemma undo_create {R} type k k' ps h bs a o n (r : R) (Q : R → system → Prop) :
  world k' h (<[a := n]> bs) → bs !! a = None → vacant a k → born type a k k' →
  object_header k' type (Obj a) = Some o → Z.land (obj_type o) RT_Object_Class_Static = 0 →
  (∀ h', world k h' bs → Q r (mkSystem k (delete a ps) h')) →
  wp (rt_object_delete type a;; mret r) (mkSystem k' ps h) Q.
Proof.
  intros Hw Hb Hv Hbo Ho Hty HQ. wp_steps.
  assert (erase_at a k' = k) as E by by rewrite (bo_local _ _ _ _ Hbo).
  eapply wp_mono; [eapply (delete_spec type a o n); [done|apply Hbo|done|done|apply lookup_insert_eq]|].
  intros _ s' (h' & -> & Hw'). rewrite E in *. rewrite delete_insert_id in Hw' by done. wp_steps. by apply HQ.
Qed.

(** The second block: the object is at [a] when it is asked for. *)
Lemma second_block type need k k2 ps h bs a o n at_end (finish : addr → M system addr) :
  plain_class type → kernel_ok k → a ≠ RT_NULL → bs !! a = None → vacant a k → object_size type ≤ n →
  world k2 h (<[a := n]> bs) → born type a k k2 →
  object_header k2 type (Obj a) = Some o → Z.land (obj_type o) RT_Object_Class_Static = 0 → 0 ≤ need ≤ 2 ^ 32 - 4 →
  (∀ p h', wp (finish p) (mkSystem k2 (<[a := p]> ps) h') (λ r s', r = a ∧ ∃ k',
     s' = mkSystem k' (<[a := p]> ps) h' ∧ born type a k k' ∧ at_end a p k')) →
  wp (p ← alloc need; set_pool a p;;
      if decide (p = RT_NULL) then rt_object_delete type a;; mret RT_NULL else finish p) (mkSystem k2 ps h)
    (pool_creation type need k ps bs at_end).
Proof.
  intros Hp Hk Ha Hb Hv Hn Hw Hbo Ho Hty Hneed Hfin. wp_steps.
  eapply wp_mono; [by apply (alloc_world k2 ps h _ need Hw)|].
  intros p s' [[-> ->]|(Hpn & Hbp & Hvp & _ & h2 & m & -> & Hm & Hw3)]; wp_steps; apply wp_pools; wp_steps.
  - rewrite decide_True by done. eapply undo_create; [done..|].
    intros h2 Hw3. left. split; [done|]. exists a, h2. split; [|done]. right.
    split; [done|]. f_equal. apply (delete_insert_eq (M := gmap addr)).
  - rewrite decide_False by done. eapply wp_mono; [apply Hfin|].
    intros r s' (-> & k3 & -> & Hbo3 & He). apply lookup_insert_None in Hbp as [Hbp Hpa].
    assert (local a k2 k3) as Hl23 by (transitivity k; [symmetry; apply Hbo|apply Hbo3]).
    right. split; [done|]. split; [done|]. exists p, k3, h2, n, m. repeat (split; [done|]).
    split; [by eapply local_vacant|]. split; [done|].
    split; [eapply world_local; [exact Hw3| |exact Hl23]; rewrite lookup_insert_ne, lookup_insert_eq by done; by eexists|].
    split; [by apply (born_ok type a k)|done].
Qed.

Section WithMemory.
Context (stale_word : addr → Z) (stale_bytes : addr → list Z).

Lemma mb_create_spec name size flag k ps h bs :
  world k h bs → kernel_ok k →
  wp (rt_mb_create stale_word name size flag) (mkSystem k ps h)
    (pool_creation RT_Object_Class_MailBox (u16 size * 4) k ps bs (λ a p k', mailboxes k' !! a =
       Some (mkMailbox (live_header RT_Object_Class_MailBox name flag) (new_words stale_word p (u16 size)) (u16 size) 0 0 0))).
Proof.
  intros Hw Hk. unfold rt_mb_create. wp_steps. eapply wp_eq; [by apply not_in_interrupt_eq; apply Hw|].
  wp_steps. eapply (plain_allocate _ name k ps h bs); [by_evaluation|done| |].
  { wp_steps. left. split; [done|]. exists 0, h. by split; [left|]. }
  intros a h' n Ha Hb Hv Hn k1 Hw' Hbo. rewrite decide_False by done.
  pose proof (proj1 (proj2 (proj2 (proj2 (fresh_struct a (new_header RT_Object_Class_MailBox name) k))))) as Hx. fold k1 in Hx.
  wp_steps. apply wp_kernel. eapply wp_eq; [by eapply upd_header_set, header_mb|].
  wp_steps. apply wp_kernel, wp_ipc_init. wp_steps. apply wp_kernel. eapply wp_get_mb; [by apply set_header_mb|].
  apply wp_bind, wp_kernel, wp_put_mb. cbv beta. set (k2 := _ <| mailboxes := _ |>).
  assert (born RT_Object_Class_MailBox a k k2) as Hbo2 by by apply born_mb, born_suspend, born_header.
  assert (mailboxes k2 !! a = Some (mkMailbox (live_header RT_Object_Class_MailBox name flag) [] (u16 size) 0 0 0)) as Hx2
    by apply lookup_insert_eq.
  pose proof (wrapU_range 16 size ltac:(lia)) as Hsz.
  eapply second_block; [by_evaluation|done|done|done|done|exact Hn| |done|by apply header_mb|by_evaluation|lia|].
  { eapply world_local; [exact Hw'|eexists; apply lookup_insert_eq|]. transitivity k; [symmetry; apply Hbo|apply Hbo2]. }
  intros p h2. wp_steps. apply wp_kernel. eapply wp_get_mb; [exact Hx2|]. wp_steps.
  apply wp_kernel, wp_put_mb. wp_steps. apply wp_kernel, wp_init_head. wp_steps.
  split; [done|]. eexists. split; [done|]. split; [by apply born_senders, born_mb|]. apply lookup_insert_eq.
Qed.

(** The queue that [rt_mq_create] makes: empty, with [max] slots of [size] bytes. *)
Definition new_queue (x : rt_messagequeue) (h : rt_object) (size max : Z) : Prop :=
  mq_parent x = h ∧ mq_msg_size x = size ∧ mq_max_msgs x = max ∧ zlen (mq_msg_pool x) = max ∧
  ∃ fs, mq_wf x [] fs [].

Lemma new_slots_ok p size max :
  0 ≤ size → 0 ≤ max → zlen (new_slots stale_bytes p size max) = max ∧
  Forall (λ m, zlen (msg_data m) = size) (new_slots stale_bytes p size max).
Proof.
  intros Hs Hm. unfold new_slots, zlen. rewrite length_fmap, length_seq, Z2Nat.id by done. split; [done|].
  apply Forall_fmap, Forall_forall. intros i _. simpl. rewrite length_take, length_app, length_replicate. lia.
Qed.

Lemma mq_create_spec name msg_size max_msgs flag k ps h bs :
  world k h bs → kernel_ok k → 0 ≤ msg_size ≤ 2 ^ 32 - 4 →
  let size := u16 (RT_ALIGN msg_size RT_ALIGN_SIZE) in let max := u16 max_msgs in
  wp (rt_mq_create stale_bytes name msg_size max_msgs flag) (mkSystem k ps h)
    (pool_creation RT_Object_Class_MessageQueue ((size + 4) * max) k ps bs (λ a p k', ∃ x, mqueues k' !! a = Some x ∧
       new_queue x (live_header RT_Object_Class_MessageQueue name flag) size max)).
Proof.
  intros Hw Hk Hms size max. unfold rt_mq_create. wp_steps. eapply wp_eq; [by apply not_in_interrupt_eq; apply Hw|].
  wp_steps. eapply (plain_allocate _ name k ps h bs); [by_evaluation|done| |].
  { wp_steps. left. split; [done|]. exists 0, h. by split; [left|]. }
  intros a h' n Ha Hb Hv Hn k1 Hw' Hbo. rewrite decide_False by done.
  pose proof (proj1 (proj2 (proj2 (proj2 (proj2 (fresh_struct a (new_header RT_Object_Class_MessageQueue name) k)))))) as Hx.
  fold k1 in Hx.
  wp_steps. apply wp_kernel. eapply wp_eq; [by eapply upd_header_set, header_mq|].
  wp_steps. apply wp_kernel, wp_ipc_init. wp_steps. apply wp_kernel. eapply wp_get_mq; [by apply set_header_mq|].
  fold size max. apply wp_bind, wp_kernel, wp_put_mq. cbv beta. set (k2 := _ <| mqueues := _ |>).
  assert (born RT_Object_Class_MessageQueue a k k2) as Hbo2 by by apply born_mq, born_suspend, born_header.
  assert (mqueues k2 !! a = Some (mkMq (live_header RT_Object_Class_MessageQueue name flag) [] size max 0 None None None)) as Hx2
    by apply lookup_insert_eq.
  assert (0 ≤ size ≤ 65532) as Hs.
  { unfold size. rewrite RT_ALIGN_4 by done. unfold wrapU. change (2 ^ 16) with (4 * 16384).
    rewrite Z.mul_mod_distr_l by lia. pose proof (Z.mod_pos_bound ((msg_size + 3) / 4) 16384). lia. }
  pose proof (wrapU_range 16 max_msgs ltac:(lia)) as Hmax. fold max in Hmax.
  assert (0 ≤ (size + 4) * max ≤ 2 ^ 32 - 4) as Hneed by nia.
  rewrite (wrapU_small 32 ((size + 4) * max)) by lia.
  eapply second_block; [by_evaluation|done|done|done|done|exact Hn| |done|by apply header_mq|by_evaluation|done|].
  { eapply world_local; [exact Hw'|eexists; apply lookup_insert_eq|]. transitivity k; [symmetry; apply Hbo|apply Hbo2]. }
  intros p h2. wp_steps. apply wp_kernel. eapply wp_get_mq; [exact Hx2|]. simpl mq_entry.
  destruct (new_slots_ok p size max ltac:(lia) ltac:(lia)) as [Hlen Hdata].
  set (x2 := mkMq _ (new_slots _ _ _ _) _ _ _ _ _ _).
  assert (mq_wf x2 [] [] (seq 0 (length (new_slots stale_bytes p size max)))) as Hwf.
  { apply mq_fresh_wf; [|done]. rewrite Hlen. unfold RT_MQ_ENTRY_MAX, RT_UINT16_MAX. lia. }
  destruct (push_free_spec _ 0 x2 [] Hwf) as (x3 & E3 & H3 & S1 & S2 & S3 & S4).
  rewrite <-Hlen. unfold zlen at 1. rewrite Nat2Z.id. wp_steps. apply wp_kernel, wp_put_mq. wp_steps.
  apply wp_kernel, wp_init_head. wp_steps.
  split; [done|]. eexists. split; [done|]. split; [by apply born_senders, born_mq|].
  eexists. split; [apply lookup_insert_eq|]. split; [exact S1|]. split; [exact S2|]. split; [simpl; rewrite S4; by simpl|].
  split; [simpl; unfold zlen; by rewrite S3|]. destruct H3. eexists. constructor; try done.
Qed.
End WithMemory.
End Lifecycle.
