(* ===== verification/Ownership.v ===== *)
(** * Who owns the heap

    Deleting the objects that Lifecycle.v creates, with the threads that wait
    for them, and the ledger of live objects: at any time the heap holds the
    blocks of the live objects and the blocks that were there before, and
    nothing else. *)
From S2P Require Import Prelude Kernel Scheduler Object Timer Thread Ipc Decide Scenario Scheduling Registry Semaphore Mutex Event Mailbox MessageQueue Heap Allocator HeapLock MemPool Device Dynamic Lifecycle.

Section Ownership.
Context `{!AllocOps system, !AllocSpec system}.
Implicit Types (k : kernel) (ps : pool_table) (h : heap) (bs : gmap addr Z).

(** ** Resuming the waiters *)
Section Resumed.
Context (q : qid) (k k' : kernel) (Hk : kernel_inv k) (Hw : waiting q).
Context (Hra : resumes_all q (queue k q) k k').

Lemma resumed_same_threads b : threads k' !! b = None ↔ threads k !! b = None.
Proof.
  destruct (decide (b ∈ queue k q)) as [Hin|Hin]; [|by rewrite (ra_rest _ _ _ _ Hra)].
  destruct (ra_woken _ _ _ _ Hra b Hin) as (th' & E & _).
  destruct (si_waiting _ _ _ _ _ (ki_sched _ Hk) b q Hw Hin) as (th & E' & _). naive_solver.
Qed.
Lemma resumed_vacant b : vacant b k → vacant b k'.
Proof.
  rewrite !vacant_fields. intros [].
  destruct (objs_fields _ _ (ra_objs _ _ _ _ Hra)) as (E1 & E2 & E3 & E4 & E5 & _ & _ & _ & _ & E6 & _).
  destruct (objs_fields_rest _ _ (ra_objs _ _ _ _ Hra)) as (E7 & E8 & _).
  constructor; rewrite ?E1, ?E2, ?E3, ?E4, ?E5, ?E6, ?E7, ?E8; try done.
  - by apply resumed_same_threads.
  - by apply (ra_timers _ _ _ _ Hra).
  - by apply (ra_timers _ _ _ _ Hra).
  - apply (ra_heads _ _ _ _ Hra); [by intros []|done].
  - apply (ra_heads _ _ _ _ Hra); [by intros []|done].
Qed.
Lemma resumed_header type r : type ≠ RT_Object_Class_Thread → type ≠ RT_Object_Class_Timer →
  object_header k' type r = object_header k type r.
Proof.
  intros H1 H2.
  destruct (objs_fields _ _ (ra_objs _ _ _ _ Hra)) as (E1 & E2 & E3 & E4 & E5 & _).
  destruct (objs_fields_rest _ _ (ra_objs _ _ _ _ Hra)) as (E6 & E7 & _).
  unfold object_header. do 2 (case_decide; [done|]). by rewrite E1, E2, E3, E4, E5, E6, E7.
Qed.
Lemma resumed_houses type a : plain_class type → houses type a k → houses type a k'.
Proof.
  intros Hp H. destruct (plain_no_thread _ _ _ Hp H) as (Hn1 & Hn2 & Hn3).
  destruct (objs_fields _ _ (ra_objs _ _ _ _ Hra)) as (_ & _ & _ & _ & _ & _ & _ & _ & _ & El & _).
  destruct H as [Ht Ho Ho' Htt Hl]. split; [done| | | |by rewrite El].
  - rewrite resumed_header; [done| |]; by plain_cases Hp.
  - intros type' Hne. destruct (decide (type' = RT_Object_Class_Thread)) as [->|].
    { change (th_parent <$> threads k' !! a = None). by rewrite (proj2 (resumed_same_threads a) Hn1). }
    destruct (decide (type' = RT_Object_Class_Timer)) as [->|].
    { change (tm_parent <$> timers k' !! Obj a = None). by rewrite (proj2 (ra_timers _ _ _ _ Hra (Obj a)) Hn2). }
    rewrite resumed_header by done. by apply Ho'.
  - intros _. by apply (ra_timers _ _ _ _ Hra).
Qed.
Lemma resumed_world h bs : q ≠ QSuspend guard → world k h bs → world k' h bs.
Proof.
  intros Hq [Hu Hb Hv Hls].
  destruct (objs_fields _ _ (ra_objs _ _ _ _ Hra)) as (E1 & _ & _ & _ & _ & _ & _ & _ & En & El & _). split.
  - apply (guard_frame k); [done|by rewrite E1| |done]. apply (ra_others _ _ _ _ Hra); [by intros []|congruence].
  - done.
  - intros b H1 H2. by apply resumed_vacant, Hv.
  - by rewrite El.
Qed.
Lemma resumed_ok : kernel_ok k'.
Proof. split; apply Hra. Qed.
End Resumed.

(** The object is gone, its waiters are woken. *)
Lemma erased_ok type a k : plain_class type → houses type a k → kernel_ok k → kernel_ok (erase_at a k).
Proof.
  intros Hp Hh [Hk Hc]. pose proof (plain_no_thread _ _ _ Hp Hh) as Hn.
  assert (local a k (erase_at a k)) as Hl by apply erase_erase. split.
  - eapply (kernel_inv_local a k); [done|done|done|apply vacant_no_thread, erase_vacant| |]; unfold queue, erase_at; ksimpl.
    + by rewrite lookup_delete_ne, lookup_delete_eq.
    + by rewrite lookup_delete_eq.
  - eapply current_ok_local; [done|done|]. destruct Hc as (th & Ht & _). intros E. rewrite E in Ht.
    destruct Hn as [Hn _]. congruence.
Qed.

(** A heap object without waiters elsewhere: of class [type], not static. *)
Record owned (type : Z) (a : addr) (o : rt_object) (k : kernel) : Prop := {
  ow_plain : plain_class type;
  ow_houses : houses type a k;
  ow_header : object_header k type (Obj a) = Some o;
  ow_type : obj_type o = type
}.
Lemma owned_flags type a o k :
  owned type a o k → rt_object_get_type o = type ∧ rt_object_is_systemobject o = false ∧
  Z.land (obj_type o) RT_Object_Class_Static = 0.
Proof.
  intros [Hp _ _ Ht]. unfold rt_object_get_type, rt_object_is_systemobject. rewrite Ht.
  clear Ht. by plain_cases Hp.
Qed.
Lemma owned_resumed q k k' type a o :
  kernel_inv k → waiting q → resumes_all q (queue k q) k k' → owned type a o k → owned type a o k'.
Proof.
  intros Hk Hw Hra [Hp Hh Ho Ht]. split; [done|by eapply resumed_houses| |done].
  rewrite (resumed_header q k k' Hra); [done| |]; by plain_cases Hp.
Qed.

Lemma owned_deleted type a o k ps h bs n :
  world k h bs → kernel_ok k → owned type a o k → bs !! a = Some n →
  wp (rt_object_delete type a) (mkSystem k ps h) (λ _ s', ∃ h',
    s' = mkSystem (erase_at a k) (delete a ps) h' ∧ world (erase_at a k) h' (delete a bs) ∧ kernel_ok (erase_at a k)).
Proof.
  intros Hw Hk Ho Hb. destruct (owned_flags _ _ _ _ Ho) as (_ & _ & Hs). destruct Ho as [Hp Hh Ho Hty].
  eapply wp_mono; [by eapply (delete_spec type a o n)|]. intros _ s' (h' & -> & Hw').
  exists h'. split; [done|]. split; [done|]. by eapply erased_ok.
Qed.

(** The effect of deleting the object at [a]: every thread that waited for it
    is ready, with [-RT_ERROR]; then the kernel without the object. *)
Definition deletion (type : Z) (a : addr) (qs : list qid) k ps bs (r : Z) (s' : system) : Prop :=
  r = RT_EOK ∧ ∃ k1 h', s' = mkSystem (erase_at a k1) (delete a ps) h' ∧
    world (erase_at a k1) h' bs ∧ kernel_ok (erase_at a k1) ∧ objs_same k k1 ∧
    rt_current_thread k1 = rt_current_thread k ∧
    (∀ b, vacant b k → vacant b k1) ∧ (∀ type' b o, owned type' b o k → owned type' b o k1) ∧
    (∀ q, ¬ ready_list q → q ∉ qs → queue k1 q = queue k q) ∧
    (∀ q t, q ∈ qs → t ∈ queue k q → ∃ th, threads k1 !! t = Some th ∧ error th = - RT_ERROR ∧
       (stat_of th = RT_THREAD_RUNNING ∨ stat_of th = RT_THREAD_READY)).

Lemma wp_resume_all q k ps h bs (Q : Z → system → Prop) :
  world k h bs → kernel_ok k → waiting q → q ≠ QSuspend guard →
  (∀ r k1, resumes_all q (queue k q) k k1 → world k1 h bs → kernel_ok k1 → Q r (mkSystem k1 ps h)) →
  wp (zoom (rt_ipc_list_resume_all q)) (mkSystem k ps h) Q.
Proof.
  intros Hw [Hk Hc] Hq Hg HQ. apply wp_kernel. eapply wp_mono; [by apply resume_all_spec|].
  intros r k1 Hra. apply (HQ r k1 Hra); [apply (resumed_world q k k1 Hk Hq Hra h bs Hg Hw)|apply (resumed_ok q k k1 Hra)].
Qed.

(** Classes with one wait list: resume, delete. *)
Lemma delete_waiters type a o n k ps h bs :
  world k h bs → kernel_ok k → owned type a o k → bs !! a = Some n →
  wp (zoom (rt_ipc_list_resume_all (QSuspend a));; rt_object_delete type a;; mret RT_EOK) (mkSystem k ps h)
    (deletion type a [QSuspend a] k ps (delete a bs)).
Proof.
  intros Hw Hk Ho Hb. pose proof (guard_not a (blocks_inside _ _ _ _ (wo_blocks _ _ _ Hw) Hb)) as Hg.
  wp_steps. eapply wp_resume_all; [done|done|done|congruence|]. intros r k1 Hra Hw1 Hk1. wp_steps.
  eapply wp_mono; [eapply owned_deleted; [done|done|apply (owned_resumed (QSuspend a) k k1 type a o (proj1 Hk) I Hra Ho)|done]|].
  intros _ s' (h' & -> & Hw' & Hk'). wp_steps. split; [done|]. exists k1, h'.
  split; [done|]. split; [done|]. split; [done|]. split; [apply Hra|]. split; [apply Hra|].
  split; [apply (resumed_vacant (QSuspend a) k k1 (proj1 Hk) I Hra)|].
  split; [intros type' b o'; apply (owned_resumed (QSuspend a) k k1 type' b o' (proj1 Hk) I Hra)|]. split.
  - intros q Hr Hq. apply (ra_others _ _ _ _ Hra); [done|]. intros ->. apply Hq. left.
  - intros q t Hq%list_elem_of_singleton Ht. subst q. by apply (ra_woken _ _ _ _ Hra).
Qed.

Lemma sem_delete_spec a x n k ps h bs :
  world k h bs → kernel_ok k → semaphores k !! a = Some x →
  owned RT_Object_Class_Semaphore a (sem_parent x) k → bs !! a = Some n →
  wp (rt_sem_delete a) (mkSystem k ps h) (deletion RT_Object_Class_Semaphore a [QSuspend a] k ps (delete a bs)).
Proof.
  intros Hw Hk Hx Ho Hb. destruct (owned_flags _ _ _ _ Ho) as (Ht & Hs & _).
  pose proof (area_not_null a (blocks_inside _ _ _ _ (wo_blocks _ _ _ Hw) Hb)) as Ha.
  unfold rt_sem_delete, assert_sem. apply wp_bind. eapply wp_eq; [by apply not_in_interrupt_eq; apply Hw|].
  apply wp_bind, wp_kernel. wp_steps. eapply wp_get_sem; [exact Hx|]. wp_steps.
  apply wp_kernel. eapply wp_get_sem; [exact Hx|]. apply wp_bind, wp_assert; [exact Hs|].
  by eapply delete_waiters.
Qed.
Lemma mutex_delete_spec a x n k ps h bs :
  world k h bs → kernel_ok k → mutexes k !! a = Some x →
  owned RT_Object_Class_Mutex a (mutex_parent x) k → bs !! a = Some n →
  wp (rt_mutex_delete a) (mkSystem k ps h) (deletion RT_Object_Class_Mutex a [QSuspend a] k ps (delete a bs)).
Proof.
  intros Hw Hk Hx Ho Hb. destruct (owned_flags _ _ _ _ Ho) as (Ht & Hs & _).
  pose proof (area_not_null a (blocks_inside _ _ _ _ (wo_blocks _ _ _ Hw) Hb)) as Ha.
  unfold rt_mutex_delete, assert_mutex. apply wp_bind. eapply wp_eq; [by apply not_in_interrupt_eq; apply Hw|].
  apply wp_bind, wp_kernel. wp_steps. eapply wp_get_mutex; [exact Hx|]. wp_steps.
  apply wp_kernel. eapply wp_get_mutex; [exact Hx|]. apply wp_bind, wp_assert; [exact Hs|].
  by eapply delete_waiters.
Qed.
Lemma event_delete_spec a x n k ps h bs :
  world k h bs → kernel_ok k → events k !! a = Some x →
  owned RT_Object_Class_Event a (event_parent x) k → bs !! a = Some n →
  wp (rt_event_delete a) (mkSystem k ps h) (deletion RT_Object_Class_Event a [QSuspend a] k ps (delete a bs)).
Proof.
  intros Hw Hk Hx Ho Hb. destruct (owned_flags _ _ _ _ Ho) as (Ht & Hs & _).
  pose proof (area_not_null a (blocks_inside _ _ _ _ (wo_blocks _ _ _ Hw) Hb)) as Ha.
  unfold rt_event_delete, assert_event.
  apply wp_bind, wp_kernel. wp_steps. eapply wp_get_event; [exact Hx|]. wp_steps.
  apply wp_kernel. eapply wp_get_event; [exact Hx|]. apply wp_bind, wp_assert; [exact Hs|].
  apply wp_bind. eapply wp_eq; [by apply not_in_interrupt_eq; apply Hw|].
  by eapply delete_waiters.
Qed.

(** Classes with two wait lists and a pool: resume, resume, free, delete. *)
Lemma delete_with_pool type a p o n m k ps h bs :
  world k h bs → kernel_ok k → owned type a o k → bs !! a = Some n →
  ps !! a = Some p → p ≠ a → bs !! p = Some m → vacant p k →
  wp (zoom (rt_ipc_list_resume_all (QSuspend a));; zoom (rt_ipc_list_resume_all (QSender a));;
      p ← get_pool a; release p;; rt_object_delete type a;; mret RT_EOK) (mkSystem k ps h)
    (deletion type a [QSuspend a; QSender a] k ps (delete a (delete p bs))).
Proof.
  intros Hw Hk Ho Hb Hps Hpa Hbp Hvp. pose proof (guard_not a (blocks_inside _ _ _ _ (wo_blocks _ _ _ Hw) Hb)) as Hg.
  apply wp_bind. apply (wp_resume_all (QSuspend a) k ps h bs); [done|done|done|congruence|]. intros r1 k1 Hra1 Hw1 Hk1.
  apply wp_bind. apply (wp_resume_all (QSender a) k1 ps h bs); [done|done|done|congruence|]. intros r2 k2 Hra2 Hw2 Hk2.
  unfold get_pool. wp_steps. apply wp_pools. wp_steps.
  assert (∀ b, vacant b k → vacant b k2) as Hvac.
  { intros b Hv. apply (resumed_vacant (QSender a) k1 k2 (proj1 Hk1) I Hra2).
    by apply (resumed_vacant (QSuspend a) k k1 (proj1 Hk) I Hra1). }
  assert (∀ type' b o', owned type' b o' k → owned type' b o' k2) as Hown.
  { intros type' b o' Hb'. apply (owned_resumed (QSender a) k1 k2 type' b o' (proj1 Hk1) I Hra2).
    apply (owned_resumed (QSuspend a) k k1 type' b o' (proj1 Hk) I Hra1 Hb'). }
  pose proof (Hown _ _ _ Ho) as Ho2.
  assert (queue k1 (QSender a) = queue k (QSender a)) as Eq.
  { apply (ra_others _ _ _ _ Hra1); [by intros []|done]. }
  eapply wp_mono; [apply (release_world k2 ps h bs p m Hw2 Hbp (Hvac p Hvp))|].
  intros _ s' (h1 & -> & Hw3). wp_steps.
  eapply wp_mono; [apply (owned_deleted type a o k2 ps h1 _ n Hw3 Hk2 Ho2); by rewrite lookup_delete_ne|].
  intros _ s' (h2 & -> & Hw4 & Hk4). wp_steps. split; [done|]. exists k2, h2.
  split; [reflexivity|]. split; [exact Hw4|]. split; [exact Hk4|].
  split; [exact (eq_trans (ra_objs _ _ _ _ Hra2) (ra_objs _ _ _ _ Hra1))|].
  split; [rewrite (ra_current _ _ _ _ Hra2); exact (ra_current _ _ _ _ Hra1)|]. split; [exact Hvac|]. split; [exact Hown|]. split.
  - intros q Hr [Hq1 Hq2]%not_elem_of_cons. rewrite list_elem_of_singleton in Hq2.
    rewrite (ra_others _ _ _ _ Hra2) by done. by apply (ra_others _ _ _ _ Hra1).
  - intros q t [->|Hq%list_elem_of_singleton]%elem_of_cons Ht.
    + rewrite (ra_rest _ _ _ _ Hra2); [by apply (ra_woken _ _ _ _ Hra1)|]. rewrite Eq. intros Ht'.
      by pose proof (si_disjoint _ _ _ _ _ (ki_sched _ (proj1 Hk)) _ _ _ Ht Ht').
    + subst q. apply (ra_woken _ _ _ _ Hra2). by rewrite Eq.
Qed.
Lemma mb_delete_spec a p x n m k ps h bs :
  world k h bs → kernel_ok k → mailboxes k !! a = Some x →
  owned RT_Object_Class_MailBox a (mb_parent x) k → bs !! a = Some n →
  ps !! a = Some p → p ≠ a → bs !! p = Some m → vacant p k →
  wp (rt_mb_delete a) (mkSystem k ps h)
    (deletion RT_Object_Class_MailBox a [QSuspend a; QSender a] k ps (delete a (delete p bs))).
Proof.
  intros Hw Hk Hx Ho Hb Hps Hpa Hbp Hvp. destruct (owned_flags _ _ _ _ Ho) as (Ht & Hs & _).
  pose proof (area_not_null a (blocks_inside _ _ _ _ (wo_blocks _ _ _ Hw) Hb)) as Ha.
  unfold rt_mb_delete, assert_mb. apply wp_bind. eapply wp_eq; [by apply not_in_interrupt_eq; apply Hw|].
  apply wp_bind, wp_kernel. wp_steps. eapply wp_get_mb; [exact Hx|]. wp_steps.
  apply wp_kernel. eapply wp_get_mb; [exact Hx|]. apply wp_bind, wp_assert; [exact Hs|].
  by eapply delete_with_pool.
Qed.
Lemma mq_delete_spec a p x n m k ps h bs :
  world k h bs → kernel_ok k → mqueues k !! a = Some x →
  owned RT_Object_Class_MessageQueue a (mq_parent x) k → bs !! a = Some n →
  ps !! a = Some p → p ≠ a → bs !! p = Some m → vacant p k →
  wp (rt_mq_delete a) (mkSystem k ps h)
    (deletion RT_Object_Class_MessageQueue a [QSuspend a; QSender a] k ps (delete a (delete p bs))).
Proof.
  intros Hw Hk Hx Ho Hb Hps Hpa Hbp Hvp. destruct (owned_flags _ _ _ _ Ho) as (Ht & Hs & _).
  pose proof (area_not_null a (blocks_inside _ _ _ _ (wo_blocks _ _ _ Hw) Hb)) as Ha.
  unfold rt_mq_delete, assert_mq. apply wp_bind. eapply wp_eq; [by apply not_in_interrupt_eq; apply Hw|].
  apply wp_bind, wp_kernel. wp_steps. eapply wp_get_mq; [exact Hx|]. wp_steps.
  apply wp_kernel. eapply wp_get_mq; [exact Hx|]. apply wp_bind, wp_assert; [exact Hs|].
  by eapply delete_with_pool.
Qed.

(** ** The ledger of live objects: their class and second block *)
Abbreviation ledger := (gmap addr (Z * option addr)).
Implicit Types L : ledger.

Definition one_block (type : Z) : Prop :=
  type = RT_Object_Class_Semaphore ∨ type = RT_Object_Class_Mutex ∨ type = RT_Object_Class_Event.
Definition two_blocks (type : Z) : Prop := type = RT_Object_Class_MailBox ∨ type = RT_Object_Class_MessageQueue.

Record live_object (k : kernel) (ps : pool_table) (bs : gmap addr Z) (a : addr) (type : Z) (po : option addr) : Prop := {
  li_owned : ∃ o, owned type a o k;
  li_block : is_Some (bs !! a);
  li_pool : match po with
            | None => one_block type
            | Some p => two_blocks type ∧ ps !! a = Some p ∧ p ≠ a ∧ is_Some (bs !! p) ∧ vacant p k
            end
}.
(** The live objects are there and share no block. *)
Record ledger_ok (k : kernel) (ps : pool_table) (bs : gmap addr Z) (L : ledger) : Prop := {
  le_live a type po : L !! a = Some (type, po) → live_object k ps bs a type po;
  le_apart a b ta tb p : L !! a = Some (ta, Some p) → L !! b = Some (tb, Some p) → a = b
}.
(** [b] is the block of a live object, or its second one. *)
Definition owns (L : ledger) (b : addr) : Prop := is_Some (L !! b) ∨ ∃ a type, L !! a = Some (type, Some b).
(** The blocks in use are those of the live objects and [bs0]. *)
Record accounts (bs0 : gmap addr Z) (L : ledger) (bs : gmap addr Z) : Prop := {
  ac_owned b : owns L b → bs0 !! b = None ∧ is_Some (bs !! b);
  ac_rest b : ¬ owns L b → bs !! b = bs0 !! b
}.

Lemma accounts_empty bs0 bs : accounts bs0 ∅ bs → bs = bs0.
Proof.
  intros [_ Hr]. apply map_eq. intros b. apply Hr. by intros [[? ?]|(a & type & ?)].
Qed.

Lemma header_local a b type k k' : local b k k' → a ≠ b → object_header k' type (Obj a) = object_header k type (Obj a).
Proof.
  intros Hl Hne. apply local_fields in Hl. destruct (lo_objects _ _ _ Hl a Hne) as (E1 & E2 & E3 & E4 & E5 & E6 & E7).
  unfold object_header, header_at. rewrite E1, E2, E3, E4, E5, E6, E7, (lo_thread _ _ _ Hl a Hne).
  by rewrite (lo_timer _ _ _ Hl (Obj a)) by congruence.
Qed.
Lemma houses_local a b type k k' : local b k k' → a ≠ b → houses type a k → houses type a k'.
Proof.
  intros Hl Hne [Ht Ho Ho' Htt Hls]. pose proof (header_local a b) as He. split; [done| | | |].
  - by rewrite (He _ _ _ Hl).
  - intros type' Hn. rewrite (He _ _ _ Hl) by done. by apply Ho'.
  - intros Hn. apply local_fields in Hl. rewrite (lo_timer _ _ _ Hl) by congruence. by apply Htt.
  - intros type' l Hl' Hin. apply local_fields in Hl.
    destruct (lo_list _ _ _ Hl type' a l Hne Hl') as (l0 & E & _ & Hin'). by eapply Hls; [|apply Hin'].
Qed.
Lemma owned_local a b type o k k' : local b k k' → a ≠ b → owned type a o k → owned type a o k'.
Proof.
  intros Hl Hne [Hp Hh Ho Hty]. split; [done|by eapply houses_local| |done]. by rewrite (header_local a b type k k').
Qed.
Lemma live_change k k' ps ps' bs bs' a type po :
  live_object k ps bs a type po →
  (∀ o, owned type a o k → owned type a o k') → (∀ p, po = Some p → vacant p k → vacant p k') →
  ps' !! a = ps !! a → (is_Some (bs !! a) → is_Some (bs' !! a)) →
  (∀ p, po = Some p → is_Some (bs !! p) → is_Some (bs' !! p)) → live_object k' ps' bs' a type po.
Proof.
  intros [[o Ho] Hb Hp] H1 H2 H3 H4 H5. split; [exists o; auto|auto|].
  destruct po as [p|]; [|done]. destruct Hp as (? & ? & ? & ? & ?). split; [done|]. rewrite H3.
  split; [done|]. split; [done|]. split; [by apply H5|by apply H2].
Qed.

Record ledger_inv (bs0 : gmap addr Z) (L : ledger) (s : system) (bs : gmap addr Z) : Prop := {
  in_world : world (sy_kernel s) (sy_heap s) bs;
  in_kernel : kernel_ok (sy_kernel s);
  in_ledger : ledger_ok (sy_kernel s) (sy_pools s) bs L;
  in_accounts : accounts bs0 L bs
}.

Lemma live_in_use k ps bs L b : ledger_ok k ps bs L → owns L b → is_Some (bs !! b).
Proof.
  intros [Hl _] [[[type po] Hb]|(a & type & Ha)]; [by apply (li_block _ _ _ _ _ _ (Hl _ _ _ Hb))|].
  by destruct (li_pool _ _ _ _ _ _ (Hl _ _ _ Ha)) as (_ & _ & _ & ? & _).
Qed.
Lemma unowned k ps bs L b : ledger_ok k ps bs L → bs !! b = None → ¬ owns L b.
Proof. intros Hl Hb Ho. destruct (live_in_use _ _ _ _ _ Hl Ho). congruence. Qed.

Lemma accounts_insert bs0 L bs a type po n :
  accounts bs0 L bs → ¬ owns L a → (∀ p, po = Some p → ¬ owns L p) → bs !! a = None → (∀ p, po = Some p → bs !! p = None) →
  accounts bs0 (<[a := (type, po)]> L)
    (match po with None => <[a := n.1]> bs | Some p => <[p := n.2]> (<[a := n.1]> bs) end).
Proof.
  intros [H1 H2] Ha Hp Hb Hbp.
  assert (L !! a = None) as HLa by (apply eq_None_not_Some; intros ?; apply Ha; by left).
  assert (∀ b, owns (<[a := (type, po)]> L) b ↔ b = a ∨ po = Some b ∨ owns L b) as Hiff.
  { intros b. unfold owns. split.
    - intros [Hs|(c & t & Hc)].
      + destruct (decide (b = a)) as [->|]; [by left|]. rewrite lookup_insert_ne in Hs by done. auto.
      + apply lookup_insert_Some in Hc as [[<- [= <- ->]]|[_ Hc]]; [auto|]. right; right; right. eauto.
    - intros [->|[->|[Hs|(c & t & Hc)]]].
      + left. rewrite lookup_insert_eq. eauto.
      + right. exists a, type. by rewrite lookup_insert_eq.
      + left. destruct (decide (b = a)) as [->|]; [rewrite lookup_insert_eq|rewrite lookup_insert_ne by done]; eauto.
      + right. exists c, t. rewrite lookup_insert_ne; [done|]. congruence. }
  split.
  - intros b [->|[->|Hb']]%Hiff.
    + split; [by rewrite <-H2|]. destruct po as [p|]; [destruct (decide (p = a)) as [->|]|];
        rewrite ?lookup_insert_ne, ?lookup_insert_eq by done; eauto.
    + split; [rewrite <-H2 by auto; auto|]. rewrite lookup_insert_eq. eauto.
    + destruct (H1 b Hb') as [? Hs]. split; [done|]. destruct po as [p|];
        rewrite !lookup_insert_ne; try done; intros <-; naive_solver.
  - intros b Hb'. rewrite Hiff in Hb'. destruct po as [p|]; rewrite !lookup_insert_ne by naive_solver;
      apply H2; naive_solver.
Qed.
Lemma accounts_delete bs0 L bs a type po :
  accounts bs0 L bs → L !! a = Some (type, po) →
  (∀ b tb p, L !! b = Some (tb, Some p) → p ≠ a) →
  (∀ b tb p, po = Some p → L !! b = Some (tb, Some p) → b = a) → (∀ p, po = Some p → L !! p = None) →
  accounts bs0 (delete a L) (match po with None => delete a bs | Some p => delete a (delete p bs) end).
Proof.
  intros [H1 H2] Ha Hpa Hpp HpL.
  assert (∀ b, owns L b ↔ b = a ∨ po = Some b ∨ owns (delete a L) b) as Hiff.
  { intros b. unfold owns. split.
    - intros [Hs|(c & t & Hc)].
      + destruct (decide (b = a)) as [->|]; [by left|]. right; right. left. by rewrite lookup_delete_ne.
      + destruct (decide (c = a)) as [->|]; [right; left; congruence|]. right; right; right. exists c, t. by rewrite lookup_delete_ne.
    - intros [->|[->|[Hs|(c & t & Hc)]]]; [left; eauto|right; eauto| |].
      + left. destruct Hs as [? [_ Hs]%lookup_delete_Some]. eauto.
      + right. apply lookup_delete_Some in Hc as [_ Hc]. eauto. }
  assert (∀ b, owns (delete a L) b → b ≠ a ∧ po ≠ Some b) as Hnot.
  { intros b [[? [Hne Hs]%lookup_delete_Some]|(c & t & [Hne Hc]%lookup_delete_Some)].
    - split; [done|]. intros ->. by rewrite (HpL b) in Hs.
    - split; [by eapply Hpa|]. intros ->. by destruct Hne; rewrite (Hpp c t b). }
  split.
  - intros b Hb. destruct (Hnot b Hb) as [Hba Hbp]. destruct (H1 b) as [? ?]; [apply Hiff; auto|]. split; [done|].
    destruct po as [p|]; rewrite !lookup_delete_ne by congruence; done.
  - intros b Hb. destruct (decide (b = a)) as [->|Hba].
    { destruct (H1 a) as [-> _]; [apply Hiff; auto|]. by destruct po; rewrite lookup_delete_eq. }
    destruct po as [p|]; rewrite (lookup_delete_ne _ a) by done; [|apply H2; naive_solver].
    destruct (decide (b = p)) as [->|]; [rewrite lookup_delete_eq; symmetry; apply H1, Hiff; auto|].
    rewrite lookup_delete_ne by done. apply H2. naive_solver.
Qed.

(** ** The ledger under creation and deletion *)
Lemma one_block_plain type : one_block type → plain_class type.
Proof. intros [->|[->| ->]]; by_evaluation. Qed.
Lemma two_blocks_plain type : two_blocks type → plain_class type.
Proof. intros [->| ->]; by_evaluation. Qed.

(** A new object beside the live ones. *)
Lemma ledger_insert k k' ps ps' bs bs' L a type po :
  ledger_ok k ps bs L → local a k k' → bs !! a = None → vacant a k →
  (∀ b, b ≠ a → ps' !! b = ps !! b) → (∀ b, is_Some (bs !! b) → is_Some (bs' !! b)) →
  live_object k' ps' bs' a type po → (∀ p, po = Some p → bs !! p = None) →
  ledger_ok k' ps' bs' (<[a := (type, po)]> L).
Proof.
  intros [Hl Ha] Hloc Hb Hv Hps Hbs Hnew Hpo. split.
  - intros b tb pb [[<- [= <- <-]]|[Hne Hb']]%lookup_insert_Some; [done|]. pose proof (Hl b tb pb Hb') as Hli.
    eapply live_change; [exact Hli| | |by apply Hps|by apply Hbs|intros; by apply Hbs].
    + intros o. by apply (owned_local b a).
    + intros p -> Hvp. apply (local_vacant a p k); [done| |done]. intros ->.
      destruct (li_pool _ _ _ _ _ _ Hli) as (_ & _ & _ & [? ?] & _). congruence.
  - assert (∀ b tb p, L !! b = Some (tb, Some p) → is_Some (bs !! p)) as Hin.
    { intros b tb p Hb'. by destruct (li_pool _ _ _ _ _ _ (Hl _ _ _ Hb')) as (_ & _ & _ & ? & _). }
    assert (∀ b tb p, po = Some p → ¬ L !! b = Some (tb, Some p)) as Hout.
    { intros b tb p E Hb'. destruct (Hin _ _ _ Hb') as [? Hs]. by rewrite (Hpo p E) in Hs. }
    intros b c tb tc p [[<- H1]|[_ H1]]%lookup_insert_Some [[<- H2]|[_ H2]]%lookup_insert_Some;
      [done| | |by eapply Ha].
    + injection H1 as _ E. by destruct (Hout c tc p E).
    + injection H2 as _ E. by destruct (Hout b tb p E).
Qed.

Lemma born_owned type a k k' o :
  plain_class type → born type a k k' → object_header k' type (Obj a) = Some o → obj_type o = type → owned type a o k'.
Proof. intros Hp [_ Hh _ _ _] Ho Hty. done. Qed.

Definition created (bs0 : gmap addr Z) (L : ledger) (type : Z) (a : addr) (s' : system) : Prop :=
  (a = RT_NULL ∧ ∃ bs', ledger_inv bs0 L s' bs') ∨
  (a ≠ RT_NULL ∧ L !! a = None ∧ ∃ po bs', (po = None ↔ one_block type) ∧ ledger_inv bs0 (<[a := (type, po)]> L) s' bs').

Lemma create_one bs0 L k ps h bs type (at_end : addr → kernel → Prop) a s' :
  ledger_inv bs0 L (mkSystem k ps h) bs → one_block type →
  (∀ k', at_end a k' → ∃ o, object_header k' type (Obj a) = Some o ∧ obj_type o = type) →
  creation type k ps h bs at_end a s' → created bs0 L type a s'.
Proof.
  intros [Hw Hk Hl Hac] Hone Hend [[-> ->]|(Ha & Hb & k' & h' & n & -> & Hn & Hw' & Hk' & Hv & Hbo & He)].
  { left. split; [done|]. by exists bs. }
  destruct (Hend k' He) as (o & Ho & Hty). simpl in *.
  right. split; [done|]. pose proof (unowned _ _ _ _ a Hl Hb) as Hun.
  split; [apply eq_None_not_Some; intros ?; apply Hun; by left|]. exists None, (<[a := n]> bs).
  split; [done|]. split; simpl; [done|done| |].
  - eapply ledger_insert; [done|apply Hbo|done|done|done| | |done].
    + intros b Hs. by apply lookup_insert_is_Some'; auto.
    + split; [|rewrite lookup_insert_eq; eauto|done]. exists o. by eapply born_owned; [apply one_block_plain| | |].
  - by apply (accounts_insert bs0 L bs a type None (n, 0)).
Qed.

Lemma create_two bs0 L k ps h bs type need (at_end : addr → addr → kernel → Prop) a s' :
  ledger_inv bs0 L (mkSystem k ps h) bs → two_blocks type →
  (∀ p k', at_end a p k' → ∃ o, object_header k' type (Obj a) = Some o ∧ obj_type o = type) →
  pool_creation type need k ps bs at_end a s' → created bs0 L type a s'.
Proof.
  intros [Hw Hk Hl Hac] Htwo Hend. simpl in *.
  intros [(-> & b & h' & Hs & Hw')|(Ha & Hb & p & k' & h' & n & m & -> & Hn & Hp & Hpa & Hbp & Hvp & Hm & Hw' & Hk' & Hv & Hbo & He)].
  - left. split; [done|]. exists bs. destruct Hs as [->|[Hb ->]]; [done|]. split; simpl; [done|done| |done].
    destruct Hl as [Hl Hap]. split; [|done]. intros a type' po HL. pose proof (Hl _ _ _ HL) as Hli.
    eapply live_change; [exact Hli|done|done| |done|done]. apply lookup_delete_ne.
    intros ->. destruct (li_block _ _ _ _ _ _ Hli). congruence.
  - destruct (Hend p k' He) as (o & Ho & Hty). right. split; [done|].
    pose proof (unowned _ _ _ _ a Hl Hb) as Hun. pose proof (unowned _ _ _ _ p Hl Hbp) as Hunp.
    split; [apply eq_None_not_Some; intros ?; apply Hun; by left|]. exists (Some p), (<[p := m]> (<[a := n]> bs)).
    split; [split; [done|]; destruct Htwo as [->| ->]; by intros [E|[E|E]]|]. split; simpl; [done|done| |].
    + eapply ledger_insert; [done|apply Hbo|done|done| | | |by intros ? [= <-]].
      * intros c Hc. by apply lookup_insert_ne.
      * intros c Hs. do 2 (apply lookup_insert_is_Some'; right). done.
      * split; [exists o; by eapply born_owned; [apply two_blocks_plain| | |]| |].
        { rewrite lookup_insert_ne, lookup_insert_eq by done. eauto. }
        split; [done|]. split; [apply (lookup_insert_eq (M := gmap addr))|]. split; [done|]. split; [|done].
        rewrite lookup_insert_eq. eauto.
    + by apply (accounts_insert bs0 L bs a type (Some p) (n, m)); try done; intros ? [= <-].
Qed.

Lemma owned_not_vacant type a o k : owned type a o k → ¬ vacant a k.
Proof.
  intros [Hp _ Ho _] Hv%vacant_fields. destruct Hv.
  plain_cases Hp; apply fmap_Some in Ho as (x & Hx & _); simpl in Hx; congruence.
Qed.
(** A second block is not an object, nor another object's second block. *)
Lemma pool_no_object k ps bs L b tb p : ledger_ok k ps bs L → L !! b = Some (tb, Some p) → L !! p = None.
Proof.
  intros [Hl _] Hb. destruct (li_pool _ _ _ _ _ _ (Hl _ _ _ Hb)) as (_ & _ & _ & _ & Hv).
  apply eq_None_not_Some. intros [[type po] Hp]. destruct (li_owned _ _ _ _ _ _ (Hl _ _ _ Hp)) as [o Ho].
  by eapply owned_not_vacant.
Qed.

Lemma delete_step bs0 L k ps h bs type a po qs r s' :
  ledger_inv bs0 L (mkSystem k ps h) bs → L !! a = Some (type, po) →
  deletion type a qs k ps (match po with None => delete a bs | Some p => delete a (delete p bs) end) r s' →
  r = RT_EOK ∧ ∃ bs', ledger_inv bs0 (delete a L) s' bs'.
Proof.
  intros [Hw Hk Hl Hac] HL (-> & k1 & h' & -> & Hw' & Hk' & _ & _ & Hvac & Hown & _). simpl in *.
  pose proof (pool_no_object k ps bs L) as Hno. pose proof Hl as [Hlive Hap].
  assert (∀ b tb p, L !! b = Some (tb, Some p) → p ≠ a) as Hpa.
  { intros b tb p Hb ->. specialize (Hno _ _ _ Hl Hb). congruence. }
  assert (∀ b tb p, po = Some p → L !! b = Some (tb, Some p) → b = a) as Hpp.
  { intros b tb p -> Hb. by eapply Hap. }
  assert (∀ p, po = Some p → L !! p = None) as HpL by (intros p ->; by eapply Hno).
  split; [done|]. eexists. split; simpl; [exact Hw'|exact Hk'| |by eapply accounts_delete].
  assert (local a k1 (erase_at a k1)) as Hloc by apply erase_erase. split.
  - intros b tb pb [Hne Hb]%lookup_delete_Some.
    assert (∀ c, is_Some (bs !! c) → c ≠ a → po ≠ Some c →
      is_Some ((match po with None => delete a bs | Some p => delete a (delete p bs) end) !! c)) as Hsome.
    { intros c Hc H1 H2. destruct po as [p|]; rewrite !lookup_delete_ne by congruence; done. }
    eapply live_change; [by apply Hlive| | | | |].
    + intros o Ho. eapply owned_local; [exact Hloc|done|by apply Hown].
    + intros p -> Hv. eapply local_vacant; [exact Hloc|by eapply Hpa|by apply Hvac].
    + by apply (lookup_delete_ne (M := gmap addr)).
    + intros Hs. apply Hsome; [done|done|]. intros E. by rewrite (HpL b E) in Hb.
    + intros p -> Hs. apply Hsome; [done|by eapply Hpa|]. intros E. by apply Hne; symmetry; eapply Hpp.
  - intros b c tb tc p [_ Hb]%lookup_delete_Some [_ Hc]%lookup_delete_Some. by eapply Hap.
Qed.

(** ** Programs that create and delete objects *)
Inductive object_op :=
  | CreateSem (name : list Z) (value flag : Z) | DeleteSem (a : addr)
  | CreateMutex (name : list Z) (flag : Z) | DeleteMutex (a : addr)
  | CreateEvent (name : list Z) (flag : Z) | DeleteEvent (a : addr)
  | CreateMb (name : list Z) (size flag : Z) | DeleteMb (a : addr)
  | CreateMq (name : list Z) (msg_size max_msgs flag : Z) | DeleteMq (a : addr).

Section Programs.
Context (stale_word : addr → Z) (stale_bytes : addr → list Z).

Definition object_do (op : object_op) : M system Z :=
  match op with
  | CreateSem name value flag => rt_sem_create name value flag
  | DeleteSem a => rt_sem_delete a
  | CreateMutex name flag => rt_mutex_create name flag
  | DeleteMutex a => rt_mutex_delete a
  | CreateEvent name flag => rt_event_create name flag
  | DeleteEvent a => rt_event_delete a
  | CreateMb name size flag => rt_mb_create stale_word name size flag
  | DeleteMb a => rt_mb_delete a
  | CreateMq name msg_size max_msgs flag => rt_mq_create stale_bytes name msg_size max_msgs flag
  | DeleteMq a => rt_mq_delete a
  end.
(** The class a call is about, and the object it deletes. *)
Definition op_class (op : object_op) : Z :=
  match op with
  | CreateSem _ _ _ | DeleteSem _ => RT_Object_Class_Semaphore
  | CreateMutex _ _ | DeleteMutex _ => RT_Object_Class_Mutex
  | CreateEvent _ _ | DeleteEvent _ => RT_Object_Class_Event
  | CreateMb _ _ _ | DeleteMb _ => RT_Object_Class_MailBox
  | CreateMq _ _ _ _ | DeleteMq _ => RT_Object_Class_MessageQueue
  end.
Definition op_deletes (op : object_op) : option addr :=
  match op with
  | DeleteSem a | DeleteMutex a | DeleteEvent a | DeleteMb a | DeleteMq a => Some a
  | _ => None
  end.
(** A program deletes only live objects of the right class, once. *)
Definition op_ok (L : ledger) (op : object_op) : Prop :=
  match op with
  | CreateSem _ value _ => value < 65536
  | CreateMq _ msg_size _ _ => 0 ≤ msg_size ≤ 2 ^ 32 - 4
  | _ => ∀ a, op_deletes op = Some a → fst <$> L !! a = Some (op_class op)
  end.
(** What a call may answer: the address of a new object, or [RT_NULL]; or that
    the object is gone. *)
Inductive object_step (L : ledger) (op : object_op) : Z → ledger → Prop :=
  | step_none : op_deletes op = None → object_step L op RT_NULL L
  | step_new a po : op_deletes op = None → a ≠ RT_NULL → L !! a = None →
      (po = None ↔ one_block (op_class op)) → object_step L op a (<[a := (op_class op, po)]> L)
  | step_gone a : op_deletes op = Some a → object_step L op RT_EOK (delete a L).

Lemma created_step bs0 L op a s' :
  op_deletes op = None → created bs0 L (op_class op) a s' →
  ∃ L' bs', object_step L op a L' ∧ ledger_inv bs0 L' s' bs'.
Proof.
  intros Hd [(-> & bs' & Hi)|(Ha & HL & po & bs' & Hpo & Hi)].
  - exists L, bs'. split; [by constructor|done].
  - exists (<[a := (op_class op, po)]> L), bs'. split; [by constructor|done].
Qed.

Lemma live_struct type a o k :
  owned type a o k →
  (type = RT_Object_Class_Semaphore → ∃ x, semaphores k !! a = Some x ∧ sem_parent x = o) ∧
  (type = RT_Object_Class_Mutex → ∃ x, mutexes k !! a = Some x ∧ mutex_parent x = o) ∧
  (type = RT_Object_Class_Event → ∃ x, events k !! a = Some x ∧ event_parent x = o) ∧
  (type = RT_Object_Class_MailBox → ∃ x, mailboxes k !! a = Some x ∧ mb_parent x = o) ∧
  (type = RT_Object_Class_MessageQueue → ∃ x, mqueues k !! a = Some x ∧ mq_parent x = o).
Proof.
  intros [_ _ Ho _]. repeat split; intros ->; apply fmap_Some in Ho as (x & Hx & ->); by exists x.
Qed.

Lemma deletes_one bs0 L k ps h bs a type (run : M system Z) :
  one_block type →
  (∀ o n, owned type a o k → bs !! a = Some n →
     wp run (mkSystem k ps h) (deletion type a [QSuspend a] k ps (delete a bs))) →
  ledger_inv bs0 L (mkSystem k ps h) bs → fst <$> L !! a = Some type →
  wp run (mkSystem k ps h) (λ r s', r = RT_EOK ∧ ∃ bs', ledger_inv bs0 (delete a L) s' bs').
Proof.
  intros Hone Hrun Hi HL. destruct (L !! a) as [[type' po]|] eqn:E; [|done]. injection HL as ->.
  destruct (le_live _ _ _ _ (in_ledger _ _ _ _ Hi) _ _ _ E) as [[o Ho] [n Hn] Hp].
  destruct po as [p|]; [destruct Hp as [Htwo _]; exfalso; destruct Hone as [->|[->| ->]]; by destruct Htwo|].
  eapply wp_mono; [by eapply Hrun|]. intros r s'. by apply (delete_step bs0 L k ps h bs type a None).
Qed.
Lemma deletes_two bs0 L k ps h bs a type (run : M system Z) :
  two_blocks type →
  (∀ o p n m, owned type a o k → bs !! a = Some n → ps !! a = Some p → p ≠ a → bs !! p = Some m → vacant p k →
     wp run (mkSystem k ps h) (deletion type a [QSuspend a; QSender a] k ps (delete a (delete p bs)))) →
  ledger_inv bs0 L (mkSystem k ps h) bs → fst <$> L !! a = Some type →
  wp run (mkSystem k ps h) (λ r s', r = RT_EOK ∧ ∃ bs', ledger_inv bs0 (delete a L) s' bs').
Proof.
  intros Htwo Hrun Hi HL. destruct (L !! a) as [[type' po]|] eqn:E; [|done]. injection HL as ->.
  destruct (le_live _ _ _ _ (in_ledger _ _ _ _ Hi) _ _ _ E) as [[o Ho] [n Hn] Hp].
  destruct po as [p|]; [|exfalso; destruct Htwo as [->| ->]; by destruct Hp as [?|[?|?]]].
  destruct Hp as (_ & Hps & Hpa & [m Hm] & Hv).
  eapply wp_mono; [by eapply Hrun|]. intros r s'. by apply (delete_step bs0 L k ps h bs type a (Some p)).
Qed.

Lemma object_do_spec bs0 L s bs op :
  ledger_inv bs0 L s bs → op_ok L op →
  wp (object_do op) s (λ r s', ∃ L' bs', object_step L op r L' ∧ ledger_inv bs0 L' s' bs').
Proof.
  destruct s as [k ps h]. intros Hi Hok. pose proof (in_world _ _ _ _ Hi) as Hw. pose proof (in_kernel _ _ _ _ Hi) as Hk. simpl in *.
  assert (∀ a type run, op_deletes op = Some a → op_class op = type →
    wp run (mkSystem k ps h) (λ r s', r = RT_EOK ∧ ∃ bs', ledger_inv bs0 (delete a L) s' bs') →
    wp run (mkSystem k ps h) (λ r s', ∃ L' bs', object_step L op r L' ∧ ledger_inv bs0 L' s' bs')) as Hdel.
  { intros a type run Ha _ Hrun. eapply wp_mono; [exact Hrun|]. intros r s' (-> & bs' & Hi').
    exists (delete a L), bs'. split; [by constructor|done]. }
  destruct op as [name value flag|a|name flag|a|name flag|a|name size flag|a|name msg_size max_msgs flag|a]; simpl in *.
  - eapply wp_mono; [by apply (sem_create_spec name value flag k ps h bs)|]. intros a s' Hc.
    apply (created_step bs0 L (CreateSem name value flag) a s' eq_refl).
    eapply create_one; [done|by left| |exact Hc]. intros k' Hx. eexists. by split; [apply (header_sem _ _ _ Hx)|].
  - apply (Hdel a RT_Object_Class_Semaphore _ eq_refl eq_refl). eapply deletes_one; [by left| |done|by apply Hok].
    intros o n Ho Hn. destruct (live_struct _ _ _ _ Ho) as (Hs & _). destruct (Hs eq_refl) as (x & Hx & <-).
    by eapply sem_delete_spec.
  - eapply wp_mono; [by apply (mutex_create_spec name flag k ps h bs)|]. intros a s' Hc.
    apply (created_step bs0 L (CreateMutex name flag) a s' eq_refl).
    eapply create_one; [done|by right; left| |exact Hc]. intros k' Hx. eexists. by split; [apply (header_mutex _ _ _ Hx)|].
  - apply (Hdel a RT_Object_Class_Mutex _ eq_refl eq_refl). eapply deletes_one; [by right; left| |done|by apply Hok].
    intros o n Ho Hn. destruct (live_struct _ _ _ _ Ho) as (_ & Hs & _). destruct (Hs eq_refl) as (x & Hx & <-).
    by eapply mutex_delete_spec.
  - eapply wp_mono; [by apply (event_create_spec name flag k ps h bs)|]. intros a s' Hc.
    apply (created_step bs0 L (CreateEvent name flag) a s' eq_refl).
    eapply create_one; [done|by right; right| |exact Hc]. intros k' Hx. eexists. by split; [apply (header_event _ _ _ Hx)|].
  - apply (Hdel a RT_Object_Class_Event _ eq_refl eq_refl). eapply deletes_one; [by right; right| |done|by apply Hok].
    intros o n Ho Hn. destruct (live_struct _ _ _ _ Ho) as (_ & _ & Hs & _). destruct (Hs eq_refl) as (x & Hx & <-).
    by eapply event_delete_spec.
  - eapply wp_mono; [by apply (mb_create_spec stale_word name size flag k ps h bs)|]. intros a s' Hc.
    apply (created_step bs0 L (CreateMb name size flag) a s' eq_refl).
    eapply create_two; [done|by left| |exact Hc]. intros p k' Hx. eexists. by split; [apply (header_mb _ _ _ Hx)|].
  - apply (Hdel a RT_Object_Class_MailBox _ eq_refl eq_refl). eapply deletes_two; [by left| |done|by apply Hok].
    intros o p n m Ho Hn. destruct (live_struct _ _ _ _ Ho) as (_ & _ & _ & Hs & _). destruct (Hs eq_refl) as (x & Hx & <-).
    by eapply mb_delete_spec.
  - eapply wp_mono; [by apply (mq_create_spec stale_bytes name msg_size max_msgs flag k ps h bs)|]. intros a s' Hc.
    apply (created_step bs0 L (CreateMq name msg_size max_msgs flag) a s' eq_refl).
    eapply create_two; [done|by right| |exact Hc].
    intros p k' (x & Hx & Hp & _). eexists. split; [apply (header_mq _ _ _ Hx)|by rewrite Hp].
  - apply (Hdel a RT_Object_Class_MessageQueue _ eq_refl eq_refl). eapply deletes_two; [by right| |done|by apply Hok].
    intros o p n m Ho Hn. destruct (live_struct _ _ _ _ Ho) as (_ & _ & _ & _ & Hs). destruct (Hs eq_refl) as (x & Hx & <-).
    by eapply mq_delete_spec.
Qed.

(** A program: the next call, from the answers so far. *)
Definition object_client : Type := list Z → object_op.
Inductive object_trace (L : ledger) (c : object_client) : list Z → ledger → Prop :=
  | ot_nil : object_trace L c [] L
  | ot_snoc rs L1 r L2 : object_trace L c rs L1 → object_step L1 (c rs) r L2 → object_trace L c (rs ++ [r]) L2.
Fixpoint objects_run (c : object_client) (n : nat) (rs : list Z) : M system (list Z) :=
  match n with
  | O => mret rs
  | Datatypes.S n => r ← object_do (c rs); objects_run c n (rs ++ [r])
  end.

Lemma objects_run_from bs0 L0 c n : ∀ s bs L rs,
  ledger_inv bs0 L s bs → object_trace L0 c rs L → (∀ rs L, object_trace L0 c rs L → op_ok L (c rs)) →
  wp (objects_run c n rs) s (λ rs' s', ∃ L' bs', ledger_inv bs0 L' s' bs' ∧ object_trace L0 c rs' L' ∧
    length rs' = (length rs + n)%nat).
Proof.
  induction n as [|n IH]; intros s bs L rs Hi Ht Hok; simpl.
  - wp_steps. exists L, bs. by rewrite Nat.add_0_r.
  - wp_steps. eapply wp_mono; [apply (object_do_spec bs0 L s bs); [done|by apply Hok]|]. intros r s' (L' & bs' & Hst & Hi').
    eapply wp_mono; [apply (IH s' bs' L'); [done|by econstructor|done]|].
    intros rs' s'' (L2 & bs2 & ? & ? & Hlen). exists L2, bs2. split; [done|]. split; [done|].
    rewrite Hlen, length_app. simpl. lia.
Qed.
End Programs.
End Ownership.

(** ** The properties *)

(** C13: whatever semaphores, mutexes, events, mailboxes and message queues a
    program creates and deletes, in any order and with any failures in between,
    no call faults, each answers as the ledger of live objects allows, and the
    blocks in use are those there were before and those of the live objects:
    nothing leaks, no block is freed twice or shared, and when everything is
    deleted the heap holds what it held at the start. *)
Theorem object_heap_balance `{!AllocOps system, !AllocSpec system} stale_word stale_bytes
    (c : object_client) n k ps h bs :
  world k h bs → kernel_ok k →
  (∀ rs L, object_trace ∅ c rs L → op_ok L (c rs)) →
  wp (objects_run stale_word stale_bytes c n []) (mkSystem k ps h) (λ rs s', ∃ L bs',
    length rs = n ∧ object_trace ∅ c rs L ∧
    world (sy_kernel s') (sy_heap s') bs' ∧ kernel_ok (sy_kernel s') ∧
    ledger_ok (sy_kernel s') (sy_pools s') bs' L ∧ accounts bs L bs' ∧ (L = ∅ → bs' = bs)).
Proof.
  intros Hw Hk Hok. eapply wp_mono; [eapply (objects_run_from stale_word stale_bytes bs ∅ c n (mkSystem k ps h) bs ∅ [])|].
  - split; simpl; [done|done|by split|]. split; [|done]. by intros b [[? ?]|(a & type & ?)].
  - constructor.
  - done.
  - intros rs s' (L & bs' & [H1 H2 H3 H4] & Ht & Hlen). exists L, bs'. split_and!; try done.
    intros ->. by apply accounts_empty.
Qed.

(** C15: [rt_mb_create] is all or nothing: either it returns a mailbox with a
    pool of its own, empty, in no other object's memory and first in its
    container, or it returns [RT_NULL] and leaves the kernel and the heap as
    they were, also when the mailbox itself could be allocated and only its
    pool could not. *)
Theorem mb_create_atomic `{!AllocOps system, !AllocSpec system} stale_word name size flag k ps h bs :
  world k h bs → kernel_ok k →
  wp (rt_mb_create stale_word name size flag) (mkSystem k ps h) (λ mb s',
    if decide (mb = RT_NULL) then sy_kernel s' = k ∧ world k (sy_heap s') bs
    else ∃ p n m, let k' := sy_kernel s' in
      world k' (sy_heap s') (<[p := m]> (<[mb := n]> bs)) ∧ kernel_ok k' ∧
      bs !! mb = None ∧ bs !! p = None ∧ p ≠ mb ∧ 48 ≤ n ∧ 4 * u16 size ≤ m ∧
      mailboxes k' !! mb = Some (mkMailbox (mkObject (object_name name) RT_Object_Class_MailBox (u8 flag))
        (new_words stale_word p (u16 size)) (u16 size) 0 0 0) ∧
      object_list k' RT_Object_Class_MailBox = Obj mb :: object_list k RT_Object_Class_MailBox ∧
      queue k' (QSuspend mb) = [] ∧ queue k' (QSender mb) = [] ∧ erase_at mb k' = k).
Proof.
  intros Hw Hk. eapply wp_mono; [by apply (mb_create_spec stale_word name size flag k ps h bs)|].
  intros mb s' [(-> & b & h' & Hs & Hw')|
    (Hmb & Hb & p & k' & h' & n & m & -> & Hn & Hp & Hpa & Hbp & Hvp & Hm & Hw' & Hk' & Hv & Hbo & He)].
  - rewrite decide_True by done. by destruct Hs as [->|[_ ->]].
  - rewrite decide_False by done. exists p, n, m. simpl. destruct Hbo as [Hl _ Hq1 Hq2 Hol].
    split_and!; try done; [lia|]. by rewrite Hl.
Qed.

(** C16: [rt_mb_delete] frees the mailbox and its pool and wakes every thread
    that waits to receive or to send, each with [-RT_ERROR]; the kernel
    invariants hold, other wait lists and objects are untouched, and nothing
    is left of the mailbox. *)
Theorem mb_delete_wakes `{!AllocOps system, !AllocSpec system} a p x n m k ps h bs :
  world k h bs → kernel_ok k → mailboxes k !! a = Some x →
  owned RT_Object_Class_MailBox a (mb_parent x) k → bs !! a = Some n →
  ps !! a = Some p → p ≠ a → bs !! p = Some m → vacant p k →
  wp (rt_mb_delete a) (mkSystem k ps h) (λ r s', let k' := sy_kernel s' in
    r = RT_EOK ∧ world k' (sy_heap s') (delete a (delete p bs)) ∧ kernel_ok k' ∧ vacant a k' ∧
    (∀ q, ¬ ready_list q → q ≠ QSuspend a → q ≠ QSender a → queue k' q = queue k q) ∧
    (∀ t, t ∈ queue k (QSuspend a) ++ queue k (QSender a) → t ≠ a ∧ ∃ th, threads k' !! t = Some th ∧
       error th = - RT_ERROR ∧ (stat_of th = RT_THREAD_RUNNING ∨ stat_of th = RT_THREAD_READY)) ∧
    (∀ b, b ≠ a → mailboxes k' !! b = mailboxes k !! b ∧ mqueues k' !! b = mqueues k !! b ∧
       semaphores k' !! b = semaphores k !! b ∧ mutexes k' !! b = mutexes k !! b ∧ events k' !! b = events k !! b)).
Proof.
  intros Hw Hk Hx Ho Hb Hps Hpa Hbp Hvp. eapply wp_mono; [by eapply mb_delete_spec|].
  intros r s' (-> & k1 & h' & -> & Hw' & Hk' & Hob & _ & _ & Hown & Hq & Ht).
  assert (local a k1 (erase_at a k1)) as Hl by apply erase_erase. apply local_fields in Hl.
  pose proof (erase_vacant a k1) as Hva. remember (erase_at a k1) as k2 eqn:E2. clear E2. simpl.
  split_and!; [done|done|done|done| | |].
  - intros q Hr H1 H2. rewrite <-Hq; [|done|rewrite !elem_of_cons, elem_of_nil; naive_solver].
    unfold queue. by rewrite (lo_queue _ _ _ Hl).
  - intros t Hin.
    assert (∃ q, q ∈ [QSuspend a; QSender a] ∧ t ∈ queue k q) as (q & Hqin & Htq).
    { apply elem_of_app in Hin as [?|?]; eexists; (split; [|done]); set_solver. }
    destruct (Ht q t Hqin Htq) as (th & Eth & ?). assert (t ≠ a) as Hne.
    { intros ->. pose proof (plain_no_thread _ _ _ (two_blocks_plain _ (or_introl eq_refl)) (ow_houses _ _ _ _ (Hown _ _ _ Ho))) as [Hn _].
      congruence. }
    split; [done|]. exists th. by rewrite (lo_thread _ _ _ Hl).
  - intros b Hne. destruct (lo_objects _ _ _ Hl b Hne) as (-> & -> & -> & -> & -> & _).
    destruct (objs_fields _ _ Hob) as (-> & -> & -> & -> & -> & _). done.
Qed.

(** ** Concrete instances *)

(** Every object of the kernel is outside the heap or in a block in use. *)
Section Clean.
Context (lo hi : addr) (bs : gmap addr Z).
Definition placed (a : addr) : Prop := ¬ (lo ≤ a < hi) ∨ is_Some (bs !! a).
Definition ref_placed (r : ref) : Prop := match r with Obj a | ThreadTimer a => placed a end.
Definition head_placed (q : qid) : Prop := match q with QSuspend a | QSender a => placed a | _ => True end.
#[local] Instance ref_placed_dec r : Decision (ref_placed r).
Proof. destruct r; unfold ref_placed, placed; apply _. Defined.
#[local] Instance head_placed_dec q : Decision (head_placed q).
Proof. destruct q; unfold head_placed, placed; apply _. Defined.
Definition keys_placed {A} (m : gmap addr A) : Prop := map_Forall (λ a _, placed a) m.

Definition clean_check (k : kernel) : Prop :=
  (keys_placed (threads k) ∧ map_Forall (λ r _, ref_placed r) (timers k) ∧ map_Forall (λ q _, head_placed q) (queues k)) ∧
  (keys_placed (semaphores k) ∧ keys_placed (mutexes k) ∧ keys_placed (events k)) ∧
  (keys_placed (mailboxes k) ∧ keys_placed (mqueues k) ∧ keys_placed (mempools k)) ∧
  keys_placed (devices k) ∧ map_Forall (λ _ l, Forall ref_placed l) (object_lists k).
#[global] Instance clean_check_dec k : Decision (clean_check k).
Proof. unfold clean_check, keys_placed, placed. apply _. Defined.

Lemma clean_sound k a : clean_check k → lo ≤ a < hi → bs !! a = None → vacant a k.
Proof.
  intros ((H1 & H2 & H3) & (H4 & H5 & H6) & (H7 & H8 & H9) & H10 & H11) Ha Hb.
  assert (¬ placed a) as Hn by (intros [?|[? ?]]; [done|congruence]).
  assert (∀ A (m : gmap addr A), keys_placed m → m !! a = None) as Hm.
  { intros A m Hm. destruct (m !! a) as [x|] eqn:E; [|done]. by apply Hm in E. }
  apply vacant_fields. constructor; try by apply Hm.
  - destruct (timers k !! Obj a) eqn:E; [|done]. by apply H2 in E.
  - destruct (timers k !! ThreadTimer a) eqn:E; [|done]. by apply H2 in E.
  - destruct (queues k !! QSuspend a) eqn:E; [|done]. by apply H3 in E.
  - destruct (queues k !! QSender a) eqn:E; [|done]. by apply H3 in E.
  - intros type l El. apply H11 in El. rewrite Forall_forall in El. split; intros Hin; by apply El in Hin.
Qed.
End Clean.

(** A system whose heap holds two blocks. *)
Definition G_sem : addr := 0x20000800.
#[local] Instance demo_ops : AllocOps system := lock_alloc G_sem.
#[local] Instance demo_contract : AllocSpec system :=
  lock_alloc_contract G_sem 0x20001000 0x20001800 ltac:(by vm_compute; intros []) ltac:(done).
Definition taken : gmap addr Z := in_use taken_heap taken_blocks.
Definition A_mb : addr := 0x20001010.
Definition A_pool : addr := 0x2000104c.

(** [mbs] are the mailboxes, which are in their container; [T_wait] is in [q]. *)
Definition heap_scene (q : qid) (mbs : gmap addr rt_mailbox) : kernel :=
  (scene_with q {[G_sem := a_sem 1]} ∅ ∅ mbs ∅)
    <| object_lists := <[RT_Object_Class_MailBox := Obj <$> (map_to_list mbs).*1]>
         (list_to_map ((λ t, (t, [])) <$> rt_object_container)) |>.

Lemma heap_scene_world q mbs :
  clean_check 0x20001000 0x20001800 taken (heap_scene q mbs) → (queue (heap_scene q mbs) (QSuspend G_sem) = []) →
  world (heap_scene q mbs) taken_heap taken.
Proof.
  intros Hc Hq. split.
  - exists (a_sem 1). constructor; [|done|done]. constructor; [done|done|done|by left| |done].
    simpl. unfold RT_SEM_VALUE_MAX, RT_UINT16_MAX. lia.
  - split; [by vm_compute|]. split; [by vm_compute|]. exists taken_blocks. split; [apply taken_rep|done].
  - intros a Ha Hb. by eapply clean_sound.
  - intros type Ht. class_cases Ht; simpl; unfold heap_scene; simpl; simplify_map_eq; by eexists.
Qed.

Definition demo_program : object_client := λ rs,
  match rs with
  | [] => CreateSem [115] 1 0
  | [_] => CreateMb [109] 4 1
  | [_; a] => if decide (a = 0) then CreateEvent [101] 0 else CreateMq [113] 6 3 0
  | s :: _ => CreateMutex [120] 0
  end.
Lemma demo_program_ok rs L : object_trace ∅ demo_program rs L → op_ok L (demo_program rs).
Proof.
  intros _. destruct rs as [|? [|a [|]]]; simpl; try lia; [|by case_decide; simpl; [|lia]|]; done.
Qed.
Lemma object_heap_balance_witness :
  wp (objects_run (λ _, 0) (λ _, []) demo_program 5 []) (mkSystem (heap_scene (QSuspend 1) ∅) ∅ taken_heap) (λ rs s', ∃ L bs',
    length rs = 5%nat ∧ object_trace ∅ demo_program rs L ∧
    world (sy_kernel s') (sy_heap s') bs' ∧ kernel_ok (sy_kernel s') ∧
    ledger_ok (sy_kernel s') (sy_pools s') bs' L ∧ accounts taken L bs' ∧ (L = ∅ → bs' = taken)).
Proof.
  apply object_heap_balance.
  - apply heap_scene_world; [by_evaluation|done].
  - split; [by_check|by apply (running_ok _ (a_thread RT_THREAD_RUNNING 10 RT_EOK))].
  - apply demo_program_ok.
Defined.
Lemma mb_create_atomic_witness :
  wp (rt_mb_create (λ _, 0) [109] 4 1) (mkSystem (heap_scene (QSuspend 1) ∅) ∅ taken_heap) (λ mb s',
    mb ≠ RT_NULL → queue (sy_kernel s') (QSuspend mb) = []).
Proof.
  eapply wp_mono; [apply (mb_create_atomic (λ _, 0) [109] 4 1 (heap_scene (QSuspend 1) ∅) ∅ taken_heap taken)|].
  - apply heap_scene_world; [by_evaluation|done].
  - split; [by_check|by apply (running_ok _ (a_thread RT_THREAD_RUNNING 10 RT_EOK))].
  - intros mb s'. simpl. case_decide; [done|]. intros (p & n & m & H1) _. tauto.
Defined.
(** A mailbox that was created, with [T_wait] waiting for mail. *)
Definition heap_mb : rt_mailbox := mkMailbox (mkObject [109; 0; 0; 0; 0; 0; 0; 0] RT_Object_Class_MailBox 0) [0; 0; 0; 0] 4 0 0 0.
Definition mb_scene_heap : kernel := heap_scene (QSuspend A_mb) {[A_mb := heap_mb]}.
Lemma mb_scene_owned : owned RT_Object_Class_MailBox A_mb (mb_parent heap_mb) mb_scene_heap.
Proof.
  split; [by_evaluation| |done|done]. split; [by_evaluation|by eexists| |by vm_compute|].
  - intros type' Hne. unfold object_header. repeat (case_decide; [subst; vm_compute; done|]). done.
  - intros type' l Hl. assert (map_Forall (λ _ l, ThreadTimer A_mb ∉ l) (object_lists mb_scene_heap)) as Hf by by_evaluation.
    by apply (Hf type' l).
Qed.
Lemma mb_delete_wakes_witness :
  wp (rt_mb_delete A_mb) (mkSystem mb_scene_heap {[A_mb := A_pool]} taken_heap) (λ r s',
    r = RT_EOK ∧ world (sy_kernel s') (sy_heap s') (delete A_mb (delete A_pool taken)) ∧
    ∃ th, threads (sy_kernel s') !! T_wait = Some th ∧ error th = - RT_ERROR).
Proof.
  eapply wp_mono; [eapply (mb_delete_wakes A_mb A_pool heap_mb 48 16 mb_scene_heap _ taken_heap taken)|].
  - apply heap_scene_world; [by_evaluation|done].
  - split; [by_check|by apply (running_ok _ (a_thread RT_THREAD_RUNNING 10 RT_EOK))].
  - by vm_compute.
  - apply mb_scene_owned.
  - by vm_compute.
  - by vm_compute.
  - done.
  - by vm_compute.
  - apply (clean_sound 0x20001000 0x20001800 (delete A_pool taken)); [by_evaluation|by vm_compute|by vm_compute].
  - intros r s' (-> & Hw & _ & _ & _ & Ht & _). split; [done|]. split; [done|].
    destruct (Ht T_wait) as (_ & th & E & He & _); [vm_compute; left|]. by exists th.
Defined.
