(* ===== verification/Reaper.v ===== *)
(** * Threads on the heap

    [rt_thread_create], [rt_thread_delete] and the clean-up by the idle thread:
    a thread that is deleted or has ended is given back with its stack. *)
From S2P Require Import Prelude Kernel Scheduler Object Timer Thread Ipc Decide Scenario Scheduling Registry Semaphore Mutex Event Mailbox MessageQueue Heap Allocator HeapLock MemPool Device Dynamic Lifecycle Ownership.

(** ** Threads that are not scheduled *)

(** [t] is on no list and its timer is not pending. *)
Definition detached (t : addr) (k : kernel) : Prop :=
  (∀ q, t ∉ queue k q) ∧ (∀ q, ThreadTimer t ∉ tqueue k q).

Lemma sched_inv_put ths qs g c t th :
  SchedInv None ths qs g c → t ≠ RT_NULL → (∀ q, t ∉ qof qs q) → ¬ Scheduler.live th → SchedInv None (<[t := th]> ths) qs g c.
Proof.
  intros H Hn Hq Hl. eapply (inv_back _ _ _ _ t th).
  - apply inv_update; [by apply inv_out|done].
  - apply lookup_insert_eq.
  - intros Hs. apply Hl. by left.
  - done.
  - intros Hs. destruct Hl. by right; right.
Qed.
Lemma timer_inv_put ths tms tqs t th tm :
  TimerInv ths tms tqs → (∀ q, ThreadTimer t ∉ qof tqs q) → ¬ Scheduler.live th → ¬ active tm →
  TimerInv (<[t := th]> ths) (<[ThreadTimer t := tm]> tms) tqs.
Proof.
  intros H Hq Hl Ha.
  assert (∀ r q, r ∈ qof tqs q → r ≠ ThreadTimer t) as Hne by (intros r q Hin ->; by eapply Hq).
  destruct H. constructor; try done.
  - intros q r Hin. rewrite lookup_insert_ne by (apply not_eq_sym; by eapply Hne). by eapply ti_listed.
  - intros q r tm' Hin Hc. rewrite lookup_insert_ne by (apply not_eq_sym; by eapply Hne). by apply ti_home.
  - intros r tm' [[<- <-]|[_ Hr]]%lookup_insert_Some Hact; [done|by eapply ti_active].
  - intros t' th' [[<- <-]|[Hn Ht']]%lookup_insert_Some Hlv; [done|].
    rewrite lookup_insert_ne by congruence. by eapply ti_thread.
  - intros t' Hin. assert (t' ≠ t) as Ht by (intros ->; by eapply Hq).
    rewrite lookup_insert_ne by done. by apply ti_susp.
  - intros q t' tm' Hc Hin. rewrite lookup_insert_ne by (apply not_eq_sym; by eapply Hne). by eapply ti_firing.
  - by rewrite lookup_insert_ne.
Qed.
Lemma sched_inv_drop ths qs g c t :
  SchedInv None ths qs g c → (∀ q, t ∉ qof qs q) → SchedInv None (delete t ths) qs g c.
Proof.
  intros H Hq.
  assert (∀ t' q, t' ∈ qof qs q → t' ≠ t) as Hne by (intros t' q Hin ->; by eapply Hq).
  destruct H. constructor; try done.
  - intros t' p Hx. rewrite si_ready by done. destruct (decide (t' = t)) as [->|].
    + rewrite lookup_delete_eq. split; [|by intros (? & ? & _)].
      intros Hr. apply si_ready in Hr; [|done]. by apply Hq in Hr.
    + by rewrite lookup_delete_ne.
  - intros t' q Hw Hin. rewrite lookup_delete_ne by (apply not_eq_sym; by eapply Hne). by eapply si_waiting.
  - intros t' Hin. rewrite lookup_delete_ne by (apply not_eq_sym; by eapply Hne). by eapply si_defunct.
  - intros t' th' Hx [_ Ht']%lookup_delete_Some. by eapply si_ok.
  - intros t' th' Hx [_ Ht']%lookup_delete_Some. by eapply si_running.
  - by apply lookup_delete_None; right.
Qed.
Lemma timer_inv_drop ths tms tqs t :
  TimerInv ths tms tqs → (∀ q, ThreadTimer t ∉ qof tqs q) → (∀ q, Obj t ∉ qof tqs q) →
  TimerInv (delete t ths) (delete (ThreadTimer t) (delete (Obj t) tms)) tqs.
Proof.
  intros H Hq Hq'.
  assert (∀ r q, r ∈ qof tqs q → delete (ThreadTimer t) (delete (Obj t) tms) !! r = tms !! r) as Hsame.
  { intros r q Hin. rewrite !lookup_delete_ne; [done| |]; intros <-; [by eapply Hq'|by eapply Hq]. }
  destruct H. constructor; try done.
  - intros q r Hin. rewrite (Hsame r q Hin). by eapply ti_listed.
  - intros q r tm' Hin Hc. rewrite (Hsame r q Hin). by apply ti_home.
  - intros r tm' [_ [_ Hr]%lookup_delete_Some]%lookup_delete_Some Hact. by eapply ti_active.
  - intros t' th' [Hn Ht']%lookup_delete_Some Hlv. rewrite !lookup_delete_ne by congruence. by eapply ti_thread.
  - intros t' Hin. assert (t' ≠ t) as Ht by (intros ->; by eapply Hq).
    rewrite lookup_delete_ne by done. by apply ti_susp.
  - intros q t' tm' Hc Hin. rewrite (Hsame _ q Hin). by eapply ti_firing.
  - rewrite lookup_delete_ne by done. by apply lookup_delete_None; right.
Qed.

Lemma kernel_inv_drop t k : kernel_inv k → detached t k → timers k !! Obj t = None → kernel_inv (erase_at t k).
Proof.
  intros [Hs Ht] [Hq Htq] Hn. constructor; unfold erase_at; ksimpl.
  - eapply sched_inv_queues; [by apply sched_inv_drop|]. intros q.
    destruct (decide (q = QSuspend t)) as [->|].
    { right. split; [done|]. by rewrite lookup_delete_ne, lookup_delete_eq. }
    destruct (decide (q = QSender t)) as [->|]; [right; split; [done|]; by rewrite lookup_delete_eq|].
    left. by rewrite !lookup_delete_ne.
  - apply timer_inv_drop; [done|exact Htq|]. intros q Hin.
    destruct (ti_listed _ _ _ Ht q _ Hin) as [tm E]. congruence.
Qed.

(** A closed thread enters the list of the defunct. *)
Lemma inv_defunct ths qs g c t th :
  SchedInv (Some t) ths qs g c → ths !! t = Some th → stat_of th = RT_THREAD_CLOSE →
  SchedInv None ths (<[QDefunct := t :: qof qs QDefunct]> qs) g c.
Proof.
  intros H Ht Hs.
  assert (∀ q, q ≠ QDefunct → qof (<[QDefunct := t :: qof qs QDefunct]> qs) q = qof qs q) as Hq by (intros; by apply qof_insert_ne).
  pose proof (qof_insert_eq qs QDefunct (t :: qof qs QDefunct)) as Hd. pose proof (si_out _ _ _ _ _ H t) as Hout.
  assert (∀ t' q, t' ∈ qof (<[QDefunct := t :: qof qs QDefunct]> qs) q → (t' = t ∧ q = QDefunct) ∨ t' ∈ qof qs q) as Hin.
  { intros t' q. destruct (decide (q = QDefunct)) as [->|Hne]; [|rewrite Hq by done; by right].
    rewrite Hd. intros [->|?]%elem_of_cons; [by left|by right]. }
  constructor.
  - done.
  - apply H.
  - intros p Hp. rewrite Hq by done. by apply H.
  - intros t' p _. rewrite Hq by done. destruct (decide (t' = t)) as [->|Hne].
    + split; [intros Hx; by apply Hout in Hx|]. intros (th' & Ht' & Hr & _). rewrite Ht in Ht'. injection Ht' as <-.
      by rewrite Hs in Hr.
    + apply H. congruence.
  - intros t' q Hw [[-> ->]|Hx]%Hin; [done|by eapply si_waiting].
  - intros t' [[-> _]|Hx]%Hin; [by exists th|by eapply si_defunct].
  - intros q. destruct (decide (q = QDefunct)) as [->|Hne]; [|rewrite Hq by done; apply H].
    rewrite Hd. constructor; [by apply Hout|apply H].
  - intros q1 q2 t' [[-> ->]|H1]%Hin [[E2 ->]|H2]%Hin; [done|by apply Hout in H2|subst; by apply Hout in H1|by eapply si_disjoint].
  - intros t' th' _ Ht' Hlv. destruct (decide (t' = t)) as [->|Hne]; [|apply (si_ok _ _ _ _ _ H t'); congruence || done].
    rewrite Ht in Ht'. injection Ht' as <-. destruct Hlv as [Hx|[Hx|Hx]]; by rewrite Hs in Hx.
  - intros t' th' _ Ht' Hr. destruct (decide (t' = t)) as [->|Hne]; [|apply (si_running _ _ _ _ _ H t' th'); congruence || done].
    rewrite Ht in Ht'. injection Ht' as <-. by rewrite Hs in Hr.
  - apply H.
Qed.

(** ** [rt_thread_delete] *)

(** The kernel after it. *)
Definition closed_thread (th : rt_thread) : rt_thread := th <| stat := RT_THREAD_CLOSE |>.
Definition detached_timer (tm : rt_timer) : rt_timer :=
  let tm := flag_clear tm RT_TIMER_FLAG_ACTIVATED in
  tm <| tm_parent := (tm_parent tm) <| obj_type := 0 |> |>.
Definition timer_detached (r : ref) (tm : rt_timer) (k : kernel) : kernel :=
  k <| timers := <[r := detached_timer tm]> (timers k) |>
    <| timer_queues := remove_from_tqueues r (timer_queues k) |>
    <| object_lists := remove_from_objects r (object_lists k) |>.
Definition deleted (t : addr) (th : rt_thread) (tm : rt_timer) (k : kernel) : kernel :=
  let k := timer_detached (ThreadTimer t) tm (removed t th k) in
  k <| threads := <[t := closed_thread th]> (threads k) |>
    <| queues := <[QDefunct := t :: queue k QDefunct]> (queues k) |>.

Lemma set_header_timer r tm tm' h k : tm' = tm <| tm_parent := h |> → timers k !! r = Some tm →
  set_header RT_Object_Class_Timer r h k = k <| timers := <[r := tm']> (timers k) |>.
Proof.
  intros -> E. unfold set_header. rewrite decide_False, decide_True by done.
  assert (alter (λ tm, tm <| tm_parent := h |>) r (timers k) = <[r := tm <| tm_parent := h |>]> (timers k)) as E2.
  { apply map_eq. intros r'. destruct (decide (r = r')) as [<-|Hne]; [by rewrite lookup_alter_eq, lookup_insert_eq, E|].
    by rewrite lookup_alter_ne, lookup_insert_ne. }
  by rewrite E2.
Qed.
Lemma timer_detach_eq r tm k :
  timers k !! r = Some tm → timer_type tm → rt_object_is_systemobject (tm_parent tm) = true → r ≠ Obj RT_NULL →
  rt_timer_detach r k = Ok (RT_EOK, timer_detached r tm k).
Proof.
  intros Htm Htt Hsys Hr. apply wp_exact. unfold rt_timer_detach, _rt_timer_remove, rt_object_detach. ksteps.
  eapply (assert_timer_ok _ tm); [done..|]. ksteps.
  eapply wp_eq; [eapply upd_header_set; unfold object_header; ksimpl; simpl; by rewrite lookup_insert_eq|]. ksteps.
  erewrite set_header_timer; [|reflexivity|apply lookup_insert_eq]. unfold timer_detached, detached_timer.
  destruct k; simpl. by rewrite insert_insert_eq.
Qed.

Lemma thread_delete_eq run t th tm k :
  kernel_inv k → threads k !! t = Some th → Scheduler.live th → obj_type (th_parent th) = RT_Object_Class_Thread →
  cleanup th = RT_NULL → timers k !! ThreadTimer t = Some tm → timer_type tm → rt_object_is_systemobject (tm_parent tm) = true →
  rt_thread_delete run t k = Ok (RT_EOK, deleted t th tm k).
Proof.
  intros H Ht Hl Hty Hcl Htm Htt Hsys. pose proof (live_not_null _ _ _ H Ht) as Hn.
  assert (stat_of th ≠ RT_THREAD_CLOSE ∧ stat_of th ≠ RT_THREAD_INIT) as [Hs1 Hs2] by (by destruct Hl as [->|[->| ->]]).
  assert (th_type th = RT_Object_Class_Thread ∧ rt_object_is_systemobject (th_parent th) = false) as [Hty1 Hty2].
  { unfold th_type, rt_object_get_type, rt_object_is_systemobject. by rewrite Hty. }
  apply wp_exact. unfold rt_thread_delete. ksteps.
  eapply (assert_thread_ok t th); [done|done|done|]. ksteps.
  wp_if as Hd; [done|]. ksteps. apply wp_when; [intros _|done].
  eapply wp_eq; [by apply remove_thread_eq with (th := th)|]. ksteps.
  unfold _thread_cleanup_execute. ksteps. apply wp_when; [done|intros _]. ksteps.
  eapply wp_eq; [by apply (timer_detach_eq _ tm)|]. ksteps.
  apply wp_insert_head; [intros q; apply removed_out|]. ksteps. split; [done|]. unfold deleted, timer_detached, removed, queue.
  by destruct k.
Qed.

Lemma deleted_inv t th tm k :
  kernel_inv k → threads k !! t = Some th → Scheduler.live th → timers k !! ThreadTimer t = Some tm →
  kernel_inv (deleted t th tm k).
Proof.
  intros H Ht Hl Htm. pose proof (live_ok _ _ _ H Ht Hl) as Hok. pose proof (live_not_null _ _ _ H Ht) as Hn.
  assert (stat_of (closed_thread th) = RT_THREAD_CLOSE) as Hs by done.
  assert (¬ Scheduler.live (closed_thread th)) as Hnl by (by intros [?|[?|?]]).
  constructor; unfold deleted, timer_detached, removed, queue; ksimpl.
  - apply (inv_defunct _ _ _ _ _ (closed_thread th)); [|apply lookup_insert_eq|done].
    apply inv_update; [|done]. eapply inv_remove; [apply H|by left|done|apply Hok|apply Hok].
  - assert (TimerInv (threads k) (<[ThreadTimer t := flag_clear tm RT_TIMER_FLAG_ACTIVATED]> (timers k))
      (remove_from_tqueues (ThreadTimer t) (timer_queues k))) as H1.
    { eapply ti_unlink; [apply H|done|auto with timers|]. by rewrite has_clear_same. }
    apply (timer_inv_put _ _ _ t (closed_thread th) (detached_timer tm)) in H1; [|intros q; apply tq_removed_out|done|].
    { by rewrite insert_insert_eq in H1. }
    change (Timer.has_flag (flag_clear tm RT_TIMER_FLAG_ACTIVATED) RT_TIMER_FLAG_ACTIVATED ≠ true).
    by rewrite Timer.has_clear_same.
Qed.

(** [rt_list_remove(&thread->tlist)] *)
Definition unlinked_thread (t : addr) (k : kernel) : kernel := k <| queues := remove_from_queues t (queues k) |>.

Section Reaper.
Context `{!AllocOps system, !AllocSpec system}.
Implicit Types (k : kernel) (ps : pool_table) (h : heap) (bs : gmap addr Z).

Lemma unlinked_vacant t a k : vacant a k → vacant a (unlinked_thread t k).
Proof.
  rewrite !vacant_fields. intros Hv. pose proof (va_suspend _ _ Hv) as H1. pose proof (va_sender _ _ Hv) as H2.
  destruct Hv. constructor; try done; unfold unlinked_thread, remove_from_queues; ksimpl;
    rewrite lookup_fmap; [by rewrite H1|by rewrite H2].
Qed.
Lemma unlinked_world t k h bs :
  world k h bs → t ∉ queue k (QSuspend guard) → world (unlinked_thread t k) h bs.
Proof.
  intros [Hu Hb Hv Hls] Ht. split; [|done| |done].
  - apply (guard_frame k); [done|done| |done]. unfold queue at 1, unlinked_thread. ksimpl. rewrite qof_remove.
    by apply list_filter_ne_id.
  - intros a H1 H2. by apply unlinked_vacant, Hv.
Qed.

(** A thread that has ended: [p] is its stack, [t] its struct. *)
Record dead (k : kernel) (bs : gmap addr Z) (t p : addr) : Prop := {
  de_thread : ∃ th, threads k !! t = Some th ∧ stack_addr th = p ∧ Z.land (obj_type (th_parent th)) RT_Object_Class_Static = 0;
  de_houses : houses RT_Object_Class_Thread t k;
  de_timer q : ThreadTimer t ∉ tqueue k q;
  de_block : is_Some (bs !! t);
  de_stack : p ≠ t ∧ is_Some (bs !! p) ∧ vacant p k;
  de_current : t ≠ rt_current_thread k
}.

(** The kernel without the thread. *)
Definition reap (t : addr) (k : kernel) : kernel := erase_at t (unlinked_thread t k).

Lemma header_thread t th k : threads k !! t = Some th → object_header k RT_Object_Class_Thread (Obj t) = Some (th_parent th).
Proof. intros E. change (th_parent <$> threads k !! t = Some (th_parent th)). by rewrite E. Qed.

Lemma reap_local t k : local t (unlinked_thread t k) (reap t k).
Proof. apply erase_erase. Qed.
Lemma dead_reap k bs t p t' p' :
  dead k bs t p → dead k bs t' p' → t' ≠ t → p' ≠ p → dead (reap t k) (delete t (delete p bs)) t' p'.
Proof.
  intros H H' Ht Hp. destruct H as [(th & Hth & _) _ _ _ (_ & _ & Hv) _].
  destruct H' as [(th' & Hth' & Hst & Hty) Hh Htm Hb (Hpt & Hbp & Hv') Hc].
  assert (t' ≠ p) as Htp.
  { intros ->. apply vacant_fields in Hv. by rewrite (va_thread _ _ Hv) in Hth'. }
  assert (p' ≠ t) as Hpt'.
  { intros ->. apply vacant_fields in Hv'. by rewrite (va_thread _ _ Hv') in Hth. }
  pose proof (reap_local t k) as Hl. split.
  - exists th'. split; [|done]. apply local_fields in Hl. by rewrite (lo_thread _ _ _ Hl).
  - eapply houses_local; [exact Hl|done|]. by destruct Hh.
  - intros q. apply Htm.
  - by rewrite !lookup_delete_ne.
  - split; [done|]. split; [by rewrite !lookup_delete_ne|]. eapply local_vacant; [exact Hl|done|]. by apply unlinked_vacant.
  - done.
Qed.

Lemma reap_ok k bs t p l : kernel_ok k → queue k QDefunct = t :: l → dead k bs t p → kernel_ok (reap t k).
Proof.
  intros [Hk (cth & Hc & Hcs)] Hq Hd. pose proof (de_houses _ _ _ _ Hd) as Hh.
  pose proof (houses_none _ _ _ Hh) as (_ & Hno & _). split.
  - apply kernel_inv_drop.
    + destruct Hk as [Hs Ht]. constructor; [|done]. unfold unlinked_thread. ksimpl.
      destruct (si_defunct _ _ _ _ _ Hs t) as (th & Hth & Hcl); [fold (queue k QDefunct); rewrite Hq; left|].
      assert (RT_THREAD_CLOSE ≠ RT_THREAD_READY ∧ RT_THREAD_CLOSE ≠ RT_THREAD_SUSPEND ∧
        RT_THREAD_CLOSE ≠ RT_THREAD_RUNNING) as (? & ? & ?) by done.
      apply (inv_back _ _ _ _ t th); [by apply (inv_dequeue _ _ _ _ t th); [| |congruence]|done|congruence| |congruence].
      intros [?|[?|?]]; congruence.
    + split; [intros q; apply removed_out|apply (de_timer _ _ _ _ Hd)].
    + by apply Hno.
  - exists cth. pose proof (local_fields _ _ _ (reap_local t k)) as Hl.
    rewrite (lo_thread _ _ _ Hl); [done|]. apply not_eq_sym, Hd.
Qed.

Lemma reap_queue k t q : q ≠ QSuspend t → q ≠ QSender t → queue (reap t k) q = filter (.≠ t) (queue k q).
Proof.
  intros H1 H2. unfold queue at 1, reap, erase_at, unlinked_thread. ksimpl. rewrite !lookup_delete_ne by done.
  apply qof_remove.
Qed.

Lemma vacant_primask p a k : vacant a k → vacant a (k <| primask := p |>).
Proof.
  rewrite !vacant_fields. intros Hv. exact (Build_vacant_at a (k <| primask := p |>)
    (va_thread _ _ Hv) (va_timer _ _ Hv) (va_ttimer _ _ Hv) (va_suspend _ _ Hv) (va_sender _ _ Hv) (va_sem _ _ Hv)
    (va_mutex _ _ Hv) (va_event _ _ Hv) (va_mb _ _ Hv) (va_mq _ _ Hv) (va_mp _ _ Hv) (va_dev _ _ Hv) (va_list _ _ Hv)).
Qed.
Lemma world_primask p k h bs : world k h bs → world (k <| primask := p |>) h bs.
Proof.
  intros [Hu Hb Hv Hls]. split; [|exact Hb| |exact Hls].
  - apply (guard_frame k (k <| primask := p |>) Hu); reflexivity.
  - intros a H1 H2. apply vacant_primask, (Hv a H1 H2).
Qed.
Lemma houses_same type a k k' :
  object_header k' = object_header k → timers k' = timers k → object_lists k' = object_lists k →
  houses type a k → houses type a k'.
Proof. intros E1 E2 E3 [H1 H2 H3 H4 H5]. split; rewrite ?E1, ?E2, ?E3; assumption. Qed.

(** One turn of the idle thread's loop, and what follows it. *)
Lemma reap_world k ps h bs t p l (rest : M system unit) Q :
  world k h bs → kernel_ok k → queue k QDefunct = t :: l → dead k bs t p →
  (∀ h', world (reap t k) h' (delete t (delete p bs)) → wp rest (mkSystem (reap t k) (delete t ps) h') Q) →
  wp (zoom (rt_list_remove t);; th ← zoom (get_thread t);
      release (stack_addr th);; rt_object_delete RT_Object_Class_Thread t;;
      zoom (rt_hw_interrupt_enable (primask k));; rest) (mkSystem (k <| primask := 1 |>) ps h) Q.
Proof.
  intros Hw Hk Hq Hd Hrest. destruct Hd as [(th & Hth & <- & Hty) Hh Htm [n Hb] (Hp & [m Hbp] & Hv) Hc].
  set (k1 := unlinked_thread t (k <| primask := 1 |>)).
  assert (t ∉ queue k (QSuspend guard)) as Hg.
  { intros Hin. assert (t ∈ queue k QDefunct) as Hin' by (rewrite Hq; left).
    discriminate (si_disjoint _ _ _ _ _ (ki_sched _ (proj1 Hk)) _ _ _ Hin Hin'). }
  assert (world k1 h bs) as Hw1 by (apply unlinked_world; [by apply world_primask|exact Hg]).
  assert (houses RT_Object_Class_Thread t k1) as Hh1 by exact (houses_same _ _ k k1 eq_refl eq_refl eq_refl Hh).
  assert (vacant (stack_addr th) k1) as Hv1 by (by apply unlinked_vacant, vacant_primask).
  apply wp_bind, wp_kernel, wp_list_remove. fold k1.
  apply wp_bind, wp_kernel. eapply wp_get_thread; [exact Hth|]. apply wp_bind.
  eapply wp_mono; [apply (release_world k1 ps h bs _ m Hw1 Hbp Hv1)|].
  intros _ s1 (h1 & -> & Hw2). apply wp_bind.
  eapply wp_mono; [eapply (delete_spec _ t (th_parent th) n k1 ps h1 _ Hw2 Hh1 (header_thread t th k1 Hth) Hty)|].
  { by rewrite lookup_delete_ne. }
  intros _ s2 (h2 & -> & Hw3). apply wp_bind, wp_kernel, wp_enable.
  assert ((erase_at t k1) <| primask := primask k |> = reap t k) as E by (unfold reap, k1, unlinked_thread, erase_at; clear; destruct k; reflexivity).
  rewrite E. apply Hrest. rewrite <-E. exact (world_primask _ _ _ _ Hw3).
Qed.

(** Everything the loop frees. *)
Definition reap_all (l : list (addr * addr)) (k : kernel) : kernel := foldl (λ k tp, reap tp.1 k) k l.
Definition free_all (l : list (addr * addr)) (bs : gmap addr Z) : gmap addr Z :=
  foldl (λ bs tp, delete tp.1 (delete tp.2 bs)) bs l.

Lemma dead_reap_all l k bs t p :
  dead k bs t p → t ∉ l.*1 → p ∉ l.*2 → Forall (λ tp, dead k bs tp.1 tp.2) l →
  Forall (λ tp, dead (reap t k) (delete t (delete p bs)) tp.1 tp.2) l.
Proof.
  intros Hd Ht Hp Hl. rewrite Forall_forall in *. intros [t' p'] Hin. eapply dead_reap; [exact Hd|exact (Hl (t', p') Hin)| |]; simpl.
  - intros ->. apply Ht, list_elem_of_fmap. by exists (t, p').
  - intros ->. apply Hp, list_elem_of_fmap. by exists (t', p).
Qed.

Definition idle_done (k : kernel) (bs : gmap addr Z) (s : system) : Prop :=
  ∃ ps h, s = mkSystem k ps h ∧ world k h bs ∧ kernel_ok k ∧ queue k QDefunct = [].

Lemma idle_loop_spec l : ∀ k ps h bs fuel,
  world k h bs → kernel_ok k → queue k QDefunct = l.*1 → Forall (λ tp, dead k bs tp.1 tp.2) l → NoDup l.*2 →
  (length l < fuel)%nat →
  wp (idle_loop fuel) (mkSystem k ps h) (λ _, idle_done (reap_all l k) (free_all l bs)).
Proof.
  induction l as [|[t p] l IH]; intros k ps h bs fuel Hw Hk Hq Hd Hnd Hf; (destruct fuel as [|fuel]; [simpl in Hf; lia|]); simpl.
  - apply wp_bind, wp_kernel, wp_disable, wp_bind, wp_kernel, wp_gets. unfold id.
    change (queue (k <| primask := 1 |>) QDefunct) with (queue k QDefunct). rewrite Hq.
    apply wp_kernel, wp_enable.
    assert (k <| primask := 1 |> <| primask := primask k |> = k) as -> by (clear; destruct k; reflexivity).
    exists ps, h. split; [reflexivity|]. split; [exact Hw|]. split; [exact Hk|exact Hq].
  - simpl in Hq. apply Forall_cons in Hd as [Hdt Hd]. apply NoDup_cons in Hnd as [Hpl Hnd]. simpl in Hdt.
    pose proof (si_nodup _ _ _ _ _ (ki_sched _ (proj1 Hk)) QDefunct) as Hndt. fold (queue k QDefunct) in Hndt.
    rewrite Hq in Hndt. apply NoDup_cons in Hndt as [Htl _].
    apply wp_bind, wp_kernel, wp_disable, wp_bind, wp_kernel, wp_gets. unfold id.
    change (queue (k <| primask := 1 |>) QDefunct) with (queue k QDefunct). rewrite Hq.
    eapply reap_world; [exact Hw|exact Hk|exact Hq|exact Hdt|]. intros h1 Hw1.
    apply IH; [exact Hw1|by eapply reap_ok| |by apply dead_reap_all|exact Hnd|simpl in Hf; lia].
    rewrite reap_queue, Hq by done. rewrite filter_cons_False by naive_solver. by apply list_filter_ne_id.
Qed.

(** ** What the loop leaves *)
Lemma reap_vacant t a k : vacant a k → vacant a (reap t k).
Proof.
  intros Hv. destruct (decide (a = t)) as [->|Hne]; [apply erase_vacant|].
  eapply local_vacant; [apply reap_local|done|by apply unlinked_vacant].
Qed.
Lemma reap_all_vacant l a : ∀ k, vacant a k ∨ a ∈ l.*1 → vacant a (reap_all l k).
Proof.
  induction l as [|[t p] l IH]; intros k; simpl.
  - intros [?|H]; [done|by apply not_elem_of_nil in H].
  - intros [Hv|[->|Hin]%elem_of_cons]; apply IH; [left; by apply reap_vacant|left; apply erase_vacant|by right].
Qed.
Lemma reap_all_thread l b : ∀ k, b ∉ l.*1 → threads (reap_all l k) !! b = threads k !! b.
Proof.
  induction l as [|[t p] l IH]; intros k; simpl; [done|]. intros [Hne Hin]%not_elem_of_cons.
  rewrite IH by done. pose proof (local_fields _ _ _ (reap_local t k)) as Hl. by rewrite (lo_thread _ _ _ Hl).
Qed.
Lemma reap_all_queue l q : ∀ k, (∀ a, q ≠ QSuspend a ∧ q ≠ QSender a ∨ a ∉ l.*1) →
  queue (reap_all l k) q = filter (.∉ l.*1) (queue k q).
Proof.
  induction l as [|[t p] l IH]; intros k Hq; simpl.
  - induction (queue k q) as [|b l IHl]; [done|]. rewrite filter_cons_True by apply not_elem_of_nil. by rewrite <-IHl.
  - assert (∀ a, q ≠ QSuspend a ∧ q ≠ QSender a ∨ a ∉ l.*1) as Hq'.
    { intros a. destruct (Hq a) as [?|[_ ?]%not_elem_of_cons]; [by left|by right]. }
    assert (q ≠ QSuspend t ∧ q ≠ QSender t) as [H1 H2] by (destruct (Hq t) as [?|H]; [done|destruct H; left]).
    rewrite (IH _ Hq'), reap_queue by done. rewrite list_filter_filter. apply list_filter_iff.
    intros b. rewrite not_elem_of_cons. tauto.
Qed.
Lemma free_all_lookup l b : ∀ bs, free_all l bs !! b = if decide (b ∈ l.*1 ++ l.*2) then None else bs !! b.
Proof.
  induction l as [|[t p] l IH]; intros bs; simpl.
  - done.
  - rewrite IH. clear IH.
    assert (b ∈ t :: l.*1 ++ p :: l.*2 ↔ b = t ∨ b = p ∨ b ∈ l.*1 ++ l.*2) as E.
    { rewrite elem_of_cons, !elem_of_app, elem_of_cons. tauto. }
    destruct (decide (b ∈ t :: _)) as [H|H]; rewrite E in H.
    + case_decide; [done|]. destruct H as [->|[->|?]]; [by rewrite lookup_delete_eq| |done].
      apply lookup_delete_None. right. by rewrite lookup_delete_eq.
    + rewrite decide_False by tauto. by rewrite !lookup_delete_ne by (intros <-; tauto).
Qed.
Lemma excute_spec l k ps h bs :
  world k h bs → kernel_ok k → queue k QDefunct = l.*1 → Forall (λ tp, dead k bs tp.1 tp.2) l → NoDup l.*2 →
  wp rt_thread_idle_excute (mkSystem k ps h) (λ _, idle_done (reap_all l k) (free_all l bs)).
Proof.
  intros Hw Hk Hq Hd Hnd. unfold rt_thread_idle_excute. wp_steps.
  eapply wp_eq; [by apply not_in_interrupt_eq; apply Hw|]. wp_steps. apply wp_kernel. wp_steps. unfold id.
  apply (idle_loop_spec l); try done. by rewrite Hq, length_fmap; lia.
Qed.

(** ** A deleted thread is dead *)

(** A thread that [rt_thread_create] made, with its stack at [p]. *)
Record heap_thread (k : kernel) (bs : gmap addr Z) (t p : addr) (th : rt_thread) : Prop := {
  ht_thread : threads k !! t = Some th;
  ht_stack : stack_addr th = p;
  ht_type : obj_type (th_parent th) = RT_Object_Class_Thread;
  ht_other type : type ≠ RT_Object_Class_Thread → object_header k type (Obj t) = None;
  ht_block : is_Some (bs !! t);
  ht_pool : p ≠ t ∧ is_Some (bs !! p) ∧ vacant p k
}.

Section Deleted.
Context (t : addr) (th : rt_thread) (tm : rt_timer) (k : kernel) (Ht : threads k !! t = Some th).
Context (Htm : is_Some (timers k !! ThreadTimer t)).
Let k' := deleted t th tm k.
Lemma deleted_queue q : q ≠ QDefunct → queue k' q = filter (.≠ t) (queue k q).
Proof.
  intros Hq. unfold k', deleted, timer_detached, removed, queue. ksimpl. rewrite qof_insert_ne by done. apply qof_remove.
Qed.
Lemma deleted_lists type l : object_lists k' !! type = Some l →
  ∃ l', object_lists k !! type = Some l' ∧ l = filter (.≠ ThreadTimer t) l'.
Proof.
  unfold k', deleted, timer_detached, removed. ksimpl. rewrite remove_objects_lookup. intros (l' & El & ->)%fmap_Some. by exists l'.
Qed.
Lemma deleted_vacant a : vacant a k → vacant a k'.
Proof.
  rewrite !vacant_fields. intros Hv. pose proof (va_suspend _ _ Hv) as H1. pose proof (va_sender _ _ Hv) as H2.
  assert (a ≠ t) as Hne by (intros ->; by rewrite (va_thread _ _ Hv) in Ht).
  assert (∀ q, q ≠ QDefunct → queues k !! q = None → queues k' !! q = None) as Hq.
  { intros q Hd E. unfold k', deleted, timer_detached, removed. ksimpl. rewrite lookup_insert_ne by done.
    unfold remove_from_queues. by rewrite lookup_fmap, E. }
  apply (Build_vacant_at a k'); try by destruct Hv.
  - unfold k', deleted, timer_detached, removed. ksimpl. rewrite lookup_insert_ne by done. apply Hv.
  - unfold k', deleted, timer_detached, removed. ksimpl. rewrite lookup_insert_ne by done. apply Hv.
  - unfold k', deleted, timer_detached, removed. ksimpl. rewrite lookup_insert_ne by congruence. apply Hv.
  - by apply Hq.
  - by apply Hq.
  - intros type l Hl. apply deleted_lists in Hl as (l' & Hl' & ->). destruct (va_list _ _ Hv _ _ Hl').
    rewrite !list_elem_of_filter. tauto.
Qed.
Lemma deleted_header type a : a ≠ t → object_header k' type (Obj a) = object_header k type (Obj a).
Proof.
  intros Hne. unfold object_header, k', deleted, timer_detached, removed. ksimpl.
  repeat case_decide; try reflexivity; simpl; by rewrite lookup_insert_ne.
Qed.
Lemma deleted_houses a : a ≠ t → houses RT_Object_Class_Thread a k → houses RT_Object_Class_Thread a k'.
Proof.
  intros Hne [H1 H2 H3 H4 H5]. split; [done|by rewrite deleted_header|intros; rewrite deleted_header; auto|done|].
  intros type l (l' & Hl' & ->)%deleted_lists Hin. apply list_elem_of_filter in Hin as [_ Hin]. by eapply H5.
Qed.
Lemma deleted_world h bs : world k h bs → t ∉ queue k (QSuspend guard) → world k' h bs.
Proof.
  intros [Hu Hb Hv Hls] Hg. split; [|exact Hb| |].
  - apply (guard_frame k k' Hu); [reflexivity| |reflexivity]. rewrite deleted_queue by done. by apply list_filter_ne_id.
  - intros a H1 H2. apply deleted_vacant, (Hv a H1 H2).
  - intros type Hty. destruct (Hls type Hty) as [l Hl]. unfold k', deleted, timer_detached, removed. ksimpl.
    rewrite remove_objects_lookup, Hl. by eexists.
Qed.
Lemma deleted_keeps_dead bs t' p' : t' ≠ t → dead k bs t' p' → dead k' bs t' p'.
Proof.
  intros Hne [(th' & H1 & H2) Hh Htm' Hb (Hp & Hbp & Hv) Hc]. split.
  - exists th'. split; [|done]. unfold k', deleted, timer_detached, removed. ksimpl. by rewrite lookup_insert_ne.
  - by apply deleted_houses.
  - intros q. unfold k', deleted, timer_detached, removed, tqueue. ksimpl.
    intros [_ Hin]%elem_tqof_remove. by apply (Htm' q).
  - done.
  - split; [done|]. split; [done|by apply deleted_vacant].
  - done.
Qed.
Lemma deleted_dead bs p : heap_thread k bs t p th → t ≠ rt_current_thread k → dead k' bs t p.
Proof.
  intros [_ Hp Hty Ho Hb (Hpt & Hbp & Hv)] Hc. split.
  - exists (closed_thread th). unfold k', deleted, timer_detached, removed. ksimpl. rewrite lookup_insert_eq.
    split; [done|]. split; [done|]. simpl. by rewrite Hty.
  - split; [by apply known_class_iff| | |done|].
    + exists (th_parent th). change (th_parent <$> threads k' !! t = Some (th_parent th)).
      unfold k', deleted, timer_detached, removed. ksimpl. by rewrite lookup_insert_eq.
    + intros type Hne. rewrite <-(Ho type Hne). unfold object_header, k', deleted, timer_detached, removed. ksimpl.
      repeat case_decide; try contradiction; try reflexivity. simpl. by rewrite lookup_insert_ne.
    + intros type l (l' & _ & ->)%deleted_lists Hin. by apply list_elem_of_filter in Hin as [? _].
  - intros q. unfold k', deleted, timer_detached, removed, tqueue. ksimpl. apply tq_removed_out.
  - done.
  - split; [done|]. split; [done|by apply deleted_vacant].
  - done.
Qed.
Lemma deleted_ok : kernel_ok k → Scheduler.live th → timers k !! ThreadTimer t = Some tm → t ≠ rt_current_thread k → kernel_ok k'.
Proof.
  intros [Hk (cth & Hc & Hcs)] Hl Htm' Hne. split; [by apply deleted_inv|]. exists cth.
  unfold k', deleted, timer_detached, removed. ksimpl. by rewrite lookup_insert_ne.
Qed.
End Deleted.
End Reaper.

(** ** The properties *)

(** C14: a thread made by [rt_thread_create] that another thread deletes, ready
    or waiting anywhere, is given back by the idle thread together with its
    stack, as are all threads that ended before it: afterwards the list of the
    defunct is empty, nothing is left at their addresses, exactly their blocks
    are free again, the kernel invariants hold, and the other threads and the
    order in which they wait are unchanged. *)
Theorem thread_delete_reclaimed `{!AllocOps system, !AllocSpec system} run_cleanup t p th l k ps h bs :
  world k h bs → kernel_ok k → heap_thread k bs t p th → Scheduler.live th → t ≠ rt_current_thread k →
  cleanup th = RT_NULL → t ∉ queue k (QSuspend guard) →
  queue k QDefunct = l.*1 → Forall (λ tp, dead k bs tp.1 tp.2) l → NoDup (p :: l.*2) →
  wp (zoom (rt_thread_delete run_cleanup t);; rt_thread_idle_excute) (mkSystem k ps h) (λ _ s',
    let k' := sy_kernel s' in let gone := t :: l.*1 in
    kernel_ok k' ∧ queue k' QDefunct = [] ∧ (∀ a, a ∈ gone → vacant a k') ∧
    (∃ bs', world k' (sy_heap s') bs' ∧ ∀ b, bs' !! b = if decide (b ∈ gone ++ p :: l.*2) then None else bs !! b) ∧
    (∀ b, b ∉ gone → threads k' !! b = threads k !! b) ∧
    (∀ q, q ≠ QDefunct → (∀ a, a ∈ gone → q ≠ QSuspend a ∧ q ≠ QSender a) →
      queue k' q = filter (.∉ gone) (queue k q))).
Proof.
  intros Hw Hk Hht Hl Hc Hcl Hg Hq Hd Hnd. pose proof (ht_thread _ _ _ _ _ Hht) as Ht.
  destruct (live_timer _ _ _ (proj1 Hk) Ht Hl) as (tm & Htm & Htok).
  apply wp_bind, wp_kernel. eapply wp_eq.
  { apply (thread_delete_eq run_cleanup t th tm k); [apply Hk|done|done|apply Hht|done|done|apply Htok|apply Htok]. }
  set (k1 := deleted t th tm k).
  assert (t ∉ l.*1) as Htl.
  { rewrite <-Hq. intros Hin. destruct (si_defunct _ _ _ _ _ (ki_sched _ (proj1 Hk)) t Hin) as (th' & Ht' & Hs).
    rewrite Ht in Ht'. injection Ht' as <-. by destruct Hl as [Hx|[Hx|Hx]]; rewrite Hx in Hs. }
  assert (queue k1 QDefunct = ((t, p) :: l).*1) as Hq1.
  { unfold k1, deleted, timer_detached, removed, queue. ksimpl. rewrite qof_insert_eq, qof_remove.
    simpl. f_equal. unfold queue in Hq. rewrite Hq. by apply list_filter_ne_id. }
  eapply wp_mono; [apply (excute_spec ((t, p) :: l) k1 ps h bs)|].
  - by apply deleted_world.
  - by apply deleted_ok.
  - done.
  - constructor; [by apply (deleted_dead t th tm k Ht)|]. rewrite Forall_forall in *. intros [t' p'] Hin.
    apply deleted_keeps_dead; [done| |by apply (Hd (t', p'))]. simpl. intros ->. apply Htl, list_elem_of_fmap. by exists (t, p').
  - done.
  - intros _ s' (ps' & h' & -> & Hw' & Hk' & Hq').
    assert (∀ a, a ∈ t :: l.*1 → vacant a (reap_all ((t, p) :: l) k1)) as H1 by (intros a Ha; apply reap_all_vacant; right; exact Ha).
    assert (∀ b, b ∉ t :: l.*1 → threads (reap_all ((t, p) :: l) k1) !! b = threads k !! b) as H2.
    { intros b Hb. rewrite reap_all_thread by exact Hb.
      unfold k1, deleted, timer_detached, removed. ksimpl. apply lookup_insert_ne. intros <-. apply Hb. left. }
    assert (∀ q, q ≠ QDefunct → (∀ a, a ∈ t :: l.*1 → q ≠ QSuspend a ∧ q ≠ QSender a) →
      queue (reap_all ((t, p) :: l) k1) q = filter (.∉ t :: l.*1) (queue k q)) as H3.
    { intros q Hqd Hqa. rewrite reap_all_queue.
      - unfold k1. rewrite deleted_queue by done. rewrite list_filter_filter. apply list_filter_iff. intros b.
        change (((t, p) :: l).*1) with (t :: l.*1). rewrite not_elem_of_cons. tauto.
      - intros a. destruct (decide (a ∈ ((t, p) :: l).*1)) as [Ha|Ha]; [left; by apply Hqa|by right]. }
    remember (reap_all ((t, p) :: l) k1) as k2 eqn:E. clear E. cbv zeta. cbn [sy_kernel sy_heap].
    split; [exact Hk'|]. split; [exact Hq'|]. split; [exact H1|]. split; [|split; [exact H2|exact H3]].
    exists (free_all ((t, p) :: l) bs). split; [exact Hw'|]. intros b. apply (free_all_lookup ((t, p) :: l)).
Qed.

(** ** A concrete instance *)

(** Two threads on the heap, each in front of its stack: [T_made] waits, and
    [T_over] has ended. *)
#[local] Existing Instances demo_ops demo_contract.
Definition two_threads : list blk := [mkBlk 140 true; mkBlk 76 true; mkBlk 140 true; mkBlk 76 true; mkBlk 576 false].
Definition threads_heap : heap :=
  match (malloc_locked 128;; malloc_locked 64;; malloc_locked 128;; malloc_locked 64) demo_heap with
  | Ok (_, h) => h
  | Err _ => demo_heap
  end.
Definition T_made : addr := 0x20001010.
Definition S_made : addr := 0x2000109c.
Definition T_over : addr := 0x200010e8.
Definition S_over : addr := 0x20001174.
Definition made_thread (s stack : Z) : rt_thread :=
  (a_thread s 12 RT_EOK) <| th_parent := mkObject [116; 0; 0; 0; 0; 0; 0; 0] RT_Object_Class_Thread 0 |>
    <| stack_addr := stack |> <| stack_size := 64 |> <| sp := stack + 32 |>.
Definition reaper_scene : kernel :=
  let k := heap_scene (QSuspend 1) ∅ in
  k <| threads := <[T_made := made_thread RT_THREAD_SUSPEND S_made]> (<[T_over := made_thread RT_THREAD_CLOSE S_over]> (threads k)) |>
    <| timers := <[ThreadTimer T_made := a_timer T_made 0 0]> (<[ThreadTimer T_over := a_timer T_over 0 0]> (timers k)) |>
    <| queues := <[QSuspend 2 := [T_made]]> (<[QDefunct := [T_over]]> (queues k)) |>
    <| object_lists := <[RT_Object_Class_Timer := [ThreadTimer T_made]]> (<[RT_Object_Class_Thread := [Obj T_over; Obj T_made]]> (object_lists k)) |>.
Definition threads_blocks : gmap addr Z := in_use threads_heap two_threads.

Lemma threads_rep : heap_rep threads_heap two_threads.
Proof.
  split; [by vm_compute| |by vm_compute; intuition|by vm_compute|by vm_compute].
  split; [|split; [|split]].
  - repeat constructor; by vm_compute.
  - repeat split; by vm_compute.
  - by vm_compute.
  - eexists. by vm_compute.
Qed.
Lemma reaper_world : world reaper_scene threads_heap threads_blocks.
Proof.
  split.
  - exists (a_sem 1). constructor; [|done|done]. constructor; [done|done|done|by left| |done].
    simpl. unfold RT_SEM_VALUE_MAX, RT_UINT16_MAX. lia.
  - split; [by vm_compute|]. split; [by vm_compute|]. exists two_threads. split; [apply threads_rep|done].
  - intros a Ha Hb. apply (clean_sound 0x20001000 0x20001800 threads_blocks); [by_evaluation|done|done].
  - intros type Ht. class_cases Ht; vm_compute; by eexists.
Qed.
Lemma no_header_at (a : addr) (k : kernel) type :
  type ≠ RT_Object_Class_Thread →
  Forall (λ type, object_header k type (Obj a) = None) [2; 3; 4; 5; 6; 8; 9; 10] → object_header k type (Obj a) = None.
Proof.
  rewrite Forall_forall. intros Hne Hf.
  destruct (decide (type ∈ [2; 3; 4; 5; 6; 8; 9; 10])) as [Hin|Hout]; [by apply Hf|].
  rewrite !not_elem_of_cons in Hout. unfold object_header. repeat (case_decide; [exfalso; tauto|]). done.
Qed.
Lemma over_dead : dead reaper_scene threads_blocks T_over S_over.
Proof.
  split.
  - by eexists.
  - split; [by_evaluation|by eexists| |done|].
    + intros type Hne. apply no_header_at; [done|]. repeat constructor.
    + intros type l Hl. assert (map_Forall (λ _ l, ThreadTimer T_over ∉ l) (object_lists reaper_scene)) as Hf by by_evaluation.
      by apply (Hf type l).
  - intros q Hin. assert (map_Forall (λ _ l, ThreadTimer T_over ∉ l) (timer_queues reaper_scene)) as Hf by by_evaluation.
    apply in_list in Hin as (l & E & Hin). by apply (Hf q l).
  - by vm_compute; eexists.
  - split; [done|]. split; [by vm_compute; eexists|].
    apply (clean_sound 0x20001000 0x20001800 (delete S_over threads_blocks)); [by_evaluation|by vm_compute|by vm_compute].
  - done.
Qed.
Lemma made_heap_thread : heap_thread reaper_scene threads_blocks T_made S_made (made_thread RT_THREAD_SUSPEND S_made).
Proof.
  split; [done|done|done| |by vm_compute; eexists|].
  - intros type Hne. apply no_header_at; [done|]. repeat constructor.
  - split; [done|]. split; [by vm_compute; eexists|].
    apply (clean_sound 0x20001000 0x20001800 (delete S_made threads_blocks)); [by_evaluation|by vm_compute|by vm_compute].
Qed.
Lemma thread_delete_reclaimed_witness :
  wp (zoom (rt_thread_delete (λ _ _, mret tt) T_made);; rt_thread_idle_excute) (mkSystem reaper_scene ∅ threads_heap)
    (λ _ s', queue (sy_kernel s') QDefunct = [] ∧ queue (sy_kernel s') (QSuspend 2) = [] ∧
      ∃ bs', blocks (sy_heap s') bs' ∧ ∀ b, b ∈ [T_made; S_made; T_over; S_over] → bs' !! b = None).
Proof.
  eapply wp_mono; [apply (thread_delete_reclaimed (λ _ _, mret tt) T_made S_made (made_thread RT_THREAD_SUSPEND S_made)
    [(T_over, S_over)] reaper_scene ∅ threads_heap threads_blocks)|].
  - apply reaper_world.
  - split; [by_check|by apply (running_ok _ (a_thread RT_THREAD_RUNNING 10 RT_EOK))].
  - apply made_heap_thread.
  - by right; left.
  - done.
  - done.
  - by apply not_elem_of_nil.
  - done.
  - constructor; [apply over_dead|constructor].
  - by_evaluation.
  - intros _ s' (_ & Hq & _ & (bs' & Hw & Hb) & _ & Hqs). split; [exact Hq|]. split.
    + rewrite (Hqs (QSuspend 2)); [done|done|]. intros a [->|[->|[]%not_elem_of_nil]%elem_of_cons]%elem_of_cons; done.
    + exists bs'. split; [apply Hw|]. intros b Hin. rewrite Hb. apply decide_True.
      revert Hin. simpl. rewrite !elem_of_cons. tauto.
Defined.
