(* ===== verification/Serial.v ===== *)
(** * The serial driver framework ([components/drivers/serial/serial.c])

    Serial ports over a UART: polled and interrupt-driven receiving with a
    software FIFO, polled sending, and the functions it registers with the
    device layer.  The DMA modes are not configured in this firmware (no port
    is registered with a DMA flag, so [rt_serial_open] refuses them), and
    interrupt-driven sending waits for a completion when the UART is busy,
    which is not modelled: these two paths are the fault [FConfig]. *)
From S2P Require Import Prelude Kernel Scheduler Object Timer Thread Ipc Decide Scenario Scheduling Registry Semaphore Heap Allocator HeapLock MemPool Device.

Definition BAUD_RATE_9600 : Z := 9600.
Definition BAUD_RATE_115200 : Z := 115200.
Definition RT_SERIAL_RB_BUFSZ : Z := 64.
Definition RT_DEVICE_CTRL_RESUME : Z := 0x01.
Definition RT_DEVICE_CTRL_SUSPEND : Z := 0x02.
Definition RT_DEVICE_CTRL_CONFIG : Z := 0x03.
Definition RT_DEVICE_CTRL_CLOSE : Z := 0x04.
Definition RT_DEVICE_CTRL_SET_INT : Z := 0x10.
Definition RT_DEVICE_CTRL_CLR_INT : Z := 0x11.
Definition RT_SERIAL_EVENT_RX_IND : Z := 0x01.
Definition RT_EIO : Z := 8.

(** ** State *)
Record serial_configure := mkConfig {
  baud_rate : Z; data_bits : Z; stop_bits : Z; parity : Z; bit_order : Z; invert : Z; bufsz : Z
}.
#[global] Instance serial_configure_eq_dec : EqDecision serial_configure.
Proof. solve_decision. Defined.
#[global] Instance eta_serial_configure : EtaRecord serial_configure := λ c,
  mkConfig (baud_rate c) (data_bits c) (stop_bits c) (parity c) (bit_order c) (invert c) (bufsz c).
Definition RT_SERIAL_CONFIG_DEFAULT : serial_configure :=
  mkConfig BAUD_RATE_115200 8 0 0 0 0 RT_SERIAL_RB_BUFSZ.

Record rt_serial_rx_fifo := mkFifo { buffer : list Z; put_index : Z; get_index : Z; is_full : bool }.
#[global] Instance eta_rx_fifo : EtaRecord rt_serial_rx_fifo := λ f,
  mkFifo (buffer f) (put_index f) (get_index f) (is_full f).

(** [struct rt_serial_device] without its [parent], which is the [rt_device]
    at the same address, and with the state [hw] of the UART under it.
    [serial_rx] is the allocated FIFO and its address. *)
Record rt_serial_device (U : Type) := mkSerial {
  config : serial_configure;
  serial_rx : option (addr * rt_serial_rx_fifo);
  serial_tx : option addr;
  hw : U
}.
Arguments mkSerial {U}.
Arguments config {U} r.
Arguments serial_rx {U} r.
Arguments serial_tx {U} r.
Arguments hw {U} r.
#[global] Instance eta_serial U : EtaRecord (rt_serial_device U) := λ s,
  mkSerial (config s) (serial_rx s) (serial_tx s) (hw s).

(** The argument of a control call. *)
Inductive dev_arg := ArgNull | ArgInt (n : Z) | ArgConfig (c : serial_configure).

(** [struct rt_uart_ops] *)
Class UartOps (U : Type) := {
  uart_configure : serial_configure → M U Z;
  uart_control : Z → dev_arg → M U Z;
  uart_putc : Z → M U Z;
  uart_getc : M U Z
}.
Definition SIZEOF_RX_FIFO : Z := 12.
(** [struct rt_completion]: a flag and a list head. *)
Definition SIZEOF_TX_FIFO : Z := 12.

(** ** The receive FIFO *)

(** Lines 1215-1228: a byte arrives. *)
Definition fifo_put (bufsz ch : Z) (f : rt_serial_rx_fifo) : outcome rt_serial_rx_fifo :=
  match array_set (buffer f) (put_index f) (u8 ch) with
  | Err e => Err e
  | Ok buf =>
      let put := if decide (bufsz ≤ u16 (put_index f + 1)) then 0 else u16 (put_index f + 1) in
      if decide (put = get_index f) then
        let get := if decide (bufsz ≤ u16 (get_index f + 1)) then 0 else u16 (get_index f + 1) in
        Ok (mkFifo buf put get true)
      else Ok (mkFifo buf put (get_index f) (is_full f))
  end.
(** Lines 283-299: the oldest byte, [None] when there is none. *)
Definition fifo_get (bufsz : Z) (f : rt_serial_rx_fifo) : outcome (option Z * rt_serial_rx_fifo) :=
  if decide (get_index f = put_index f ∧ is_full f = false) then Ok (None, f)
  else
    match array_get (buffer f) (get_index f) with
    | Err e => Err e
    | Ok ch =>
        let get := if decide (bufsz ≤ u16 (get_index f + 1)) then 0 else u16 (get_index f + 1) in
        Ok (Some ch, mkFifo (buffer f) (put_index f) get false)
    end.
(** [rx_length] of [rt_hw_serial_isr] *)
Definition fifo_length (bufsz : Z) (f : rt_serial_rx_fifo) : Z :=
  if decide (get_index f ≤ put_index f) then put_index f - get_index f
  else bufsz - (get_index f - put_index f).
Definition _serial_fifo_calc_recved_len (bufsz : Z) (f : rt_serial_rx_fifo) : Z :=
  if decide (put_index f = get_index f) then (if is_full f then bufsz else 0)
  else if decide (get_index f < put_index f) then put_index f - get_index f
  else bufsz - (get_index f - put_index f).

Section Framework.
Context {S U : Type} `{!UartOps U, !AllocOps S, Part S kernel, Part S (gmap addr (rt_serial_device U))}.
(** What the function at a code address does when it is called as the
    [rx_indicate] of a device. *)
Context (rx_callback : Z → addr → Z → M S Z).
Implicit Types dev : addr.

Definition get_serial (dev : addr) : M S (rt_serial_device U) :=
  s ← zoom (gets (λ ss : gmap addr (rt_serial_device U), ss !! dev)); of_option FBadPointer s.
Definition put_serial (dev : addr) (s : rt_serial_device U) : M S unit :=
  zoom (modify (λ ss : gmap addr (rt_serial_device U), <[dev := s]> ss)).
Definition upd_serial (dev : addr) (f : rt_serial_device U → rt_serial_device U) : M S unit :=
  s ← get_serial dev; put_serial dev (f s).
(** A function of [serial->ops]. *)
Definition uart {A} (dev : addr) (m : M U A) : M S A :=
  s ← get_serial dev;
  r ← lift_outcome (m (hw s));
  put_serial dev (s <| hw := r.2 |>);;
  mret r.1.

(** *** Receiving *)
Fixpoint _serial_poll_rx (length : nat) (dev : addr) : M S (list Z) :=
  match length with
  | O => mret []
  | Datatypes.S length =>
      ch ← uart dev uart_getc;
      if decide (ch = -1) then mret []
      else
        d ← zoom (get_dev dev);
        if decide (has_flag (open_flag d) RT_DEVICE_FLAG_STREAM ∧ ch = 10) then mret [u8 ch]
        else data ← _serial_poll_rx length dev; mret (u8 ch :: data)
  end.

Fixpoint int_rx_loop (length : nat) (dev : addr) : M S (list Z) :=
  match length with
  | O => mret []
  | Datatypes.S length =>
      s ← get_serial dev;
      rx ← of_option FBadPointer (serial_rx s);
      level ← zoom rt_hw_interrupt_disable;
      r ← lift_outcome (fifo_get (bufsz (config s)) rx.2);
      match r with
      | (None, _) => zoom (rt_hw_interrupt_enable level);; mret []
      | (Some ch, f) =>
          put_serial dev (s <| serial_rx := Some (rx.1, f) |>);;
          zoom (rt_hw_interrupt_enable level);;
          data ← int_rx_loop length dev;
          mret (Z.land ch 0xff :: data)
      end
  end.
Definition _serial_int_rx (length : nat) (dev : addr) : M S (list Z) :=
  s ← get_serial dev;
  RT_ASSERT (serial_rx s ≠ None);;
  int_rx_loop length dev.

(** *** Sending *)
Fixpoint poll_tx_loop (data : list Z) (dev : addr) : M S unit :=
  match data with
  | [] => mret tt
  | c :: data =>
      d ← zoom (get_dev dev);
      (if decide (c = 10 ∧ has_flag (open_flag d) RT_DEVICE_FLAG_STREAM) then
         uart dev (uart_putc 13);; mret tt
       else mret tt);;
      uart dev (uart_putc c);;
      poll_tx_loop data dev
  end.
Definition _serial_poll_tx (data : list Z) (dev : addr) : M S Z :=
  poll_tx_loop data dev;; mret (zlen data).
(** [rt_completion_wait] where the UART is busy is left out. *)
Fixpoint int_tx_loop (data : list Z) (dev : addr) : M S unit :=
  match data with
  | [] => mret tt
  | c :: data =>
      d ← zoom (get_dev dev);
      (if decide (c = 10 ∧ has_flag (open_flag d) RT_DEVICE_FLAG_STREAM) then
         r ← uart dev (uart_putc 13);
         if decide (r = -1) then fail FConfig else mret tt
       else mret tt);;
      r ← uart dev (uart_putc c);
      (if decide (r = -1) then fail FConfig else mret tt);;
      int_tx_loop data dev
  end.
Definition _serial_int_tx (data : list Z) (dev : addr) : M S Z :=
  s ← get_serial dev;
  RT_ASSERT (serial_tx s ≠ None);;
  int_tx_loop data dev;; mret (zlen data).

(** *** The functions of the device *)
Definition rt_serial_init (dev : addr) : M S Z :=
  RT_ASSERT (dev ≠ RT_NULL);;
  upd_serial dev (λ s, s <| serial_rx := None |> <| serial_tx := None |>);;
  s ← get_serial dev;
  uart dev (uart_configure (config s)).

Definition or_open_flag (dev : addr) (m : Z) : M S unit :=
  zoom (upd_dev dev (λ d, d <| open_flag := Z.lor (open_flag d) m |>)).

(** Lines 616-679 *)
Definition open_rx (dev : addr) (oflag : Z) : M S unit :=
  s ← get_serial dev;
  match serial_rx s with
  | None =>
      if decide (has_flag oflag RT_DEVICE_FLAG_INT_RX) then
        rx_fifo ← alloc (SIZEOF_RX_FIFO + bufsz (config s));
        RT_ASSERT (rx_fifo ≠ RT_NULL);;
        upd_serial dev (λ s, s <| serial_rx :=
          Some (rx_fifo, mkFifo (replicate (Z.to_nat (bufsz (config s))) 0) 0 0 false) |>);;
        or_open_flag dev RT_DEVICE_FLAG_INT_RX;;
        uart dev (uart_control RT_DEVICE_CTRL_SET_INT (ArgInt RT_DEVICE_FLAG_INT_RX));;
        mret tt
      else if decide (has_flag oflag RT_DEVICE_FLAG_DMA_RX) then fail FConfig
      else mret tt
  | Some _ =>
      if decide (has_flag oflag RT_DEVICE_FLAG_INT_RX) then or_open_flag dev RT_DEVICE_FLAG_INT_RX
      else if decide (has_flag oflag RT_DEVICE_FLAG_DMA_RX) then fail FConfig
      else mret tt
  end.
(** Lines 681-727 *)
Definition open_tx (dev : addr) (oflag : Z) : M S unit :=
  s ← get_serial dev;
  match serial_tx s with
  | None =>
      if decide (has_flag oflag RT_DEVICE_FLAG_INT_TX) then
        tx_fifo ← alloc SIZEOF_TX_FIFO;
        RT_ASSERT (tx_fifo ≠ RT_NULL);;
        upd_serial dev (λ s, s <| serial_tx := Some tx_fifo |>);;
        or_open_flag dev RT_DEVICE_FLAG_INT_TX;;
        uart dev (uart_control RT_DEVICE_CTRL_SET_INT (ArgInt RT_DEVICE_FLAG_INT_TX));;
        mret tt
      else if decide (has_flag oflag RT_DEVICE_FLAG_DMA_TX) then fail FConfig
      else mret tt
  | Some _ =>
      if decide (has_flag oflag RT_DEVICE_FLAG_INT_TX) then or_open_flag dev RT_DEVICE_FLAG_INT_TX
      else if decide (has_flag oflag RT_DEVICE_FLAG_DMA_TX) then fail FConfig
      else mret tt
  end.
(** A mode that was asked for and that the device does not have. *)
Definition refused (oflag flag m : Z) : Prop := has_flag oflag m ∧ Z.land flag m = 0.
#[global] Instance refused_dec oflag flag m : Decision (refused oflag flag m).
Proof. unfold refused. apply _. Defined.

Definition rt_serial_open (dev : addr) (oflag : Z) : M S Z :=
  RT_ASSERT (dev ≠ RT_NULL);;
  d ← zoom (get_dev dev);
  if decide (refused oflag (dev_flag d) RT_DEVICE_FLAG_DMA_RX) then mret (- RT_EIO)
  else if decide (refused oflag (dev_flag d) RT_DEVICE_FLAG_DMA_TX) then mret (- RT_EIO)
  else if decide (refused oflag (dev_flag d) RT_DEVICE_FLAG_INT_RX) then mret (- RT_EIO)
  else if decide (refused oflag (dev_flag d) RT_DEVICE_FLAG_INT_TX) then mret (- RT_EIO)
  else
    let stream_flag :=
      if decide (has_flag oflag RT_DEVICE_FLAG_STREAM ∨ has_flag (open_flag d) RT_DEVICE_FLAG_STREAM)
      then RT_DEVICE_FLAG_STREAM else 0 in
    zoom (upd_dev dev (λ d, d <| open_flag := Z.land oflag 0xff |>));;
    open_rx dev oflag;;
    open_tx dev oflag;;
    or_open_flag dev stream_flag;;
    mret RT_EOK.

Definition close_rx (dev : addr) : M S unit :=
  d ← zoom (get_dev dev);
  s ← get_serial dev;
  if decide (has_flag (open_flag d) RT_DEVICE_FLAG_INT_RX) then
    RT_ASSERT (serial_rx s ≠ None);;
    rx ← of_option FBadPointer (serial_rx s);
    release rx.1;;
    upd_serial dev (λ s, s <| serial_rx := None |>);;
    zoom (upd_dev dev (λ d, d <| open_flag := clear_flag (open_flag d) RT_DEVICE_FLAG_INT_RX |>));;
    uart dev (uart_control RT_DEVICE_CTRL_CLR_INT (ArgInt RT_DEVICE_FLAG_INT_RX));;
    mret tt
  else if decide (has_flag (open_flag d) RT_DEVICE_FLAG_DMA_RX) then fail FConfig
  else mret tt.
Definition close_tx (dev : addr) : M S unit :=
  d ← zoom (get_dev dev);
  s ← get_serial dev;
  if decide (has_flag (open_flag d) RT_DEVICE_FLAG_INT_TX) then
    RT_ASSERT (serial_tx s ≠ None);;
    tx ← of_option FBadPointer (serial_tx s);
    release tx;;
    upd_serial dev (λ s, s <| serial_tx := None |>);;
    zoom (upd_dev dev (λ d, d <| open_flag := clear_flag (open_flag d) RT_DEVICE_FLAG_INT_TX |>));;
    uart dev (uart_control RT_DEVICE_CTRL_CLR_INT (ArgInt RT_DEVICE_FLAG_INT_TX));;
    mret tt
  else if decide (has_flag (open_flag d) RT_DEVICE_FLAG_DMA_TX) then fail FConfig
  else mret tt.
Definition rt_serial_close (dev : addr) : M S Z :=
  RT_ASSERT (dev ≠ RT_NULL);;
  d ← zoom (get_dev dev);
  if decide (1 < ref_count d) then mret RT_EOK
  else
    close_rx dev;;
    close_tx dev;;
    uart dev (uart_control RT_DEVICE_CTRL_CLOSE ArgNull);;
    zoom (upd_dev dev (λ d, d <| dev_flag := clear_flag (dev_flag d) RT_DEVICE_FLAG_ACTIVATED |>));;
    mret RT_EOK.

Definition rt_serial_read (dev : addr) (pos size : Z) : M S (list Z) :=
  RT_ASSERT (dev ≠ RT_NULL);;
  if decide (size = 0) then mret []
  else
    d ← zoom (get_dev dev);
    if decide (has_flag (open_flag d) RT_DEVICE_FLAG_INT_RX) then _serial_int_rx (Z.to_nat size) dev
    else if decide (has_flag (open_flag d) RT_DEVICE_FLAG_DMA_RX) then fail FConfig
    else _serial_poll_rx (Z.to_nat size) dev.
Definition rt_serial_write (dev : addr) (pos : Z) (data : list Z) : M S Z :=
  RT_ASSERT (dev ≠ RT_NULL);;
  if decide (data = []) then mret 0
  else
    d ← zoom (get_dev dev);
    if decide (has_flag (open_flag d) RT_DEVICE_FLAG_INT_TX) then _serial_int_tx data dev
    else if decide (has_flag (open_flag d) RT_DEVICE_FLAG_DMA_TX) then fail FConfig
    else _serial_poll_tx data dev.

Definition rt_serial_control (dev : addr) (cmd : Z) (args : dev_arg) : M S Z :=
  RT_ASSERT (dev ≠ RT_NULL);;
  if decide (cmd = RT_DEVICE_CTRL_SUSPEND) then
    zoom (upd_dev dev (λ d, d <| dev_flag := Z.lor (dev_flag d) RT_DEVICE_FLAG_SUSPENDED |>));;
    mret RT_EOK
  else if decide (cmd = RT_DEVICE_CTRL_RESUME) then
    zoom (upd_dev dev (λ d, d <| dev_flag := clear_flag (dev_flag d) RT_DEVICE_FLAG_SUSPENDED |>));;
    mret RT_EOK
  else if decide (cmd = RT_DEVICE_CTRL_CONFIG) then
    match args with
    | ArgConfig pconfig =>
        d ← zoom (get_dev dev);
        s ← get_serial dev;
        if decide (bufsz pconfig ≠ bufsz (config s) ∧ ref_count d ≠ 0) then mret RT_EBUSY
        else
          upd_serial dev (λ s, s <| config := pconfig |>);;
          (if decide (ref_count d ≠ 0) then uart dev (uart_configure pconfig);; mret tt else mret tt);;
          mret RT_EOK
    | ArgNull => mret RT_EOK
    | ArgInt _ => fail FBadPointer
    end
  else uart dev (uart_control cmd args).

Definition serial_methods (dev : addr) : device_methods S dev_arg :=
  mkMethods (Some (rt_serial_init dev)) (Some (rt_serial_open dev)) (Some (rt_serial_close dev))
    (Some (rt_serial_read dev)) (Some (rt_serial_write dev)) (Some (rt_serial_control dev)).

(** [rt_hw_serial_register]: the functions stored in the device are
    [serial_methods]. *)
Definition rt_hw_serial_register (dev : addr) (name : list Z) (flag : Z) : M S Z :=
  zoom (upd_dev dev (λ d, d <| rx_indicate := RT_NULL |> <| tx_complete := RT_NULL |>));;
  zoom (rt_device_register dev name flag).

(** *** The interrupt *)
Fixpoint isr_rx_loop (fuel : nat) (dev : addr) : M S unit :=
  match fuel with
  | O => fail FFuel
  | Datatypes.S fuel =>
      ch ← uart dev uart_getc;
      if decide (ch = -1) then mret tt
      else
        level ← zoom rt_hw_interrupt_disable;
        s ← get_serial dev;
        rx ← of_option FBadPointer (serial_rx s);
        f ← lift_outcome (fifo_put (bufsz (config s)) ch rx.2);
        put_serial dev (s <| serial_rx := Some (rx.1, f) |>);;
        zoom (rt_hw_interrupt_enable level);;
        isr_rx_loop fuel dev
  end.
(** The event [RT_SERIAL_EVENT_RX_IND]; the others belong to the modes that are
    left out. *)
Definition rt_hw_serial_isr (fuel : nat) (dev : addr) (event : Z) : M S unit :=
  if decide (Z.land event 0xff = RT_SERIAL_EVENT_RX_IND) then
    s ← get_serial dev;
    RT_ASSERT (serial_rx s ≠ None);;
    isr_rx_loop fuel dev;;
    d ← zoom (get_dev dev);
    if decide (rx_indicate d ≠ RT_NULL) then
      level ← zoom rt_hw_interrupt_disable;
      s ← get_serial dev;
      rx ← of_option FBadPointer (serial_rx s);
      zoom (rt_hw_interrupt_enable level);;
      let rx_length := fifo_length (bufsz (config s)) rx.2 in
      if decide (rx_length ≠ 0) then rx_callback (rx_indicate d) dev rx_length;; mret tt
      else mret tt
    else mret tt
  else fail FConfig.
End Framework.

(** ** The receive FIFO as a queue

    [fifo_rep n f q]: the FIFO [f] over a buffer of [n] bytes holds the bytes
    [q], the oldest first.  One byte of the buffer is always free, so it holds
    [n - 1] bytes. *)
Definition wrap (n x : Z) : Z := if decide (x < n) then x else x - n.

Record fifo_rep (n : Z) (f : rt_serial_rx_fifo) (q : list Z) : Prop := {
  fr_size : 2 ≤ n ≤ 65535;
  fr_len : zlen (buffer f) = n;
  fr_get : 0 ≤ get_index f < n;
  fr_room : zlen q < n;
  fr_put : put_index f = wrap n (get_index f + zlen q);
  fr_data i x : q !! i = Some x → buffer f !! Z.to_nat (wrap n (get_index f + Z.of_nat i)) = Some x;
  fr_full : is_full f = true → q ≠ [];
  fr_bytes : Forall (λ c, byte c) q
}.

Lemma fifo_bytes_app q ch : Forall (λ c, byte c) q → Forall (λ c, byte c) (q ++ [u8 ch]).
Proof. intros. apply Forall_app. split; [done|]. apply Forall_singleton, u8_range. Qed.

(** The last [n] elements. *)
Definition lastn {A} (n : nat) (l : list A) : list A := drop (length l - n) l.
Lemma lastn_all {A} n (l : list A) : (length l ≤ n)%nat → lastn n l = l.
Proof. intros. unfold lastn. by replace (length l - n)%nat with 0%nat by lia. Qed.
Lemma lastn_lastn_app {A} n (l r : list A) : lastn n (lastn n l ++ r) = lastn n (l ++ r).
Proof.
  unfold lastn. destruct (decide (length l ≤ n)%nat).
  - by replace (length l - n)%nat with 0%nat by lia.
  - rewrite !length_app, length_drop.
    replace (length l - (length l - n) + length r - n)%nat with (length r) by lia.
    replace (length l + length r - n)%nat with (length l - n + length r)%nat by lia.
    rewrite <-drop_drop. f_equal. by rewrite drop_app_le by lia.
Qed.

Lemma next_index n i :
  2 ≤ n ≤ 65535 → 0 ≤ i < n → (if decide (n ≤ u16 (i + 1)) then 0 else u16 (i + 1)) = wrap n (i + 1).
Proof. intros Hn Hi. rewrite wrapU_small by lia. unfold wrap. repeat case_decide; lia. Qed.

Section Fifo.
Context (n : Z) (f : rt_serial_rx_fifo) (q : list Z) (H : fifo_rep n f q).

Lemma put_range : 0 ≤ put_index f < n.
Proof. destruct H. unfold wrap, zlen in *. case_decide; lia. Qed.
Lemma fifo_put_spec ch :
  ∃ f', fifo_put n ch f = Ok f' ∧ fifo_rep n f' (lastn (Z.to_nat (n - 1)) (q ++ [u8 ch])).
Proof.
  pose proof put_range as Hp. destruct H as [Hn Hl Hg Hr Eput Hd Hf Hy].
  unfold fifo_put, array_set. rewrite decide_True by (rewrite Hl; lia).
  rewrite !(next_index n) by lia.
  set (buf := <[Z.to_nat (put_index f) := u8 ch]> (buffer f)).
  assert (zlen buf = n) as Hlb by (unfold buf, zlen in *; rewrite length_insert; lia).
  assert (∀ i x, (q ++ [u8 ch]) !! i = Some x →
    buf !! Z.to_nat (wrap n (get_index f + Z.of_nat i)) = Some x) as Hdata.
  { intros i x Hi. unfold buf. destruct (decide (i = length q)) as [->|Hne].
    - rewrite lookup_app_r, Nat.sub_diag in Hi by lia. injection Hi as <-.
      unfold zlen in Eput. rewrite <-Eput. apply list_lookup_insert_eq. unfold zlen in Hl. lia.
    - pose proof (lookup_lt_Some _ _ _ Hi) as Hlt. rewrite length_app in Hlt. simpl in Hlt.
      rewrite lookup_app_l in Hi by lia. rewrite list_lookup_insert_ne; [by apply Hd|].
      rewrite Eput. unfold wrap, zlen in *. repeat case_decide; lia. }
  case_decide as Hfull.
  - (* the oldest byte is dropped *)
    assert (zlen q = n - 1) as Hq.
    { revert Hfull. rewrite Eput. unfold wrap, zlen in *. repeat case_decide; lia. }
    eexists. split; [done|].
    assert (lastn (Z.to_nat (n - 1)) (q ++ [u8 ch]) = drop 1 (q ++ [u8 ch])) as ->.
    { unfold lastn. f_equal. rewrite length_app. unfold zlen in *. simpl. lia. }
    split; simpl; [done|done| | | | | |by apply Forall_drop, fifo_bytes_app].
    + unfold wrap. case_decide; lia.
    + unfold zlen in *. rewrite length_drop, length_app. simpl. lia.
    + rewrite Hfull. unfold zlen, wrap in *. rewrite length_drop, length_app. simpl. repeat case_decide; lia.
    + intros i x. rewrite lookup_drop. intros Hi. rewrite <-(Hdata (1 + i)%nat x Hi). f_equal. f_equal.
      apply lookup_lt_Some in Hi. rewrite length_app in Hi. unfold wrap, zlen in *. simpl in *.
      repeat case_decide; lia.
    + intros _ E. apply (f_equal length) in E. rewrite length_drop, length_app in E. unfold zlen in *. simpl in E. lia.
  - assert (zlen q + 1 < n) as Hq.
    { destruct (decide (zlen q + 1 < n)); [done|]. destruct Hfull.
      rewrite Eput. unfold wrap, zlen in *. repeat case_decide; lia. }
    eexists. split; [done|]. rewrite lastn_all by (rewrite length_app; unfold zlen in *; simpl; lia).
    split; simpl; [done|done|done| | |done| |by apply fifo_bytes_app].
    + unfold zlen in *. rewrite length_app. simpl. lia.
    + rewrite Eput. unfold zlen, wrap in *. rewrite length_app. simpl. repeat case_decide; lia.
    + intros _. by destruct q.
Qed.

Lemma fifo_get_spec :
  ∃ f', fifo_get n f = Ok (head q, f') ∧ fifo_rep n f' (tail q).
Proof.
  pose proof put_range as Hp. destruct H as [Hn Hl Hg Hr Eput Hd Hf Hy].
  unfold fifo_get. destruct q as [|c q']; simpl.
  - rewrite decide_True; [by exists f|]. split.
    + rewrite Eput. unfold wrap, zlen. simpl. case_decide; lia.
    + destruct (is_full f); [by destruct Hf|done].
  - assert (get_index f ≠ put_index f) as Hne.
    { rewrite Eput. unfold zlen, wrap in *. simpl in *. case_decide; lia. }
    rewrite decide_False by tauto. unfold array_get. rewrite decide_True by lia.
    pose proof (Hd 0%nat c eq_refl) as H0. rewrite Z.add_0_r in H0. unfold wrap in H0 at 1.
    rewrite decide_True in H0 by lia. rewrite H0. rewrite (next_index n) by lia.
    apply Forall_cons in Hy as [_ Hy]. eexists. split; [done|]. split; simpl; [done|done| | | | |done|done].
    + unfold wrap. case_decide; lia.
    + unfold zlen in *. simpl in *. lia.
    + rewrite Eput. unfold zlen, wrap in *. simpl in *. repeat case_decide; lia.
    + intros i x Hi. rewrite <-(Hd (Datatypes.S i) x Hi). f_equal. f_equal.
      apply lookup_lt_Some in Hi. unfold zlen, wrap in *. simpl in *. repeat case_decide; lia.
Qed.

Lemma fifo_length_spec : fifo_length n f = zlen q.
Proof.
  destruct H as [Hn Hl Hg Hr Eput Hd Hf Hy]. unfold fifo_length. rewrite Eput. unfold wrap, zlen in *.
  repeat case_decide; lia.
Qed.
End Fifo.

Lemma fifo_fresh n : 2 ≤ n ≤ 65535 → fifo_rep n (mkFifo (replicate (Z.to_nat n) 0) 0 0 false) [].
Proof.
  intros Hn. split; simpl; try done; unfold wrap, zlen; simpl; rewrite ?length_replicate; repeat case_decide; lia.
Qed.

(** ** Ports of a machine *)
Record machine (U : Type) := mkMachine {
  m_kernel : kernel;
  m_ports : gmap addr (rt_serial_device U);
  m_heap : heap
}.
Arguments mkMachine {U}.
Arguments m_kernel {U} m.
Arguments m_ports {U} m.
Arguments m_heap {U} m.
#[global] Instance eta_machine U : EtaRecord (machine U) := λ m,
  mkMachine (m_kernel m) (m_ports m) (m_heap m).
#[global] Instance machine_kernel U : Part (machine U) kernel :=
  MkPart _ _ m_kernel (λ k m, m <| m_kernel := k |>).
#[global] Instance machine_ports U : Part (machine U) (gmap addr (rt_serial_device U)) :=
  MkPart _ _ m_ports (λ p m, m <| m_ports := p |>).
#[global] Instance machine_heap U : Part (machine U) heap :=
  MkPart _ _ m_heap (λ h m, m <| m_heap := h |>).
#[global] Instance machine_kernel_laws U : PartLaws (machine U) kernel.
Proof. split; try done. by intros []. Qed.
#[global] Instance machine_heap_laws U : PartLaws (machine U) heap.
Proof. split; try done. by intros []. Qed.
#[global] Instance machine_apart U : PartsApart (machine U) kernel heap.
Proof. by split. Qed.

(** What a UART driver promises: bytes come out in the order they arrived and
    go in the order they were sent; [-1] means that none has arrived. *)
Class UartSpec (U : Type) `{UartOps U} := {
  uart_pending : U → list Z;
  uart_sent : U → list Z;
  uart_line : U → option serial_configure;
  getc_spec u : ∃ u', uart_getc u = Ok (default (-1) (head (uart_pending u)), u') ∧
    uart_pending u' = tail (uart_pending u) ∧ uart_sent u' = uart_sent u ∧ uart_line u' = uart_line u;
  pending_bytes u : Forall (λ c, 0 ≤ c < 256) (uart_pending u);
  putc_spec u c : ∃ r u', uart_putc c u = Ok (r, u') ∧ r ≠ -1 ∧
    uart_pending u' = uart_pending u ∧ uart_sent u' = uart_sent u ++ [c] ∧ uart_line u' = uart_line u;
  control_spec u cmd arg : cmd ≠ RT_DEVICE_CTRL_CONFIG → ∃ u', uart_control cmd arg u = Ok (RT_EOK, u') ∧
    uart_pending u' = uart_pending u ∧ uart_sent u' = uart_sent u ∧ uart_line u' = uart_line u;
  configure_spec u c : ∃ u', uart_configure c u = Ok (RT_EOK, u') ∧
    uart_pending u' = uart_pending u ∧ uart_sent u' = uart_sent u ∧ uart_line u' = Some c
}.

#[local] Arguments zoom : simpl never.
#[local] Arguments uart : simpl never.
#[local] Arguments get_serial : simpl never.
#[local] Arguments put_serial : simpl never.

Section Ports.
Context {U : Type} `{UartSpec U}.
Context (rx_callback : Z → addr → Z → M (machine U) Z).
Implicit Types (m : machine U) (s : rt_serial_device U) (u : U) (Q : unit → machine U → Prop).

Lemma set_kernel_id m : m <| m_kernel := m_kernel m |> = m.
Proof. by destruct m. Qed.
Lemma set_ports_id m : m <| m_ports := m_ports m |> = m.
Proof. by destruct m. Qed.
Lemma get_dev_eq m dev d :
  devices (m_kernel m) !! dev = Some d → zoom (get_dev dev) m = Ok (d, m).
Proof.
  intros Hd. unfold zoom, get_dev. simpl. unfold mbind, M_bind, gets. rewrite Hd. by destruct m.
Qed.
Lemma get_serial_eq m dev s : m_ports m !! dev = Some s → get_serial dev m = Ok (s, m).
Proof.
  intros Hs. unfold get_serial, zoom, mbind, M_bind, gets. simpl. rewrite Hs. by destruct m.
Qed.
Lemma put_serial_eq m dev s : put_serial dev s m = Ok (tt, m <| m_ports := <[dev := s]> (m_ports m) |>).
Proof. done. Qed.
Lemma uart_eq {A} (f : M U A) m dev s r u :
  m_ports m !! dev = Some s → f (hw s) = Ok (r, u) →
  uart dev f m = Ok (r, m <| m_ports := <[dev := s <| hw := u |>]> (m_ports m) |>).
Proof.
  intros Hs Hf. unfold uart. apply wp_exact. wp_steps. eapply wp_eq; [by apply get_serial_eq|].
  wp_steps. eapply wp_eq; [apply put_serial_eq|]. by wp_steps.
Qed.
(** With interrupts masked; the level is restored at the end. *)
Definition masked m : machine U := m <| m_kernel := (m_kernel m) <| primask := 1 |> |>.
Lemma disable_eq m : zoom rt_hw_interrupt_disable m = Ok (primask (m_kernel m), masked m).
Proof. done. Qed.
Lemma enable_eq m p :
  zoom (rt_hw_interrupt_enable (primask (m_kernel m))) (masked m <| m_ports := p |>) =
  Ok (tt, m <| m_ports := p |>).
Proof. destruct m as [k ports h]. by destruct k. Qed.
Lemma enable_mk k p h :
  zoom (rt_hw_interrupt_enable (primask k)) (mkMachine (k <| primask := 1 |>) p h) = Ok (tt, @mkMachine U k p h).
Proof. by destruct k. Qed.
Lemma enable_same_eq m : zoom (rt_hw_interrupt_enable (primask (m_kernel m))) (masked m) = Ok (tt, m).
Proof. destruct m as [k ports h]. by destruct k. Qed.

(** The port [dev] is open for interrupt-driven receiving; its FIFO holds [q],
    the UART under it the bytes [bs], and has sent [ss]. *)
Record port_ok (m : machine U) (dev : addr) (c : serial_configure) (q bs ss : list Z) : Prop := {
  pk_null : dev ≠ RT_NULL;
  pk_device : ∃ d, devices (m_kernel m) !! dev = Some d ∧ has_flag (open_flag d) RT_DEVICE_FLAG_INT_RX ∧
    Z.land (open_flag d) RT_DEVICE_FLAG_INT_TX = 0 ∧ Z.land (open_flag d) RT_DEVICE_FLAG_DMA_TX = 0;
  pk_port : ∃ a f tx u, m_ports m !! dev = Some (mkSerial c (Some (a, f)) tx u) ∧ fifo_rep (bufsz c) f q ∧
    uart_pending u = bs ∧ uart_sent u = ss
}.

(** The same machine but for the port [dev]. *)
Definition other_ports (m m' : machine U) (dev : addr) : Prop :=
  m_kernel m' = m_kernel m ∧ m_heap m' = m_heap m ∧ ∀ dev', dev' ≠ dev → m_ports m' !! dev' = m_ports m !! dev'.
Lemma other_ports_refl m dev : other_ports m m dev.
Proof. done. Qed.
Lemma other_ports_trans m1 m2 m3 dev : other_ports m1 m2 dev → other_ports m2 m3 dev → other_ports m1 m3 dev.
Proof.
  intros (E1 & E2 & F1) (E3 & E4 & F2). split; [congruence|]. split; [congruence|]. intros d Hd. by rewrite F2, F1.
Qed.
Lemma other_ports_put m dev s : other_ports m (m <| m_ports := <[dev := s]> (m_ports m) |>) dev.
Proof. split; [done|]. split; [done|]. intros d Hd. simpl. by rewrite lookup_insert_ne. Qed.

Lemma int_rx_spec n m dev c q bs ss :
  port_ok m dev c q bs ss →
  ∃ m', int_rx_loop n dev m = Ok (take n q, m') ∧ port_ok m' dev c (drop n q) bs ss ∧ other_ports m m' dev.
Proof.
  revert m q. induction n as [|n IH]; intros m q Hp.
  { exists m. rewrite take_0, drop_0. done. }
  pose proof Hp as [Hnull Hd (a & f & tx & u & Hs & Hf & Hb & Hss)].
  destruct (fifo_get_spec _ _ _ Hf) as (f' & Ef & Hf').
  destruct q as [|ch q].
  - exists m. split; [|by rewrite drop_nil]. apply wp_exact. simpl. wp_steps.
    eapply wp_eq; [by apply get_serial_eq|]. simpl. wp_steps. eapply wp_eq; [apply disable_eq|].
    wp_steps. simpl. wp_steps. eapply wp_eq; [apply enable_same_eq|].
    by wp_steps.
  - set (m1 := m <| m_ports := <[dev := mkSerial c (Some (a, f')) tx u]> (m_ports m) |>).
    assert (port_ok m1 dev c q bs ss) as Hp1.
    { split; [done|done|]. exists a, f', tx, u. unfold m1. simpl. by rewrite lookup_insert_eq. }
    destruct (IH m1 q Hp1) as (m2 & E2 & Hp2 & Ho2). exists m2. simpl in Ef.
    split; [|split; [done|eapply other_ports_trans; [apply other_ports_put|done]]].
    apply wp_exact. simpl. wp_steps.
    eapply wp_eq; [by apply get_serial_eq|]. simpl. wp_steps. eapply wp_eq; [apply disable_eq|].
    wp_steps. simpl. wp_steps. eapply wp_eq; [apply put_serial_eq|].
    wp_steps. eapply wp_eq; [apply enable_eq|]. wp_steps. eapply wp_eq; [exact E2|]. wp_steps.
    split; [|done]. f_equal. apply land_byte. pose proof (fr_bytes _ _ _ Hf) as Hy. by apply Forall_cons in Hy as [? _].
Qed.

(** What a full FIFO keeps. *)
Definition kept (c : serial_configure) (q : list Z) : list Z := lastn (Z.to_nat (bufsz c - 1)) q.
Lemma kept_rep c f q : fifo_rep (bufsz c) f q → kept c q = q.
Proof. intros [Hn _ _ Hr _ _ _ _]. apply lastn_all. unfold zlen in Hr. lia. Qed.

Lemma isr_loop_spec bs : ∀ fuel m dev c q ss,
  port_ok m dev c q bs ss → (length bs < fuel)%nat →
  ∃ m', isr_rx_loop fuel dev m = Ok (tt, m') ∧ port_ok m' dev c (kept c (q ++ bs)) [] ss ∧ other_ports m m' dev.
Proof.
  induction bs as [|ch bs IH]; intros fuel m dev c q ss Hp Hfuel; (destruct fuel as [|fuel]; [simpl in Hfuel; lia|]);
    pose proof Hp as [Hnull Hd (a & f & tx & u & Hs & Hf & Hb & Hss)];
    destruct (getc_spec u) as (u' & Eg & Hb' & Hss' & _); rewrite Hb in Eg, Hb'; simpl in Eg, Hb'.
  - exists (m <| m_ports := <[dev := mkSerial c (Some (a, f)) tx u']> (m_ports m) |>). split; [|split].
    + apply wp_exact. simpl. wp_steps. eapply wp_eq; [by eapply (uart_eq uart_getc)|]. simpl. by wp_steps.
    + rewrite app_nil_r, (kept_rep _ _ _ Hf). split; [done|done|]. exists a, f, tx, u'. simpl. rewrite lookup_insert_eq.
      repeat split; try done; try apply Hf; congruence.
    + apply other_ports_put.
  - assert (byte ch) as Hch.
    { pose proof (pending_bytes u) as Hy. rewrite Hb in Hy. by apply Forall_cons in Hy as [? _]. }
    destruct (fifo_put_spec _ _ _ Hf ch) as (f' & Ef & Hf'). rewrite u8_byte in Hf' by done.
    set (m0 := m <| m_ports := <[dev := mkSerial c (Some (a, f)) tx u']> (m_ports m) |>).
    set (m1 := m0 <| m_ports := <[dev := mkSerial c (Some (a, f')) tx u']> (m_ports m0) |>).
    assert (port_ok m1 dev c (kept c (q ++ [ch])) bs ss) as Hp1.
    { split; [done|done|]. exists a, f', tx, u'. unfold m1. simpl. rewrite lookup_insert_eq.
      repeat split; try done; try apply Hf'; congruence. }
    simpl in Hfuel. destruct (IH fuel m1 dev c _ ss Hp1) as (m2 & E2 & Hp2 & Ho2); [lia|].
    exists m2. unfold kept in Hp2 |- *. rewrite lastn_lastn_app, <-app_assoc in Hp2. split; [|split; [done|]].
    + apply wp_exact. simpl. wp_steps. eapply wp_eq; [by eapply (uart_eq uart_getc)|]. simpl. fold m0. wp_steps.
      rewrite decide_False by lia. wp_steps. eapply wp_eq; [apply disable_eq|]. wp_steps.
      eapply wp_eq; [apply get_serial_eq; unfold m0; simpl; by rewrite lookup_insert_eq|]. simpl. wp_steps.
      eapply wp_eq; [apply put_serial_eq|]. wp_steps. eapply wp_eq; [exact (enable_mk (m_kernel m) _ _)|].
      eapply wp_eq; [exact E2|]. done.
    + eapply other_ports_trans; [apply other_ports_put|]. eapply other_ports_trans; [apply other_ports_put|done].
Qed.

Lemma serial_read_spec m dev c q bs ss pos size :
  port_ok m dev c q bs ss → 0 ≤ size →
  ∃ m', rt_serial_read dev pos size m = Ok (take (Z.to_nat size) q, m') ∧
    port_ok m' dev c (drop (Z.to_nat size) q) bs ss ∧ other_ports m m' dev.
Proof.
  intros Hp Hsz. destruct (int_rx_spec (Z.to_nat size) m dev c q bs ss Hp) as (m' & E & Hp' & Ho).
  destruct Hp as [Hnull (d & Hd & Hrx & _) (a & f & tx & u & Hs & _)].
  unfold rt_serial_read. destruct (decide (size = 0)) as [->|Hne].
  - exists m. change (Z.to_nat 0) with 0%nat in *. rewrite take_0, drop_0. simpl in E. injection E as <-.
    split; [|split; [|done]].
    + apply wp_exact. wp_steps. by wp_steps.
    + by rewrite drop_0 in Hp'.
  - exists m'. split; [|done]. apply wp_exact. wp_steps. wp_steps.
    eapply wp_eq; [by apply get_dev_eq|]. cbv beta. rewrite decide_True by done.
    unfold _serial_int_rx. wp_steps. eapply wp_eq; [by apply get_serial_eq|]. wp_steps.
    by eapply wp_eq; [exact E|].
Qed.

(** The bytes a polled write puts on the line. *)
Definition line_bytes (d : rt_device) (data : list Z) : list Z :=
  c ← data;
  if decide (c = 10 ∧ has_flag (open_flag d) RT_DEVICE_FLAG_STREAM) then [13; c] else [c].

Lemma poll_tx_spec data : ∀ m dev s d,
  m_ports m !! dev = Some s → devices (m_kernel m) !! dev = Some d →
  ∃ m' u, poll_tx_loop data dev m = Ok (tt, m') ∧ other_ports m m' dev ∧
    m_ports m' !! dev = Some (s <| hw := u |>) ∧
    uart_pending u = uart_pending (hw s) ∧ uart_sent u = uart_sent (hw s) ++ line_bytes d data ∧
    uart_line u = uart_line (hw s).
Proof.
  induction data as [|c data IH]; intros m dev s d Hs Hd.
  { exists m, (hw s). rewrite app_nil_r. repeat split; try done. rewrite Hs. by destruct s. }
  (* one byte *)
  assert (∀ m s c, m_ports m !! dev = Some s → ∃ r u,
    uart dev (uart_putc c) m = Ok (r, m <| m_ports := <[dev := s <| hw := u |>]> (m_ports m) |>) ∧
    uart_pending u = uart_pending (hw s) ∧ uart_sent u = uart_sent (hw s) ++ [c] ∧
    uart_line u = uart_line (hw s)) as Hput.
  { intros m0 s0 c0 Hs0. destruct (putc_spec (hw s0) c0) as (r & u & E & _ & H1 & H2 & H3).
    exists r, u. split; [by apply uart_eq|done]. }
  assert (∀ m s, m_ports m !! dev = Some s → devices (m_kernel m) !! dev = Some d →
    ∃ m' u, (uart dev (uart_putc c);; poll_tx_loop data dev) m = Ok (tt, m') ∧ other_ports m m' dev ∧
      m_ports m' !! dev = Some (s <| hw := u |>) ∧ uart_pending u = uart_pending (hw s) ∧
      uart_sent u = uart_sent (hw s) ++ c :: line_bytes d data ∧ uart_line u = uart_line (hw s)) as Hone.
  { intros m0 s0 Hs0 Hd0. destruct (Hput m0 s0 c Hs0) as (r & u & E & H1 & H2 & H3).
    destruct (IH (m0 <| m_ports := <[dev := s0 <| hw := u |>]> (m_ports m0) |>) dev (s0 <| hw := u |>) d)
      as (m' & u' & E' & Ho & Hs' & G1 & G2 & G3); [simpl; apply lookup_insert_eq|done|].
    exists m', u'. split; [|split; [|split; [done|]]].
    - unfold mbind, M_bind. by rewrite E.
    - eapply other_ports_trans; [apply other_ports_put|done].
    - simpl in *. rewrite G1, G2, G3, H1, H2, H3, <-app_assoc. done. }
  destruct (decide (c = 10 ∧ has_flag (open_flag d) RT_DEVICE_FLAG_STREAM)) as [Hc|Hc].
  - destruct (Hput m s 13 Hs) as (r & u & E & H1 & H2 & H3).
    destruct (Hone (m <| m_ports := <[dev := s <| hw := u |>]> (m_ports m) |>) (s <| hw := u |>))
      as (m' & u' & E' & Ho & Hs' & G1 & G2 & G3); [simpl; apply lookup_insert_eq|done|].
    exists m', u'. split; [|split; [|split; [done|]]].
    + apply wp_exact. cbn [poll_tx_loop]. wp_steps. eapply wp_eq; [by apply get_dev_eq|]. wp_steps.
      rewrite decide_True by done. wp_steps. eapply wp_eq; [exact E|]. cbv beta. apply wp_ret.
      by eapply wp_eq; [exact E'|].
    + eapply other_ports_trans; [apply other_ports_put|done].
    + simpl in *. unfold line_bytes. simpl. rewrite decide_True by done.
      rewrite G1, G2, G3, H1, H2, H3, <-app_assoc. done.
  - destruct (Hone m s Hs Hd) as (m' & u' & E' & Ho & Hs' & G1 & G2 & G3).
    exists m', u'. split; [|split; [done|split; [done|]]].
    + apply wp_exact. cbn [poll_tx_loop]. wp_steps. eapply wp_eq; [by apply get_dev_eq|]. wp_steps.
      rewrite decide_False by done. apply wp_ret. cbv beta. by eapply wp_eq; [exact E'|].
    + unfold line_bytes. simpl. rewrite decide_False by done. done.
Qed.

Lemma serial_write_spec m dev c q bs ss pos data d :
  port_ok m dev c q bs ss → devices (m_kernel m) !! dev = Some d →
  ∃ m', rt_serial_write dev pos data m = Ok (zlen data, m') ∧
    port_ok m' dev c q bs (ss ++ line_bytes d data) ∧ other_ports m m' dev.
Proof.
  intros [Hnull (d' & Hd' & Hrx & Hit & Hdt) (a & f & tx & u & Hs & Hf & Hb & Hss)] Hd.
  rewrite Hd in Hd'. injection Hd' as <-.
  destruct (poll_tx_spec data m dev _ d Hs Hd) as (m' & u' & E & Ho & Hs' & G1 & G2 & G3). simpl in *.
  exists m'. split; [|split; [|done]].
  - apply wp_exact. unfold rt_serial_write. wp_steps. 
    destruct (decide (data = [])) as [->|Hne].
    + simpl in E. injection E as <-. by wp_steps.
    + wp_steps. eapply wp_eq; [by apply get_dev_eq|]. cbv beta.
      rewrite decide_False, decide_False by (rewrite ?Hit, ?Hdt; by intros []).
      unfold _serial_poll_tx. wp_steps. eapply wp_eq; [exact E|]. by wp_steps.
  - split; [done| |].
    + exists d. by rewrite (proj1 Ho).
    + exists a, f, tx, u'. split; [done|]. split; [done|]. split; congruence.
Qed.

(** *** The interrupt *)
Lemma serial_isr_spec fuel m dev c q bs ss d :
  port_ok m dev c q bs ss → devices (m_kernel m) !! dev = Some d → (length bs < fuel)%nat →
  ∃ m', port_ok m' dev c (kept c (q ++ bs)) [] ss ∧ other_ports m m' dev ∧
    rt_hw_serial_isr rx_callback fuel dev RT_SERIAL_EVENT_RX_IND m =
    (if decide (rx_indicate d ≠ RT_NULL ∧ kept c (q ++ bs) ≠ [])
     then rx_callback (rx_indicate d) dev (zlen (kept c (q ++ bs)));; mret tt else mret tt) m'.
Proof.
  intros Hp Hd Hfuel. destruct (isr_loop_spec bs fuel m dev c q ss Hp Hfuel) as (m' & E & Hp' & Ho).
  exists m'. split; [done|]. split; [done|].
  destruct Hp as [_ _ (a0 & f0 & tx0 & u0 & Hs0 & _)].
  pose proof Hp' as [_ _ (a & f & tx & u & Hs & Hf & _)].
  unfold rt_hw_serial_isr. rewrite decide_True by done. unfold mbind at 1, M_bind at 1.
  rewrite (get_serial_eq _ _ _ Hs0). unfold mbind at 1, M_bind at 1. simpl.
  unfold mbind at 1, M_bind at 1. rewrite E. unfold mbind at 1, M_bind at 1.
  rewrite (get_dev_eq m' dev d) by by rewrite (proj1 Ho).
  destruct (decide (rx_indicate d ≠ RT_NULL)) as [Hi|Hi]; [|by rewrite decide_False by tauto].
  unfold mbind at 1, M_bind at 1. rewrite disable_eq. unfold mbind at 1, M_bind at 1.
  rewrite (get_serial_eq (masked m') dev _ Hs). unfold mbind at 1, M_bind at 1. simpl.
  unfold mbind at 1, M_bind at 1. rewrite enable_same_eq. rewrite (fifo_length_spec _ _ _ Hf).
  destruct (kept c (q ++ bs)) as [|b l] eqn:Ek.
  - rewrite decide_False by by intros []. by rewrite decide_False by tauto.
  - rewrite decide_True by by (unfold zlen; simpl; lia). by rewrite decide_True.
Qed.

(** *** Opening *)
Definition set_dev (dev : addr) (d : rt_device) (k : kernel) : kernel :=
  k <| devices := <[dev := d]> (devices k) |>.
Lemma set_dev_lookup dev d k : devices (set_dev dev d k) !! dev = Some d.
Proof. apply lookup_insert_eq. Qed.
Lemma set_dev_set dev d d' k : set_dev dev d' (set_dev dev d k) = set_dev dev d' k.
Proof. unfold set_dev. destruct k. simpl. by rewrite insert_insert_eq. Qed.
Lemma set_dev_free heap_sem x dev d k : heap_free heap_sem k x → heap_free heap_sem (set_dev dev d k) x.
Proof. intros [[] ? ?]. by constructor. Qed.

Lemma get_dev_mk k p h dev d :
  devices k !! dev = Some d → zoom (get_dev dev) (mkMachine k p h) = Ok (d, @mkMachine U k p h).
Proof. intros. by apply get_dev_eq. Qed.
Lemma upd_dev_mk k p h dev d f :
  devices k !! dev = Some d →
  zoom (upd_dev dev f) (mkMachine k p h) = Ok (tt, @mkMachine U (set_dev dev (f d) k) p h).
Proof. intros Hd. unfold zoom, upd_dev, get_dev, mbind, M_bind, gets. simpl. by rewrite Hd. Qed.
Lemma assert_device_mk k p h dev d :
  devices k !! dev = Some d → dev ≠ RT_NULL → rt_object_get_type (dev_parent d) = RT_Object_Class_Device →
  zoom (assert_device dev) (mkMachine k p h) = Ok (tt, @mkMachine U k p h).
Proof.
  intros Hd Hn Ht. unfold zoom, assert_device, RT_ASSERT, get_dev, mbind, M_bind, gets. simpl.
  rewrite decide_True by done. unfold mret at 1, M_ret at 1. rewrite Hd. simpl. by rewrite decide_True.
Qed.
Lemma get_serial_mk k p h dev s :
  p !! dev = Some s → get_serial dev (mkMachine k p h) = Ok (s, mkMachine k p h).
Proof. intros. by apply get_serial_eq. Qed.
Lemma upd_serial_mk k p h dev s f :
  p !! dev = Some s → upd_serial dev f (mkMachine k p h) = Ok (tt, mkMachine k (<[dev := f s]> p) h).
Proof. intros Hs. unfold upd_serial, mbind, M_bind. by rewrite (get_serial_mk k p h dev s Hs). Qed.
Lemma uart_mk {A} (f : M U A) k p h dev s r u :
  p !! dev = Some s → f (hw s) = Ok (r, u) →
  uart dev f (mkMachine k p h) = Ok (r, mkMachine k (<[dev := s <| hw := u |>]> p) h).
Proof. intros. by apply (uart_eq f (mkMachine k p h)). Qed.

Lemma alloc_mk heap_sem k p h n a h' x :
  heap_free heap_sem k x → malloc_locked n h = Ok (a, h') →
  @alloc _ (lock_alloc heap_sem) n (mkMachine k p h) = Ok (a, @mkMachine U k p h').
Proof.
  intros Hf Hm. unfold alloc, lock_alloc, mbind, M_bind.
  pose proof (malloc_uncontended (S := machine U) heap_sem (mkMachine k p h) x n Hf) as E. rewrite E.
  simpl. by rewrite Hm.
Qed.

(** What is carried over while the port is set up. *)
Definition same_line (u u' : U) : Prop := uart_pending u' = uart_pending u ∧ uart_sent u' = uart_sent u.

Lemma serial_init_mk k p h dev s :
  dev ≠ RT_NULL → p !! dev = Some s →
  ∃ u, rt_serial_init dev (mkMachine k p h) =
         Ok (RT_EOK, mkMachine k (<[dev := mkSerial (config s) None None u]> p) h) ∧
       same_line (hw s) u ∧ uart_line u = Some (config s).
Proof.
  intros Hn Hs. destruct (configure_spec (hw s) (config s)) as (u & E & H1 & H2 & H3).
  exists u. split; [|done]. apply wp_exact. unfold rt_serial_init. wp_steps.
  eapply wp_eq; [by apply upd_serial_mk|]. wp_steps.
  eapply wp_eq; [apply get_serial_mk, lookup_insert_eq|]. cbv beta.
  eapply wp_eq; [eapply (uart_mk (uart_configure (config s))); [apply lookup_insert_eq|exact E]|].
  rewrite insert_insert_eq. by destruct s.
Qed.

Definition empty_fifo (c : serial_configure) : rt_serial_rx_fifo :=
  mkFifo (replicate (Z.to_nat (bufsz c)) 0) 0 0 false.

Lemma serial_open_mk heap_sem k p h dev d c u x a h' :
  dev ≠ RT_NULL → devices k !! dev = Some d → has_flag (dev_flag d) RT_DEVICE_FLAG_INT_RX → open_flag d = 0 →
  p !! dev = Some (mkSerial c None None u) → heap_free heap_sem k x →
  malloc_locked (SIZEOF_RX_FIFO + bufsz c) h = Ok (a, h') → a ≠ 0 →
  ∃ u', @rt_serial_open _ U _ (lock_alloc heap_sem) _ _ dev RT_DEVICE_FLAG_INT_RX (mkMachine k p h) =
          Ok (RT_EOK, mkMachine (set_dev dev (d <| open_flag := RT_DEVICE_FLAG_INT_RX |>) k)
                        (<[dev := mkSerial c (Some (a, empty_fifo c)) None u']> p) h') ∧
        same_line u u' ∧ uart_line u' = uart_line u.
Proof.
  intros Hn Hd Hrx Hof Hs Hf Ha Hnull.
  destruct (control_spec u RT_DEVICE_CTRL_SET_INT (ArgInt RT_DEVICE_FLAG_INT_RX)) as (u' & E & H1 & H2 & H3); [done|].
  exists u'. split; [|done]. apply wp_exact. unfold rt_serial_open. wp_steps.
  eapply wp_eq; [by apply get_dev_mk|]. cbv beta.
  rewrite decide_False by by intros []. rewrite decide_False by by intros [].
  rewrite decide_False by (intros [_ ?]; done). rewrite decide_False by by intros [].
  rewrite (decide_False (P := _ ∨ _)) by (rewrite Hof; by intros [|]).
  wp_steps. eapply wp_eq; [by apply upd_dev_mk|]. wp_steps. unfold open_rx. wp_steps.
  eapply wp_eq; [by apply get_serial_mk|]. cbn [serial_rx]. rewrite decide_True by done. wp_steps.
  eapply wp_eq; [eapply alloc_mk; [by apply set_dev_free|exact Ha]|]. wp_steps.
  eapply wp_eq; [by apply upd_serial_mk|]. wp_steps. unfold or_open_flag.
  eapply wp_eq; [apply upd_dev_mk, set_dev_lookup|]. wp_steps.
  eapply wp_eq; [eapply (uart_mk (uart_control _ _)); [apply lookup_insert_eq|exact E]|]. wp_steps.
  unfold open_tx. wp_steps. eapply wp_eq; [apply get_serial_mk, lookup_insert_eq|]. cbn [serial_tx].
  cbv beta. simpl. wp_steps.
  eapply wp_eq; [apply upd_dev_mk, set_dev_lookup|]. wp_steps. split; [done|].
  rewrite !set_dev_set, insert_insert_eq. done.
Qed.

(** The functions in the devices of a board whose devices are all serial
    ports. *)
Definition board (heap_sem : addr) (dev : addr) : device_methods (machine U) dev_arg :=
  @serial_methods _ U _ (lock_alloc heap_sem) _ _ dev.

(** A registered port that nobody has opened. *)
Record closed_port (k : kernel) (dev : addr) (d : rt_device) : Prop := {
  cp_null : dev ≠ RT_NULL;
  cp_device : devices k !! dev = Some d;
  cp_type : rt_object_get_type (dev_parent d) = RT_Object_Class_Device;
  cp_flag : dev_flag d = Z.lor RT_DEVICE_FLAG_RDWR (Z.lor RT_DEVICE_FLAG_INT_RX RT_DEVICE_FLAG_INT_TX);
  cp_open : open_flag d = 0;
  cp_ref : ref_count d = 0
}.
Definition opened (d : rt_device) : rt_device :=
  d <| dev_flag := Z.lor (dev_flag d) RT_DEVICE_FLAG_ACTIVATED |>
    <| open_flag := Z.lor RT_DEVICE_FLAG_INT_RX RT_DEVICE_OFLAG_OPEN |> <| ref_count := 1 |>.

Lemma device_open_mk heap_sem k p h dev d s x a h' :
  closed_port k dev d → p !! dev = Some s → 2 ≤ bufsz (config s) ≤ 65535 → heap_free heap_sem k x →
  malloc_locked (SIZEOF_RX_FIFO + bufsz (config s)) h = Ok (a, h') → a ≠ 0 →
  ∃ u, rt_device_open (board heap_sem) dev RT_DEVICE_FLAG_INT_RX (mkMachine k p h) =
         Ok (RT_EOK, mkMachine (set_dev dev (opened d) k)
                       (<[dev := mkSerial (config s) (Some (a, empty_fifo (config s))) None u]> p) h') ∧
       same_line (hw s) u ∧ uart_line u = Some (config s).
Proof.
  intros [Hn Hd Hty Hfl Hof Href] Hs Hb Hf Ha Hnull.
  destruct (serial_init_mk k p h dev s Hn Hs) as (u1 & E1 & [S1 S2] & L1).
  set (d1 := d <| dev_flag := Z.lor (dev_flag d) RT_DEVICE_FLAG_ACTIVATED |>).
  destruct (serial_open_mk heap_sem (set_dev dev d1 k) (<[dev := mkSerial (config s) None None u1]> p) h dev d1
    (config s) u1 x a h') as (u2 & E2 & [S3 S4] & L2); [done|apply set_dev_lookup| |done|apply lookup_insert_eq| |done|done|].
  { unfold d1. simpl. by rewrite Hfl. }
  { by apply set_dev_free. }
  exists u2. split; [|split; [split; congruence|congruence]].
  apply wp_exact. unfold rt_device_open. wp_steps. eapply wp_eq; [by eapply assert_device_mk|]. wp_steps.
  unfold open_activate. wp_steps. eapply wp_eq; [by apply get_dev_mk|]. cbv beta.
  rewrite decide_False by (rewrite Hfl; by intros []). wp_steps.
  eapply wp_eq; [exact E1|]. cbv beta. rewrite decide_False by (intros []; done). wp_steps.
  eapply wp_eq; [by apply upd_dev_mk|]. wp_steps. eapply wp_eq; [apply get_dev_mk, set_dev_lookup|]. cbv beta.
  rewrite decide_False by (simpl; rewrite Hof; by intros [_ []]). wp_steps.
  eapply wp_eq; [exact E2|]. cbv beta. rewrite decide_True by by left. wp_steps.
  eapply wp_eq; [apply upd_dev_mk, set_dev_lookup|]. wp_steps.
  eapply wp_eq; [apply get_dev_mk, set_dev_lookup|]. wp_steps; [by simpl; rewrite Href|].
  wp_steps. split; [done|]. rewrite !set_dev_set, insert_insert_eq. simpl. unfold opened.
  rewrite Href. done.
Qed.

Lemma opened_port_ok k p h dev d c a u :
  dev ≠ RT_NULL → 2 ≤ bufsz c ≤ 65535 → p !! dev = Some (mkSerial c (Some (a, empty_fifo c)) None u) →
  port_ok (mkMachine (set_dev dev (opened d) k) p h) dev c [] (uart_pending u) (uart_sent u).
Proof.
  intros Hn Hb Hs. split; [done| |].
  - exists (opened d). split; [apply set_dev_lookup|]. done.
  - exists a, (empty_fifo c), None, u. split; [done|]. split; [by apply fifo_fresh|done].
Qed.

(** ** The port as its users see it *)
Definition port_inv (d : rt_device) (dev : addr) (c : serial_configure) (m : machine U) (q bs ss : list Z) : Prop :=
  port_ok m dev c q bs ss ∧ devices (m_kernel m) !! dev = Some d.
Record in_use (d : rt_device) : Prop := {
  iu_type : rt_object_get_type (dev_parent d) = RT_Object_Class_Device;
  iu_ref : ref_count d ≠ 0
}.
Lemma port_inv_other d dev c m m' q bs ss q' bs' ss' :
  port_inv d dev c m q bs ss → port_ok m' dev c q' bs' ss' → other_ports m m' dev → port_inv d dev c m' q' bs' ss'.
Proof. intros [_ Hd] Hp [E _]. split; [done|]. by rewrite E. Qed.
Lemma assert_device_eq m dev d :
  devices (m_kernel m) !! dev = Some d → dev ≠ RT_NULL → in_use d → zoom (assert_device dev) m = Ok (tt, m).
Proof. destruct m as [k p h]. intros Hd Hn [Ht _]. by apply assert_device_mk with d. Qed.

Lemma device_read_spec heap_sem m dev d c q bs ss pos size :
  port_inv d dev c m q bs ss → in_use d → 0 ≤ size →
  ∃ m', rt_device_read (board heap_sem) dev pos size m = Ok (take (Z.to_nat size) q, m') ∧
    port_inv d dev c m' (drop (Z.to_nat size) q) bs ss ∧ other_ports m m' dev.
Proof.
  intros Hi Hu Hsz. pose proof Hi as [Hp Hd].
  destruct (serial_read_spec m dev c q bs ss pos size Hp Hsz) as (m' & E & Hp' & Ho).
  exists m'. split; [|split; [by eapply port_inv_other|done]].
  apply wp_exact. unfold rt_device_read. wp_steps. eapply wp_eq; [by eapply assert_device_eq; [|apply Hp|]|]. wp_steps.
  eapply wp_eq; [by apply get_dev_eq|]. cbv beta. rewrite decide_False by apply Hu.
  eapply wp_eq; [exact E|]. done.
Qed.
Lemma device_write_spec heap_sem m dev d c q bs ss pos data :
  port_inv d dev c m q bs ss → in_use d →
  ∃ m', rt_device_write (board heap_sem) dev pos data m = Ok (zlen data, m') ∧
    port_inv d dev c m' q bs (ss ++ line_bytes d data) ∧ other_ports m m' dev.
Proof.
  intros Hi Hu. pose proof Hi as [Hp Hd].
  destruct (serial_write_spec m dev c q bs ss pos data d Hp Hd) as (m' & E & Hp' & Ho).
  exists m'. split; [|split; [by eapply port_inv_other|done]].
  apply wp_exact. unfold rt_device_write. wp_steps. eapply wp_eq; [by eapply assert_device_eq; [|apply Hp|]|]. wp_steps.
  eapply wp_eq; [by apply get_dev_eq|]. cbv beta. rewrite decide_False by apply Hu.
  eapply wp_eq; [exact E|]. done.
Qed.

(** The line delivers bytes to the UART, which raises its interrupt. *)
Definition delivers (arrive : U → U) (bs : list Z) : Prop :=
  ∀ u, uart_pending (arrive u) = uart_pending u ++ bs ∧ uart_sent (arrive u) = uart_sent u.
Definition rx_interrupt (fuel : nat) (dev : addr) (arrive : U → U) : M (machine U) unit :=
  upd_serial dev (λ s, s <| hw := arrive (hw s) |>);;
  rt_hw_serial_isr rx_callback fuel dev RT_SERIAL_EVENT_RX_IND.

Lemma rx_interrupt_spec fuel m dev d c q bs ss arrive :
  port_inv d dev c m q [] ss → delivers arrive bs → (length bs < fuel)%nat →
  ∃ m', port_inv d dev c m' (kept c (q ++ bs)) [] ss ∧ other_ports m m' dev ∧
    rx_interrupt fuel dev arrive m =
    (if decide (rx_indicate d ≠ RT_NULL ∧ kept c (q ++ bs) ≠ [])
     then rx_callback (rx_indicate d) dev (zlen (kept c (q ++ bs)));; mret tt else mret tt) m'.
Proof.
  intros [Hp Hd] Hdel Hfuel. pose proof Hp as [Hnull Hdev (a & f & tx & u & Hs & Hf & Hb & Hss)].
  destruct (Hdel u) as [D1 D2].
  set (m1 := m <| m_ports := <[dev := mkSerial c (Some (a, f)) tx (arrive u)]> (m_ports m) |>).
  assert (port_ok m1 dev c q bs ss) as Hp1.
  { split; [done|done|]. exists a, f, tx, (arrive u). unfold m1. simpl. rewrite lookup_insert_eq.
    repeat split; try done; try apply Hf; [by rewrite D1, Hb|congruence]. }
  destruct (serial_isr_spec fuel m1 dev c q bs ss d Hp1 Hd Hfuel) as (m' & Hp' & Ho & E).
  exists m'. assert (other_ports m m' dev) as Ho' by by eapply other_ports_trans; [apply other_ports_put|].
  split; [by eapply (port_inv_other d dev c m)|]. split; [done|]. rewrite <-E.
  unfold rx_interrupt, upd_serial. unfold mbind at 1, M_bind at 1. unfold mbind at 1, M_bind at 1.
  by rewrite (get_serial_eq _ _ _ Hs).
Qed.

(** *** Sequences of interrupts, reads and writes *)
Inductive port_event :=
| Arrive (arrive : U → U)
| Read (size : nat)
| Write (data : list Z).
Definition run_event (heap_sem : addr) (fuel : nat) (dev : addr) (e : port_event) : M (machine U) (list Z) :=
  match e with
  | Arrive arrive => rx_interrupt fuel dev arrive;; mret []
  | Read size => rt_device_read (board heap_sem) dev 0 (Z.of_nat size)
  | Write data => rt_device_write (board heap_sem) dev 0 data;; mret []
  end.
Fixpoint run_port (heap_sem : addr) (fuel : nat) (dev : addr) (es : list port_event) : M (machine U) (list (list Z)) :=
  match es with
  | [] => mret []
  | e :: es => r ← run_event heap_sem fuel dev e; rs ← run_port heap_sem fuel dev es; mret (r :: rs)
  end.

(** The specification: a queue that keeps the last [bufsz - 1] bytes, and the
    bytes sent.  [bs] are the bytes an arrival brings. *)
Inductive port_spec (d : rt_device) (c : serial_configure) (fuel : nat) :
  list port_event → list Z → list Z → list (list Z) → list Z → list Z → Prop :=
| PDone q ss : port_spec d c fuel [] q ss [] q ss
| PArrive arrive bs es q ss rs q' ss' :
    delivers arrive bs → (length bs < fuel)%nat → port_spec d c fuel es (kept c (q ++ bs)) ss rs q' ss' →
    port_spec d c fuel (Arrive arrive :: es) q ss ([] :: rs) q' ss'
| PRead size es q ss rs q' ss' :
    port_spec d c fuel es (drop size q) ss rs q' ss' →
    port_spec d c fuel (Read size :: es) q ss (take size q :: rs) q' ss'
| PWrite data es q ss rs q' ss' :
    port_spec d c fuel es q (ss ++ line_bytes d data) rs q' ss' →
    port_spec d c fuel (Write data :: es) q ss ([] :: rs) q' ss'.
End Ports.
Arguments port_event U : clear implicits.

(** C12: an open serial port refines two byte queues.  Whatever the order of
    receive interrupts, reads and writes, a read returns the oldest bytes that
    have not been read, as many as it asked for and there are; bytes that
    arrive while the FIFO is full push out the oldest, so that the last
    [bufsz - 1] are kept; what is written goes to the line in order, with a
    carriage return before each line feed in stream mode; and the interrupt
    handler reads the UART until it is empty.  The callback may do what it
    likes with the rest of the machine. *)
Theorem serial_run_refines {U} `{UartSpec U} (rx_callback : Z → addr → Z → M (machine U) Z)
    heap_sem fuel dev d c es m q ss rs q' ss' :
  (∀ fn n m q ss, port_inv d dev c m q [] ss →
     wp (rx_callback fn dev n) m (λ _ m', port_inv d dev c m' q [] ss)) →
  port_inv d dev c m q [] ss → in_use d → port_spec d c fuel es q ss rs q' ss' →
  wp (run_port rx_callback heap_sem fuel dev es) m (λ out m', out = rs ∧ port_inv d dev c m' q' [] ss').
Proof.
  intros Hcb Hi Hu Hs. revert m Hi. induction Hs as [q ss|arrive bs es q ss rs q' ss' Hd Hf Hs IH|
    size es q ss rs q' ss' Hs IH|data es q ss rs q' ss' Hs IH]; intros m Hi; simpl; wp_steps; [done|..].
  - destruct (rx_interrupt_spec rx_callback fuel m dev d c q bs ss arrive Hi Hd Hf) as (m1 & Hi1 & _ & E).
    assert (wp (rx_interrupt rx_callback fuel dev arrive) m (λ _ m', port_inv d dev c m' (kept c (q ++ bs)) [] ss)) as Hw.
    { unfold wp. rewrite E. case_decide; [|done].
      change (wp (rx_callback (rx_indicate d) dev (zlen (kept c (q ++ bs)));; mret tt) m1
        (λ _ m', port_inv d dev c m' (kept c (q ++ bs)) [] ss)). wp_steps.
      eapply wp_mono; [by apply Hcb|]. intros ? m' ?. by wp_steps. }
    eapply wp_mono; [exact Hw|]. intros ? m' Hi'. wp_steps.
    eapply wp_mono; [by apply IH|]. intros ? m2 [-> ?]. by wp_steps.
  - destruct (device_read_spec heap_sem m dev d c q [] ss 0 (Z.of_nat size) Hi Hu) as (m1 & E & Hi1 & _); [lia|].
    rewrite Nat2Z.id in E, Hi1. eapply wp_eq; [exact E|]. wp_steps.
    eapply wp_mono; [by apply IH|]. intros ? m2 [-> ?]. by wp_steps.
  - destruct (device_write_spec heap_sem m dev d c q [] ss 0 data Hi Hu) as (m1 & E & Hi1 & _).
    eapply wp_eq; [exact E|]. wp_steps.
    eapply wp_mono; [by apply IH|]. intros ? m2 [-> ?]. by wp_steps.
Qed.

(** ** Concrete instances *)

(** A UART that is no more than its two byte streams. *)
Record pipe := mkPipe { pipe_in : list Z; pipe_out : list Z; pipe_line : option serial_configure }.
#[global] Instance pipe_ops : UartOps pipe := {|
  uart_configure c := modify (λ p, mkPipe (pipe_in p) (pipe_out p) (Some c));; mret RT_EOK;
  uart_control _ _ := mret RT_EOK;
  uart_putc c := modify (λ p, mkPipe (pipe_in p) (pipe_out p ++ [c]) (pipe_line p));; mret 1;
  uart_getc :=
    p ← gets id;
    modify (λ p, mkPipe (tail (pipe_in p)) (pipe_out p) (pipe_line p));;
    mret (default (-1) (head (u8 <$> pipe_in p)))
|}.
#[global] Instance pipe_spec : UartSpec pipe.
Proof.
  refine {| uart_pending p := u8 <$> pipe_in p; uart_sent := pipe_out; uart_line := pipe_line |}.
  - intros [[|x l] o c]; eexists; (split; [reflexivity|done]).
  - intros p. apply Forall_fmap, Forall_true. intros x. apply u8_range.
  - intros [] c. eexists _, _. split; [reflexivity|done].
  - intros [] cmd arg _. eexists. split; [reflexivity|done].
  - intros [] c. eexists. split; [reflexivity|done].
Defined.
Definition pipe_arrive (bs : list Z) (p : pipe) : pipe := mkPipe (pipe_in p ++ bs) (pipe_out p) (pipe_line p).
Lemma pipe_delivers bs : Forall (λ c, byte c) bs → delivers (pipe_arrive bs) bs.
Proof.
  intros Hb u. split; [|done]. simpl. rewrite fmap_app. f_equal.
  induction Hb as [|b bs Hc Hb IH]; [done|]. by rewrite fmap_cons, u8_byte, IH.
Qed.

Definition D_uart : addr := 0x20003000.
Definition small_config : serial_configure := RT_SERIAL_CONFIG_DEFAULT <| bufsz := 4 |>.
Definition a_device (flag oflag refs : Z) : rt_device :=
  mkDevice (an_object RT_Object_Class_Device 0) flag oflag refs RT_NULL RT_NULL.
Definition open_device : rt_device := a_device 0x513 (0x108 + 0x40) 1.
Definition port_machine : machine pipe :=
  mkMachine (set_dev D_uart open_device scene)
    {[ D_uart := mkSerial small_config (Some (0x20003100, empty_fifo small_config)) None (mkPipe [] [] None) ]}
    demo_heap.

(** A FIFO of four bytes in stream mode: five bytes arrive, two are read, a
    line is written, one more byte arrives. *)
Lemma serial_run_refines_witness :
  wp (run_port (λ _ _ _, mret 0) O_sem 10 D_uart
        [Arrive (pipe_arrive [1; 2; 3; 4; 5]); Read 2; Write [104; 10]; Arrive (pipe_arrive [6]); Read 9]) port_machine
    (λ out m', out = [[]; [3; 4]; []; []; [5; 6]] ∧ port_inv open_device D_uart small_config m' [] [] [104; 13; 10]).
Proof.
  apply (serial_run_refines (λ _ _ _, mret 0) O_sem 10 D_uart open_device small_config
    [Arrive (pipe_arrive [1; 2; 3; 4; 5]); Read 2; Write [104; 10]; Arrive (pipe_arrive [6]); Read 9] port_machine
    [] [] [[]; [3; 4]; []; []; [5; 6]] [] [104; 13; 10]).
  - intros fn n m q ss Hi. by apply wp_ret.
  - split; [split; [done| |]|done].
    + exists open_device. done.
    + eexists _, _, None, (mkPipe [] [] None). split; [done|]. split; [by apply fifo_fresh|done].
  - done.
  - eapply (PArrive _ _ _ _ [1; 2; 3; 4; 5]); [apply pipe_delivers; by repeat constructor|simpl; lia|].
    eapply (PRead _ _ _ 2). eapply PWrite.
    eapply (PArrive _ _ _ _ [6]); [apply pipe_delivers; by repeat constructor|simpl; lia|].
    eapply (PRead _ _ _ 9). apply PDone.
Defined.
