(* ===== verification/Calendar.v ===== *)
(** * Calendar time ([components/libc/compilers/common/time.c])

    [gmtime_r] and [mktime], the conversions between seconds since 1970 and
    broken-down time, and the calendar they are judged against: the date of a
    day is what counting on from 1 January 1970 day by day arrives at. *)
From S2P Require Import Prelude.

(** ** [struct tm] *)
Record tm := mkTm {
  tm_sec : Z; tm_min : Z; tm_hour : Z; tm_mday : Z; tm_mon : Z; tm_year : Z; tm_wday : Z; tm_yday : Z
}.
#[global] Instance eta_tm : EtaRecord tm := λ t,
  mkTm (tm_sec t) (tm_min t) (tm_hour t) (tm_mday t) (tm_mon t) (tm_year t) (tm_wday t) (tm_yday t).
#[global] Instance tm_eq_dec : EqDecision tm.
Proof. solve_decision. Defined.

(** Days before each month of a common year. *)
Definition __spm : list Z := [0; 31; 59; 90; 120; 151; 181; 212; 243; 273; 304; 334; 365].
Definition SPD : Z := 24 * 60 * 60.

Definition __isleap (year : Z) : bool :=
  bool_decide (Z.rem year 4 = 0 ∧ (Z.rem year 100 ≠ 0 ∨ Z.rem year 400 = 0)).

(** ** [gmtime_r] *)

(** [for (i = 1970;; ++i)] *)
Fixpoint gm_years (fuel : nat) (i work : Z) : outcome (Z * Z) :=
  match fuel with
  | O => Err FFuel
  | S fuel =>
      let k := if __isleap (i32 i) then 366 else 365 in
      if decide (k ≤ work) then gm_years fuel (i + 1) (work - k) else Ok (i, work)
  end.
(** [for (i = 11; i && (__spm[i] > work); --i)], from [i = n] on. *)
Fixpoint gm_month (n : nat) (work : Z) : Z :=
  match n with
  | O => 0
  | S n' => if decide (work < nth n __spm 0) then gm_month n' work else Z.of_nat n
  end.
Definition gm_fuel (timep : Z) : nat := S (Z.to_nat (timep / SPD / 365)).
(** The result is [*r]; [timep] is the value of [*timep]. *)
Definition gmtime_r (timep : Z) : outcome tm :=
  let work := Z.rem timep SPD in
  let sec := Z.rem work 60 in
  let work := Z.quot work 60 in
  let min := Z.rem work 60 in
  let hour := Z.quot work 60 in
  let work := Z.quot timep SPD in
  let wday := Z.rem (4 + work) 7 in
  match gm_years (gm_fuel timep) 1970 work with
  | Err e => Err e
  | Ok (i, work) =>
      let yday := work in
      let late := bool_decide (__isleap (i32 i) = true ∧ 58 < work) in
      let mday := if late then (if decide (work = 59) then 2 else 1) else 1 in
      let work := if late then work - 1 else work in
      let mon := gm_month 11 work in
      Ok (mkTm (i32 sec) (i32 min) (i32 hour) (i32 (mday + work - nth (Z.to_nat mon) __spm 0)) (i32 mon)
            (i32 (i - 1900)) (i32 wday) (i32 yday))
  end.
Definition localtime (t : Z) : outcome tm := gmtime_r t.

(** ** [mktime] *)
Section Mktime.
(** The width of [time_t]. *)
Context (time_bits : Z).
Let tt (z : Z) : Z := wrapS time_bits z.

Definition get_spm (i : Z) : outcome Z := array_get __spm i.

(** The four carries before the loop. *)
Definition carry_fields (t : tm) : tm :=
  let t := if decide (60 < tm_sec t)
           then t <| tm_min := i32 (tm_min t + Z.quot (tm_sec t) 60) |> <| tm_sec := Z.rem (tm_sec t) 60 |> else t in
  let t := if decide (60 < tm_min t)
           then t <| tm_hour := i32 (tm_hour t + Z.quot (tm_min t) 60) |> <| tm_min := Z.rem (tm_min t) 60 |> else t in
  let t := if decide (24 < tm_hour t)
           then t <| tm_mday := i32 (tm_mday t + Z.quot (tm_hour t) 24) |> <| tm_hour := Z.rem (tm_hour t) 24 |> else t in
  if decide (12 < tm_mon t)
  then t <| tm_year := i32 (tm_year t + Z.quot (tm_mon t) 12) |> <| tm_mon := Z.rem (tm_mon t) 12 |> else t.

(** The body of the loop; [spm] is [__spm[t->tm_mon]]. *)
Definition carry_month (spm : Z) (t : tm) : tm :=
  let t := if decide (tm_mon t = 1 ∧ __isleap (i32 (tm_year t + 1900)) = true)
           then t <| tm_mday := i32 (tm_mday t - 1) |> else t in
  let t := t <| tm_mday := i32 (tm_mday t - spm) |> <| tm_mon := i32 (tm_mon t + 1) |> in
  if decide (11 < tm_mon t) then t <| tm_mon := 0 |> <| tm_year := i32 (tm_year t + 1) |> else t.
(** [while (t->tm_mday > __spm[1 + t->tm_mon])] *)
Fixpoint carry_days (fuel : nat) (t : tm) : outcome tm :=
  match fuel with
  | O => Err FFuel
  | S fuel =>
      match get_spm (1 + tm_mon t) with
      | Err e => Err e
      | Ok limit =>
          if decide (limit < tm_mday t) then
            match get_spm (tm_mon t) with Err e => Err e | Ok spm => carry_days fuel (carry_month spm t) end
          else Ok t
      end
  end.

(** Days since 1970 at the start of the year [tm_year]. *)
Definition days_of_years (tm_year : Z) : Z :=
  let years := tt (tm_year - 70) in
  let day := tt (tt (years * 365) + Z.quot (years + 1) 4) in
  if decide (131 ≤ years) then
    let years := Z.quot (years - 131) 100 in
    let day := tt (day - (Z.shiftr years 2 * 3 + 1)) in
    let years := Z.land years 3 in
    let years := if decide (years = 3) then years - 1 else years in
    tt (day - years)
  else day.

(** The result is the return value and the new [*t].  The code takes the year
    out of [t] before the carries. *)
Definition mktime (t : tm) : outcome (Z * tm) :=
  let tm_year_before := tm_year t in
  let t := carry_fields t in
  match carry_days (S (S (Z.to_nat (2 * tm_mday t)))) t with
  | Err e => Err e
  | Ok t =>
      if decide (tm_year t < 70) then Ok (tt (-1), t)
      else
        match get_spm (tm_mon t) with
        | Err e => Err e
        | Ok spm =>
            let leap := if decide (__isleap (i32 (tm_year t + 1900)) = true ∧ 1 < tm_mon t) then 1 else 0 in
            let yday := i32 (spm + tm_mday t - 1 + leap) in
            let day := tt (days_of_years tm_year_before + yday) in
            let t := t <| tm_yday := yday |> <| tm_wday := i32 (Z.rem (tt (day + 4)) 7) |> in
            let day := tt (day * 24) in
            Ok (tt (tt (tt (tt (tt (day + tm_hour t) * 60) + tm_min t) * 60) + tm_sec t), t)
        end
  end.
End Mktime.

(** ** The calendar *)
Record date := mkDate { year : Z; month : Z; mday : Z }.
#[global] Instance date_eq_dec : EqDecision date.
Proof. solve_decision. Defined.

Definition leap_year (y : Z) : bool := bool_decide (y mod 4 = 0 ∧ (y mod 100 ≠ 0 ∨ y mod 400 = 0)).
Definition month_days (leap : bool) (m : Z) : Z :=
  if decide (m = 2) then (if leap then 29 else 28) else if decide (m ∈ [4; 6; 9; 11]) then 30 else 31.
Definition next_day (d : date) : date :=
  if decide (mday d < month_days (leap_year (year d)) (month d)) then mkDate (year d) (month d) (mday d + 1)
  else if decide (month d < 12) then mkDate (year d) (month d + 1) 1
  else mkDate (year d + 1) 1 1.
(** The date [n] days after 1 January 1970. *)
Definition nth_date (n : nat) : date := Nat.iter n next_day (mkDate 1970 1 1).
Definition valid_date (d : date) : Prop := 1 ≤ month d ≤ 12 ∧ 1 ≤ mday d ≤ month_days (leap_year (year d)) (month d).

Definition date_of_tm (t : tm) : date := mkDate (tm_year t + 1900) (tm_mon t + 1) (tm_mday t).

(** ** Years *)
Ltac div_lia := Z.to_euclidean_division_equations; lia.

Definition year_days (y : Z) : Z := if leap_year y then 366 else 365.
(** Days in the [k] years from 1970 on. *)
Fixpoint span (k : nat) : Z := match k with O => 0 | S k => span k + year_days (1970 + Z.of_nat k) end.

Lemma isleap_leap y : 0 ≤ y → __isleap y = leap_year y.
Proof. intros Hy. unfold __isleap, leap_year. by rewrite !Z.rem_mod_nonneg by lia. Qed.
Lemma year_days_cases y : year_days y = 365 ∨ year_days y = 366.
Proof. unfold year_days. destruct (leap_year y); auto. Qed.
Lemma span_ge k : 365 * Z.of_nat k ≤ span k.
Proof. induction k as [|k IH]; simpl; [lia|]. destruct (year_days_cases (1970 + Z.of_nat k)); lia. Qed.
Lemma span_mono j k : (j ≤ k)%nat → span j ≤ span k.
Proof. induction 1 as [|k _ IH]; simpl; [done|]. destruct (year_days_cases (1970 + Z.of_nat k)); lia. Qed.

Lemma gm_years_step fuel i work :
  0 ≤ i < 2 ^ 31 → year_days i ≤ work → gm_years (S fuel) i work = gm_years fuel (i + 1) (work - year_days i).
Proof.
  intros Hi Hw. simpl. rewrite wrapS_small, isleap_leap by lia. fold (year_days i). by rewrite decide_True.
Qed.
Lemma gm_years_from n : ∀ j fuel yd,
  0 ≤ yd < year_days (1970 + Z.of_nat (j + n)) → 1970 + Z.of_nat (j + n) < 2 ^ 31 → (n < fuel)%nat →
  gm_years fuel (1970 + Z.of_nat j) (span (j + n) - span j + yd) = Ok (1970 + Z.of_nat (j + n), yd).
Proof.
  induction n as [|n IH]; intros j fuel yd Hyd Hr Hf; (destruct fuel as [|fuel]; [lia|]).
  - rewrite Nat.add_0_r in *. simpl. rewrite wrapS_small, isleap_leap by lia. fold (year_days (1970 + Z.of_nat j)).
    rewrite decide_False by lia. do 2 f_equal. lia.
  - pose proof (span_mono (S j) (j + S n) ltac:(lia)) as Hm. simpl in Hm.
    rewrite gm_years_step by lia. specialize (IH (S j) fuel yd).
    replace (S j + n)%nat with (j + S n)%nat in IH by lia. rewrite <-IH by lia. simpl.
    f_equal; lia.
Qed.

(** Every day is day [yd] of some year. *)
Definition day_pos (d : Z) (k : nat) (yd : Z) : Prop :=
  d = span k + yd ∧ 0 ≤ yd < year_days (1970 + Z.of_nat k).
Lemma gm_years_pos d k yd :
  day_pos d k yd → 1970 + Z.of_nat k < 2 ^ 31 → gm_years (S (Z.to_nat (d / 365))) 1970 d = Ok (1970 + Z.of_nat k, yd).
Proof.
  intros [-> Hyd] Hr. pose proof (span_ge k) as Hs.
  pose proof (gm_years_from k 0 (S (Z.to_nat ((span k + yd) / 365))) yd) as H. simpl in H.
  rewrite Z.sub_0_r, Z.add_0_r in H. apply H; [done|done|]. div_lia.
Qed.

(** ** Days of a year *)

(** Month from 0 and day of month of day [yd], as [gmtime_r] finds them. *)
Definition day_in_year (leap : bool) (yd : Z) : Z * Z :=
  let late := bool_decide (leap = true ∧ 58 < yd) in
  let mday := if late then (if decide (yd = 59) then 2 else 1) else 1 in
  let yd := if late then yd - 1 else yd in
  let mon := gm_month 11 yd in (mon, mday + yd - nth (Z.to_nat mon) __spm 0).
#[local] Arguments day_in_year : simpl never.
Lemma first_day leap : day_in_year leap 0 = (0, 1).
Proof. by destruct leap. Qed.
(** And back, as [mktime] computes it. *)
Definition yday_of (leap : bool) (mon mday : Z) : Z :=
  nth (Z.to_nat mon) __spm 0 + mday - 1 + (if decide (leap = true ∧ 1 < mon) then 1 else 0).
Definition next_in_year (leap : bool) (md : Z * Z) : option (Z * Z) :=
  let (mon, mday) := md in
  if decide (mday < month_days leap (mon + 1)) then Some (mon, mday + 1)
  else if decide (mon < 11) then Some (mon + 1, 1) else None.

Definition year_check (leap : bool) (len yd : Z) : Prop :=
  let (mon, mday) := day_in_year leap yd in
  next_in_year leap (mon, mday) = (if decide (yd + 1 < len) then Some (day_in_year leap (yd + 1)) else None) ∧
  (0 ≤ mon ≤ 11 ∧ 1 ≤ mday ≤ month_days leap (mon + 1)) ∧ yday_of leap mon mday = yd.
#[local] Instance year_check_dec leap len yd : Decision (year_check leap len yd).
Proof. unfold year_check. destruct (day_in_year leap yd). apply _. Defined.
Lemma year_checked (leap : bool) yd (len := if leap then 366 else 365) : 0 ≤ yd < len → year_check leap len yd.
Proof.
  intros Hyd. assert (Forall (λ n, year_check leap len (Z.of_nat n)) (seq 0 (Z.to_nat len))) as Hf.
  { destruct leap; by_evaluation. }
  rewrite Forall_forall in Hf. rewrite <-(Z2Nat.id yd) by lia. apply Hf, elem_of_seq. lia.
Qed.
Definition month_check (leap : bool) (len : Z) (md : Z * Z) : Prop :=
  0 ≤ yday_of leap md.1 md.2 < len ∧ day_in_year leap (yday_of leap md.1 md.2) = md.
#[local] Instance month_check_dec leap len md : Decision (month_check leap len md).
Proof. unfold month_check. apply _. Defined.
Lemma month_days_le leap m : month_days leap m ≤ 31.
Proof. unfold month_days. repeat case_decide; destruct leap; done. Qed.
Lemma month_checked (leap : bool) mon mday (len := if leap then 366 else 365) :
  0 ≤ mon ≤ 11 → 1 ≤ mday ≤ month_days leap (mon + 1) → month_check leap len (mon, mday).
Proof.
  intros Hm Hd.
  assert (Forall (λ m, Forall (λ d, Z.of_nat d ≤ month_days leap (Z.of_nat m + 1) → month_check leap len (Z.of_nat m, Z.of_nat d))
    (seq 1 31)) (seq 0 12)) as Hf.
  { destruct leap; by_evaluation. }
  pose proof (month_days_le leap (mon + 1)).
  rewrite Forall_forall in Hf. specialize (Hf (Z.to_nat mon) ltac:(apply elem_of_seq; lia)).
  rewrite Forall_forall in Hf. specialize (Hf (Z.to_nat mday) ltac:(apply elem_of_seq; lia)).
  rewrite !Z2Nat.id in Hf by lia. apply Hf. lia.
Qed.

(** ** Counting days *)
Definition date_at (k : nat) (yd : Z) : date :=
  let y := 1970 + Z.of_nat k in let md := day_in_year (leap_year y) yd in mkDate y (md.1 + 1) md.2.

Lemma date_at_0 k : date_at k 0 = mkDate (1970 + Z.of_nat k) 1 1.
Proof. unfold date_at. by rewrite first_day. Qed.
Lemma next_date_at k yd :
  0 ≤ yd < year_days (1970 + Z.of_nat k) →
  next_day (date_at k yd) = if decide (yd + 1 < year_days (1970 + Z.of_nat k)) then date_at k (yd + 1) else date_at (S k) 0.
Proof.
  intros Hyd. pose proof (year_checked (leap_year (1970 + Z.of_nat k)) yd Hyd) as Hc. rewrite date_at_0.
  unfold date_at. revert Hc. unfold year_check. fold (year_days (1970 + Z.of_nat k)).
  generalize (day_in_year (leap_year (1970 + Z.of_nat k)) (yd + 1)) as next. intros next.
  generalize (day_in_year (leap_year (1970 + Z.of_nat k)) yd). intros [mon d] (Hn & _ & _).
  revert Hn. unfold next_day, next_in_year. cbn [fst snd year month mday].
  destruct (decide (yd + 1 < _)); (destruct (decide (d < _)) as [H1|H1]; [|destruct (decide (mon < 11)) as [H2|H2]]);
    intros Hn; try discriminate; try (injection Hn as <-; cbn [fst snd]).
  - done.
  - rewrite decide_True by lia. f_equal; lia.
  - rewrite decide_False by lia. f_equal; lia.
Qed.
Lemma nth_date_pos n : ∃ k yd, day_pos (Z.of_nat n) k yd ∧ nth_date n = date_at k yd.
Proof.
  induction n as [|n (k & yd & [Hn Hyd] & E)].
  - exists 0%nat, 0. done.
  - change (nth_date (S n)) with (next_day (nth_date n)). rewrite E, next_date_at by done. case_decide.
    + exists k, (yd + 1). split; [split; lia|done].
    + exists (S k), 0. split; [|done]. split; [simpl; lia|]. destruct (year_days_cases (1970 + Z.of_nat (S k))); lia.
Qed.
Lemma day_pos_unique d k yd k' yd' : day_pos d k yd → day_pos d k' yd' → k = k' ∧ yd = yd'.
Proof.
  assert (∀ k yd k' yd', (k < k')%nat → day_pos d k yd → day_pos d k' yd' → False) as Hlt.
  { intros k1 yd1 k2 yd2 Hk [H1 H2] [H3 H4]. pose proof (span_mono (S k1) k2 Hk) as Hm. simpl in Hm. lia. }
  intros H1 H2. destruct (lt_eq_lt_dec k k') as [[Hk| ->]|Hk].
  - by destruct (Hlt k yd k' yd').
  - split; [done|]. destruct H1, H2. lia.
  - by destruct (Hlt k' yd' k yd).
Qed.
Lemma nth_date_at d k yd : day_pos d k yd → nth_date (Z.to_nat d) = date_at k yd.
Proof.
  intros Hp. assert (0 ≤ d) by (destruct Hp; pose proof (span_ge k); lia).
  destruct (nth_date_pos (Z.to_nat d)) as (k' & yd' & Hp' & ->). rewrite Z2Nat.id in Hp' by lia.
  by destruct (day_pos_unique _ _ _ _ _ Hp Hp') as [-> ->].
Qed.
Lemma day_pos_exists d : 0 ≤ d → ∃ k yd, day_pos d k yd.
Proof.
  intros Hd. destruct (nth_date_pos (Z.to_nat d)) as (k & yd & Hp & _). rewrite Z2Nat.id in Hp by lia. by exists k, yd.
Qed.
Lemma date_at_valid k yd : 0 ≤ yd < year_days (1970 + Z.of_nat k) → valid_date (date_at k yd).
Proof.
  intros Hyd. pose proof (year_checked (leap_year (1970 + Z.of_nat k)) yd Hyd) as Hc. unfold year_check, valid_date, date_at in *.
  destruct (day_in_year _ yd) as [mon d]. simpl in *. destruct Hc as (_ & [H1 H2] & _). split; [lia|done].
Qed.
Lemma nth_date_valid n : valid_date (nth_date n).
Proof. destruct (nth_date_pos n) as (k & yd & [_ Hyd] & ->). by apply date_at_valid. Qed.

(** Every valid date from 1970 on is counted. *)
Definition day_number (d : date) : Z :=
  span (Z.to_nat (year d - 1970)) + yday_of (leap_year (year d)) (month d - 1) (mday d).
Lemma nth_day_number d : 1970 ≤ year d → valid_date d → 0 ≤ day_number d ∧ nth_date (Z.to_nat (day_number d)) = d.
Proof.
  intros Hy [Hm Hd]. destruct d as [y m d]. simpl in *. unfold day_number. simpl.
  destruct (month_checked (leap_year y) (m - 1) d ltac:(lia) ltac:(by replace (m - 1 + 1) with m by lia)) as [Hr Hb].
  simpl in *. set (k := Z.to_nat (y - 1970)). assert (y = 1970 + Z.of_nat k) as Ey by lia.
  pose proof (span_ge k). split; [lia|].
  rewrite (nth_date_at _ k (yday_of (leap_year y) (m - 1) d)).
  - unfold date_at. rewrite <-Ey, Hb. simpl. f_equal. lia.
  - split; [done|]. rewrite <-Ey. exact Hr.
Qed.

Lemma day_in_year_range k yd (md := day_in_year (leap_year (1970 + Z.of_nat k)) yd) :
  0 ≤ yd < year_days (1970 + Z.of_nat k) → 0 ≤ md.1 ≤ 11 ∧ 1 ≤ md.2 ≤ 31.
Proof.
  intros Hyd. destruct (date_at_valid k yd Hyd) as [Hv1 Hv2]. unfold date_at in Hv1, Hv2. fold md in Hv1, Hv2.
  cbn [month mday year] in Hv1, Hv2. pose proof (month_days_le (leap_year (1970 + Z.of_nat k)) (md.1 + 1)). lia.
Qed.

(** ** [gmtime_r] *)
Definition time_limit : Z := 2 ^ 55.

Definition broken_down (t : Z) (k : nat) (yd : Z) : tm :=
  let md := day_in_year (leap_year (1970 + Z.of_nat k)) yd in
  mkTm (t mod 60) (t / 60 mod 60) (t / 3600 mod 24) md.2 md.1 (70 + Z.of_nat k) ((4 + t / 86400) mod 7) yd.

Lemma day_pos_years t k yd : 0 ≤ t < time_limit → day_pos (t / 86400) k yd → Z.of_nat k < 1200000000.
Proof.
  unfold time_limit. intros Ht [Ed Hyd]. pose proof (span_ge k).
  assert (t / 86400 ≤ 416999965497) by (apply (Z.div_le_mono t 36028797018963967 86400); lia). lia.
Qed.
Lemma broken_down_parts t md k yd :
  0 ≤ t → Z.of_nat k < 1200000000 → 0 ≤ yd < 366 → 0 ≤ md.1 ≤ 11 → 1 ≤ md.2 ≤ 31 →
  mkTm (i32 (Z.rem (Z.rem t 86400) 60)) (i32 (Z.rem (Z.quot (Z.rem t 86400) 60) 60)) (i32 (Z.quot (Z.quot (Z.rem t 86400) 60) 60))
    (i32 md.2) (i32 md.1) (i32 (1970 + Z.of_nat k - 1900)) (i32 (Z.rem (4 + t / 86400) 7)) (i32 yd) =
  mkTm (t mod 60) (t / 60 mod 60) (t / 3600 mod 24) md.2 md.1 (70 + Z.of_nat k) ((4 + t / 86400) mod 7) yd.
Proof.
  intros Ht Hk Hyd H1 H2.
  assert (0 ≤ t / 86400) as Hd by (apply Z.div_pos; lia).
  rewrite (Z.rem_mod_nonneg t), (Z.rem_mod_nonneg (4 + t / 86400)) by lia.
  pose proof (Z.mod_pos_bound t 86400 ltac:(lia)) as Hr. pose proof (Z.div_mod t 86400 ltac:(lia)) as Et.
  pose proof (Z.mod_pos_bound (4 + t / 86400) 7 ltac:(lia)).
  set (w := t mod 86400) in *. set (d := t / 86400) in *. clearbody w d. subst t.
  rewrite (Z.rem_mod_nonneg w), (Z.quot_div_nonneg w) by lia.
  assert (0 ≤ w / 60 < 1440) as Hw by div_lia.
  rewrite (Z.rem_mod_nonneg (w / 60)), (Z.quot_div_nonneg (w / 60)) by lia.
  rewrite !wrapS_small by div_lia. f_equal; div_lia.
Qed.
Lemma gmtime_eq t k yd : 0 ≤ t < time_limit → day_pos (t / 86400) k yd → gmtime_r t = Ok (broken_down t k yd).
Proof.
  intros Ht Hp. pose proof (day_pos_years _ _ _ Ht Hp) as Hk. destruct (day_in_year_range k yd ltac:(apply Hp)) as [H1 H2].
  assert (0 ≤ yd < 366) as Hyd by (destruct Hp as [_ Hp]; destruct (year_days_cases (1970 + Z.of_nat k)); lia).
  unfold gmtime_r, gm_fuel, SPD. change (24 * 60 * 60) with 86400.
  rewrite (Z.quot_div_nonneg t) by lia. rewrite (gm_years_pos _ k yd Hp) by lia.
  rewrite (wrapS_small 32 (1970 + Z.of_nat k)), isleap_leap by lia.
  f_equal. exact (broken_down_parts t _ k yd ltac:(lia) Hk Hyd H1 H2).
Qed.

(** ** [mktime] *)

(** [days_of_years] without the wrap-around. *)
Definition days_formula (years : Z) : Z :=
  let day := years * 365 + (years + 1) / 4 in
  if decide (131 ≤ years) then
    let q := (years - 131) / 100 in
    day - (q / 4 * 3 + 1) - (if decide (q mod 4 = 3) then 2 else q mod 4)
  else day.
(** Both repeat every 400 years: the steps of one period are checked. *)
Definition step_ok (k : Z) : Prop := days_formula (k + 1) = days_formula k + year_days (1970 + k).
#[local] Instance step_ok_dec k : Decision (step_ok k).
Proof. unfold step_ok. apply _. Defined.
Lemma formula_period k : 131 ≤ k → days_formula (k + 400) = days_formula k + 146097.
Proof.
  intros Hk. unfold days_formula. rewrite (decide_True (P := 131 ≤ k + 400)), (decide_True (P := 131 ≤ k)) by lia.
  replace (k + 400 + 1) with (k + 1 + 100 * 4) by lia. replace (k + 400 - 131) with (k - 131 + 4 * 100) by lia.
  rewrite !Z.div_add by lia. replace ((k - 131) / 100 + 4) with ((k - 131) / 100 + 1 * 4) by lia.
  rewrite Z.div_add, Z.mod_add by lia. case_decide; lia.
Qed.
Lemma leap_period y : year_days (y + 400) = year_days y.
Proof.
  unfold year_days, leap_year.
  assert ((y + 400) mod 4 = y mod 4) as -> by exact (Z.mod_add y 100 4 ltac:(lia)).
  assert ((y + 400) mod 100 = y mod 100) as -> by exact (Z.mod_add y 4 100 ltac:(lia)).
  by assert ((y + 400) mod 400 = y mod 400) as -> by exact (Z.mod_add y 1 400 ltac:(lia)).
Qed.
Lemma step_period n k : 131 ≤ k → step_ok k → step_ok (k + 400 * Z.of_nat n).
Proof.
  intros Hk H. induction n as [|n IH]; [by rewrite Z.add_0_r|]. unfold step_ok in *.
  replace (k + 400 * Z.of_nat (S n) + 1) with (k + 400 * Z.of_nat n + 1 + 400) by lia.
  replace (k + 400 * Z.of_nat (S n)) with (k + 400 * Z.of_nat n + 400) by lia.
  rewrite !formula_period by lia.
  pose proof (leap_period (1970 + (k + 400 * Z.of_nat n))) as E. rewrite <-Z.add_assoc in E. lia.
Qed.
Lemma days_formula_step k : 0 ≤ k → step_ok k.
Proof.
  intros Hk. assert (Forall (λ n, step_ok (Z.of_nat n)) (seq 0 531)) as Hf by by_evaluation. rewrite Forall_forall in Hf.
  assert (∀ j, 0 ≤ j < 531 → step_ok j) as Hj.
  { intros j Hj. rewrite <-(Z2Nat.id j) by lia. apply Hf, elem_of_seq. lia. }
  destruct (decide (k < 531)) as [|Hge]; [by apply Hj|].
  pose proof (Z.div_mod (k - 131) 400 ltac:(lia)) as E. pose proof (Z.mod_pos_bound (k - 131) 400 ltac:(lia)).
  assert (0 ≤ (k - 131) / 400) by (apply Z.div_pos; lia).
  replace k with (131 + (k - 131) mod 400 + 400 * Z.of_nat (Z.to_nat ((k - 131) / 400))) by lia.
  apply step_period; [lia|]. apply Hj. lia.
Qed.
Lemma days_formula_span k : days_formula (Z.of_nat k) = span k.
Proof.
  induction k as [|k IH]; [done|]. simpl span. rewrite <-IH, <-(days_formula_step (Z.of_nat k)) by lia. f_equal. lia.
Qed.

Section MktimeFacts.
Context (time_bits : Z) (Hbits : 32 ≤ time_bits).
Let B : Z := 2 ^ (time_bits - 1).

Lemma bits_big : 2 ^ 31 ≤ B.
Proof. apply Z.pow_le_mono_r; lia. Qed.
Lemma tt_small z : 0 ≤ z < B → wrapS time_bits z = z.
Proof. intros Hz. apply wrapS_small; unfold B in Hz; lia. Qed.

Lemma days_of_years_eq k : Z.of_nat k < 1300000000 → 367 * Z.of_nat k + 2 < B → days_of_years time_bits (70 + Z.of_nat k) = span k.
Proof.
  intros Hk HB. rewrite <-days_formula_span. unfold days_of_years, days_formula.
  replace (70 + Z.of_nat k - 70) with (Z.of_nat k) by lia. rewrite (tt_small (Z.of_nat k)) by lia.
  rewrite (Z.quot_div_nonneg (Z.of_nat k + 1)) by lia.
  assert (0 ≤ (Z.of_nat k + 1) / 4 ≤ Z.of_nat k + 1) as Hq by div_lia.
  rewrite (tt_small (Z.of_nat k * 365)), (tt_small (Z.of_nat k * 365 + _)) by lia.
  case_decide as Hc; [|done]. rewrite Z.quot_div_nonneg by lia.
  rewrite Z.shiftr_div_pow2 by lia. change (2 ^ 2) with 4.
  change (Z.land ((Z.of_nat k - 131) / 100) 3) with (Z.land ((Z.of_nat k - 131) / 100) (Z.ones 2)).
  rewrite Z.land_ones by lia. change (2 ^ 2) with 4.
  set (q := (Z.of_nat k - 131) / 100). assert (0 ≤ q ≤ Z.of_nat k) as Hqq by (unfold q; div_lia).
  assert (0 ≤ q / 4 ≤ Z.of_nat k) as Hq4 by div_lia. pose proof (Z.mod_pos_bound q 4 ltac:(lia)).
  assert (100 * (q / 4) ≤ Z.of_nat k) by (unfold q; div_lia).
  rewrite (tt_small (_ - (q / 4 * 3 + 1))) by lia. case_decide; rewrite tt_small by lia; lia.
Qed.

(** Broken-down times that [date] and [gmtime_r] make: the day of the month may
    be one the month does not have. *)
Record fields_ok (x : tm) : Prop := {
  fo_sec : 0 ≤ tm_sec x ≤ 59; fo_min : 0 ≤ tm_min x ≤ 59; fo_hour : 0 ≤ tm_hour x ≤ 23;
  fo_mon : 0 ≤ tm_mon x ≤ 11; fo_mday : 1 ≤ tm_mday x ≤ 31; fo_year : 70 ≤ tm_year x < 1300000000
}.
Definition seconds_of (x : tm) : Z :=
  86400 * (span (Z.to_nat (tm_year x - 70)) + yday_of (leap_year (tm_year x + 1900)) (tm_mon x) (tm_mday x)) +
  3600 * tm_hour x + 60 * tm_min x + tm_sec x.

Lemma carry_fields_id x : fields_ok x → carry_fields x = x.
Proof.
  intros []. unfold carry_fields. rewrite (decide_False (P := 60 < tm_sec x)), (decide_False (P := 60 < tm_min x)) by lia.
  by rewrite (decide_False (P := 24 < tm_hour x)), (decide_False (P := 12 < tm_mon x)) by lia.
Qed.
Lemma spm_bounds m : 0 ≤ m ≤ 11 → get_spm m = Ok (nth (Z.to_nat m) __spm 0) ∧ 0 ≤ nth (Z.to_nat m) __spm 0 ≤ 334 ∧
  ∃ limit, get_spm (1 + m) = Ok limit ∧ 31 ≤ limit.
Proof.
  intros Hm. assert (m ∈ [0; 1; 2; 3; 4; 5; 6; 7; 8; 9; 10; 11]) as Hin by (rewrite !elem_of_cons; lia).
  repeat (apply elem_of_cons in Hin as [->|Hin]; [split; [done|]; split; [simpl; lia|by eexists]|]).
  by apply not_elem_of_nil in Hin.
Qed.
Lemma carry_days_id x fuel : fields_ok x → carry_days (S fuel) x = Ok x.
Proof.
  intros Hx. destruct (spm_bounds (tm_mon x) ltac:(apply Hx)) as (_ & _ & limit & E & Hl). destruct Hx.
  simpl. rewrite E. by rewrite decide_False by lia.
Qed.

Lemma mktime_eq x : fields_ok x → seconds_of x < B →
  mktime time_bits x = Ok (seconds_of x,
    x <| tm_yday := yday_of (leap_year (tm_year x + 1900)) (tm_mon x) (tm_mday x) |>
      <| tm_wday := (4 + seconds_of x / 86400) mod 7 |>).
Proof.
  intros Hx HB. unfold mktime. cbv zeta. rewrite carry_fields_id, carry_days_id by done.
  destruct (spm_bounds (tm_mon x) ltac:(apply Hx)) as (E & Hspm & _). destruct Hx. rewrite E.
  rewrite decide_False by lia. rewrite (wrapS_small 32 (tm_year x + 1900)), isleap_leap by lia.
  fold (yday_of (leap_year (tm_year x + 1900)) (tm_mon x) (tm_mday x)).
  assert (0 ≤ yday_of (leap_year (tm_year x + 1900)) (tm_mon x) (tm_mday x) ≤ 366) as Hyd.
  { unfold yday_of. case_decide; lia. }
  revert HB. unfold seconds_of. set (yd := yday_of _ _ _) in *. intros HB. clearbody yd.
  set (k := Z.to_nat (tm_year x - 70)) in *. pose proof bits_big as Hbig. pose proof (span_ge k) as Hspan.
  assert (tm_year x = 70 + Z.of_nat k) as Ek by lia.
  rewrite Ek, days_of_years_eq, (wrapS_small 32 yd) by lia.
  cbn [update_field tm_hour tm_min tm_sec eta_tm].
  assert ((86400 * (span k + yd) + 3600 * tm_hour x + 60 * tm_min x + tm_sec x) / 86400 = span k + yd) as -> by div_lia.
  rewrite (tt_small (span k + yd)) by lia.
  rewrite (tt_small (span k + yd + 4)), Z.rem_mod_nonneg by lia.
  pose proof (Z.mod_pos_bound (span k + yd + 4) 7 ltac:(lia)). rewrite (wrapS_small 32 (_ mod 7)) by lia.
  set (d := span k + yd) in *. rewrite (tt_small (d * 24)) by lia. rewrite (tt_small (d * 24 + tm_hour x)) by lia.
  rewrite (tt_small ((d * 24 + tm_hour x) * 60)) by lia. rewrite (tt_small (_ + tm_min x)) by lia.
  rewrite (tt_small (((d * 24 + tm_hour x) * 60 + tm_min x) * 60)), (tt_small (_ + tm_sec x)) by lia.
  do 2 f_equal; [lia|]. by rewrite (Z.add_comm d 4).
Qed.
End MktimeFacts.

Lemma broken_down_ok t k yd : 0 ≤ t < time_limit → day_pos (t / 86400) k yd → fields_ok (broken_down t k yd).
Proof.
  intros Ht Hp. pose proof (day_pos_years _ _ _ Ht Hp). destruct (day_in_year_range k yd ltac:(apply Hp)).
  constructor; unfold broken_down; cbn [tm_sec tm_min tm_hour tm_mon tm_mday tm_year]; [div_lia..| | |]; lia.
Qed.
Lemma broken_down_date t k yd : date_of_tm (broken_down t k yd) = date_at k yd.
Proof. unfold date_of_tm, broken_down, date_at. cbn [tm_year tm_mon tm_mday]. f_equal. lia. Qed.
Lemma time_of_day t : 3600 * (t / 3600 mod 24) + 60 * (t / 60 mod 60) + t mod 60 = t mod 86400.
Proof. div_lia. Qed.
Lemma broken_down_seconds t k yd : 0 ≤ t < time_limit → day_pos (t / 86400) k yd → seconds_of (broken_down t k yd) = t.
Proof.
  intros Ht [Hd Hyd]. unfold seconds_of, broken_down. cbn [tm_year tm_mon tm_mday tm_hour tm_min tm_sec].
  replace (70 + Z.of_nat k - 70) with (Z.of_nat k) by lia. rewrite Nat2Z.id.
  replace (70 + Z.of_nat k + 1900) with (1970 + Z.of_nat k) by lia.
  pose proof (year_checked (leap_year (1970 + Z.of_nat k)) yd Hyd) as Hc. unfold year_check in Hc.
  destruct (day_in_year (leap_year (1970 + Z.of_nat k)) yd) as [mon d]. destruct Hc as (_ & _ & Hc). cbn [fst snd]. rewrite Hc, <-Hd.
  pose proof (time_of_day t). pose proof (Z.div_mod t 86400 ltac:(lia)). lia.
Qed.
Lemma gmtime_spec t : 0 ≤ t < time_limit →
  ∃ x, gmtime_r t = Ok x ∧ fields_ok x ∧ seconds_of x = t ∧ date_of_tm x = nth_date (Z.to_nat (t / 86400)) ∧
    3600 * tm_hour x + 60 * tm_min x + tm_sec x = t mod 86400 ∧ tm_wday x = (4 + t / 86400) mod 7 ∧
    tm_yday x = yday_of (leap_year (tm_year x + 1900)) (tm_mon x) (tm_mday x).
Proof.
  intros Ht. destruct (day_pos_exists (t / 86400)) as (k & yd & Hp); [apply Z.div_pos; lia|].
  exists (broken_down t k yd). split; [by apply gmtime_eq|]. split; [by apply broken_down_ok|].
  split; [by apply broken_down_seconds|]. split; [by rewrite broken_down_date, (nth_date_at _ k yd)|].
  split; [apply time_of_day|]. split; [done|]. unfold broken_down. cbn [tm_year tm_mon tm_mday tm_yday].
  replace (70 + Z.of_nat k + 1900) with (1970 + Z.of_nat k) by lia.
  pose proof (year_checked (leap_year (1970 + Z.of_nat k)) yd ltac:(apply Hp)) as Hc. unfold year_check in Hc.
  destruct (day_in_year (leap_year (1970 + Z.of_nat k)) yd) as [mon d]. cbn [fst snd]. by destruct Hc as (_ & _ & ->).
Qed.
Lemma valid_fields x : fields_ok x → valid_date (date_of_tm x) → 
  0 ≤ seconds_of x ∧ nth_date (Z.to_nat (seconds_of x / 86400)) = date_of_tm x ∧
  seconds_of x mod 86400 = 3600 * tm_hour x + 60 * tm_min x + tm_sec x.
Proof.
  intros [] Hv. pose proof (nth_day_number (date_of_tm x)) as Hn. unfold day_number, date_of_tm in Hn. unfold date_of_tm, seconds_of in *.
  cbn [year month mday] in *. specialize (Hn ltac:(lia) Hv).
  replace (tm_year x + 1900 - 1970) with (tm_year x - 70) in Hn by lia. replace (tm_mon x + 1 - 1) with (tm_mon x) in Hn by lia.
  destruct Hn as [H0 Hn]. set (d := span _ + _) in *. clearbody d.
  split; [lia|]. split.
  - rewrite <-Hn. do 2 f_equal. div_lia.
  - div_lia.
Qed.

(** ** The properties *)

(** C22: [gmtime_r] finds the date by counting: for every time from 1970 on that
    fits its types it ends, with the date reached after so many days from
    1 January 1970 by the calendar's rule for the next day, the time of that
    day, its day of the week (1970 began on a Thursday) and the number of days
    since the first of January. *)
Theorem gmtime_counts_days t : 0 ≤ t < time_limit →
  ∃ x, gmtime_r t = Ok x ∧ date_of_tm x = nth_date (Z.to_nat (t / 86400)) ∧ valid_date (date_of_tm x) ∧
    3600 * tm_hour x + 60 * tm_min x + tm_sec x = t mod 86400 ∧
    0 ≤ tm_sec x < 60 ∧ 0 ≤ tm_min x < 60 ∧ 0 ≤ tm_hour x < 24 ∧
    tm_wday x = (4 + t / 86400) mod 7 ∧
    0 ≤ tm_yday x ≤ t / 86400 ∧ nth_date (Z.to_nat (t / 86400 - tm_yday x)) = mkDate (tm_year x + 1900) 1 1.
Proof.
  intros Ht. destruct (day_pos_exists (t / 86400)) as (k & yd & Hp); [apply Z.div_pos; lia|].
  pose proof (broken_down_ok t k yd Ht Hp) as []. exists (broken_down t k yd).
  rewrite (gmtime_eq _ _ _ Ht Hp), broken_down_date, (nth_date_at _ k yd Hp). destruct Hp as [Hd Hyd].
  split; [done|]. split; [done|]. split; [by apply date_at_valid|]. split; [apply time_of_day|].
  split; [lia|]. split; [lia|]. split; [lia|]. split; [done|]. pose proof (span_ge k). cbn [broken_down tm_yday tm_year].
  split; [lia|]. replace (t / 86400 - yd) with (span k) by lia. rewrite (nth_date_at _ k 0).
  - rewrite date_at_0. f_equal. lia.
  - split; [lia|]. destruct (year_days_cases (1970 + Z.of_nat k)); lia.
Qed.

(** C23: [mktime] is the inverse of [gmtime_r], whatever the width of [time_t]:
    converted to broken-down time and back, every time from 1970 on that the
    type can hold (below 2^55 seconds) is unchanged, and so is the broken-down time. *)
Theorem mktime_gmtime time_bits t : 32 ≤ time_bits → 0 ≤ t < time_limit → t < 2 ^ (time_bits - 1) →
  ∃ x, gmtime_r t = Ok x ∧ mktime time_bits x = Ok (t, x).
Proof.
  intros Hw Ht Hb. destruct (gmtime_spec t Ht) as (x & Hx & Hok & Hs & _ & _ & Hwd & Hyd).
  exists x. split; [done|]. rewrite mktime_eq by (done || by rewrite Hs). rewrite Hs, <-Hwd, <-Hyd. by destruct x.
Qed.

(** [mktime] does not carry the days of January: the loop takes off the days
    before the month instead of those in it, so the 32nd of January 2022 becomes
    the 4th of March; a thirteenth month reads behind the table of months; and the
    fourteenth month of 2022 is returned as February 2022, although the fields are
    changed to February 2023. *)
Theorem mktime_carry_wrong :
  (∃ x s, mktime 32 (mkTm 0 0 0 32 0 122 0 0) = Ok (s, x) ∧ nth_date (Z.to_nat (s / 86400)) = mkDate 2022 3 4) ∧
  mktime 32 (mkTm 0 0 0 1 12 122 0 0) = Err FBounds ∧
  (∃ x s, mktime 32 (mkTm 0 0 0 1 13 122 0 0) = Ok (s, x) ∧ date_of_tm x = mkDate 2023 2 1 ∧
    nth_date (Z.to_nat (s / 86400)) = mkDate 2022 2 1).
Proof.
  split; [exists (mkTm 0 0 0 32 1 122 5 62), 1646352000; split; vm_compute; reflexivity|]. split; [by vm_compute|].
  eexists _, _. split; [vm_compute; reflexivity|]. split; vm_compute; reflexivity.
Qed.

(** ** Concrete instances *)
Lemma gmtime_counts_days_witness :
  ∃ x, gmtime_r 1652619600 = Ok x ∧ date_of_tm x = mkDate 2022 5 15 ∧ tm_wday x = 0.
Proof.
  destruct (gmtime_counts_days 1652619600) as (x & Hx & Hd & _ & _ & _ & _ & _ & Hwd & _); [by_evaluation|].
  exists x. split; [exact Hx|]. split; [rewrite Hd; vm_compute; reflexivity|rewrite Hwd; vm_compute; reflexivity].
Defined.
Lemma mktime_gmtime_witness : ∃ x, gmtime_r 1652619600 = Ok x ∧ mktime 32 x = Ok (1652619600, x).
Proof. apply mktime_gmtime; by_evaluation. Defined.
