(* ===== verification/Rtc.v ===== *)
(** * The real-time clock ([components/drivers/rtc])

    The software clock ([soft_rtc.c]), a device that counts seconds by the tick
    counter; [time] and [gettimeofday] ([components/libc/compilers/common/time.c]),
    which read it; [set_date] and [set_time] ([rtc.c]), which set it. *)
From S2P Require Import Prelude Kernel Scheduler Object Timer Thread Ipc Decide Scenario Scheduling Registry Heap MemPool Device Calendar.

Definition RT_DEVICE_CTRL_RTC_GET_TIME : Z := 0x10.
Definition RT_DEVICE_CTRL_RTC_SET_TIME : Z := 0x11.
Definition rtc_name : list Z := [114; 116; 99].
(** [SOFT_RTC_TIME_DEFAULT]: 1 January 2018. *)
Definition SOFT_RTC_TIME_DEFAULT : tm := mkTm 0 0 0 1 0 118 0 0.

(** The variables of [soft_rtc.c], the [device] that [time] keeps, and the
    [time_t] whose address a control call is given. *)
Record rtc := mkRtc { init_tick : Z; init_time : Z; init_ok : bool; time_device : addr; time_arg : Z }.
#[global] Instance eta_rtc : EtaRecord rtc := λ r,
  mkRtc (init_tick r) (init_time r) (init_ok r) (time_device r) (time_arg r).

Section Rtc.
Context {S : Type} `{Part S kernel, Part S rtc}.
(** The width of [time_t]; the address of [soft_rtc_dev]; the other drivers. *)
Context (time_bits : Z) (soft_rtc_dev : addr) (others : addr → device_methods S unit).
Let tt_wrap (z : Z) : Z := wrapS time_bits z.

(** ** [soft_rtc.c] *)

(** [(rt_tick_get() - init_tick) / RT_TICK_PER_SECOND] *)
Definition elapsed (tick : Z) (r : rtc) : Z := u32 (tick - init_tick r) / RT_TICK_PER_SECOND.
Definition soft_rtc_control (cmd : Z) (args : unit) : M S Z :=
  RT_ASSERT (soft_rtc_dev ≠ RT_NULL);;
  (if decide (cmd = RT_DEVICE_CTRL_RTC_GET_TIME) then
     tick ← zoom rt_tick_get;
     zoom (modify (λ r, r <| time_arg := tt_wrap (init_time r + elapsed tick r) |>))
   else if decide (cmd = RT_DEVICE_CTRL_RTC_SET_TIME) then
     tick ← zoom rt_tick_get;
     zoom (modify (λ r, r <| init_time := tt_wrap (time_arg r - elapsed tick r) |>))
   else mret tt);;
  mret RT_EOK.
Definition rtc_methods (dev : addr) : device_methods S unit :=
  if decide (dev = soft_rtc_dev) then mkMethods None None None None None (Some soft_rtc_control) else others dev.

Definition rt_soft_rtc_init : M S Z :=
  r ← zoom (gets (id : rtc → rtc));
  if init_ok r then mret 0
  else
    found ← zoom (rt_device_find (Some rtc_name));
    RT_ASSERT (found = None);;
    tick ← zoom rt_tick_get;
    zoom (modify (λ r, r <| init_tick := tick |>));;
    '(now, _) ← lift_outcome (mktime time_bits SOFT_RTC_TIME_DEFAULT);
    zoom (modify (λ r, r <| init_time := now |>));;
    zoom (rt_device_register soft_rtc_dev rtc_name RT_DEVICE_FLAG_RDWR);;
    zoom (modify (λ r, r <| init_ok := true |>));;
    mret 0.

(** ** [time.c] *)

(** [device = rt_device_find("rtc")] as a pointer. *)
Definition find_rtc : M S addr :=
  found ← zoom (rt_device_find (Some rtc_name));
  match found with
  | None => mret RT_NULL
  | Some (Obj dev) => mret dev
  | Some (ThreadTimer _) => fail FBadPointer
  end.
Definition gettimeofday : M S Z :=
  zoom (modify (λ r, r <| time_arg := 0 |>));;
  device ← find_rtc;
  RT_ASSERT (device ≠ RT_NULL);;
  rt_device_control rtc_methods device RT_DEVICE_CTRL_RTC_GET_TIME tt;;
  zoom (gets time_arg).
Definition time : M S Z :=
  zoom (modify (λ r, r <| time_arg := 0 |>));;
  r ← zoom (gets (id : rtc → rtc));
  when (time_device r = RT_NULL) (dev ← find_rtc; zoom (modify (λ r, r <| time_device := dev |>)));;
  r ← zoom (gets (id : rtc → rtc));
  (if decide (time_device r ≠ RT_NULL) then
     result ← rt_device_open rtc_methods (time_device r) 0;
     when (result = RT_EOK)
       (rt_device_control rtc_methods (time_device r) RT_DEVICE_CTRL_RTC_GET_TIME tt;;
        rt_device_close rtc_methods (time_device r);; mret tt)
   else mret tt);;
  zoom (gets time_arg).

(** ** [rtc.c] *)

(** What the two functions share: [change] updates the fields. *)
Definition set_fields (change : tm → tm) : M S Z :=
  now ← time;
  zoom rt_enter_critical;;
  p_tm ← lift_outcome (localtime now);
  zoom rt_exit_critical;;
  '(now, _) ← lift_outcome (mktime time_bits (change p_tm));
  device ← find_rtc;
  if decide (device = RT_NULL) then mret (- RT_ERROR)
  else
    zoom (modify (λ r, r <| time_arg := now |>));;
    rt_device_control rtc_methods device RT_DEVICE_CTRL_RTC_SET_TIME tt.
Definition set_date (year month day : Z) : M S Z :=
  set_fields (λ t, t <| tm_year := i32 (u32 (year - 1900)) |> <| tm_mon := i32 (u32 (month - 1)) |> <| tm_mday := i32 day |>).
Definition set_time (hour minute second : Z) : M S Z :=
  set_fields (λ t, t <| tm_hour := i32 hour |> <| tm_min := i32 minute |> <| tm_sec := i32 second |>).
End Rtc.

(** ** The state of the clock's users *)
Record station := mkStation { st_kernel : kernel; st_heap : heap; st_rtc : rtc }.
#[global] Instance eta_station : EtaRecord station := λ s, mkStation (st_kernel s) (st_heap s) (st_rtc s).
#[global] Instance station_kernel : Part station kernel := MkPart _ _ st_kernel (λ k s, s <| st_kernel := k |>).
#[global] Instance station_heap : Part station heap := MkPart _ _ st_heap (λ h s, s <| st_heap := h |>).
#[global] Instance station_rtc : Part station rtc := MkPart _ _ st_rtc (λ r s, s <| st_rtc := r |>).
#[global] Instance station_kernel_laws : PartLaws station kernel.
Proof. split; try done. by intros []. Qed.
#[global] Instance station_heap_laws : PartLaws station heap.
Proof. split; try done. by intros []. Qed.
#[global] Instance station_apart : PartsApart station kernel heap.
Proof. by split. Qed.

Section Facts.
Context (time_bits : Z) (R : addr) (others : addr → device_methods station unit).

Lemma wp_st_kernel {A} (m : M kernel A) k h r (Q : A → station → Prop) :
  wp m k (λ a k', Q a (mkStation k' h r)) → wp (zoom m) (mkStation k h r) Q.
Proof. unfold wp, zoom. simpl. by destruct (m k) as [[a k']|]. Qed.
Lemma wp_st_rtc {A} (m : M rtc A) k h r (Q : A → station → Prop) :
  wp m r (λ a r', Q a (mkStation k h r')) → wp (zoom m) (mkStation k h r) Q.
Proof. unfold wp, zoom. simpl. by destruct (m r) as [[a r']|]. Qed.

(** The clock is registered, closed, and found by its name; the caller may
    enter critical sections. *)
Record rtc_device (k : kernel) : Prop := {
  rd_inv : kernel_inv k; rd_current : current_ok k;
  rd_lock : 0 ≤ rt_scheduler_lock_nest k < 32767; rd_nest : rt_interrupt_nest k = 0;
  rd_dev : ∃ d, devices k !! R = Some d ∧ rt_object_get_type (dev_parent d) = RT_Object_Class_Device ∧
    Z.land (dev_flag d) RT_DEVICE_FLAG_STANDALONE = 0 ∧ ref_count d = 0;
  rd_found : first_named k RT_Object_Class_Device rtc_name (object_list k RT_Object_Class_Device) = Some (Obj R);
  rd_headers : Forall (λ r, is_Some (object_header k RT_Object_Class_Device r)) (object_list k RT_Object_Class_Device);
  rd_null : R ≠ RT_NULL
}.
Definition cached (r : rtc) : Prop := time_device r = RT_NULL ∨ time_device r = R.

Lemma rtc_device_section k k' :
  rtc_device k → after_section k k' → rtc_device k' ∧ rt_tick k' = rt_tick k ∧ devices k' = devices k.
Proof.
  intros [Hi Hc Hl Hn Hd Hf Hh Hr] (Hi' & Hc' & Hh' & El & En & Ek & Hs).
  assert (rt_tick k' = rt_tick k ∧ devices k' = devices k) as [Et Ed].
  { destruct Hs as [->|Hs]; [done|]. apply objs_scheduled in Hs.
    destruct (objs_fields _ _ Hs) as (_ & _ & _ & _ & _ & Et & _). by destruct (objs_fields_rest _ _ Hs) as (_ & Ed & _). }
  assert (object_list k' RT_Object_Class_Device = object_list k RT_Object_Class_Device) as Eo by (unfold object_list; by rewrite El).
  split; [|done]. split; [exact Hi'|exact Hc'|lia|lia|by rewrite Ed| | |exact Hr].
  - rewrite Eo, (first_named_ext k); [done|]. intros r _. apply Hh'.
  - rewrite Eo, Forall_forall in *. intros r Hin. rewrite Hh'. by apply Hh.
Qed.
Lemma rtc_device_upd k d :
  rtc_device k → (∃ d0, devices k !! R = Some d0 ∧ dev_parent d = dev_parent d0) →
  Z.land (dev_flag d) RT_DEVICE_FLAG_STANDALONE = 0 → ref_count d = 0 →
  rtc_device (k <| devices := <[R := d]> (devices k) |>).
Proof.
  intros [Hi Hc Hl Hn (d1 & Hd1 & Ht & _) Hf Hh Hr] (d0 & Hd0 & Ep) Hs Href. rewrite Hd0 in Hd1. injection Hd1 as <-.
  set (k' := k <| devices := _ |>).
  assert (∀ r, object_header k' RT_Object_Class_Device r = object_header k RT_Object_Class_Device r) as Hh'.
  { intros [a|a]; unfold object_header; simpl; [|done]. destruct (decide (a = R)) as [->|Hne].
    - rewrite lookup_insert_eq, Hd0. simpl. by rewrite Ep.
    - by rewrite lookup_insert_ne. }
  split; [|exact Hc|exact Hl|exact Hn| | | |exact Hr].
  - by eapply kernel_inv_ext; [exact Hi|..].
  - exists d. split; [apply lookup_insert_eq|]. by rewrite Ep.
  - change (object_list k' RT_Object_Class_Device) with (object_list k RT_Object_Class_Device).
    rewrite (first_named_ext k); [done|]. intros r _. apply Hh'.
  - change (object_list k' RT_Object_Class_Device) with (object_list k RT_Object_Class_Device).
    rewrite Forall_forall in *. intros r Hin. rewrite Hh'. by apply Hh.
Qed.

Lemma find_rtc_spec k h r (Q : addr → station → Prop) :
  rtc_device k → (∀ k', rtc_device k' → rt_tick k' = rt_tick k → Q R (mkStation k' h r)) →
  wp find_rtc (mkStation k h r) Q.
Proof.
  intros Hd HQ. unfold find_rtc. apply wp_bind, wp_st_kernel.
  eapply wp_mono; [apply (object_find_spec k RT_Object_Class_Device rtc_name); try apply Hd; done|].
  intros res k' [-> Hs]. rewrite (rd_found _ Hd). apply wp_ret. destruct (rtc_device_section _ _ Hd Hs) as (H1 & H2 & _).
  by apply HQ.
Qed.

Lemma wp_dev_get d k (Q : rt_device → kernel → Prop) : devices k !! R = Some d → Q d k → wp (get_dev R) k Q.
Proof. intros E HQ. unfold get_dev. by wp_steps. Qed.
Lemma wp_dev_upd d f k (Q : unit → kernel → Prop) :
  devices k !! R = Some d → Q tt (k <| devices := <[R := f d]> (devices k) |>) → wp (upd_dev R f) k Q.
Proof. intros E HQ. unfold upd_dev. apply wp_bind. by eapply wp_dev_get. Qed.
Lemma wp_assert_device d k (Q : unit → kernel → Prop) :
  R ≠ RT_NULL → devices k !! R = Some d → rt_object_get_type (dev_parent d) = RT_Object_Class_Device → Q tt k →
  wp (assert_device R) k Q.
Proof. intros Hn E Ht HQ. unfold assert_device. wp_steps. eapply wp_dev_get; [done|]. by wp_steps. Qed.
Lemma methods_here : rtc_methods time_bits R others R = mkMethods None None None None None (Some (soft_rtc_control time_bits R)).
Proof. unfold rtc_methods. by rewrite decide_True. Qed.

(** Reading the clock: the value is left in [time_arg]. *)
Definition clock_value (k : kernel) (r : rtc) : Z := wrapS time_bits (init_time r + elapsed (rt_tick k) r).
Lemma control_get k h r d (Q : Z → station → Prop) :
  R ≠ RT_NULL → devices k !! R = Some d → rt_object_get_type (dev_parent d) = RT_Object_Class_Device →
  Q RT_EOK (mkStation k h (r <| time_arg := clock_value k r |>)) →
  wp (rt_device_control (rtc_methods time_bits R others) R RT_DEVICE_CTRL_RTC_GET_TIME tt) (mkStation k h r) Q.
Proof.
  intros Hn Hd Ht HQ. unfold rt_device_control. rewrite methods_here. simpl.
  apply wp_bind, wp_st_kernel. eapply wp_assert_device; [done|done|done|]. unfold soft_rtc_control.
  wp_steps. apply wp_bind, wp_st_kernel, wp_gets, wp_st_rtc, wp_modify. by wp_steps.
Qed.
Lemma control_set k h r d (Q : Z → station → Prop) :
  R ≠ RT_NULL → devices k !! R = Some d → rt_object_get_type (dev_parent d) = RT_Object_Class_Device →
  Q RT_EOK (mkStation k h (r <| init_time := wrapS time_bits (time_arg r - elapsed (rt_tick k) r) |>)) →
  wp (rt_device_control (rtc_methods time_bits R others) R RT_DEVICE_CTRL_RTC_SET_TIME tt) (mkStation k h r) Q.
Proof.
  intros Hn Hd Ht HQ. unfold rt_device_control. rewrite methods_here. simpl.
  apply wp_bind, wp_st_kernel. eapply wp_assert_device; [done|done|done|]. unfold soft_rtc_control.
  wp_steps. apply wp_bind, wp_st_kernel, wp_gets, wp_st_rtc, wp_modify. by wp_steps.
Qed.

Definition same_device (d d' : rt_device) : Prop :=
  dev_parent d' = dev_parent d ∧ Z.land (dev_flag d') RT_DEVICE_FLAG_STANDALONE = 0.
Definition with_dev (d : rt_device) (k : kernel) : kernel := k <| devices := <[R := d]> (devices k) |>.

Lemma open_spec k h r d (Q : Z → station → Prop) :
  R ≠ RT_NULL → devices k !! R = Some d → rt_object_get_type (dev_parent d) = RT_Object_Class_Device →
  Z.land (dev_flag d) RT_DEVICE_FLAG_STANDALONE = 0 → ref_count d = 0 →
  (∀ d', same_device d d' → ref_count d' = 1 → Q RT_EOK (mkStation (with_dev d' k) h r)) →
  wp (rt_device_open (rtc_methods time_bits R others) R 0) (mkStation k h r) Q.
Proof.
  intros Hn Hd Ht Hs Hr HQ. unfold rt_device_open. rewrite methods_here.
  apply wp_bind, wp_st_kernel. eapply wp_assert_device; [done|done|done|].
  set (d1 := if decide (Z.land (dev_flag d) RT_DEVICE_FLAG_ACTIVATED ≠ 0) then d
    else d <| dev_flag := Z.lor (dev_flag d) RT_DEVICE_FLAG_ACTIVATED |>).
  assert (same_device d d1 ∧ ref_count d1 = 0) as [[Hp1 Hs1] Hr1].
  { unfold d1, same_device. case_decide; [done|]. simpl. split; [|done]. split; [done|].
    rewrite Z.land_lor_distr_l, Hs. done. }
  apply wp_bind, (wp_mono _ _ (λ failed s', failed = None ∧ s' = mkStation (with_dev d1 k) h r)).
  { unfold open_activate. rewrite methods_here. simpl. apply wp_bind, wp_st_kernel. eapply wp_dev_get; [exact Hd|].
    unfold d1. case_decide.
    - wp_steps. split; [done|]. unfold with_dev. rewrite insert_id by done. by destruct k.
    - apply wp_bind, wp_ret, wp_bind, wp_st_kernel. eapply wp_dev_upd; [exact Hd|]. by apply wp_ret. }
  intros ? ? [-> ->]. apply wp_bind, wp_st_kernel. eapply wp_dev_get; [apply lookup_insert_eq|].
  rewrite decide_False by (intros [Hx _]; by rewrite Hs1 in Hx). simpl.
  assert (devices (with_dev d1 k) !! R = Some d1) as Hd1 by apply lookup_insert_eq.
  apply wp_bind, wp_bind, wp_st_kernel. eapply wp_dev_upd; [exact Hd1|]. apply wp_ret, wp_bind, wp_bind, wp_st_kernel.
  eapply wp_dev_upd; [apply lookup_insert_eq|]. apply wp_bind, wp_st_kernel.
  eapply wp_dev_get; [apply lookup_insert_eq|]. simpl. rewrite Hr1. apply wp_assert; [done|]. apply wp_ret.
  match goal with |- Q _ (mkStation ?k2 _ _) =>
    assert (k2 = with_dev (d1 <| open_flag := Z.lor (Z.land 0 RT_DEVICE_OFLAG_MASK) RT_DEVICE_OFLAG_OPEN |> <| ref_count := 1 |>) k) as -> end.
  { unfold with_dev. destruct k; simpl. by rewrite !insert_insert_eq. }
  by apply HQ.
Qed.
Lemma close_spec k h r d (Q : Z → station → Prop) :
  R ≠ RT_NULL → devices k !! R = Some d → rt_object_get_type (dev_parent d) = RT_Object_Class_Device → ref_count d = 1 →
  Q RT_EOK (mkStation (with_dev (d <| ref_count := 0 |> <| open_flag := RT_DEVICE_OFLAG_CLOSE |>) k) h r) →
  wp (rt_device_close (rtc_methods time_bits R others) R) (mkStation k h r) Q.
Proof.
  intros Hn Hd Ht Hr HQ. unfold rt_device_close. rewrite methods_here.
  apply wp_bind, wp_st_kernel. eapply wp_assert_device; [done|done|done|].
  apply wp_bind, wp_st_kernel. eapply wp_dev_get; [exact Hd|]. rewrite Hr, decide_False by done.
  apply wp_bind, wp_st_kernel. eapply wp_dev_upd; [exact Hd|].
  apply wp_bind, wp_st_kernel. eapply wp_dev_get; [apply lookup_insert_eq|]. simpl. rewrite Hr. simpl.
  apply wp_bind, wp_ret, wp_bind, wp_st_kernel. eapply wp_dev_upd; [apply lookup_insert_eq|]. apply wp_ret.
  match goal with |- Q _ (mkStation ?k2 _ _) =>
    assert (k2 = with_dev (d <| ref_count := 0 |> <| open_flag := RT_DEVICE_OFLAG_CLOSE |>) k) as -> end; [|exact HQ].
  unfold with_dev. destruct k; simpl. by rewrite insert_insert_eq.
Qed.

(** A kernel and clock that the functions may find. *)
Record clock_ready (k : kernel) (r : rtc) : Prop := { cr_device : rtc_device k; cr_cached : cached r }.
(** What reading the clock leaves. *)
Record read_clock (k : kernel) (r : rtc) (k' : kernel) (r' : rtc) : Prop := {
  rc_ready : clock_ready k' r'; rc_tick : rt_tick k' = rt_tick k;
  rc_init : init_tick r' = init_tick r; rc_time : init_time r' = init_time r
}.

Lemma time_spec k h r :
  clock_ready k r →
  wp (time time_bits R others) (mkStation k h r) (λ now s', ∃ k' r', s' = mkStation k' h r' ∧
    now = clock_value k r ∧ read_clock k r k' r').
Proof.
  intros [Hd Hc]. unfold time. apply wp_bind, wp_st_rtc, wp_modify, wp_bind, wp_st_rtc, wp_gets.
  apply wp_bind. set (Q := λ (_ : unit) s', ∃ k1, rtc_device k1 ∧ rt_tick k1 = rt_tick k ∧
    s' = mkStation k1 h (r <| time_arg := 0 |> <| time_device := R |>)).
  apply (wp_mono _ _ Q).
  { apply wp_when; simpl.
    - intros Hn. apply wp_bind, find_rtc_spec; [done|]. intros k1 Hk1 Et. apply wp_st_rtc, wp_modify. by exists k1.
    - intros Hn. exists k. destruct Hc as [Hc|Hc]; [done|]. split; [done|]. split; [done|]. destruct r; simpl in *. by subst. }
  intros _ s1 (k1 & Hk1 & Et & ->). apply wp_bind, wp_st_rtc, wp_gets. simpl.
  pose proof (rd_null _ Hk1) as Hn. destruct (rd_dev _ Hk1) as (d & Hdd & Ht & Hs & Href). rewrite decide_True by done.
  apply wp_bind, wp_bind. eapply open_spec; try done. intros d1 [Hp1 Hs1] Hr1.
  apply wp_when; [intros _|done].
  set (d2 := d1 <| ref_count := 0 |> <| open_flag := RT_DEVICE_OFLAG_CLOSE |>).
  apply wp_bind. eapply control_get; [done|apply lookup_insert_eq|by rewrite Hp1|].
  apply wp_bind. eapply close_spec; [done|apply lookup_insert_eq|by rewrite Hp1|done|]. fold d2. apply wp_ret, wp_st_rtc, wp_gets.
  assert (with_dev d2 (with_dev d1 k1) = with_dev d2 k1) as -> by (unfold with_dev; destruct k1; simpl; by rewrite insert_insert_eq).
  eexists _, _. split; [reflexivity|]. unfold clock_value. split; [by rewrite <-Et|]. split; [|done|done|done].
  split; [|by right]. apply rtc_device_upd; [done| |done|done]. by exists d.
Qed.

Lemma set_fields_spec change k h r x x' s' :
  clock_ready k r → gmtime_r (clock_value k r) = Ok x → mktime time_bits (change x) = Ok (s', x') →
  wp (set_fields time_bits R others change) (mkStation k h r) (λ ret st, ret = RT_EOK ∧ ∃ k' r', st = mkStation k' h r' ∧
    clock_ready k' r' ∧ rt_tick k' = rt_tick k ∧ init_tick r' = init_tick r ∧
    init_time r' = wrapS time_bits (s' - elapsed (rt_tick k) r)).
Proof.
  intros Hr Hx Hm. unfold set_fields. apply wp_bind.
  eapply wp_mono; [by apply time_spec|]. intros now s1 (k1 & r1 & -> & -> & [[Hd1 Hc1] Et1 Ei1 _]).
  apply wp_bind, wp_st_kernel. eapply wp_eq; [apply enter_critical_eq, Hd1|]. unfold localtime. rewrite Hx. apply wp_bind, wp_ret.
  apply wp_bind, wp_st_kernel. eapply wp_mono; [by apply exit_section; apply Hd1|]. intros ? k2 Hk2.
  destruct (rtc_device_section _ _ Hd1 Hk2) as (Hd2 & Et2 & _). rewrite Hm. apply wp_bind, wp_ret. simpl.
  apply wp_bind, find_rtc_spec; [done|]. intros k3 Hd3 Et3. rewrite decide_False by apply (rd_null _ Hd3).
  apply wp_bind, wp_st_rtc, wp_modify. destruct (rd_dev _ Hd3) as (d & Hd & Ht & _).
  eapply control_set; [apply (rd_null _ Hd3)|exact Hd|exact Ht|].
  split; [done|]. eexists _, _. split; [reflexivity|]. split; [split; [done|exact Hc1]|].
  assert (rt_tick k3 = rt_tick k) as E by congruence. split; [done|]. split; [done|]. simpl. unfold elapsed. simpl.
  by rewrite E, Ei1.
Qed.
End Facts.
