(* ===== verification/WallClock.v ===== *)
(** * The clock on the display ([src/applications/oled_btn.cpp])

    [changeTime] reads a date and time that came by Bluetooth out of the mailbox
    [ble_mb_time] and sets the clock by [date]; [getStrTime] makes the line of
    text that the display thread draws.  The threads that draw
    and that watch the button are in Application. *)
From S2P Require Import Prelude Kernel Scheduler Object Timer Thread Ipc Decide Scenario Scheduling Registry Mailbox Heap Allocator HeapLock MemPool Device Calendar Rtc.

(** ** Text to numbers

    [atoi] and [strtok] are the C library's, on strings without their
    terminating zero. *)
Definition is_digit (c : Z) : Prop := 48 ≤ c ≤ 57.
Definition is_blank (c : Z) : Prop := c = 32 ∨ 9 ≤ c ≤ 13.
#[global] Instance is_digit_dec c : Decision (is_digit c).
Proof. unfold is_digit. apply _. Defined.
#[global] Instance is_blank_dec c : Decision (is_blank c).
Proof. unfold is_blank. apply _. Defined.
Fixpoint digits_value (acc : Z) (s : list Z) : Z :=
  match s with
  | c :: s => if decide (is_digit c) then digits_value (acc * 10 + (c - 48)) s else acc
  | [] => acc
  end.
Fixpoint skip_blanks (s : list Z) : list Z :=
  match s with
  | c :: s' => if decide (is_blank c) then skip_blanks s' else s
  | [] => []
  end.
Definition atoi (s : list Z) : Z :=
  match skip_blanks s with
  | 45 :: s => i32 (- digits_value 0 s)
  | 43 :: s => i32 (digits_value 0 s)
  | s => i32 (digits_value 0 s)
  end.

(** [spl], ["- :"] *)
Definition spl : list Z := [45; 32; 58].
(** The tokens of repeated [strtok] calls: the longest runs of other
    characters; [word] is the run that is being read. *)
Fixpoint strtok_from (word : list Z) (s : list Z) : list (list Z) :=
  let flush := match word with [] => [] | _ => [word] end in
  match s with
  | [] => flush
  | c :: s => if decide (c ∈ spl) then flush ++ strtok_from [] s else strtok_from (word ++ [c]) s
  end.
Definition strtok (s : list Z) : list (list Z) := strtok_from [] s.

(** [MAX_STR] is [3 * 20 + 1]. *)
Definition MAX_STR : Z := 61.
(** The allocator hands out at least [MIN_SIZE_ALIGNED] bytes, so this is the
    room behind a [malloc(4)]. *)
Definition PART_ROOM : Z := MIN_SIZE_ALIGNED.

(** ** [num2str] and [getStrTime] *)
Definition put_char (i c : Z) (buf : list Z) : outcome (list Z) := array_set buf i (u8 c).
(** [num2str(c, i)] with [c] = [buf + off]. *)
Definition num2str (off i : Z) (buf : list Z) : outcome (list Z) :=
  match put_char off (Z.quot i 10 + 48) buf with
  | Ok buf => put_char (off + 1) (Z.rem i 10 + 48) buf
  | Err e => Err e
  end.
Definition then_put (f : list Z → outcome (list Z)) (o : outcome (list Z)) : outcome (list Z) :=
  match o with Ok buf => f buf | Err e => Err e end.
(** What [getStrTime] writes into [buf]. *)
Definition write_time (t : tm) (buf : list Z) : outcome (list Z) :=
  then_put (put_char 19 0) (then_put (num2str 17 (tm_sec t)) (then_put (put_char 16 58)
  (then_put (num2str 14 (tm_min t)) (then_put (put_char 13 58) (then_put (num2str 11 (tm_hour t))
  (then_put (put_char 10 32) (then_put (num2str 8 (tm_mday t)) (then_put (put_char 7 45)
  (then_put (num2str 5 (tm_mon t + 1)) (then_put (put_char 4 45) (then_put (num2str 2 (Z.rem (tm_year t + 1900) 100))
  (num2str 0 (Z.quot (tm_year t + 1900) 100) buf)))))))))))).

Section WallClock.
Context {S : Type} `{Part S kernel, Part S rtc, !AllocOps S}.
Context (time_bits : Z) (soft_rtc_dev : addr) (others : addr → device_methods S unit).
(** Where [ble_mb_time] is; the text at the address in a mail; what is in a
    block that was not written; [rt_kprintf] of a constant text. *)
Context (ble_mb_time : addr) (text_at stale_text : addr → list Z) (rt_kprintf : list Z → M S unit).

(** [buf] is the static array. *)
Definition getStrTime (buf : list Z) : M S (list Z) :=
  now ← time time_bits soft_rtc_dev others;
  t ← lift_outcome (localtime now);
  lift_outcome (write_time t buf).

(** ["year is out of range [2000-2099]\n"] and its like. *)
Definition out_of_range (what range : list Z) : M S unit :=
  rt_kprintf (what ++ [32; 105; 115; 32; 111; 117; 116; 32; 111; 102; 32; 114; 97; 110; 103; 101; 32; 91] ++ range ++ [93; 10]).
Definition arg (argv : list (list Z)) (i : nat) : M S Z := s ← of_option FBounds (argv !! i); mret (atoi s).

Definition date (argv : list (list Z)) : M S unit :=
  year ← arg argv 0; let year := u16 year in
  month ← arg argv 1; let month := u8 month in
  day ← arg argv 2; let day := u8 day in
  hour ← arg argv 3; let hour := u8 hour in
  min ← arg argv 4; let min := u8 min in
  sec ← arg argv 5; let sec := u8 sec in
  if decide (2099 < year ∨ year < 2000) then
    out_of_range [121; 101; 97; 114] [50; 48; 48; 48; 45; 50; 48; 57; 57]
  else if decide (month = 0 ∨ 12 < month) then out_of_range [109; 111; 110; 116; 104] [49; 45; 49; 50]
  else if decide (day = 0 ∨ 31 < day) then out_of_range [100; 97; 121] [49; 45; 51; 49]
  else if decide (23 < hour) then out_of_range [104; 111; 117; 114] [48; 45; 50; 51]
  else if decide (59 < min) then out_of_range [109; 105; 110; 117; 116; 101] [48; 45; 53; 57]
  else if decide (59 < sec) then out_of_range [115; 101; 99; 111; 110; 100] [48; 45; 53; 57]
  else
    set_time time_bits soft_rtc_dev others hour min sec;;
    set_date time_bits soft_rtc_dev others year month day;;
    mret tt.

(** ** [changeTime] *)

(** [for (int i = 0; i < 6; i++) time_parse[i] = malloc(4)] *)
Fixpoint malloc_parts (n : nat) : M S (list addr) :=
  match n with
  | O => mret []
  | Datatypes.S n => p ← alloc 4; ps ← malloc_parts n; mret (p :: ps)
  end.
(** [rt_strncpy(time_get, time_input + 1, MAX_STR)]: the string that is then in
    [time_get], which [strtok] runs over. *)
Definition copy_input (text : list Z) : outcome (list Z) :=
  match text with
  | [] => Err FBounds
  | _ :: rest => if decide (zlen rest < MAX_STR) then Ok rest else Err FBounds
  end.
(** [strcpy(time_parse[cnt], token)] for each token; the result is the strings
    in the blocks. *)
Fixpoint fill_parts (ps : list addr) (toks : list (list Z)) : outcome (list (list Z)) :=
  match toks, ps with
  | [], _ => Ok (stale_text <$> ps)
  | _ :: _, [] => Err FBounds
  | tok :: toks, p :: ps =>
      if decide (p = RT_NULL) then Err FBadPointer
      else if decide (PART_ROOM ≤ zlen tok) then Err FBounds
      else match fill_parts ps toks with Ok l => Ok (tok :: l) | Err e => Err e end
  end.
Definition changeTime : M S unit :=
  time_parse ← malloc_parts 6;
  r ← zoom (rt_mb_recv ble_mb_time 0);
  match r with
  | Return (result, mail) =>
      if decide (result = RT_EOK) then
        time_input ← of_option FBadPointer mail;
        time_get ← lift_outcome (copy_input (text_at time_input));
        argv ← lift_outcome (fill_parts time_parse (strtok time_get));
        date argv
      else mret tt
  | Park _ => fail FConfig
  end.
End WallClock.

(** ** Numbers and text *)
Definition two (n : Z) : list Z := [48 + n / 10; 48 + n mod 10].
(** The line for second [secs] of the day [d]. *)
Definition face (d : Calendar.date) (secs : Z) : list Z :=
  two (year d / 100) ++ two (year d mod 100) ++ 45 :: two (month d) ++ 45 :: two (mday d) ++ 32 ::
  two (secs / 3600) ++ 58 :: two (secs / 60 mod 60) ++ 58 :: two (secs mod 60).

Lemma two_digits n : 0 ≤ n ≤ 99 → Forall is_digit (two n).
Proof. intros Hn. unfold two, is_digit. repeat constructor; div_lia. Qed.
Lemma digit_no_delim c : is_digit c → c ∉ spl.
Proof. unfold is_digit, spl. rewrite !elem_of_cons, elem_of_nil. lia. Qed.
Lemma digits_two n acc s : 0 ≤ n ≤ 99 → digits_value acc (two n ++ s) = digits_value (acc * 100 + n) s.
Proof.
  intros Hn. pose proof (two_digits n Hn) as Hd. apply Forall_cons in Hd as [H1 Hd]. apply Forall_cons in Hd as [H2 _].
  simpl. rewrite !decide_True by done. f_equal. div_lia.
Qed.
Lemma atoi_digit c s : is_digit c → atoi (c :: s) = i32 (digits_value 0 (c :: s)).
Proof.
  unfold is_digit. intros Hc. assert (c ∈ [48; 49; 50; 51; 52; 53; 54; 55; 56; 57]) as Hin by (rewrite !elem_of_cons; lia).
  unfold atoi. simpl skip_blanks. rewrite decide_False by (unfold is_blank; lia).
  repeat (apply elem_of_cons in Hin as [->|Hin]; [done|]). by apply not_elem_of_nil in Hin.
Qed.
Lemma atoi_two n : 0 ≤ n ≤ 99 → atoi (two n) = n.
Proof.
  intros Hn. pose proof (two_digits n Hn) as Hd. apply Forall_cons in Hd as [H1 _].
  unfold two. rewrite atoi_digit by done. fold (two n). rewrite <-(app_nil_r (two n)), digits_two by done. simpl.
  apply wrapS_small; simpl; lia.
Qed.
Lemma atoi_four y : 0 ≤ y ≤ 9999 → atoi (two (y / 100) ++ two (y mod 100)) = y.
Proof.
  intros Hy. assert (0 ≤ y / 100 ≤ 99 ∧ 0 ≤ y mod 100 ≤ 99) as [H1 H2] by div_lia.
  pose proof (two_digits _ H1) as Hd. apply Forall_cons in Hd as [Hd _].
  unfold two at 1. simpl app. rewrite atoi_digit by done.
  change (digits_value 0 _) with (digits_value 0 (two (y / 100) ++ two (y mod 100))).
  rewrite <-(app_nil_r (two (y mod 100))), !digits_two by done. simpl. rewrite wrapS_small by (simpl; div_lia). div_lia.
Qed.

Lemma strtok_word w word s : Forall is_digit w → strtok_from word (w ++ s) = strtok_from (word ++ w) s.
Proof.
  intros Hw. revert word. induction Hw as [|c w Hc _ IH]; intros word; [by rewrite app_nil_r|].
  simpl. rewrite decide_False by by apply digit_no_delim. by rewrite IH, <-app_assoc.
Qed.
Lemma strtok_next w c s : w ≠ [] → Forall is_digit w → c ∈ spl → strtok_from [] (w ++ c :: s) = w :: strtok_from [] s.
Proof. intros Hne Hw Hc. rewrite strtok_word by done. simpl. rewrite decide_True by done. by destruct w. Qed.
Lemma strtok_last w : w ≠ [] → Forall is_digit w → strtok_from [] w = [w].
Proof. intros Hne Hw. rewrite <-(app_nil_r w) at 1. rewrite strtok_word by done. by destruct w. Qed.

(** A date and time that [date] takes. *)
Record proper (d : Calendar.date) (secs : Z) : Prop := {
  pr_year : 0 ≤ year d ≤ 9999; pr_valid : valid_date d; pr_secs : 0 ≤ secs < 86400
}.
Lemma proper_fields d secs : proper d secs →
  (1 ≤ month d ≤ 12 ∧ 1 ≤ mday d ≤ 31) ∧ 0 ≤ secs / 3600 ≤ 23 ∧ 0 ≤ secs / 60 mod 60 ≤ 59 ∧ 0 ≤ secs mod 60 ≤ 59.
Proof.
  intros [Hy [Hm Hd] Hs]. pose proof (month_days_le (leap_year (year d)) (month d)). split; [lia|]. split; div_lia.
Qed.
Lemma strtok_face d secs : proper d secs →
  strtok (face d secs) = [two (year d / 100) ++ two (year d mod 100); two (month d); two (mday d);
    two (secs / 3600); two (secs / 60 mod 60); two (secs mod 60)].
Proof.
  intros Hp. destruct (proper_fields _ _ Hp) as ([H1 H2] & H3 & H4 & H5). destruct Hp as [Hy _ _].
  assert (0 ≤ year d / 100 ≤ 99 ∧ 0 ≤ year d mod 100 ≤ 99) as [H6 H7] by div_lia.
  unfold strtok, face. rewrite (app_assoc (two (year d / 100))).
  assert (∀ c, c = 45 ∨ c = 32 ∨ c = 58 → c ∈ spl) as Hspl by (intros c; unfold spl; rewrite !elem_of_cons; tauto).
  rewrite strtok_next; [|done|by apply Forall_app; split; apply two_digits|by apply Hspl; auto].
  do 4 (rewrite strtok_next; [|done|apply two_digits; lia|by apply Hspl; auto]).
  by rewrite strtok_last by (done || apply two_digits; lia).
Qed.

Lemma put_two off n buf :
  0 ≤ n ≤ 99 → 0 ≤ off → off + 1 < zlen buf → num2str off n buf = Ok (splice buf (Z.to_nat off) (two n)).
Proof.
  intros Hn H0 Hl. unfold num2str, put_char, array_set. rewrite decide_True by lia.
  rewrite decide_True by (unfold zlen in *; rewrite length_insert; lia).
  rewrite Z.quot_div_nonneg, Z.rem_mod_nonneg by lia. rewrite !wrapU_small by (simpl; div_lia).
  f_equal. unfold two. rewrite !(Z.add_comm _ 48), splice_cons by (unfold zlen in *; lia).
  rewrite <-insert_splice by (rewrite length_insert; unfold zlen in *; lia).
  f_equal. lia.
Qed.
Lemma put_at i c buf : 0 ≤ i < zlen buf → put_char i c buf = Ok (<[Z.to_nat i := u8 c]> buf).
Proof. intros Hi. unfold put_char, array_set. by rewrite decide_True. Qed.
Ltac put := first [rewrite put_two by (done || lia) | rewrite put_at by done]; cbn [then_put].
Lemma write_time_face t d secs buf :
  zlen buf = 20 → proper d secs → date_of_tm t = d → 0 ≤ tm_sec t < 60 → 0 ≤ tm_min t < 60 → 0 ≤ tm_hour t < 24 →
  3600 * tm_hour t + 60 * tm_min t + tm_sec t = secs → write_time t buf = Ok (face d secs ++ [0]).
Proof.
  intros Hl Hp Hd Hs Hm Hh Hsecs. destruct (proper_fields _ _ Hp) as ([H1 H2] & _). destruct Hp as [Hy _ _].
  unfold date_of_tm in Hd. subst d. cbn [year month mday] in *.
  assert (tm_hour t = secs / 3600 ∧ tm_min t = secs / 60 mod 60 ∧ tm_sec t = secs mod 60) as (Eh & Em & Es) by div_lia.
  unfold zlen in Hl. do 20 (destruct buf as [|? buf]; [simpl in Hl; lia|]). destruct buf; [|simpl in Hl; lia].
  assert (0 ≤ (tm_year t + 1900) / 100 ≤ 99 ∧ 0 ≤ (tm_year t + 1900) mod 100 ≤ 99) as [H6 H7] by div_lia.
  unfold write_time. rewrite Z.quot_div_nonneg, Z.rem_mod_nonneg by lia.
  put. put. put. put. put. put. put. put. put. put. put. put. put.
  unfold face. cbn [year month mday]. by rewrite <-Eh, <-Em, <-Es.
Qed.

(** ** The operations *)
Definition display_limit : Z := 2 ^ 37.
(** What the display shows at a time. *)
Definition face_of (t : Z) : list Z := face (nth_date (Z.to_nat (t / 86400))) (t mod 86400).

Lemma proper_time t : 0 ≤ t < display_limit → proper (nth_date (Z.to_nat (t / 86400))) (t mod 86400).
Proof.
  unfold display_limit. intros Ht. split; [|apply nth_date_valid|apply Z.mod_pos_bound; lia].
  destruct (day_pos_exists (t / 86400)) as (k & yd & Hp); [apply Z.div_pos; lia|]. rewrite (nth_date_at _ _ _ Hp).
  destruct Hp as [Hp Hyd]. pose proof (span_ge k). unfold date_at. cbn [year].
  assert (t / 86400 ≤ 1590728) by (apply (Z.div_le_mono t (2 ^ 37) 86400); lia). lia.
Qed.

Lemma wrapS_add time_bits a b : wrapS time_bits (wrapS time_bits a + b) = wrapS time_bits (a + b).
Proof.
  unfold wrapS. f_equal. set (h := 2 ^ (time_bits - 1)).
  replace ((a + h) mod 2 ^ time_bits - h + b + h) with ((a + h) mod 2 ^ time_bits + b) by lia.
  rewrite Zplus_mod_idemp_l. f_equal. lia.
Qed.

Definition time_at (d : Calendar.date) (secs : Z) : Z := 86400 * day_number d + secs.

Lemma time_at_face d secs : 1970 ≤ year d → proper d secs → 0 ≤ time_at d secs ∧ face_of (time_at d secs) = face d secs.
Proof.
  intros Hy [Hy' Hv Hs]. destruct (nth_day_number d Hy Hv) as [H0 Hn]. unfold time_at, face_of. split; [lia|].
  assert ((86400 * day_number d + secs) / 86400 = day_number d) as -> by div_lia.
  assert ((86400 * day_number d + secs) mod 86400 = secs) as -> by div_lia. by rewrite Hn.
Qed.

(** What both setters do to the seconds: [x] is the time that was read. *)
Lemma change_time x hour min sec : fields_ok x → 0 ≤ hour ≤ 23 → 0 ≤ min ≤ 59 → 0 ≤ sec ≤ 59 →
  let x' := x <| tm_hour := i32 hour |> <| tm_min := i32 min |> <| tm_sec := i32 sec |> in
  fields_ok x' ∧ seconds_of x' = seconds_of x - (3600 * tm_hour x + 60 * tm_min x + tm_sec x) + (3600 * hour + 60 * min + sec).
Proof.
  intros [] Hh Hm Hs. simpl. rewrite !wrapS_small by (simpl; lia). split; [by constructor|]. unfold seconds_of. simpl. lia.
Qed.
Lemma change_date x y m d : fields_ok x → 2000 ≤ y ≤ 2099 → 1 ≤ m ≤ 12 → 1 ≤ d ≤ 31 →
  let x' := x <| tm_year := i32 (u32 (y - 1900)) |> <| tm_mon := i32 (u32 (m - 1)) |> <| tm_mday := i32 d |> in
  fields_ok x' ∧ seconds_of x' = 86400 * day_number (mkDate y m d) + (3600 * tm_hour x + 60 * tm_min x + tm_sec x).
Proof.
  intros [] Hy Hm Hd. simpl. rewrite !wrapU_small, !wrapS_small by (simpl; lia). split; [constructor; simpl; lia|].
  unfold seconds_of, day_number. simpl. replace (y - 1900 - 70) with (y - 1970) by lia.
  replace (y - 1900 + 1900) with y by lia. lia.
Qed.

Section Facts.
Context (time_bits : Z) (R : addr) (others : addr → device_methods station unit) (Hbits : 32 ≤ time_bits).

Lemma getStrTime_spec buf k h r :
  clock_ready R k r → zlen buf = 20 → 0 ≤ clock_value time_bits k r < display_limit →
  wp (getStrTime time_bits R others buf) (mkStation k h r) (λ text s', ∃ k' r', s' = mkStation k' h r' ∧
    text = face_of (clock_value time_bits k r) ++ [0] ∧ read_clock R k r k' r').
Proof.
  intros Hr Hb Hv. unfold getStrTime. apply wp_bind. eapply wp_mono; [by apply time_spec|].
  intros now s1 (k1 & r1 & -> & -> & Hrc). set (v := clock_value time_bits k r) in *.
  assert (0 ≤ v < time_limit) as Hv' by (unfold display_limit, time_limit in *; lia).
  destruct (gmtime_counts_days v Hv') as (x & Hx & Hd & _ & Hs & H1 & H2 & H3 & _). unfold localtime. rewrite Hx.
  apply wp_bind, wp_ret. rewrite (write_time_face x _ _ buf Hb (proper_time v Hv) Hd H1 H2 H3 Hs).
  apply wp_ret. by exists k1, r1.
Qed.

(** Arguments that [date] takes, as numbers. *)
Record args_ok (argv : list (list Z)) (d : Calendar.date) (secs : Z) : Prop := {
  ag_argv : atoi <$> argv = [year d; month d; mday d; secs / 3600; secs / 60 mod 60; secs mod 60];
  ag_year : 2000 ≤ year d ≤ 2099; ag_month : 1 ≤ month d ≤ 12; ag_mday : 1 ≤ mday d ≤ 31; ag_secs : 0 ≤ secs < 86400
}.
Lemma wp_arg {S} `{Part S kernel} argv n i s (Q : Z → S → Prop) : (atoi <$> argv) !! i = Some n → Q n s → wp (arg argv i) s Q.
Proof. rewrite list_lookup_fmap, fmap_Some. intros (a & E & ->) HQ. unfold arg. rewrite E. exact HQ. Qed.

(** Second of the clock before, and room for a day more. *)
Definition clock_sane (k : kernel) (r : rtc) : Prop :=
  0 ≤ clock_value time_bits k r < time_limit - 86400 ∧ clock_value time_bits k r + 86400 < 2 ^ (time_bits - 1).

Lemma date_spec kputs argv d secs k h r :
  clock_ready R k r → clock_sane k r → args_ok argv d secs → time_at d secs < 2 ^ (time_bits - 1) →
  wp (date time_bits R others kputs argv) (mkStation k h r) (λ _ s', ∃ k' r', s' = mkStation k' h r' ∧
    clock_ready R k' r' ∧ rt_tick k' = rt_tick k ∧ init_tick r' = init_tick r ∧
    init_time r' = wrapS time_bits (time_at d secs - elapsed (rt_tick k) r)).
Proof.
  intros Hr [Hv Hroom] [Ha Hy Hm Hd Hs] HT. unfold date.
  assert (0 ≤ secs / 3600 ≤ 23 ∧ 0 ≤ secs / 60 mod 60 ≤ 59 ∧ 0 ≤ secs mod 60 ≤ 59) as (Hh & Hmi & Hse) by div_lia.
  do 6 (apply wp_bind; eapply wp_arg; [by rewrite Ha|]). rewrite !wrapU_small by (simpl; lia).
  do 6 (rewrite decide_False by lia).
  set (v := clock_value time_bits k r) in *.
  destruct (gmtime_spec v ltac:(lia)) as (x & Hx & Hok & Hsec & _ & Hday & _).
  destruct (change_time x (secs / 3600) (secs / 60 mod 60) (secs mod 60) Hok Hh Hmi Hse) as [Hok1 Hs1].
  set (x1 := x <| tm_hour := _ |> <| tm_min := _ |> <| tm_sec := _ |>) in *.
  assert (3600 * (secs / 3600) + 60 * (secs / 60 mod 60) + secs mod 60 = secs) as Esecs by div_lia.
  rewrite Hsec, Hday, Esecs in Hs1. pose proof (Z.mod_pos_bound v 86400 ltac:(lia)).
  assert (v mod 86400 ≤ v) by (apply Z.mod_le; lia).
  apply wp_bind. eapply wp_mono; [eapply (set_fields_spec time_bits R others _ k h r x); [done|exact Hx|]|].
  { exact (mktime_eq time_bits Hbits x1 Hok1 ltac:(rewrite Hs1; lia)). }
  intros ? s1 (_ & k1 & r1 & -> & Hr1 & Et1 & Ei1 & Einit1).
  assert (elapsed (rt_tick k1) r1 = elapsed (rt_tick k) r) as Ee1 by (unfold elapsed; by rewrite Et1, Ei1).
  assert (clock_value time_bits k1 r1 = v - v mod 86400 + secs) as Ev1.
  { unfold clock_value. rewrite Einit1, Hs1, Ee1, wrapS_add. rewrite Z.sub_add. apply wrapS_small; lia. }
  destruct (gmtime_spec (clock_value time_bits k1 r1) ltac:(rewrite Ev1; lia)) as (y & Hgy & Hoky & _ & _ & Hdayy & _).
  destruct (change_date y (year d) (month d) (mday d) Hoky Hy Hm Hd) as [Hok2 Hs2].
  set (x2 := y <| tm_year := _ |> <| tm_mon := _ |> <| tm_mday := _ |>) in *.
  assert ((v - v mod 86400 + secs) mod 86400 = secs) as Emod by div_lia.
  rewrite Hdayy, Ev1, Emod in Hs2. assert (mkDate (year d) (month d) (mday d) = d) as Ed by by destruct d.
  rewrite Ed in Hs2. fold (time_at d secs) in Hs2.
  apply wp_bind. eapply wp_mono; [eapply (set_fields_spec time_bits R others _ k1 h r1 y); [done|exact Hgy|]|].
  { exact (mktime_eq time_bits Hbits x2 Hok2 ltac:(rewrite Hs2; exact HT)). }
  intros ? s2 (_ & k2 & r2 & -> & Hr2 & Et2 & Ei2 & Einit2). apply wp_ret. exists k2, r2.
  split; [done|]. split; [done|]. split; [by rewrite Et2|]. split; [by rewrite Ei2|]. by rewrite Einit2, Hs2, Ee1.
Qed.

(** ** [changeTime] *)
Lemma fill_all stale ps toks :
  length ps = length toks → Forall (.≠ RT_NULL) ps → Forall (λ tok, zlen tok < PART_ROOM) toks → fill_parts stale ps toks = Ok toks.
Proof.
  revert ps. induction toks as [|tok toks IH]; intros [|p ps] Hl Hp Ht; try done.
  apply Forall_cons in Hp as [Hp Hps]. apply Forall_cons in Ht as [Ht Hts]. simpl.
  rewrite decide_False by done. rewrite decide_False by lia. by rewrite IH; [|simpl in Hl; lia|..].
Qed.
Lemma face_args d secs : proper d secs → 2000 ≤ year d ≤ 2099 → args_ok (strtok (face d secs)) d secs.
Proof.
  intros Hp Hy. destruct (proper_fields _ _ Hp) as ([H1 H2] & H3 & H4 & H5). split; try done; [|apply Hp].
  rewrite strtok_face by done. rewrite !fmap_cons, atoi_four, !atoi_two by lia. done.
Qed.
Lemma length_face d secs : length (face d secs) = 19%nat.
Proof. done. Qed.

(** The mail is taken out and the clock set; [h1] is the heap after the six
    allocations. *)
Lemma changeTime_spec `{!AllocOps station} kputs mb stale text_at x p l c d secs k h h1 r ps :
  clock_ready R k r → clock_sane k r → proper d secs → 2000 ≤ year d ≤ 2099 → time_at d secs < 2 ^ (time_bits - 1) →
  mailbox_ok k mb x → mails x = p :: l → text_at p = c :: face d secs →
  malloc_parts 6 (mkStation k h r) = Ok (ps, mkStation k h1 r) → length ps = 6%nat → Forall (.≠ RT_NULL) ps →
  wp (changeTime time_bits R others mb text_at stale kputs) (mkStation k h r) (λ _ s', ∃ k' r', s' = mkStation k' h1 r' ∧
    clock_ready R k' r' ∧ rt_tick k' = rt_tick k ∧ init_tick r' = init_tick r ∧
    init_time r' = wrapS time_bits (time_at d secs - elapsed (rt_tick k) r)).
Proof.
  intros [Hd Hc] Hsane Hp Hy HT Hmb Hm Htext Halloc Hlen Hnull. unfold changeTime. apply wp_bind.
  eapply wp_eq; [exact Halloc|]. apply wp_bind, wp_st_kernel.
  assert (0 < mb_entry x) as Hne.
  { pose proof (length_mails x) as E. rewrite Hm in E. simpl in E. lia. }
  eapply wp_mono; [apply (mb_recv_spec k mb x); [apply Hd|apply Hd|exact Hmb|exact Hne]|].
  intros res k1 (v & l' & x' & Hm' & -> & _ & _ & Hdone). rewrite Hm in Hm'. injection Hm' as -> ->.
  rewrite decide_True by done. apply wp_bind, wp_ret. rewrite Htext. unfold copy_input.
  rewrite decide_True by by_evaluation. apply wp_bind, wp_ret.
  assert (fill_parts stale ps (strtok (face d secs)) = Ok (strtok (face d secs))) as Hfill.
  { apply fill_all; [by rewrite strtok_face, Hlen|done|]. rewrite strtok_face by done. repeat constructor. }
  rewrite Hfill. apply wp_bind, wp_ret. destruct (md_rest _ _ _ _ _ Hdone) as (Et & El & Ek & En).
  eapply wp_mono; [apply (date_spec kputs _ d secs k1 h1 r); [|unfold clock_sane, clock_value; by rewrite Et|by apply face_args|done]|].
  - split; [|done]. destruct Hd as [_ _ Hl Hn Hdev Hf Hh Hnn].
    assert (∀ o, object_header k1 RT_Object_Class_Device o = object_header k RT_Object_Class_Device o) as Ho.
    { intros o. unfold object_header. simpl. by rewrite (md_devices _ _ _ _ _ Hdone). }
    assert (object_list k1 RT_Object_Class_Device = object_list k RT_Object_Class_Device) as Elist by (unfold object_list; by rewrite El).
    split; [apply Hdone|apply Hdone|lia|lia|by rewrite (md_devices _ _ _ _ _ Hdone)| | |done].
    + rewrite Elist, (first_named_ext k); [done|]. intros o _. apply Ho.
    + rewrite Elist, Forall_forall in *. intros o Hin. rewrite Ho. by apply Hh.
  - intros _ s' (k2 & r2 & -> & H1 & H2 & H3 & H4). exists k2, r2. by rewrite H2, H4, Et.
Qed.
End Facts.

Lemma malloc_parts_spec `{!AllocOps station, !AllocSpec station} n k h r bs : unguarded k → blocks h bs →
  ∃ ps h' bs', malloc_parts n (mkStation k h r) = Ok (ps, mkStation k h' r) ∧ length ps = n ∧ blocks h' bs' ∧
    dom bs' = dom bs ∪ list_to_set (filter (.≠ RT_NULL) ps) ∧ size bs' = (size bs + length (filter (.≠ RT_NULL) ps))%nat.
Proof.
  intros Hu. revert h bs. induction n as [|n IH]; intros h bs Hb.
  { exists [], h, bs. split_and!; first [done|simpl; lia|simpl; set_solver]. }
  pose proof (alloc_spec (mkStation k h r) bs 4 Hu Hb ltac:(lia)) as Hp. cbn [malloc_parts].
  unfold wp in Hp. destruct (alloc 4 (mkStation k h r)) as [[p s1]|] eqn:E; [|done].
  assert (∃ h1 bs1, s1 = mkStation k h1 r ∧ blocks h1 bs1 ∧ dom bs1 = dom bs ∪ list_to_set (filter (.≠ RT_NULL) [p]) ∧
    size bs1 = (size bs + length (filter (.≠ RT_NULL) [p]))%nat) as (h1 & bs1 & -> & Hb1 & Hd1 & Hs1).
  { destruct Hp as [[-> ->]|(Hp & Hnone & _ & h1 & m & -> & _ & Hb1)].
    - exists h, bs. split_and!; first [done|simpl; lia|simpl; set_solver].
    - exists h1, (<[p := m]> bs). split; [done|]. split; [done|].
      rewrite dom_insert_L, map_size_insert_None, filter_cons_True by (done || by intros ->; apply null_outside).
      split; [simpl; set_solver|simpl; lia]. }
  destruct (IH h1 bs1 Hb1) as (ps & h2 & bs2 & E2 & Hl & Hb2 & Hd2 & Hs2).
  exists (p :: ps), h2, bs2. split; [by rewrite (bind_ok _ _ _ _ _ E), (bind_ok _ _ _ _ _ E2)|]. split; [simpl; lia|]. split; [done|].
  rewrite Hd2, Hs2, Hd1, Hs1, !filter_cons. case_decide; simpl; split; [set_solver|lia|set_solver|lia].
Qed.

(** ** The properties *)

(** C21: the clock shows what it was set to, plus the time that has passed.  When a
    date and time in the display's own format (behind one character that tells
    which command it is) is in the mailbox, [changeTime] takes the mail and sets
    the clock; and the text [getStrTime] makes at any tick after that is the
    mailed one advanced by the seconds counted since, in the same format. *)
Theorem clock_set_and_shown `{!AllocOps station} time_bits R others kputs mb stale text_at x p l c d secs k h h1 r ps :
  32 ≤ time_bits → clock_ready R k r → clock_sane time_bits k r →
  proper d secs → 2000 ≤ year d ≤ 2099 → time_at d secs < 2 ^ (time_bits - 1) →
  mailbox_ok k mb x → mails x = p :: l → text_at p = c :: face d secs →
  malloc_parts 6 (mkStation k h r) = Ok (ps, mkStation k h1 r) → length ps = 6%nat → Forall (.≠ RT_NULL) ps →
  wp (changeTime time_bits R others mb text_at stale kputs) (mkStation k h r) (λ _ s', ∃ k' r', s' = mkStation k' h1 r' ∧
    ∀ k2 h2 n buf (passed := ((u32 (rt_tick k - init_tick r)) mod 1000 + n) / 1000),
      rtc_device R k2 → rt_tick k2 = u32 (rt_tick k + n) → 0 ≤ n → u32 (rt_tick k - init_tick r) + n < 2 ^ 32 →
      time_at d secs + passed < display_limit → time_at d secs + passed < 2 ^ (time_bits - 1) → zlen buf = 20 →
      wp (getStrTime time_bits R others buf) (mkStation k2 h2 r') (λ text _,
        text = face_of (time_at d secs + passed) ++ [0] ∧ (n = 0 → text = face d secs ++ [0]))).
Proof.
  intros Hbits Hr Hsane Hp Hy HT Hmb Hm Htext Halloc Hlen Hnull.
  eapply wp_mono; [by apply (changeTime_spec time_bits R others Hbits kputs mb stale text_at x p l c d secs k h h1 r ps)|].
  intros _ s' (k' & r' & -> & [_ Hc] & Et & Ei & Einit). exists k', r'. split; [done|].
  intros k2 h2 n buf passed Hd2 Et2 Hn Hwrap Hlim HB Hbuf.
  destruct (time_at_face d secs ltac:(lia) Hp) as [H0 Hface].
  set (e := u32 (rt_tick k - init_tick r)) in *.
  assert (0 ≤ e) as He by apply (wrapU_range 32 (rt_tick k - init_tick r) ltac:(done)).
  assert (0 ≤ passed) as Hpass by (unfold passed; div_lia).
  assert (clock_value time_bits k2 r' = time_at d secs + passed) as Ev.
  { unfold clock_value. rewrite Einit, (wrapS_add time_bits). unfold elapsed. rewrite Ei, Et2. fold e.
    assert (u32 (u32 (rt_tick k + n) - init_tick r) = e + n) as ->.
    { unfold wrapU. rewrite Zminus_mod_idemp_l. replace (rt_tick k + n - init_tick r) with (rt_tick k - init_tick r + n) by lia.
      rewrite <-Zplus_mod_idemp_l. change ((rt_tick k - init_tick r) mod 2 ^ 32) with e. apply Z.mod_small. lia. }
    change RT_TICK_PER_SECOND with 1000. assert (- (e / 1000) + (e + n) / 1000 = passed) as Ep by (unfold passed; div_lia).
    replace (time_at d secs - e / 1000 + (e + n) / 1000) with (time_at d secs + passed) by lia.
    apply wrapS_small; lia. }
  eapply wp_mono; [apply (getStrTime_spec time_bits R others buf k2 h2 r'); [by split|done|rewrite Ev; lia]|].
  intros text s2 (k3 & r3 & _ & -> & _). rewrite Ev. split; [done|]. intros ->.
  assert (passed = 0) as -> by (unfold passed; div_lia). by rewrite Z.add_0_r, Hface.
Qed.

(** C40: the clock falls back when the tick counter has gone round: read in the
    last tick before 2^32 of them have passed since [rt_soft_rtc_init], [time] is
    4294967 seconds after the base of the clock, and read in the next tick it is
    the base again, 49 days and 17 hours earlier. *)
Theorem clock_falls_back time_bits R others k h r :
  32 ≤ time_bits → clock_ready R k r → rt_tick k = u32 (init_tick r - 1) →
  0 ≤ init_time r → init_time r + 4294967 < 2 ^ (time_bits - 1) →
  wp (time time_bits R others) (mkStation k h r) (λ now s', ∃ k1 r1, s' = mkStation k1 h r1 ∧ rt_tick k1 = rt_tick k ∧
    ∀ k2 h2, rtc_device R k2 → rt_tick k2 = u32 (rt_tick k1 + 1) →
      wp (time time_bits R others) (mkStation k2 h2 r1) (λ later _, later = now - 4294967)).
Proof.
  intros Hbits Hr Hk H0 H1. eapply wp_mono; [by apply time_spec|].
  intros now s1 (k1 & r1 & -> & -> & [[_ Hc] Et Ei Einit]). exists k1, r1. split; [done|]. split; [done|].
  intros k2 h2 Hd2 Et2. eapply wp_mono; [apply (time_spec time_bits R others k2 h2 r1); by split|].
  intros later s2 (k3 & r3 & _ & -> & _). unfold clock_value, elapsed. rewrite Einit, Ei, Et2, Et, Hk. unfold wrapU.
  rewrite Zplus_mod_idemp_l, !Zminus_mod_idemp_l.
  replace (init_tick r - 1 + 1 - init_tick r) with 0 by lia. replace (init_tick r - 1 - init_tick r) with (-1) by lia.
  change (-1 mod 2 ^ 32 / RT_TICK_PER_SECOND) with 4294967. change (0 mod 2 ^ 32 / RT_TICK_PER_SECOND) with 0.
  rewrite !wrapS_small; lia.
Qed.

(** C39: every call of [changeTime] without mail leaks what its six [malloc] calls
    return: the addresses [ps] that are not null are new blocks that stay in use
    when the call returns, next to all blocks that were in use before, and the
    kernel and the clock are as they were. *)
Theorem changeTime_leaks `{!AllocOps station, !AllocSpec station} time_bits R others kputs mb stale text_at x k h r bs :
  unguarded k → blocks h bs → kernel_inv k → current_ok k → mailbox_ok k mb x → mb_entry x = 0 →
  wp (changeTime time_bits R others mb text_at stale kputs) (mkStation k h r) (λ _ s', ∃ h' bs' ps,
    s' = mkStation k h' r ∧ malloc_parts 6 (mkStation k h r) = Ok (ps, s') ∧ length ps = 6%nat ∧
    blocks h' bs' ∧ dom bs' = dom bs ∪ list_to_set (filter (.≠ RT_NULL) ps) ∧
    size bs' = (size bs + length (filter (.≠ RT_NULL) ps))%nat).
Proof.
  intros Hu Hb Hk Hc Hmb He. unfold changeTime. apply wp_bind.
  destruct (malloc_parts_spec 6 k h r bs Hu Hb) as (ps & h1 & bs1 & E & Hl & Hb1 & Hd & Hs).
  eapply wp_eq; [exact E|]. apply wp_bind, wp_st_kernel. eapply wp_eq; [by apply (mb_recv_empty k mb x)|].
  by exists h1, bs1, ps.
Qed.

(** ** Concrete instances *)

(** A station with the clock at [clock_addr], started at tick 0 on 1 January 2018,
    and the mailbox with one mail. *)
Definition clock_addr : addr := 0x20000900.
Definition heap_guard : addr := 0x20000800.
Definition a_clock : rt_device := mkDevice (mkObject [114; 116; 99; 0; 0; 0; 0; 0] 137 0) RT_DEVICE_FLAG_RDWR 0 0 0 0.
Definition guard_sem : rt_semaphore := mkSemaphore (an_object RT_Object_Class_Semaphore 0) 1.
Definition clock_box (n : Z) : rt_mailbox := a_mailbox [0x20000a00; 0; 0] n 0.
Definition clock_kernel (n : Z) : kernel :=
  (scene_with (QSuspend 1) {[heap_guard := guard_sem]} ∅ ∅ {[O_mb := clock_box n]} ∅)
    <| devices := {[clock_addr := a_clock]} |>
    <| object_lists := {[RT_Object_Class_Device := [Obj clock_addr]]} |>.
Definition a_rtc : rtc := mkRtc 0 1514764800 true RT_NULL 0.
#[local] Instance clock_ops : AllocOps station := lock_alloc heap_guard.
#[local] Instance clock_contract : AllocSpec station :=
  lock_alloc_contract heap_guard 0x20001000 0x20001800 ltac:(by vm_compute; intros []) ltac:(done).
Definition six_parts : list addr :=
  match malloc_parts 6 (mkStation (clock_kernel 0) taken_heap a_rtc) with Ok (ps, _) => ps | Err _ => [] end.
Definition no_driver (dev : addr) : device_methods station unit := mkMethods None None None None None None.

Ltac device_there := split; [by_check|by apply (running_ok _ (a_thread RT_THREAD_RUNNING 10 RT_EOK))|done|done|by eexists|done|by repeat constructor|done].
Lemma clock_is_ready n : clock_ready clock_addr (clock_kernel n) a_rtc.
Proof. split; [device_there|by left]. Qed.
Lemma clock_later t : rtc_device clock_addr ((clock_kernel 0) <| rt_tick := t |>).
Proof. device_there. Qed.
Definition birthday : Calendar.date := mkDate 2022 5 15.
Lemma clock_set_and_shown_witness :
  wp (changeTime 32 clock_addr no_driver O_mb (λ _, 84 :: face birthday 66600) (λ _, []) (λ _, mret tt))
    (mkStation (clock_kernel 1) demo_heap a_rtc) (λ _ s', ∃ k' h' r', s' = mkStation k' h' r' ∧
      wp (getStrTime 32 clock_addr no_driver (replicate 20 0)) (mkStation ((clock_kernel 0) <| rt_tick := 4600 |>) h' r') (λ text _,
        text = face birthday 66603 ++ [0])).
Proof.
  eapply wp_mono; [eapply (clock_set_and_shown 32 clock_addr no_driver _ O_mb _ _ (clock_box 1) 0x20000a00 [] 84 birthday 66600)|].
  - done.
  - apply clock_is_ready.
  - by_evaluation.
  - split; [done|by_evaluation|done].
  - done.
  - by_evaluation.
  - constructor; [done|done|done|by left|]; by constructor.
  - done.
  - done.
  - vm_compute. reflexivity.
  - done.
  - by repeat constructor.
  - intros _ s' (k' & r' & -> & Hshow). eexists _, _, _. split; [reflexivity|].
    eapply wp_mono; [apply (Hshow ((clock_kernel 0) <| rt_tick := 4600 |>) _ 3600 (replicate 20 0))|].
    + apply clock_later.
    + by vm_compute.
    + lia.
    + by vm_compute.
    + by vm_compute.
    + by vm_compute.
    + done.
    + intros text s' [-> _]. by vm_compute.
Defined.
Lemma clock_falls_back_witness :
  wp (time 32 clock_addr no_driver) (mkStation ((clock_kernel 0) <| rt_tick := 4294967295 |>) demo_heap a_rtc) (λ now s', ∃ k1 h1 r1,
    s' = mkStation k1 h1 r1 ∧
    wp (time 32 clock_addr no_driver) (mkStation ((clock_kernel 0) <| rt_tick := 0 |>) h1 r1) (λ later _, later = now - 4294967)).
Proof.
  eapply wp_mono; [apply (clock_falls_back 32 clock_addr no_driver)|].
  - done.
  - split; [apply clock_later|by left].
  - by vm_compute.
  - done.
  - by vm_compute.
  - intros now s' (k1 & r1 & -> & Et & H). exists k1, demo_heap, r1. split; [done|]. apply H; [apply clock_later|by rewrite Et].
Defined.

(** Two blocks are in use before the call, eight after it. *)
Lemma changeTime_leaks_witness :
  wp (changeTime 32 clock_addr no_driver O_mb (λ _, []) (λ _, []) (λ _, mret tt)) (mkStation (clock_kernel 0) taken_heap a_rtc)
    (λ _ s', ∃ h' bs', s' = mkStation (clock_kernel 0) h' a_rtc ∧ blocks h' bs' ∧ 0x20001010 ∈ dom bs' ∧ size bs' = 8%nat).
Proof.
  eapply wp_mono; [apply (changeTime_leaks 32 clock_addr no_driver _ O_mb _ _ (clock_box 0) (clock_kernel 0) taken_heap a_rtc
    (in_use taken_heap taken_blocks))|].
  - exists guard_sem. constructor; [|done|done]. constructor; [done|done|done|by left| |done].
    simpl. unfold RT_SEM_VALUE_MAX, RT_UINT16_MAX. lia.
  - split; [by vm_compute|]. split; [by vm_compute|]. exists taken_blocks. split; [apply taken_rep|done].
  - by_check.
  - by apply (running_ok _ (a_thread RT_THREAD_RUNNING 10 RT_EOK)).
  - constructor; [done|done|done|by left|]; by constructor.
  - done.
  - intros _ s' (h' & bs' & ps & -> & E & _ & Hb & Hd & Hs). exists h', bs'. split; [done|]. split; [done|].
    assert (ps = six_parts) as -> by (unfold six_parts; by rewrite E). rewrite Hd, Hs.
    split; [|by vm_compute]. apply elem_of_union_l, elem_of_dom. by_evaluation.
Defined.
