(* ===== verification/Console.v ===== *)
(** * The console ([src/kservice.c], [rt_kprintf], [rt_kputs], [rt_console_set_device])

    The device the kernel prints on, and the buffer it formats its messages
    in.  The board's [rt_hw_console_output], for messages before there is a
    console device, is the weak one of kservice.c, which does nothing. *)
From S2P Require Import Prelude Strings Format Kernel Scheduler Object Timer Thread Ipc Decide Scenario Scheduling Registry Semaphore Heap Allocator HeapLock MemPool Device Serial.

Definition RT_CONSOLEBUF_SIZE : Z := 256.
Definition RT_DEVICE_OFLAG_RDWR : Z := 0x003.

(** The static variables [_console_device] and [rt_log_buf], and the machine. *)
Record console (U : Type) := mkConsole { _console_device : addr; rt_log_buf : list Z; con_machine : machine U }.
Arguments mkConsole {U}.
Arguments _console_device {U} c.
Arguments rt_log_buf {U} c.
Arguments con_machine {U} c.
#[global] Instance eta_console U : EtaRecord (console U) := λ c, mkConsole (_console_device c) (rt_log_buf c) (con_machine c).
#[global] Instance console_part_machine U : Part (console U) (machine U) :=
  MkPart _ _ con_machine (λ m c, c <| con_machine := m |>).

Section Console.
Context {U : Type} `{!UartOps U} (heap_sem : addr).
(** The address of [rt_log_buf]. *)
Context (log_at : addr).

Definition rt_console_get_device : M (console U) addr := gets _console_device.

(** The old device, or null; an answer that names anything but a device is the
    registry's fault. *)
Definition rt_console_set_device (name : list Z) : M (console U) addr :=
  old_device ← gets _console_device;
  found ← zoom (zoom (rt_device_find (Some name)) : M (machine U) _);
  new_device ← of_option FBadPointer (match found with None => Some RT_NULL | Some (Obj dev) => Some dev | Some _ => None end);
  if decide (new_device = old_device) then mret RT_NULL
  else
    (if decide (new_device ≠ RT_NULL) then
       (if decide (old_device ≠ RT_NULL) then zoom (rt_device_close (board heap_sem) old_device);; mret tt else mret tt);;
       zoom (rt_device_open (board heap_sem) new_device (Z.lor RT_DEVICE_OFLAG_RDWR RT_DEVICE_FLAG_STREAM));;
       modify (λ c, c <| _console_device := new_device |>)
     else mret tt);;
    mret old_device.

(** The write in stream mode: the flags of the device are set for its duration. *)
Definition console_write (dev : addr) (data : list Z) : M (machine U) unit :=
  d ← zoom (get_dev dev);
  let old_flag := open_flag d in
  zoom (upd_dev dev (λ d, d <| open_flag := Z.lor (open_flag d) RT_DEVICE_FLAG_STREAM |>));;
  rt_device_write (board heap_sem) dev 0 data;;
  zoom (upd_dev dev (λ d, d <| open_flag := old_flag |>)).

(** [str] is the string with its terminating zero, or null. *)
Definition rt_kputs (str : option (list Z)) : M (console U) unit :=
  match str with
  | None => mret tt
  | Some str =>
      dev ← gets _console_device;
      if decide (dev = RT_NULL) then mret tt
      else
        l ← lift_outcome (rt_strlen 0 str);
        zoom (console_write dev (take (Z.to_nat l.1) str))
  end.

Definition rt_kprintf (fmt : list Z) (args : list va) : M (console U) unit :=
  c ← gets id;
  r ← lift_outcome (rt_vsnprintf log_at (RT_CONSOLEBUF_SIZE - 1) fmt args (rt_log_buf c));
  modify (λ c, c <| rt_log_buf := r.2 |>);;
  let length := u32 r.1 in
  let length := if decide (RT_CONSOLEBUF_SIZE - 1 < length) then RT_CONSOLEBUF_SIZE - 1 else length in
  dev ← gets _console_device;
  if decide (dev = RT_NULL) then mret tt
  else zoom (console_write dev (take (Z.to_nat length) r.2)).
End Console.

(** ** What reaches the line *)
Definition crlf (data : list Z) : list Z := c ← data; if decide (c = 10) then [13; c] else [c].

Section Printing.
Context {U : Type} `{UartSpec U} (heap_sem log_at : addr).
Implicit Types (m : machine U) (d : rt_device).

Definition streaming d : rt_device := d <| open_flag := Z.lor (open_flag d) RT_DEVICE_FLAG_STREAM |>.
Lemma streaming_flag d f : Z.land RT_DEVICE_FLAG_STREAM f = 0 → Z.land (open_flag (streaming d)) f = Z.land (open_flag d) f.
Proof. intros E. unfold streaming. simpl. by rewrite Z.land_lor_distr_l, E, Z.lor_0_r. Qed.
Lemma streaming_stream d : has_flag (open_flag (streaming d)) RT_DEVICE_FLAG_STREAM.
Proof.
  unfold streaming. simpl. intros E. apply (f_equal (λ z, Z.testbit z 6)) in E.
  rewrite Z.land_spec, Z.lor_spec in E. change (Z.testbit RT_DEVICE_FLAG_STREAM 6) with true in E.
  by rewrite orb_true_r in E.
Qed.
Lemma streaming_line d data : line_bytes (streaming d) data = crlf data.
Proof.
  unfold line_bytes, crlf. apply list_bind_ext; [|done]. intros c. apply decide_ext.
  pose proof (streaming_stream d). tauto.
Qed.

(** The same port with other mode flags that make no difference to it. *)
Lemma port_inv_flags m d d' dev c q bs ss :
  port_inv d dev c m q bs ss →
  (∀ f, Z.land RT_DEVICE_FLAG_STREAM f = 0 → Z.land (open_flag d') f = Z.land (open_flag d) f) →
  port_inv d' dev c (m <| m_kernel := set_dev dev d' (m_kernel m) |>) q bs ss.
Proof.
  intros [[Hn (d0 & Hd0 & Hrx & Htx & Hdma) Hport] Hd] Hf. rewrite Hd in Hd0. injection Hd0 as <-.
  split; [|apply set_dev_lookup]. split; [done| |done].
  exists d'. split; [apply set_dev_lookup|]. by rewrite !Hf.
Qed.
Lemma upd_dev_eq m dev d f :
  devices (m_kernel m) !! dev = Some d →
  zoom (upd_dev dev f) m = Ok (tt, m <| m_kernel := set_dev dev (f d) (m_kernel m) |>).
Proof. destruct m as [k p h]. apply upd_dev_mk. Qed.

Lemma console_write_spec m dev d c q bs ss data :
  port_inv d dev c m q bs ss → in_use d →
  ∃ m', console_write heap_sem dev data m = Ok (tt, m') ∧ port_inv d dev c m' q bs (ss ++ crlf data).
Proof.
  intros Hi Hu. pose proof (proj2 Hi) as Hd.
  set (m1 := m <| m_kernel := set_dev dev (streaming d) (m_kernel m) |>).
  assert (port_inv (streaming d) dev c m1 q bs ss) as Hi1 by (apply (port_inv_flags m d); [done|apply streaming_flag]).
  destruct (device_write_spec heap_sem m1 dev (streaming d) c q bs ss 0 data Hi1) as (m2 & E2 & Hi2 & _).
  { split; apply Hu. }
  exists (m2 <| m_kernel := set_dev dev d (m_kernel m2) |>). split.
  - apply wp_exact. unfold console_write. wp_steps. eapply wp_eq; [by apply get_dev_eq|]. wp_steps.
    eapply wp_eq; [by apply upd_dev_eq|]. wp_steps. eapply wp_eq; [exact E2|]. cbv beta.
    eapply wp_eq; [apply upd_dev_eq, Hi2|]. split; [done|]. by destruct d.
  - rewrite streaming_line in Hi2. apply (port_inv_flags m2 (streaming d)); [done|].
    intros f Hf. symmetry. by apply streaming_flag.
Qed.

(** What [rt_kprintf] makes of a message. *)
Definition printed (T : list Z) : list Z := if decide (zlen T ≤ 254) then T else take 254 T ++ [0].
Lemma printed_buffer (T log : list Z) :
  zlen log = RT_CONSOLEBUF_SIZE →
  let n := Z.to_nat (Z.min (zlen T) 254) in
  take (Z.to_nat (if decide (255 < zlen T) then 255 else zlen T)) (take n T ++ 0 :: drop (S n) log) = printed T.
Proof.
  intros Hl n. unfold printed, zlen, RT_CONSOLEBUF_SIZE in *. destruct (decide (Z.of_nat (length T) ≤ 254)) as [Hle|Hgt].
  - rewrite decide_False by lia. assert (n = length T) as -> by (unfold n; lia).
    rewrite Nat2Z.id, (take_ge T (length T)) by lia. by rewrite take_app_length.
  - assert (n = 254%nat) as -> by (unfold n; lia).
    assert (Z.to_nat (if decide (255 < Z.of_nat (length T)) then 255 else Z.of_nat (length T)) = 255%nat) as -> by (case_decide; lia).
    rewrite take_app_ge by (rewrite length_take; lia). rewrite length_take, Nat.min_l by lia. done.
Qed.
End Printing.

(** [rt_kprintf] sends a message of at most 254 characters to the console
    as it is formatted, with a carriage return before each line feed, and
    leaves the mode of the device as it was.  Of a longer message it sends the
    first 254 characters and then the zero that ends the buffer. *)
Theorem kprintf_line {U} `{UartSpec U} heap_sem log_at (c : console U) dev d cfg q bs ss ps :
  Forall piece_ok ps → zlen (rt_log_buf c) = RT_CONSOLEBUF_SIZE → 0 ≤ log_at → log_at + 255 < 2 ^ 32 →
  _console_device c = dev → port_inv d dev cfg (con_machine c) q bs ss → in_use d →
  let T := concat (text <$> ps) in zlen T < 2 ^ 31 →
  wp (rt_kprintf heap_sem log_at (concat (syntax <$> ps) ++ [0]) (concat (arguments <$> ps))) c (λ _ c',
    port_inv d dev cfg (con_machine c') q bs (ss ++ crlf (printed T)) ∧
    _console_device c' = dev ∧ zlen (rt_log_buf c') = RT_CONSOLEBUF_SIZE).
Proof.
  intros Hok Hlog Hat Hend Hdev Hi Hu T HT. unfold rt_kprintf.
  pose proof (snprintf_correct ps log_at (RT_CONSOLEBUF_SIZE - 1) (rt_log_buf c) Hok Hat) as E. fold T in E.
  rewrite Hlog in E. specialize (E ltac:(done) ltac:(change (RT_CONSOLEBUF_SIZE - 1) with 255; lia) HT).
  rewrite decide_False in E by done.
  change (RT_CONSOLEBUF_SIZE - 1) with 255 in E |- *. change (255 - 1) with 254 in E. cbv zeta in E.
  set (n := Z.to_nat (Z.min (zlen T) 254)) in E.
  wp_steps. cbn [fst snd]. simpl. rewrite Hdev.
  rewrite decide_False by apply (proj1 Hi).
  assert (u32 (zlen T) = zlen T) as -> by (apply wrapU_small; unfold zlen in *; lia).
  unfold n. rewrite (printed_buffer T (rt_log_buf c) Hlog).
  destruct (console_write_spec heap_sem (con_machine c) dev d cfg q bs ss (printed T) Hi Hu) as (m' & Ew & Hi').
  apply wp_zoom. eapply wp_eq; [exact Ew|]. split; [done|]. split; [done|]. simpl.
  unfold zlen, RT_CONSOLEBUF_SIZE in *. rewrite length_app. simpl. rewrite length_drop, length_take. lia.
Qed.

(** ** A concrete instance *)
Definition fresh_console : console pipe := mkConsole D_uart (replicate 256 0) port_machine.
(** [%d] and a line feed: the minus sign, three digits, a return and a feed. *)
Lemma kprintf_line_witness :
  wp (rt_kprintf O_sem 0x20005000 [37; 100; 10; 0] [VInt (-120)]) fresh_console (λ _ c',
    port_inv open_device D_uart small_config (con_machine c') [] [] [45; 49; 50; 48; 13; 10] ∧
    _console_device c' = D_uart ∧ zlen (rt_log_buf c') = RT_CONSOLEBUF_SIZE).
Proof.
  apply (kprintf_line O_sem 0x20005000 fresh_console D_uart open_device small_config [] [] []
    [PNumber (mkStyle false false false false) None None Signed (-120); PLit 10]).
  - by_evaluation.
  - done.
  - done.
  - done.
  - done.
  - split; [split; [done| |]|done].
    + by exists open_device.
    + eexists _, _, None, (mkPipe [] [] None). split; [done|]. split; [by apply fifo_fresh|done].
  - done.
  - by vm_compute.
Defined.
