(* ===== verification/Syn6288.v ===== *)
(** * The speech synthesiser ([applications/syn6288.c])

    Frames for the SYN6288 chip and the serial port they go out on. *)
From S2P Require Import Prelude Kernel Scheduler Object Timer Thread Ipc Decide Scenario Scheduling Registry Semaphore Heap Allocator HeapLock MemPool Device Serial.

Definition SYN_StopCom : list Z := [0xFD; 0x00; 0x02; 0x02; 0xFD].
Definition SYN_SuspendCom : list Z := [0xFD; 0x00; 0x02; 0x03; 0xFC].
Definition SYN_RecoverCom : list Z := [0xFD; 0x00; 0x02; 0x04; 0xFB].
Definition SYN_ChackCom : list Z := [0xFD; 0x00; 0x02; 0x21; 0xDE].
Definition SYN_PowerDownCom : list Z := [0xFD; 0x00; 0x02; 0x88; 0x77].

(** ** Frames *)

(** [for (i...) ecc = ecc ^ arr[i]], [n] rounds from [i] on. *)
Fixpoint ecc_loop (n : nat) (i : Z) (arr : list Z) (ecc : Z) : outcome Z :=
  match n with
  | O => Ok ecc
  | S n =>
      match array_get arr i with
      | Ok b => ecc_loop n (i + 1) arr (u8 (Z.lxor ecc b))
      | Err e => Err e
      end
  end.

(** [Frame_Info[i] = v] on the local array. *)
Definition frame_set (i v : Z) : M (list Z) unit :=
  f ← gets id;
  f ← lift_outcome (array_set f i (u8 v));
  modify (λ _, f).

(** [SYN_FrameInfo] up to the write: the bytes it hands to the device.  The
    state is the array [Frame_Info] of 50 bytes; [HZdata] is the text with its
    terminating zero. *)
Definition SYN_frame (Music : Z) (HZdata : list Z) (len : Z) : M (list Z) (list Z) :=
  let HZ_Length := u8 len in
  frame_set 0 0xFD;;
  frame_set 1 0x00;;
  frame_set 2 (HZ_Length + 3);;
  frame_set 3 0x01;;
  frame_set 4 (Z.lor 0x01 (Z.shiftl Music 4));;
  f ← gets id;
  ecc ← lift_outcome (ecc_loop 5 0 f 0);
  ecc ← lift_outcome (ecc_loop (Z.to_nat HZ_Length) 0 HZdata ecc);
  f ← gets id;
  f ← lift_outcome (memcpy f 5 HZdata 0 HZ_Length);
  modify (λ _, f);;
  frame_set (5 + HZ_Length) ecc;;
  f ← gets id;
  mret (take (Z.to_nat (5 + HZ_Length + 1)) f).

(** [strlen] *)
Fixpoint strlen (s : list Z) : outcome Z :=
  match s with
  | [] => Err FBounds
  | c :: s =>
      if decide (c = 0) then Ok 0
      else match strlen s with Ok n => Ok (n + 1) | Err e => Err e end
  end.

Section Chip.
Context {U : Type} `{!UartOps U} (heap_sem : addr).

(** The call with its local array [Frame_Info], as the stack left it. *)
Definition SYN_FrameInfo (SYN6288_serial : addr) (Music : Z) (HZdata Frame_Info : list Z) : M (machine U) Z :=
  len ← lift_outcome (strlen HZdata);
  r ← lift_outcome (SYN_frame Music HZdata len Frame_Info);
  rt_device_write (board heap_sem) SYN6288_serial 0 r.1.
Definition YS_SYN_Set (SYN6288_serial : addr) (Info_data : list Z) (length : Z) : M (machine U) Z :=
  data ← lift_outcome (if decide (0 ≤ length ≤ zlen Info_data) then Ok (take (Z.to_nat length) Info_data) else Err FBounds);
  rt_device_write (board heap_sem) SYN6288_serial 0 data.

Definition syn6288_input (syn_rx_sem : addr) (dev : addr) (size : Z) : M (machine U) Z :=
  zoom (rt_sem_release syn_rx_sem);; mret RT_EOK.

(** ** Setting up the port: [SYN6288_init] without the thread it creates *)
Definition SYN6288_UART : list Z := [117; 97; 114; 116; 50].
Definition syn_rx_sem_name : list Z := [115; 121; 110; 95; 114; 120; 95; 115; 101; 109].

Definition syn_port_init (syn_rx_sem input : addr) : M (machine U) (option addr) :=
  found ← zoom (rt_device_find (Some SYN6288_UART));
  match found with
  | Some (Obj dev) =>
      let config := RT_SERIAL_CONFIG_DEFAULT <| baud_rate := BAUD_RATE_9600 |> <| bufsz := 128 |> in
      rt_device_control (board heap_sem) dev RT_DEVICE_CTRL_CONFIG (ArgConfig config);;
      zoom (rt_sem_init syn_rx_sem syn_rx_sem_name 0 RT_IPC_FLAG_FIFO);;
      rt_device_open (board heap_sem) dev RT_DEVICE_FLAG_INT_RX;;
      zoom (rt_device_set_rx_indicate dev input);;
      mret (Some dev)
  | _ => mret None
  end.

(** One round of [SYN6288_thread_entry]: the byte it prints, after waiting for
    it; [fuel] bounds the reads that find nothing although the semaphore was
    taken. *)
Fixpoint syn_read_byte (fuel : nat) (dev syn_rx_sem : addr) : M (machine U) (call Z addr) :=
  match fuel with
  | O => fail FFuel
  | Datatypes.S fuel =>
      data ← rt_device_read (board heap_sem) dev (-1) 1;
      match data with
      | [ch] => mret (Return ch)
      | _ =>
          r ← zoom (rt_sem_take syn_rx_sem RT_WAITING_FOREVER);
          match r with
          | Return _ => syn_read_byte fuel dev syn_rx_sem
          | Park thread => mret (Park thread)
          end
      end
  end.
End Chip.

(** ** What the chip expects *)

(** The data sheet's frame: [FD], the length of the rest as two bytes, the
    command, its parameter, the text, and the exclusive or of all of these. *)
Definition xor_all (bs : list Z) : Z := foldl Z.lxor 0 bs.
Definition parse_frame (f : list Z) : option (Z * list Z) :=
  match f with
  | 0xFD :: hi :: lo :: 1 :: param :: rest =>
      if decide (hi * 256 + lo = zlen rest + 2 ∧ xor_all f = 0 ∧ Z.land param 15 = 1)
      then Some (Z.shiftr param 4, take (length rest - 1) rest) else None
  | _ => None
  end.

(** ** Building a frame *)
Lemma lxor_byte a b : byte a → byte b → byte (Z.lxor a b).
Proof.
  intros Ha Hb. assert (Z.lxor a b = u8 (Z.lxor a b)) as ->; [|apply u8_range].
  transitivity (Z.land (Z.lxor a b) 0xff); [|exact (Z.land_ones _ 8 ltac:(done))].
  assert (Z.land (Z.lxor a b) 0xff = Z.lxor (Z.land a 0xff) (Z.land b 0xff)) as ->; [|by rewrite !land_byte].
  apply Z.bits_inj'. intros n _. rewrite Z.lxor_spec, !Z.land_spec, Z.lxor_spec.
  by destruct (Z.testbit a n), (Z.testbit b n), (Z.testbit 0xff n).
Qed.
Lemma foldl_byte l e : Forall (λ c, byte c) l → byte e → byte (foldl Z.lxor e l).
Proof. intros Hl. revert e. induction Hl; intros e He; simpl; [done|]. apply IHHl. by apply lxor_byte. Qed.

Lemma ecc_loop_spec l : ∀ l1 l2 e,
  Forall (λ c, byte c) l → byte e →
  ecc_loop (length l) (zlen l1) (l1 ++ l ++ l2) e = Ok (foldl Z.lxor e l).
Proof.
  induction l as [|b l IH]; intros l1 l2 e Hl He; simpl; [done|].
  apply Forall_cons in Hl as [Hb Hl]. unfold array_get at 1. rewrite decide_True by (unfold zlen; lia).
  unfold zlen at 1. rewrite Nat2Z.id, list_lookup_middle by done.
  rewrite u8_byte by by apply lxor_byte.
  pose proof (IH (l1 ++ [b]) l2 (Z.lxor e b) Hl (lxor_byte _ _ He Hb)) as E.
  rewrite <-app_assoc in E. unfold zlen in E |- *. rewrite length_app in E. simpl in E.
  rewrite Nat2Z.inj_add in E. exact E.
Qed.

Lemma frame_set_ok i v f : 0 ≤ i < zlen f → frame_set i v f = Ok (tt, <[Z.to_nat i := u8 v]> f).
Proof.
  intros Hi. apply wp_exact. unfold frame_set. wp_steps. eapply wp_lift_outcome.
  { unfold array_set. by rewrite decide_True. }
  by wp_steps.
Qed.
Lemma frame_set_err i v f : zlen f ≤ i → frame_set i v f = Err FBounds.
Proof.
  intros Hi. unfold frame_set, mbind, M_bind, gets. unfold array_set, id. rewrite decide_False by lia. done.
Qed.

(** The bytes before the check byte. *)
Definition frame_head (Music n : Z) : list Z := [0xFD; 0; u8 (n + 3); 1; u8 (Z.lor 1 (Z.shiftl Music 4))].
Lemma frame_head_bytes Music n : Forall (λ c, byte c) (frame_head Music n).
Proof.
  unfold frame_head. repeat constructor; try done; apply u8_range.
Qed.
(** The array after its first five stores. *)
Lemma header_run {A} Music n f (rest : M (list Z) A) :
  zlen f = 50 →
  (frame_set 0 0xFD;; frame_set 1 0x00;; frame_set 2 (n + 3);; frame_set 3 0x01;;
   frame_set 4 (Z.lor 0x01 (Z.shiftl Music 4));; rest) f = rest (frame_head Music n ++ drop 5 f).
Proof.
  intros Hf. do 5 (destruct f as [|? f]; [done|]). unfold zlen in Hf. simpl in Hf.
  do 5 (erewrite bind_ok; [|apply frame_set_ok; unfold zlen; simpl; rewrite ?length_insert; simpl; lia]).
  done.
Qed.

Lemma take_insert_end (l : list Z) x y r : take (length l + 1) (<[length l := y]> (l ++ x :: r)) = l ++ [y].
Proof. induction l as [|a l IH]; simpl; [done|]. by rewrite IH. Qed.

Section Frame.
Context (Music : Z) (cs tail f : list Z).
Context (Hcs : Forall (λ c, 1 ≤ c < 256) cs) (Hf : zlen f = 50).

Lemma text_bytes : Forall (λ c, byte c) cs.
Proof. eapply Forall_impl; [exact Hcs|]. simpl. intros; lia. Qed.
(** The part of the text that [HZ_Length] covers. *)
Definition sent_text : list Z := take (Z.to_nat (u8 (zlen cs))) cs.
Lemma sent_length : zlen sent_text = u8 (zlen cs).
Proof.
  unfold sent_text, zlen. rewrite length_take. pose proof (u8_range (zlen cs)).
  assert (u8 (zlen cs) ≤ zlen cs) by (apply Z.mod_le; unfold zlen; lia). unfold zlen in *. lia.
Qed.

Definition ecc_of : Z := foldl Z.lxor (foldl Z.lxor 0 (frame_head Music (u8 (zlen cs)))) sent_text.
Lemma ecc_byte : byte ecc_of.
Proof.
  unfold ecc_of. apply foldl_byte; [apply Forall_take, text_bytes|]. apply foldl_byte; [apply frame_head_bytes|done].
Qed.

Lemma SYN_frame_prefix {A} (k : Z → M (list Z) A) :
  (frame_set 0 0xFD;; frame_set 1 0x00;; frame_set 2 (u8 (zlen cs) + 3);; frame_set 3 0x01;;
   frame_set 4 (Z.lor 0x01 (Z.shiftl Music 4));;
   f ← gets id;
   ecc ← lift_outcome (ecc_loop 5 0 f 0);
   ecc ← lift_outcome (ecc_loop (Z.to_nat (u8 (zlen cs))) 0 (cs ++ 0 :: tail) ecc);
   k ecc) f = k ecc_of (frame_head Music (u8 (zlen cs)) ++ drop 5 f).
Proof.
  rewrite header_run by done. erewrite bind_ok by reflexivity. unfold id at 1.
  erewrite bind_ok; [|apply lift_ok;
    exact (ecc_loop_spec (frame_head Music (u8 (zlen cs))) [] (drop 5 f) 0 (frame_head_bytes _ _) ltac:(done))].
  erewrite bind_ok; [reflexivity|]. apply lift_ok.
  pose proof (ecc_loop_spec sent_text [] (drop (Z.to_nat (u8 (zlen cs))) cs ++ 0 :: tail)
    (foldl Z.lxor 0 (frame_head Music (u8 (zlen cs)))) (Forall_take _ _ _ text_bytes)
    (foldl_byte _ _ (frame_head_bytes _ _) ltac:(done))) as E.
  rewrite app_assoc in E. unfold sent_text at 2 in E. rewrite app_assoc in E. simpl in E. rewrite take_drop in E.
  replace (Z.to_nat (u8 (zlen cs))) with (length sent_text); [exact E|].
  pose proof sent_length as Hl. unfold zlen in Hl at 1. lia.
Qed.

Definition frame_of : list Z := frame_head Music (u8 (zlen cs)) ++ sent_text ++ [ecc_of].

Lemma sent_sub : subseq (cs ++ 0 :: tail) 0 (Z.to_nat (u8 (zlen cs))) = sent_text.
Proof.
  unfold subseq, sent_text. rewrite drop_0, take_app_le; [done|].
  pose proof sent_length as Hl. unfold sent_text, zlen in *. rewrite length_take in Hl. lia.
Qed.
Lemma SYN_frame_spec :
  (u8 (zlen cs) ≤ 44 → ∃ f', SYN_frame Music (cs ++ 0 :: tail) (zlen cs) f = Ok (frame_of, f')) ∧
  (44 < u8 (zlen cs) → SYN_frame Music (cs ++ 0 :: tail) (zlen cs) f = Err FBounds).
Proof.
  pose proof sent_length as Hl. pose proof (u8_range (zlen cs)) as Hr.
  unfold SYN_frame. cbv zeta. rewrite !SYN_frame_prefix.
  set (f1 := frame_head Music (u8 (zlen cs)) ++ drop 5 f).
  assert (zlen f1 = 50) as Hf1.
  { unfold f1, zlen in *. rewrite length_app, length_drop. simpl. lia. }
  assert (u8 (zlen cs) ≤ zlen (cs ++ 0 :: tail)) as Hle.
  { assert (u8 (zlen cs) ≤ zlen cs) by (apply Z.mod_le; unfold zlen; lia).
    unfold zlen in *. rewrite length_app. simpl. lia. }
  rewrite (bind_ok _ _ f1 f1 f1) by done.
  destruct (decide (5 + u8 (zlen cs) ≤ 50)) as [Hfit|Hbig].
  - erewrite bind_ok; [|apply lift_ok; unfold memcpy; rewrite decide_True by lia; reflexivity].
    change (Z.to_nat 0) with 0%nat. change (Z.to_nat 5) with 5%nat. rewrite sent_sub.
    set (f2 := splice f1 5 sent_text).
    assert (f2 = frame_head Music (u8 (zlen cs)) ++ sent_text ++ drop (5 + length sent_text) f1) as Ef2.
    { done. }
    assert (zlen f2 = 50) as Hf2.
    { unfold f2, zlen in *. rewrite length_splice; lia. }
    erewrite bind_ok by reflexivity. split; intros H44.
    + erewrite bind_ok; [|apply frame_set_ok; lia]. erewrite bind_ok by reflexivity.
      eexists. apply (f_equal Ok), (f_equal (λ x, (x, _))). unfold id, frame_of.
      rewrite Ef2, app_assoc. rewrite (u8_byte ecc_of) by apply ecc_byte.
      assert (length (frame_head Music (u8 (zlen cs)) ++ sent_text) = Z.to_nat (5 + u8 (zlen cs))) as El.
      { rewrite length_app. unfold zlen in *. simpl. lia. }
      assert (∃ x r, drop (5 + length sent_text) f1 = x :: r) as (x & r & ->).
      { destruct (drop (5 + length sent_text) f1) eqn:E; [|by eexists _, _].
        apply (f_equal length) in E. rewrite length_drop in E. change (length []) with 0%nat in E. unfold zlen in *. lia. }
      replace (Z.to_nat (5 + u8 (zlen cs) + 1)) with (length (frame_head Music (u8 (zlen cs)) ++ sent_text) + 1)%nat by lia.
      by rewrite <-El, take_insert_end, <-app_assoc.
    + apply bind_err, frame_set_err. lia.
  - split; [lia|]. intros _. apply bind_err, lift_err. unfold memcpy. by rewrite decide_False by lia.
Qed.
End Frame.

(** ** The chip reads the frame back *)
Lemma music_param Music : 0 ≤ Music ≤ 15 →
  Z.land (u8 (Z.lor 1 (Z.shiftl Music 4))) 15 = 1 ∧ Z.shiftr (u8 (Z.lor 1 (Z.shiftl Music 4))) 4 = Music.
Proof.
  intros Hm. replace Music with (Z.of_nat (Z.to_nat Music)) by lia.
  assert (Z.to_nat Music < 16)%nat as Hn by lia. revert Hn. generalize (Z.to_nat Music) as n. intros n Hn.
  do 16 (destruct n as [|n]; [by vm_compute|]). lia.
Qed.

Lemma parse_frame_of Music cs :
  Forall (λ c, 1 ≤ c < 256) cs → zlen cs ≤ 44 → 0 ≤ Music ≤ 15 →
  parse_frame (frame_of Music cs) = Some (Music, cs).
Proof.
  intros Hcs Hl Hm. assert (0 ≤ zlen cs) as H0 by (unfold zlen; lia).
  assert (u8 (zlen cs) = zlen cs) as E8 by (apply u8_byte; lia).
  assert (sent_text cs = cs) as Ec.
  { unfold sent_text. rewrite E8. apply take_ge. unfold zlen. lia. }
  destruct (music_param Music Hm) as [M1 M2].
  unfold frame_of. rewrite Ec, E8. unfold parse_frame, frame_head. simpl app. cbv iota.
  rewrite decide_True.
  - rewrite M2. rewrite length_app. simpl. rewrite Nat.add_sub. by rewrite take_app_length.
  - split; [|split; [|done]].
    + rewrite u8_byte by lia. unfold zlen. rewrite length_app. simpl. lia.
    + unfold xor_all, ecc_of. rewrite Ec, E8. unfold frame_head.
      change (?a :: ?b :: ?c :: ?d :: ?e :: cs ++ [?x]) with ([a; b; c; d; e] ++ cs ++ [x]).
      rewrite !foldl_app. simpl. by rewrite Z.lxor_nilpotent.
Qed.

Lemma line_bytes_raw d data : Z.land (open_flag d) RT_DEVICE_FLAG_STREAM = 0 → line_bytes d data = data.
Proof.
  intros Hs. unfold line_bytes. induction data as [|c data IH]; [done|]. simpl.
  rewrite decide_False by (rewrite Hs; by intros [_ []]). simpl. f_equal. exact IH.
Qed.
Lemma strlen_text cs tail : Forall (λ c, 1 ≤ c < 256) cs → strlen (cs ++ 0 :: tail) = Ok (zlen cs).
Proof.
  intros Hcs. induction Hcs as [|c cs Hc Hcs IH]; [done|]. simpl. rewrite decide_False by lia. rewrite IH.
  f_equal. unfold zlen. simpl. lia.
Qed.

Section Speaking.
Context {U : Type} `{UartSpec U} (heap_sem dev : addr) (d : rt_device) (c : serial_configure).
Context (Hu : in_use d) (Hraw : Z.land (open_flag d) RT_DEVICE_FLAG_STREAM = 0).

Lemma SYN_FrameInfo_run (m : machine U) q bs ss Music cs F :
  port_inv d dev c m q bs ss → Forall (λ c, 1 ≤ c < 256) cs → zlen F = 50 → u8 (zlen cs) ≤ 44 →
  wp (SYN_FrameInfo heap_sem dev Music (cs ++ [0]) F) m
    (λ n m', n = zlen (frame_of Music cs) ∧ port_inv d dev c m' q bs (ss ++ frame_of Music cs)).
Proof.
  intros Hi Hcs HF Hl. unfold SYN_FrameInfo. wp_steps.
  eapply wp_lift_outcome; [by apply strlen_text|]. wp_steps.
  destruct (SYN_frame_spec Music cs [] F Hcs HF) as [Hok _]. destruct (Hok Hl) as (f' & E).
  eapply wp_lift_outcome; [exact E|]. simpl.
  destruct (device_write_spec heap_sem m dev d c q bs ss 0 (frame_of Music cs) Hi Hu) as (m' & Ew & Hi' & _).
  eapply wp_eq; [exact Ew|]. split; [done|]. by rewrite line_bytes_raw in Hi'.
Qed.
End Speaking.

(** C19: what [SYN_FrameInfo] puts on the line is a frame the chip accepts: for
    a text of at most 44 bytes and one of the sixteen background tunes, the
    bytes sent after those already sent parse, length field and check byte
    included, back to that tune and that text. *)
Theorem syn_frame_sent {U} `{UartSpec U} heap_sem dev d c (m : machine U) q bs ss Music cs F :
  port_inv d dev c m q bs ss → in_use d → Z.land (open_flag d) RT_DEVICE_FLAG_STREAM = 0 →
  Forall (λ c, 1 ≤ c < 256) cs → zlen cs ≤ 44 → 0 ≤ Music ≤ 15 → zlen F = 50 →
  wp (SYN_FrameInfo heap_sem dev Music (cs ++ [0]) F) m (λ n m', ∃ frame,
    n = zlen frame ∧ port_inv d dev c m' q bs (ss ++ frame) ∧ parse_frame frame = Some (Music, cs)).
Proof.
  intros Hi Hu Hraw Hcs Hl Hm HF.
  assert (u8 (zlen cs) = zlen cs) as E8 by (apply u8_byte; unfold zlen in *; lia).
  eapply wp_mono; [apply (SYN_FrameInfo_run heap_sem dev d c Hu Hraw m q bs ss Music cs F); try done; lia|].
  intros n m' [-> Hi']. exists (frame_of Music cs). split; [done|]. split; [done|]. by apply parse_frame_of.
Qed.

(** the length of the text is kept in eight bits and the frame in an array
    of 50 bytes.  Of a text of [n] bytes the first [n mod 256] are sent, if
    these are at most 44; otherwise the function writes behind the array. *)
Theorem syn_frame_bounds {U} `{UartSpec U} heap_sem dev d c (m : machine U) q bs ss Music cs F :
  port_inv d dev c m q bs ss → in_use d → Z.land (open_flag d) RT_DEVICE_FLAG_STREAM = 0 →
  Forall (λ c, 1 ≤ c < 256) cs → zlen F = 50 →
  if decide (zlen cs mod 256 ≤ 44)
  then wp (SYN_FrameInfo heap_sem dev Music (cs ++ [0]) F) m (λ n m', ∃ check,
         let frame := frame_head Music (zlen cs mod 256) ++ take (Z.to_nat (zlen cs mod 256)) cs ++ [check] in
         n = zlen frame ∧ port_inv d dev c m' q bs (ss ++ frame))
  else SYN_FrameInfo heap_sem dev Music (cs ++ [0]) F m = Err FBounds.
Proof.
  intros Hi Hu Hraw Hcs HF. change (zlen cs mod 256) with (u8 (zlen cs)). case_decide as Hl.
  - eapply wp_mono; [by apply (SYN_FrameInfo_run heap_sem dev d c Hu Hraw m q bs ss Music cs F)|].
    intros n m' [-> Hi']. exists (ecc_of Music cs). done.
  - unfold SYN_FrameInfo. erewrite bind_ok; [|apply lift_ok; by apply strlen_text].
    destruct (SYN_frame_spec Music cs [] F Hcs HF) as [_ Herr]. apply bind_err, lift_err, Herr. lia.
Qed.

(** ** Concrete instances *)
Definition raw_device : rt_device := a_device 0x513 0x108 1.
Definition syn_config : serial_configure :=
  RT_SERIAL_CONFIG_DEFAULT <| baud_rate := BAUD_RATE_9600 |> <| bufsz := 128 |>.
Definition syn_machine : machine pipe :=
  mkMachine (set_dev D_uart raw_device scene)
    {[ D_uart := mkSerial syn_config (Some (0x20003100, empty_fifo syn_config)) None (mkPipe [] [] (Some syn_config)) ]}
    demo_heap.
Lemma syn_machine_inv : port_inv raw_device D_uart syn_config syn_machine [] [] [].
Proof.
  split; [split; [done| |]|done].
  - by exists raw_device.
  - eexists _, _, None, (mkPipe [] [] _). split; [done|]. split; [by apply fifo_fresh|done].
Qed.

Lemma syn_frame_sent_witness :
  wp (SYN_FrameInfo O_sem D_uart 2 [0xC4; 0xE3; 0xBA; 0xC3; 0] (replicate 50 0xAA)) syn_machine (λ n m', ∃ frame,
    n = zlen frame ∧ port_inv raw_device D_uart syn_config m' [] [] frame ∧
    parse_frame frame = Some (2, [0xC4; 0xE3; 0xBA; 0xC3])).
Proof.
  apply (syn_frame_sent O_sem D_uart raw_device syn_config syn_machine [] [] [] 2 [0xC4; 0xE3; 0xBA; 0xC3]);
    [exact syn_machine_inv|done|done|by repeat constructor|done|done|done].
Defined.
Lemma syn_frame_bounds_witness :
  SYN_FrameInfo O_sem D_uart 0 (replicate 45 65 ++ [0]) (replicate 50 0) syn_machine = Err FBounds.
Proof.
  pose proof (syn_frame_bounds O_sem D_uart raw_device syn_config syn_machine [] [] [] 0 (replicate 45 65)
    (replicate 50 0) syn_machine_inv ltac:(done) ltac:(done) ltac:(by apply Forall_replicate) ltac:(done)) as Hb.
  rewrite decide_False in Hb by (intros Hc; by vm_compute in Hc). exact Hb.
Defined.
