(* ===== verification/Startup.v ===== *)
(** * From reset to the first thread ([src/components.c])

    [rtthread_startup] and what it calls in timer.c, idle.c and scheduler.c: the
    main, timer and idle threads are made and the best of them gets the
    processor; and the hooks of the idle thread.  The theorem says that the kernel then is in a state from which
    Concurrency shows that it runs. *)
From S2P Require Import Prelude Kernel Scheduler Object Timer Thread Clock Ipc Decide Scenario Scheduling Registry Semaphore Mailbox Concurrency Heap Allocator HeapLock Device Format Dynamic Lifecycle Ownership Reaper.

(** ** Configuration ([rtconfig.h]) and names *)
Definition RT_MAIN_THREAD_STACK_SIZE : Z := 2048.
Definition RT_MAIN_THREAD_PRIORITY : Z := 10.
Definition RT_TIMER_THREAD_STACK_SIZE : Z := 512.
Definition RT_TIMER_THREAD_PRIO : Z := 4.
Definition IDLE_THREAD_STACK_SIZE : Z := 256.
(** "main", "timer", "tidle%d" *)
Definition main_name : list Z := [109; 97; 105; 110].
Definition timer_name : list Z := [116; 105; 109; 101; 114].
Definition tidle_format : list Z := [116; 105; 100; 108; 101; 37; 100; 0].

Section Start.
Context {S : Type} `{!AllocOps S, Part S kernel, Part S pool_table}.
(** The static thread [idle], the two static stacks, the code of the threads. *)
Context (idle idle_stack timer_thread_stack : addr) (main_thread_entry rt_thread_timer_entry rt_thread_idle_entry : addr).
(** What the board and the linker provide: setting up the hardware and the heap,
    printing the banner, the table of initialisation functions. *)
Context (rt_hw_board_init rt_show_version : M S unit).

Definition rt_application_init : M S unit :=
  tid ← rt_thread_create main_name main_thread_entry RT_NULL RT_MAIN_THREAD_STACK_SIZE RT_MAIN_THREAD_PRIORITY 20;
  RT_ASSERT (tid ≠ RT_NULL);;
  zoom (rt_thread_startup tid);;
  mret tt.

Definition rt_system_timer_thread_init : M kernel unit :=
  set_tqueue QSoftTimer [];;
  t ← gets timer_thread;
  rt_thread_init t timer_name rt_thread_timer_entry RT_NULL timer_thread_stack RT_TIMER_THREAD_STACK_SIZE RT_TIMER_THREAD_PRIO 10;;
  rt_thread_startup t;;
  mret tt.

(** There is one processor: one turn of the loop. *)
Definition rt_thread_idle_init : M kernel unit :=
  '(n, tidle_name) ← lift_outcome (rt_sprintf 0 tidle_format [VInt 0] (replicate 8 0));
  rt_thread_init idle (take (Z.to_nat n) tidle_name) rt_thread_idle_entry RT_NULL idle_stack IDLE_THREAD_STACK_SIZE
    (RT_THREAD_PRIORITY_MAX - 1) 32;;
  rt_thread_startup idle;;
  mret tt.

Definition rtthread_startup : M S Z :=
  zoom rt_hw_interrupt_disable;;
  rt_hw_board_init;;
  rt_show_version;;
  zoom rt_system_timer_init;;
  zoom rt_system_scheduler_init;;
  rt_application_init;;
  zoom rt_system_timer_thread_init;;
  zoom rt_thread_idle_init;;
  zoom rt_system_scheduler_start;;
  mret 0.

(** The main thread: every function of the table in turn, and then [main]. *)
Fixpoint rt_components_init (table : list (M S Z)) : M S unit :=
  match table with
  | [] => mret tt
  | fn :: table => fn;; rt_components_init table
  end.
Definition main_thread (table : list (M S Z)) (main : M S Z) : M S unit :=
  rt_components_init table;; main;; mret tt.
End Start.

(** ** The idle thread and its hooks ([idle.c])

    [idle_hook_list] has four cells, null where they are free. *)
Definition RT_IDLE_HOOK_LIST_SIZE : nat := 4.
Fixpoint replace_first (old new : addr) (l : list addr) : option (list addr) :=
  match l with
  | [] => None
  | h :: l => if decide (h = old) then Some (new :: l) else (h ::.) <$> replace_first old new l
  end.
Definition rt_thread_idle_sethook (hook : addr) : M (list addr) Z :=
  idle_hook_list ← gets id;
  match replace_first RT_NULL hook idle_hook_list with
  | Some l => modify (λ _, l);; mret RT_EOK
  | None => mret (- RT_EFULL)
  end.
Definition rt_thread_idle_delhook (hook : addr) : M (list addr) Z :=
  idle_hook_list ← gets id;
  match replace_first hook RT_NULL idle_hook_list with
  | Some l => modify (λ _, l);; mret RT_EOK
  | None => mret (- RT_ENOSYS)
  end.

Section Idle.
Context {S : Type} `{!AllocOps S, Part S kernel, Part S pool_table, Part S (list addr)}.
(** Running the code at an address. *)
Context (call_hook : addr → M S unit).
Fixpoint run_hooks (l : list addr) : M S unit :=
  match l with
  | [] => mret tt
  | h :: l => when (h ≠ RT_NULL) (call_hook h);; run_hooks l
  end.
(** A round of [rt_thread_idle_entry]. *)
Definition rt_thread_idle_entry : M S unit :=
  idle_hook_list ← zoom (gets (id : list addr → list addr));
  run_hooks idle_hook_list;;
  rt_thread_idle_excute.
End Idle.

Lemma replace_first_back a b l l' : replace_first a b l = Some l' → b ∉ l → replace_first b a l' = Some l.
Proof.
  revert l'. induction l as [|h l IH]; intros l' E Hout; [done|]. apply not_elem_of_cons in Hout as [Hh Hout]. simpl in E. case_decide as Hd.
  - injection E as <-. simpl. by rewrite decide_True, Hd.
  - destruct (replace_first a b l) as [l1|]; [|done]. injection E as <-. simpl. rewrite decide_False by done. by rewrite (IH l1).
Qed.
Lemma replace_first_full a b l : replace_first a b l = None ↔ a ∉ l.
Proof.
  induction l as [|h l IH]; simpl; [split; [intros _; apply not_elem_of_nil|done]|]. rewrite not_elem_of_cons. case_decide as Hd; [naive_solver|].
  rewrite fmap_None, IH. naive_solver.
Qed.
(** A hook that is new finds a free cell or the list is full; taking it out again
    leaves the list as it was. *)
Lemma idle_hook_balance hook l : hook ≠ RT_NULL → hook ∉ l →
  wp (rt_thread_idle_sethook hook) l (λ r l', (r = - RT_EFULL ∧ l' = l ∧ RT_NULL ∉ l) ∨
    (r = RT_EOK ∧ hook ∈ l' ∧ length l' = length l ∧ rt_thread_idle_delhook hook l' = Ok (RT_EOK, l))).
Proof.
  intros Hn Hout. unfold rt_thread_idle_sethook. apply wp_bind, wp_gets. unfold id. destruct (replace_first _ _ _) as [l'|] eqn:E.
  - right. pose proof (replace_first_back _ _ _ _ E Hout) as Eb. split; [done|]. split; [|split].
    + destruct (decide (hook ∈ l')) as [|Hno]; [done|]. apply (replace_first_full hook RT_NULL) in Hno. congruence.
    + clear Hn Hout Eb. revert l' E. induction l as [|h l IH]; intros l' E; [done|]. simpl in E. case_decide; [by injection E as <-|].
      destruct (replace_first _ _ _) as [l1|]; [|done]. injection E as <-. simpl. by rewrite (IH l1).
    + unfold rt_thread_idle_delhook. erewrite bind_ok by reflexivity. unfold id. by rewrite Eb.
  - left. by apply replace_first_full in E.
Qed.

(** ** Before the first thread

    Nothing runs and nothing waits, so the kernel calls do not switch. *)
Record starting (k : kernel) : Prop := {
  sg_inv : kernel_inv k;
  sg_none : rt_current_thread k = RT_NULL;
  sg_lock : rt_scheduler_lock_nest k = 0;
  sg_quiet : ∀ q, waiting q → queue k q = [];
  sg_idle : ∀ q, tqueue k q = []
}.

(** The memory of a thread that was not started: no list has it. *)
Record unborn (t : addr) (th : rt_thread) (tm : rt_timer) (k : kernel) : Prop := {
  ub_thread : threads k !! t = Some th;
  ub_stat : stat_of th = RT_THREAD_INIT;
  ub_timer : timers k !! ThreadTimer t = Some tm;
  ub_out : ThreadTimer t ∉ object_list k RT_Object_Class_Timer
}.

Lemma init_not_live th : stat_of th = RT_THREAD_INIT → ¬ Scheduler.live th.
Proof. unfold Scheduler.live. by intros ->; intros [?|[?|?]]. Qed.
Lemma unborn_out t th tm k : starting k → unborn t th tm k → ∀ q, t ∉ queue k q.
Proof.
  intros Hk Hu q Hin. destruct (queued_stat _ _ _ _ _ _ _ (ki_sched _ (sg_inv _ Hk)) Hin) as (_ & th' & Ht & Hs).
  rewrite (ub_thread _ _ _ _ Hu) in Ht. injection Ht as <-. rewrite (ub_stat _ _ _ _ Hu) in Hs. by destruct q; naive_solver.
Qed.
Lemma unborn_not_null t th tm k : starting k → unborn t th tm k → t ≠ RT_NULL.
Proof. intros Hk Hu. by eapply live_not_null; [apply Hk|apply Hu]. Qed.

Lemma enter_exit_none k :
  rt_current_thread k = RT_NULL → rt_scheduler_lock_nest k = 0 →
  rt_enter_critical k = Ok (tt, k <| rt_scheduler_lock_nest := 1 |>) ∧
  rt_exit_critical (k <| rt_scheduler_lock_nest := 1 |>) = Ok (tt, k).
Proof.
  intros Hn Hl. split; apply wp_exact; [unfold rt_enter_critical|unfold rt_exit_critical]; ksteps; unfold id; ksimpl.
  - split; [done|]. rewrite Hl. by destruct k.
  - rewrite decide_True by done. ksteps. apply wp_when; [by intros []|]. intros _. destruct k; simpl in *. by rewrite Hl.
Qed.
Lemma starting_object_init r type name o k :
  rt_current_thread k = RT_NULL → rt_scheduler_lock_nest k = 0 →
  rt_object_get_information type = Some type → object_header k type r = Some o → r ∉ object_list k type →
  rt_object_init r type name k =
    Ok (tt, (set_header type r (mkObject (object_name name) (u8 (Z.lor type RT_Object_Class_Static)) (obj_flag o)) k)
              <| object_lists := <[type := r :: object_list k type]> (object_lists k) |>).
Proof.
  intros Hn Hl Hcls Ho Hnew. destruct (enter_exit_none k Hn Hl) as [E1 E2].
  apply wp_exact. unfold rt_object_init. ksteps; [by rewrite Hcls|].
  ksteps. eapply wp_eq; [exact E1|]. ksteps. eapply wp_eq; [exact E2|]. ksteps.
  eapply wp_eq; [by apply upd_header_set|]. ksteps. split; [done|]. unfold object_list, id. ksimpl. rewrite lists_header.
  by destruct (set_header _ _ _ _).
Qed.

(** What [_rt_thread_init] makes of the struct at [t] and of its timer. *)
Definition thread_set (e p stack size priority tick : Z) (th : rt_thread) : rt_thread :=
  mkThread (th_parent th) (rt_hw_stack_init (u32 (stack + size - 4))) e p stack (u32 size) 35 RT_EOK RT_THREAD_INIT
    (u8 priority) (u8 priority) 0 (event_set th) (event_info th) (u32 tick) (u32 tick) 0 0.
Definition new_timer (t : addr) (name : list Z) : rt_timer :=
  mkTimer (mkObject (object_name name) (RT_Object_Class_Timer + RT_Object_Class_Static) 0) Fn_rt_thread_timeout t 0 0.
Definition prepared (t : addr) (th : rt_thread) (k : kernel) : kernel :=
  k <| threads := <[t := th]> (threads k) |>
    <| timers := <[ThreadTimer t := new_timer t (obj_name (th_parent th))]> (timers k) |>
    <| object_lists := <[RT_Object_Class_Timer := ThreadTimer t :: object_list k RT_Object_Class_Timer]> (object_lists k) |>.

Lemma new_timer_ok t name : thread_timer_ok t (new_timer t name) ∧ ¬ active (new_timer t name).
Proof. split; [by constructor|]. by vm_compute. Qed.

Lemma require_unlinked_eq t k : (∀ q, t ∉ queue k q) → require_unlinked t k = Ok (tt, k).
Proof.
  intros Hout. unfold require_unlinked. apply wp_exact. wp_steps. rewrite decide_True; [done|].
  intros q l Hl Hin. apply (Hout q). unfold queue. by rewrite (Hl : queues k !! q = _).
Qed.
Lemma thread_timer_init_eq t name tm k :
  rt_current_thread k = RT_NULL → rt_scheduler_lock_nest k = 0 → (∀ q, tqueue k q = []) →
  timers k !! ThreadTimer t = Some tm → ThreadTimer t ∉ object_list k RT_Object_Class_Timer →
  rt_timer_init (ThreadTimer t) name Fn_rt_thread_timeout t 0 RT_TIMER_FLAG_ONE_SHOT k =
    Ok (tt, k <| timers := <[ThreadTimer t := new_timer t name]> (timers k) |>
              <| object_lists := <[RT_Object_Class_Timer := ThreadTimer t :: object_list k RT_Object_Class_Timer]> (object_lists k) |>).
Proof.
  intros Hn Hl Hq Htm Hout. apply wp_exact. unfold rt_timer_init. ksteps.
  assert (object_header k RT_Object_Class_Timer (ThreadTimer t) = Some (tm_parent tm)) as Ho.
  { unfold object_header. rewrite decide_False, decide_True by done. by rewrite Htm. }
  eapply wp_eq; [by apply (starting_object_init _ _ _ (tm_parent tm))|].
  unfold _rt_timer_init, set_header. rewrite decide_False, decide_True by done. ksteps.
  eapply wp_upd_timer; [ksimpl; rewrite lookup_alter_eq, Htm; reflexivity|]. ksimpl.
  apply wp_require_unlinked_timer; [intros q; ksimpl; unfold tqueue in Hq; rewrite Hq; apply not_elem_of_nil|].
  split; [done|]. assert (∀ x, <[ThreadTimer t := x]> (alter (λ y, y <| tm_parent := mkObject (object_name name)
    (u8 (Z.lor RT_Object_Class_Timer RT_Object_Class_Static)) (obj_flag (tm_parent tm)) |>) (ThreadTimer t) (timers k))
    = <[ThreadTimer t := x]> (timers k)) as E.
  { intros x. apply map_eq. intros r. destruct (decide (r = ThreadTimer t)) as [->|]; [by rewrite !lookup_insert_eq|].
    by rewrite !lookup_insert_ne, lookup_alter_ne by done. }
  rewrite E. by destruct k.
Qed.

Lemma assert_then {S A} (P : Prop) `{Decision P} (f : unit → M S A) s : P → (RT_ASSERT P ≫= f) s = f tt s.
Proof. intros HP. unfold RT_ASSERT. by rewrite decide_True. Qed.
Lemma bind_ok_inv {S A B} (m : M S A) (f : A → M S B) s b s' :
  (m ≫= f) s = Ok (b, s') → ∃ a s1, m s = Ok (a, s1) ∧ f a s1 = Ok (b, s').
Proof. unfold mbind, M_bind. destruct (m s) as [[a s1]|]; [|done]. eauto. Qed.
Lemma upd_thread_set t f th k : threads k !! t = Some th → upd_thread t f k = Ok (tt, k <| threads := <[t := f th]> (threads k) |>).
Proof. intros Ht. apply wp_exact. unfold upd_thread. by ksteps. Qed.
Lemma thread_init_eq t th tm k e p stack size priority tick :
  starting k → unborn t th tm k → u32 size ≠ 0 → priority < RT_THREAD_PRIORITY_MAX →
  _rt_thread_init t e p stack size priority tick k =
    Ok (RT_EOK, prepared t (thread_set e p stack size priority tick th) k).
Proof.
  intros Hk Hu Hsize Hp. pose proof Hu as [Ht Hs Htm Hout]. pose proof Hk as [_ Hn Hl _ Hq].
  unfold _rt_thread_init, rt_list_init_node. rewrite (bind_ok _ _ _ _ _ (require_unlinked_eq t k (unborn_out t th tm k Hk Hu))).
  destruct (decide (u32 size = 0)); [done|].
  lazymatch goal with |- (upd_thread t ?f ≫= _) _ = _ => set (f1 := f) end.
  rewrite (bind_ok _ _ _ _ _ (upd_thread_set t f1 th k Ht)), assert_then by done.
  lazymatch goal with |- (upd_thread t ?f ≫= _) _ = _ => set (f2 := f) end.
  erewrite bind_ok; [|apply upd_thread_set, lookup_insert_eq].
  assert (f2 (f1 th) = thread_set e p stack size priority tick th) as E by (by destruct th).
  rewrite E. clear E. clearbody f1 f2. set (th' := thread_set _ _ _ _ _ _ th).
  set (k1 := _ <| threads := _ |>).
  assert (k1 = k <| threads := <[t := th']> (threads k) |>) as ->.
  { unfold k1. ksimpl. by rewrite insert_insert_eq. }
  set (k1 := k <| threads := _ |>).
  rewrite (bind_ok _ _ k1 th' k1) by (unfold get_thread, k1; apply wp_exact; wp_steps; eapply wp_of_option; [apply lookup_insert_eq|done]).
  rewrite (bind_ok _ _ _ _ _ (thread_timer_init_eq t (obj_name (th_parent th')) tm k1 Hn Hl Hq Htm Hout)). done.
Qed.

Lemma prepared_starting t th tm th' k :
  starting k → unborn t th tm k → stat_of th' = RT_THREAD_INIT → starting (prepared t th' k).
Proof.
  intros Hk Hu Hs. pose proof Hk as [[Hsi Hti] Hn Hl Hq Ht]. constructor; [constructor|done..].
  - apply sched_inv_put; [done|by eapply unborn_not_null|exact (unborn_out t th tm k Hk Hu)|by apply init_not_live].
  - apply timer_inv_put; [done|intros q; unfold tqueue in Ht; rewrite Ht; apply not_elem_of_nil|by apply init_not_live|apply new_timer_ok].
Qed.

(** *** Starting a thread *)
Definition ready_thread (th : rt_thread) : rt_thread :=
  th <| current_priority := init_priority th |> <| number_mask := u32 (Z.shiftl 1 (init_priority th)) |> <| stat := RT_THREAD_READY |>.
Record thread_started (t : addr) (th : rt_thread) (k k' : kernel) : Prop := {
  ts_starting : starting k';
  ts_threads : threads k' = <[t := ready_thread th]> (threads k);
  ts_timers : timers k' = timers k;
  ts_objs : objs_same k k'
}.

Lemma priority_bit p : 0 ≤ p < RT_THREAD_PRIORITY_MAX → u32 (Z.shiftl 1 p) = 2 ^ p.
Proof.
  unfold RT_THREAD_PRIORITY_MAX. intros Hp. rewrite Z.shiftl_1_l. apply Z.mod_small. split; [apply Z.pow_nonneg; lia|].
  apply Z.pow_lt_mono_r; lia.
Qed.
Lemma objs_trans_threads k m k2 : objs_same (k <| threads := m |>) k2 → objs_same k k2.
Proof. intros Ho. unfold objs_same in *. rewrite Ho. by destruct k. Qed.
Record startable (t : addr) (th : rt_thread) (k : kernel) : Prop := {
  sb_thread : threads k !! t = Some th;
  sb_stat : stat_of th = RT_THREAD_INIT;
  sb_type : th_type th = RT_Object_Class_Thread;
  sb_timer : ∃ tm, timers k !! ThreadTimer t = Some tm ∧ thread_timer_ok t tm ∧ ¬ active tm;
  sb_prio : 0 ≤ init_priority th < RT_THREAD_PRIORITY_MAX;
  sb_stack : stack_ok th
}.

Lemma startup_spec t th k :
  starting k → startable t th k → wp (rt_thread_startup t) k (λ r k', r = RT_EOK ∧ thread_started t th k k').
Proof.
  intros Hk [Ht Hs Hty (tm & Htm & Hok & Ha) Hp Hst]. pose proof Hk as [[Hsi Hti] Hn Hl Hq Htq].
  assert (t ≠ RT_NULL) as Ht0 by (intros ->; by rewrite (si_null _ _ _ _ _ Hsi) in Ht).
  assert (∀ q, t ∉ queue k q) as Hout.
  { intros q Hin. destruct (queued_stat _ _ _ _ _ _ _ Hsi Hin) as (_ & th' & Ht' & Hs').
    rewrite Ht in Ht'. injection Ht' as <-. rewrite Hs in Hs'. by destruct q; naive_solver. }
  unfold rt_thread_startup. wp_steps. eapply wp_get_thread; [exact Ht|]. wp_steps. eapply wp_put_thread.
  set (th1 := th <| current_priority := _ |> <| number_mask := _ |> <| stat := _ |>).
  set (k1 := k <| threads := _ |>).
  assert (kernel_inv k1) as H1.
  { constructor; unfold k1; ksimpl.
    - eapply (inv_back _ _ _ _ t th1); [apply inv_update; [by apply inv_out|done]|apply lookup_insert_eq|done| |done].
      intros _. constructor; [exact Hp| |exact Hst|exact Hty].
      by apply priority_bit.
    - eapply ti_thread_change; [done|exact Ht|right; by exists tm|by left]. }
  destruct (resume_eq t th1 k1 H1) as (tm' & Htm' & Hok' & E); [apply lookup_insert_eq|done|].
  change (timers k !! ThreadTimer t = Some tm') in Htm'. rewrite Htm in Htm'. injection Htm' as <-.
  wp_steps. eapply wp_eq; [exact E|]. pose proof (resumed_inv t th1 tm k1 H1 (lookup_insert_eq _ _ _) eq_refl Htm) as H2.
  assert (Timer.has_flag tm RT_TIMER_FLAG_ACTIVATED = false) as Hf by by destruct (Timer.has_flag tm _).
  pose proof (objs_resumed t th1 tm k1) as Ho. set (k2 := resumed t th1 tm k1) in *.
  assert (k2 = made_ready t th1 (k1 <| queues := remove_from_queues t (queues k1) |>)) as Ek2.
  { unfold k2, resumed, inserted, stopped. rewrite Hf. rewrite decide_False; [done|]. ksimpl. unfold k1. ksimpl. by rewrite Hn. }
  assert (rt_current_thread k2 = RT_NULL) as Hn2 by by rewrite Ek2.
  wp_steps. apply wp_bind, wp_when; [by rewrite Hn2; intros []|]. intros _. wp_steps. split; [done|].
  pose proof (objs_trans_threads k _ k2 Ho) as Ho'.
  clearbody k2.
  constructor; [|by rewrite Ek2; unfold made_ready, k1; ksimpl; rewrite insert_insert_eq; destruct th|by rewrite Ek2|exact Ho'].
  constructor; [exact H2|exact Hn2|by rewrite Ek2| |by intros q; rewrite Ek2; apply Htq].
  intros q Hw. rewrite Ek2. unfold made_ready, queue. ksimpl. rewrite qof_insert_ne by (by destruct q).
  rewrite qof_remove. unfold k1. ksimpl. unfold queue in Hq. by rewrite Hq.
Qed.

(** *** Making a thread on the heap *)
Lemma fresh_thread_eq a o k :
  fresh RT_Object_Class_Thread a o k =
    k <| threads := <[a := zero_thread <| th_parent := o |>]> (threads k) |>
      <| timers := <[ThreadTimer a := zero_timer]> (timers k) |>
      <| object_lists := <[RT_Object_Class_Thread := Obj a :: object_list k RT_Object_Class_Thread]> (object_lists k) |>.
Proof.
  unfold fresh, set_header, clear_object. rewrite !decide_True by done. unfold alter_at. ksimpl. by rewrite alter_insert_eq.
Qed.
Lemma fresh_starting a o k : starting k → vacant a k → a ≠ RT_NULL → starting (fresh RT_Object_Class_Thread a o k).
Proof.
  intros Hk Hv%vacant_fields Ha. rewrite fresh_thread_eq. pose proof Hk as [[Hsi Hti] Hn Hl Hq Ht]. constructor; [constructor|done..].
  - apply sched_inv_put; [done|done| |by apply init_not_live]. intros q Hin.
    destruct (queued_stat _ _ _ _ _ _ _ Hsi Hin) as (_ & th & E & _). by rewrite (va_thread _ _ Hv) in E.
  - apply timer_inv_put; [done|intros q; unfold tqueue in Ht; rewrite Ht; apply not_elem_of_nil|by apply init_not_live|by vm_compute].
Qed.
Lemma fresh_unborn a o k : vacant a k →
  unborn a (zero_thread <| th_parent := o |>) zero_timer (fresh RT_Object_Class_Thread a o k).
Proof.
  intros Hv%vacant_fields. rewrite fresh_thread_eq. constructor; [apply lookup_insert_eq|done|apply lookup_insert_eq|].
  unfold object_list. ksimpl. rewrite lookup_insert_ne by done. destruct (object_lists k !! RT_Object_Class_Timer) as [l|] eqn:E.
  - by apply (va_list _ _ Hv _ _ E).
  - apply not_elem_of_nil.
Qed.
Lemma prepared_local t th k : is_Some (object_lists k !! RT_Object_Class_Timer) → local t k (prepared t th k).
Proof.
  intros [l Hl]. unfold local, erase_at, prepared. ksimpl. rewrite delete_insert_eq. f_equal.
  - apply map_eq. intros r. destruct (decide (r = ThreadTimer t)) as [->|]; [by rewrite !lookup_delete_eq|].
    destruct (decide (r = Obj t)) as [->|]; by simplify_map_eq.
  - apply map_eq. intros type. rewrite !remove_objects_lookup. destruct (decide (type = RT_Object_Class_Timer)) as [->|].
    + rewrite lookup_insert_eq, Hl. unfold object_list. rewrite Hl. simpl. f_equal.
      rewrite (filter_cons_True (.≠ Obj t)) by done. by rewrite filter_cons_False by (intros Hx; by apply Hx).
    + by rewrite lookup_insert_ne.
Qed.

Section Create.
Context `{!AllocOps system, !AllocSpec system}.

(** Either there was no memory for the struct or for the stack, and nothing has
    changed, or a thread was made that can be started. *)
Definition out_of_memory (size : Z) : Prop :=
  ∃ n s, (n = object_size RT_Object_Class_Thread ∨ n = u32 size) ∧ alloc n s = Ok (RT_NULL, s).
Definition made (k : kernel) (bs : gmap addr Z) ps name e p size priority tick (t : addr) (s' : system) : Prop :=
  ∃ stack k' h' n m, let o := new_header RT_Object_Class_Thread name in
    k' = prepared t (thread_set e p stack size priority tick (zero_thread <| th_parent := o |>)) (fresh RT_Object_Class_Thread t o k) ∧
    s' = mkSystem k' ps h' ∧ t ≠ RT_NULL ∧ stack ≠ RT_NULL ∧ vacant t k ∧ bs !! t = None ∧ bs !! stack = None ∧ stack ≠ t ∧
    object_size RT_Object_Class_Thread ≤ n ∧ u32 size ≤ m ∧ world k' h' (<[stack := m]> (<[t := n]> bs)).

Lemma thread_class : known_class RT_Object_Class_Thread.
Proof. by vm_compute; left. Qed.
Lemma allocate_case name k ps h bs : world k h bs →
  ∃ t s1, rt_object_allocate RT_Object_Class_Thread name (mkSystem k ps h) = Ok (t, s1) ∧
    ((t = RT_NULL ∧ s1 = mkSystem k ps h ∧ ∃ s, alloc (object_size RT_Object_Class_Thread) s = Ok (RT_NULL, s)) ∨
     (t ≠ RT_NULL ∧ bs !! t = None ∧ vacant t k ∧ ∃ h' n, object_size RT_Object_Class_Thread ≤ n ∧
        let k' := fresh RT_Object_Class_Thread t (new_header RT_Object_Class_Thread name) k in
        s1 = mkSystem k' ps h' ∧ world k' h' (<[t := n]> bs))).
Proof.
  intros Hw. pose proof thread_class as Hc.
  pose proof (allocate_spec RT_Object_Class_Thread name k ps h bs Hw Hc) as (t & s1 & E & Ha)%wp_ok. exists t, s1.
  split; [exact E|]. destruct Ha as [[-> ->]|Ha]; [left|by right]. split; [done|]. split; [done|].
  exists (mkSystem k ps h). revert E. unfold rt_object_allocate.
  rewrite (bind_ok _ _ _ _ _ (not_in_interrupt_eq k ps h (wo_guard _ _ _ Hw))), assert_then by (by vm_compute).
  assert (0 ≤ object_size RT_Object_Class_Thread ≤ 2 ^ 32 - 4) as Hs by (by vm_compute).
  pose proof (alloc_world k ps h bs _ Hw Hs) as (p & s & E & Hp)%wp_ok.
  rewrite (bind_ok _ _ _ _ _ E). destruct Hp as [[-> ->]|(Hp & _ & _ & _ & h' & n & -> & _)]; [done|].
  rewrite decide_False by done. intros E'. repeat (apply bind_ok_inv in E' as (? & ? & _ & E')). injection E' as ->. by destruct Hp.
Qed.

Lemma thread_create_spec name e p size priority tick k ps h bs :
  starting k → world k h bs → u32 size ≠ 0 → u32 size ≤ 2 ^ 32 - 4 → 0 ≤ priority < RT_THREAD_PRIORITY_MAX →
  wp (rt_thread_create name e p size priority tick) (mkSystem k ps h) (λ t s',
    (t = RT_NULL ∧ out_of_memory size ∧ ∃ ps' h', s' = mkSystem k ps' h' ∧ world k h' bs) ∨
    made k bs ps name e p size (u8 priority) (u32 tick) t s').
Proof.
  intros Hk Hw Hsize Hmax Hp.
  assert (0 ≤ u32 size) as Hsize0 by (apply Z.mod_pos_bound; lia).
  pose proof (allocate_case name k ps h bs Hw) as (t & s1 & E1 & Ha). unfold rt_thread_create.
  apply wp_bind. eapply wp_eq; [exact E1|]. destruct Ha as [(-> & -> & Hno)|(Ht & Hbt & Hv & h1 & n & Hn & -> & Hw1)].
  { rewrite decide_True by done. apply wp_ret. left. split; [done|]. split; [|by exists ps, h].
    destruct Hno as [s E]. exists (object_size RT_Object_Class_Thread), s. split; [by left|done]. }
  rewrite decide_False by done. set (o := new_header _ name). set (k1 := fresh _ t o k).
  pose proof (alloc_world k1 ps h1 _ (u32 size) Hw1 (conj Hsize0 Hmax)) as (stack & s2 & E2 & Hst)%wp_ok.
  apply wp_bind. eapply wp_eq; [exact E2|]. destruct Hst as [[-> ->]|(Hst & Hbst & Hvst & _ & h2 & m & -> & Hm & Hw2)].
  - rewrite decide_True by done. apply wp_bind. eapply wp_mono; [eapply (delete_spec RT_Object_Class_Thread t o n k1 ps h1 _ Hw1)|].
    + by apply fresh_houses; [apply thread_class|].
    + exact (header_thread t _ k1 (ub_thread _ _ _ _ (fresh_unborn t o k Hv))).
    + done.
    + apply lookup_insert_eq.
    + intros _ s' (h' & -> & Hw'). apply wp_ret. left. split; [done|]. split; [exists (u32 size), (mkSystem k1 ps h1); split; [by right|done]|].
      assert (erase_at t k1 = k) as Ek.
      { transitivity (erase_at t k); [|exact Hv]. apply fresh_local. apply (wo_lists _ _ _ Hw), thread_class. }
      rewrite Ek in Hw' |- *. rewrite delete_insert_id in Hw' by done. by exists (delete t ps), h'.
  - rewrite decide_False by done. apply wp_bind, wp_kernel.
    pose proof (fresh_starting t o k Hk Hv Ht) as Hk1. pose proof (fresh_unborn t o k Hv) as Hu.
    assert (u8 priority < RT_THREAD_PRIORITY_MAX) as Hp8 by (unfold RT_THREAD_PRIORITY_MAX in *; unfold wrapU; rewrite Z.mod_small; lia).
    eapply wp_eq; [exact (thread_init_eq _ _ _ _ e p stack size (u8 priority) (u32 tick) Hk1 Hu Hsize Hp8)|].
    apply wp_ret. right. apply lookup_insert_None in Hbst as [Hbst Hne].
    exists stack. eexists. exists h2, n, m. split; [reflexivity|]. split; [done|]. split; [done|]. split; [done|].
    split; [done|]. split; [done|]. split; [done|]. split; [done|]. split; [done|]. split; [done|].
    eapply world_local; [exact Hw2| |apply prepared_local, (wo_lists _ _ _ Hw2); by vm_compute; repeat (left || right)].
    exists n. rewrite lookup_insert_ne by done. apply lookup_insert_eq.
Qed.
End Create.

(** *** One thread more *)
Record beside (t : addr) (k k' : kernel) : Prop := {
  be_threads t' : t' ≠ t → threads k' !! t' = threads k !! t';
  be_timers r : r ≠ ThreadTimer t → timers k' !! r = timers k !! r;
  be_lists type r : r ∈ object_list k' type → r = Obj t ∨ r = ThreadTimer t ∨ r ∈ object_list k type;
  be_sems : semaphores k' = semaphores k;
  be_boxes : mailboxes k' = mailboxes k;
  be_nest : rt_interrupt_nest k' = rt_interrupt_nest k;
  be_timer_thread : timer_thread k' = timer_thread k
}.
#[global] Instance beside_preorder t : PreOrder (beside t).
Proof.
  split; [intros k; constructor; auto|]. intros k1 k2 k3 [A1 A2 A3 A4 A5 A6 A7] [B1 B2 B3 B4 B5 B6 B7]. constructor; try congruence.
  - intros t' Ht. by rewrite B1, A1.
  - intros r Hr. by rewrite B2, A2.
  - intros type r [?|[?|Hr]]%B3; auto.
Qed.
Lemma listed_cons type (r r' : ref) (ls : gmap Z (list ref)) type' : r' ∈ default [] (<[type := r :: default [] (ls !! type)]> ls !! type') →
  r' = r ∨ r' ∈ default [] (ls !! type').
Proof.
  destruct (decide (type' = type)) as [->|]; [rewrite lookup_insert_eq|rewrite lookup_insert_ne by done; by right].
  simpl. intros [->|?]%elem_of_cons; auto.
Qed.
Lemma prepared_beside t th k : beside t k (prepared t th k).
Proof.
  constructor; try done; unfold prepared; ksimpl.
  - intros t' Ht. by rewrite lookup_insert_ne.
  - intros r Hr. by rewrite lookup_insert_ne.
  - intros type r. unfold object_list. ksimpl. intros [->|?]%listed_cons; auto.
Qed.
Lemma fresh_beside t o k : beside t k (fresh RT_Object_Class_Thread t o k).
Proof.
  rewrite fresh_thread_eq. constructor; try done; ksimpl.
  - intros t' Ht. by rewrite lookup_insert_ne.
  - intros r Hr. by rewrite lookup_insert_ne.
  - intros type r. unfold object_list. ksimpl. intros [->|?]%listed_cons; auto.
Qed.
Lemma started_beside t th k k' : thread_started t th k k' → beside t k k'.
Proof.
  intros [_ Et Em Ho]. destruct (objs_fields _ _ Ho) as (Es & _ & _ & Eb & _ & _ & _ & _ & En & El & _ & Ett).
  constructor; try done.
  - intros t' Ht. by rewrite Et, lookup_insert_ne.
  - intros r _. by rewrite Em.
  - intros type r. unfold object_list. rewrite El. auto.
Qed.

Record thread_up (t : addr) (priority : Z) (k k' : kernel) : Prop := {
  tu_starting : starting k';
  tu_thread : ∃ th, threads k' !! t = Some th ∧ stat_of th = RT_THREAD_READY ∧ current_priority th = priority;
  tu_beside : beside t k k'
}.
Lemma RT_ALIGN_DOWN_8 z : 0 ≤ z < 2 ^ 32 → RT_ALIGN_DOWN z 8 = 8 * (z / 8).
Proof.
  intros Hz. unfold RT_ALIGN_DOWN. change (notU 32 (8 - 1)) with (2 ^ 32 - 8).
  transitivity (Z.ldiff z (Z.ones 3)).
  - apply Z.bits_inj'. intros n Hn. rewrite Z.land_spec, Z.ldiff_spec. destruct (decide (n < 32)) as [Hs|Hs].
    + f_equal. replace (2 ^ 32 - 8) with (Z.ldiff (Z.ones 32) (Z.ones 3)) by reflexivity.
      by rewrite Z.ldiff_spec, Z.ones_spec_low by lia.
    + rewrite <-(Z.mod_small z (2 ^ 32)) by done. by rewrite Z.mod_pow2_bits_high by lia.
  - rewrite Z.ldiff_ones_r, Z.shiftl_mul_pow2, Z.shiftr_div_pow2 by lia. change (2 ^ 3) with 8. lia.
Qed.
(** The first frame lies inside the stack. *)
Lemma first_frame stack size :
  0 < stack → 128 ≤ size → stack + size < 2 ^ 32 →
  stack < rt_hw_stack_init (u32 (stack + size - 4)) ≤ stack + size.
Proof.
  intros. unfold rt_hw_stack_init, RT_ALIGN_DOWN.
  assert (u32 (stack + size - 4) = stack + size - 4) as -> by (apply Z.mod_small; lia).
  assert (u32 (stack + size - 4 + 4) = stack + size) as -> by (unfold wrapU; rewrite Z.mod_small; lia).
  pose proof (RT_ALIGN_DOWN_8 (stack + size)) as E. unfold RT_ALIGN_DOWN in E. change (8 - 1) with 7 in *. rewrite E by lia.
  pose proof (Z.div_mod (stack + size) 8 ltac:(done)). pose proof (Z.mod_pos_bound (stack + size) 8 ltac:(done)).
  rewrite wrapU_small by lia. lia.
Qed.
Definition in_memory (stack size : Z) : Prop := 0 < stack ∧ 128 ≤ size ∧ stack + size < 2 ^ 32.
Lemma set_startable t th tm e p stack size priority tick k :
  starting k → unborn t th tm k → th_type th = RT_Object_Class_Thread → in_memory stack size → 0 ≤ priority < RT_THREAD_PRIORITY_MAX →
  let th' := thread_set e p stack size priority tick th in startable t th' (prepared t th' k).
Proof.
  intros Hk Hu Hty (H0 & H1 & H2) Hp th'. unfold prepared. constructor.
  - apply lookup_insert_eq.
  - done.
  - exact Hty.
  - exists (new_timer t (obj_name (th_parent th'))). split; [apply lookup_insert_eq|apply new_timer_ok].
  - change (0 ≤ u8 priority < RT_THREAD_PRIORITY_MAX). unfold RT_THREAD_PRIORITY_MAX in *. rewrite wrapU_small; lia.
  - split; [done|]. change (stack < rt_hw_stack_init (u32 (stack + size - 4)) ≤ stack + u32 size).
    rewrite (wrapU_small 32 size) by lia. by apply first_frame.
Qed.
(** What [rt_thread_startup] does to a thread that was just set up. *)
Lemma up_spec t th tm e p stack size priority tick k0 k :
  starting k → unborn t th tm k → th_type th = RT_Object_Class_Thread → in_memory stack size → 0 ≤ priority < RT_THREAD_PRIORITY_MAX →
  beside t k0 k → wp (rt_thread_startup t) (prepared t (thread_set e p stack size priority tick th) k) (λ r k', r = RT_EOK ∧ thread_up t priority k0 k').
Proof.
  intros Hk Hu Hty Hm Hp Hb. pose proof (set_startable t th tm e p stack size priority tick k Hk Hu Hty Hm Hp) as Hs.
  set (th' := thread_set _ _ _ _ _ _ th) in *. assert (stat_of th' = RT_THREAD_INIT) as Hst by done.
  eapply wp_mono; [exact (startup_spec _ _ _ (prepared_starting t th tm th' k Hk Hu Hst) Hs)|].
  intros r k' [-> Ht]. split; [done|]. constructor; [apply Ht| |].
  - exists (ready_thread th'). rewrite (ts_threads _ _ _ _ Ht), lookup_insert_eq.
    split; [done|]. split; [done|]. change (u8 priority = priority). unfold RT_THREAD_PRIORITY_MAX in *. rewrite wrapU_small; lia.
  - transitivity k; [done|]. etransitivity; [apply prepared_beside|]. by eapply started_beside.
Qed.

(** A static thread. *)
Lemma set_thread_header t o th k : threads k !! t = Some th →
  set_header RT_Object_Class_Thread (Obj t) o k = k <| threads := <[t := th <| th_parent := o |>]> (threads k) |>.
Proof.
  intros Ht. unfold set_header. rewrite decide_True by done. unfold alter_at.
  assert (∀ f, alter f t (threads k) = <[t := f th]> (threads k)) as E; [|by rewrite E].
  intros f. apply map_eq. intros t'. destruct (decide (t' = t)) as [->|].
  - by rewrite lookup_alter_eq, lookup_insert_eq, Ht.
  - by rewrite lookup_alter_ne, lookup_insert_ne.
Qed.
Lemma static_up t name th tm e stack size priority tick k :
  starting k → unborn t th tm k → Obj t ∉ object_list k RT_Object_Class_Thread → in_memory stack size →
  0 ≤ priority < RT_THREAD_PRIORITY_MAX →
  wp (rt_thread_init t name e RT_NULL stack size priority tick;; rt_thread_startup t) k (λ r k', r = RT_EOK ∧ thread_up t priority k k').
Proof.
  intros Hk Hu Hout Hm Hp. pose proof Hm as (H0 & H1 & H2). pose proof Hk as [[Hsi Hti] Hn Hl Hq Htq]. pose proof Hu as [Ht Hs Htm Hto].
  set (o := mkObject (object_name name) (u8 (Z.lor RT_Object_Class_Thread RT_Object_Class_Static)) (obj_flag (th_parent th))).
  set (th1 := th <| th_parent := o |>).
  set (k1 := k <| threads := <[t := th1]> (threads k) |>
    <| object_lists := <[RT_Object_Class_Thread := Obj t :: object_list k RT_Object_Class_Thread]> (object_lists k) |>).
  assert (starting k1) as Hk1.
  { constructor; [constructor|done..]; unfold k1; ksimpl.
    - apply sched_inv_put; [done|by eapply unborn_not_null|exact (unborn_out t th tm k Hk Hu)|by apply init_not_live].
    - eapply ti_thread_change; [done|exact Ht|by intros ?%init_not_live|].
      right. unfold tqueue in Htq. rewrite Htq. apply not_elem_of_nil. }
  assert (unborn t th1 tm k1) as Hu1.
  { constructor; [apply lookup_insert_eq|done|done|]. unfold object_list, k1. ksimpl. by rewrite lookup_insert_ne. }
  assert (beside t k k1) as Hb.
  { constructor; try done; unfold k1; ksimpl.
    - intros t' Hne. by rewrite lookup_insert_ne.
    - intros type r. unfold object_list. ksimpl. intros [->|?]%listed_cons; auto. }
  assert (rt_thread_init t name e RT_NULL stack size priority tick k =
    Ok (RT_EOK, prepared t (thread_set e RT_NULL stack size priority tick th1) k1)) as E.
  { unfold rt_thread_init. rewrite assert_then by (by eapply unborn_not_null). rewrite assert_then by (unfold RT_NULL; lia).
    rewrite (bind_ok _ _ _ _ _ (starting_object_init _ RT_Object_Class_Thread name (th_parent th) k Hn Hl eq_refl (header_thread t th k Ht) Hout)).
    fold o. rewrite (set_thread_header t o th k Ht). apply (thread_init_eq _ _ _ _ _ _ _ _ _ _ Hk1 Hu1); [|lia].
    rewrite wrapU_small; lia. }
  apply wp_bind. eapply wp_eq; [exact E|]. by apply (up_spec t th1 tm).
Qed.

(** *** The first thread *)
Record first_thread (k k' : kernel) (t : addr) (th : rt_thread) : Prop := {
  ft_ready : threads k !! t = Some th;
  ft_best : stat_of th = RT_THREAD_READY ∧
    ∀ t' th', threads k !! t' = Some th' → stat_of th' = RT_THREAD_READY → current_priority th ≤ current_priority th';
  ft_threads : threads k' = <[t := th <| stat := RT_THREAD_RUNNING |>]> (threads k);
  ft_current : rt_current_thread k' = t;
  ft_inv : kernel_inv k';
  ft_quiet : ∀ q, waiting q → queue k' q = [];
  ft_idle : ∀ q, tqueue k' q = [];
  ft_objects : semaphores k' = semaphores k ∧ mailboxes k' = mailboxes k ∧ rt_interrupt_nest k' = rt_interrupt_nest k ∧
    rt_scheduler_lock_nest k' = 0 ∧ timers k' = timers k ∧ timer_thread k' = timer_thread k;
  ft_interrupts : primask k' = 0
}.
Lemma ready_listed k t th : kernel_inv k → threads k !! t = Some th → stat_of th = RT_THREAD_READY →
  0 ≤ current_priority th < RT_THREAD_PRIORITY_MAX ∧ t ∈ queue k (QReady (current_priority th)).
Proof.
  intros [Hsi _] Ht Hs. split; [apply (ok_prio _ (si_ok _ _ _ _ _ Hsi t th (λ e, match e with end) Ht (or_introl Hs)))|].
  apply (si_ready _ _ _ _ _ Hsi); [done|]. by exists th.
Qed.
Lemma ready_group k t th : kernel_inv k → threads k !! t = Some th → stat_of th = RT_THREAD_READY → rt_thread_ready_priority_group k ≠ 0.
Proof.
  intros H Ht Hs E. destruct (ready_listed k t th H Ht Hs) as [Hp Hin].
  assert (Z.testbit (rt_thread_ready_priority_group k) (current_priority th) = true) as Hb.
  { apply (si_group _ _ _ _ _ (ki_sched _ H)); [done|]. unfold queue in Hin. intros E'. rewrite E' in Hin. by apply not_elem_of_nil in Hin. }
  rewrite E in Hb. by rewrite Z.bits_0 in Hb.
Qed.
Lemma best_least k t p t' th : kernel_inv k → best_ready k t p → threads k !! t' = Some th → stat_of th = RT_THREAD_READY → p ≤ current_priority th.
Proof.
  intros H (_ & _ & Hempty) Ht Hs. destruct (ready_listed k t' th H Ht Hs) as [Hp Hin].
  destruct (decide (p ≤ current_priority th)); [done|]. rewrite Hempty in Hin by lia. by apply not_elem_of_nil in Hin.
Qed.
Lemma scheduler_start_spec k t0 th0 :
  starting k → threads k !! t0 = Some th0 → stat_of th0 = RT_THREAD_READY →
  wp rt_system_scheduler_start k (λ _ k', ∃ t th, first_thread k k' t th).
Proof.
  intros Hk Ht0 Hs0. pose proof Hk as [[Hsi Hti] Hn Hl Hq Htq].
  pose proof (ready_group k t0 th0 (sg_inv _ Hk) Ht0 Hs0) as Hg.
  destruct (highest_spec None k Hsi Hg) as (t & p & E & Hb). destruct (best_thread None k t p Hsi Hb) as (th & Ht & Hs & Hp & Hnull & Hok).
  unfold rt_system_scheduler_start. apply wp_bind. eapply wp_eq; [exact E|]. cbv beta iota. wp_steps.
  set (k1 := k <| rt_current_thread := t |>).
  eapply wp_eq; [exact (remove_thread_eq t th k1 Hnull Ht)|]. apply wp_bind.
  eapply wp_eq; [exact (upd_thread_set t _ th (removed t th k1) Ht)|]. cbv beta. set (th' := th <| stat := _ |>).
  unfold rt_hw_context_switch_to. apply wp_modify. exists t, th.
  constructor; [done|split; [done|]|done|done|constructor| |done|done|done].
  - intros t' th1 Ht1 Hs1. rewrite Hp. exact (best_least k t p t' th1 (sg_inv _ Hk) Hb Ht1 Hs1).
  - unfold removed, k1. ksimpl. eapply (inv_back _ _ _ _ t th'); [|apply lookup_insert_eq|done| |done].
    + apply inv_update; [|done]. eapply (inv_remove _ _ _ _ None t th); [|by left|exact Ht|apply Hok|apply Hok].
      eapply inv_current; [exact Hsi|]. intros _ th1 Ht1. rewrite Hn in Ht1. by rewrite (si_null _ _ _ _ _ Hsi) in Ht1.
    + intros _. destruct Hok. by constructor.
  - unfold removed, k1. ksimpl. eapply ti_thread_change; [done|exact Ht|intros _; left; by left|].
    right. unfold tqueue in Htq. rewrite Htq. apply not_elem_of_nil.
  - intros q Hw. unfold removed, k1, queue. ksimpl. rewrite qof_remove. unfold queue in Hq. by rewrite Hq.
Qed.

(** ** From reset

    The state that the board leaves: static memory is zero, devices and the heap
    have been set up, and no thread was started. *)
Record booted (k : kernel) : Prop := {
  bt_none : rt_current_thread k = RT_NULL;
  bt_threads t th : threads k !! t = Some th → stat_of th = RT_THREAD_INIT;
  bt_timers r tm : timers k !! r = Some tm → ¬ active tm;
  bt_null : threads k !! RT_NULL = None ∧ timers k !! Obj RT_NULL = None;
  bt_quiet q : waiting q → queue k q = [];
  bt_ready p : ¬ (0 ≤ p < RT_THREAD_PRIORITY_MAX) → queue k (QReady p) = [];
  bt_idle q : q ≠ QTimer → tqueue k q = [];
  bt_sems s x : semaphores k !! s = Some x → sem_ok k s x;
  bt_boxes mb x : mailboxes k !! mb = Some x → mailbox_ok k mb x;
  bt_apart a : is_Some (semaphores k !! a) → mailboxes k !! a = None
}.
(** A static thread and its timer, all zero. *)
Record zeroed (t : addr) (k : kernel) : Prop := {
  zr_thread : threads k !! t = Some zero_thread;
  zr_timer : timers k !! ThreadTimer t = Some zero_timer;
  zr_lists type r : r ∈ object_list k type → r ≠ Obj t ∧ r ≠ ThreadTimer t
}.

Definition head_of (q : qid) : Prop := match q with QReady p => 0 ≤ p < RT_THREAD_PRIORITY_MAX | QDefunct => True | _ => False end.
Lemma priority_table_eq n : ∀ off k, ∃ qs, init_priority_table n off k = Ok (tt, k <| queues := qs |>) ∧
  (∀ p, off ≤ p < off + Z.of_nat n → qs !! QReady p = Some []) ∧
  ∀ q, (∀ p, off ≤ p < off + Z.of_nat n → q ≠ QReady p) → qs !! q = queues k !! q.
Proof.
  induction n as [|n IH]; intros off k.
  - exists (queues k). split; [by destruct k|]. split; [lia|done].
  - destruct (IH (off + 1) (k <| queues := <[QReady off := []]> (queues k) |>)) as (qs & E & Hin & Hout).
    exists qs. split; [by apply wp_exact; apply wp_bind; eapply wp_eq; [reflexivity|]; eapply wp_eq; [exact E|]|]. split.
    + intros p Hp. destruct (decide (p = off)) as [->|]; [|apply Hin; lia].
      rewrite Hout; [ksimpl; apply lookup_insert_eq|]. intros p' Hp' [= ->]. lia.
    + intros q Hq. rewrite Hout by (intros p Hp; apply Hq; lia). ksimpl. rewrite lookup_insert_ne; [done|]. apply not_eq_sym, Hq. lia.
Qed.

Record initialised (k k' : kernel) : Prop := {
  in_starting : starting k';
  in_queues q : ¬ head_of q → queues k' !! q = queues k !! q;
  in_same : threads k' = threads k ∧ timers k' = timers k ∧ object_lists k' = object_lists k ∧ semaphores k' = semaphores k ∧
    mutexes k' = mutexes k ∧ events k' = events k ∧ mailboxes k' = mailboxes k ∧ mqueues k' = mqueues k ∧ mempools k' = mempools k ∧
    devices k' = devices k ∧ rt_interrupt_nest k' = rt_interrupt_nest k ∧ timer_thread k' = timer_thread k
}.
Lemma sched_inv_empty ths qs c :
  (∀ q, qof qs q = []) → (∀ t th, ths !! t = Some th → stat_of th = RT_THREAD_INIT) → ths !! RT_NULL = None → SchedInv None ths qs 0 c.
Proof.
  intros Hq Hs Hn. constructor; try done.
  - intros p _. by rewrite Hq, Z.bits_0.
  - intros t p _. rewrite Hq, elem_of_nil. split; [done|]. intros (th & Ht & E & _). by rewrite (Hs _ _ Ht) in E.
  - intros t q _. by rewrite Hq, elem_of_nil.
  - intros t. by rewrite Hq, elem_of_nil.
  - intros q. rewrite Hq. apply NoDup_nil_2.
  - intros q1 q2 t. by rewrite Hq, elem_of_nil.
  - intros t th _ Ht Hl. by apply (init_not_live _ (Hs _ _ Ht)) in Hl.
  - intros t th _ Ht E. by rewrite (Hs _ _ Ht) in E.
Qed.
Lemma timer_inv_empty ths tms tqs :
  (∀ q, qof tqs q = []) → (∀ t th, ths !! t = Some th → stat_of th = RT_THREAD_INIT) → (∀ r tm, tms !! r = Some tm → ¬ active tm) →
  tms !! Obj RT_NULL = None → TimerInv ths tms tqs.
Proof.
  intros Hq Hs Ha Hn. constructor; try done.
  - intros q. rewrite Hq. apply NoDup_nil_2.
  - intros q1 q2 r. by rewrite Hq, elem_of_nil.
  - intros q r. by rewrite Hq, elem_of_nil.
  - intros q r tm. by rewrite Hq, elem_of_nil.
  - intros r tm Hr Hact. by destruct (Ha r tm Hr).
  - intros t th Ht Hl. by apply (init_not_live _ (Hs _ _ Ht)) in Hl.
  - intros t. by rewrite Hq, elem_of_nil.
  - intros q t tm _. by rewrite Hq, elem_of_nil.
Qed.
Lemma init_lists_spec k : booted k →
  wp (rt_system_timer_init;; rt_system_scheduler_init) k (λ _ k', initialised k k').
Proof.
  intros Hb. unfold rt_system_timer_init, rt_system_scheduler_init, set_tqueue. wp_steps.
  destruct (priority_table_eq 32 0 (k <| timer_queues := <[QTimer := []]> (timer_queues k) |> <| rt_scheduler_lock_nest := 0 |>)) as (qs & E & Hin & Hout).
  eapply wp_eq; [exact E|]. wp_steps. unfold rt_list_init_head, set_queue. wp_steps.
  set (k' := _ <| queues := _ |>).
  assert (∀ q, ¬ head_of q → queues k' !! q = queues k !! q) as Hq.
  { intros q Hh. unfold k'. ksimpl. rewrite lookup_insert_ne by (by intros <-; apply Hh).
    rewrite Hout; [done|]. intros p Hp ->. apply Hh. unfold head_of, RT_THREAD_PRIORITY_MAX. lia. }
  assert (∀ q, queue k' q = []) as Hall.
  { intros q. destruct q as [p| |o|o].
    - destruct (decide (0 ≤ p < RT_THREAD_PRIORITY_MAX)) as [Hp|Hp].
      + unfold queue, k'. ksimpl. rewrite lookup_insert_ne, Hin by (done || unfold RT_THREAD_PRIORITY_MAX in Hp; lia). done.
      + unfold queue. rewrite Hq by done. by apply (bt_ready _ Hb).
    - unfold queue, k'. ksimpl. by rewrite lookup_insert_eq.
    - unfold queue. rewrite Hq by (by intros []). by apply (bt_quiet _ Hb).
    - unfold queue. rewrite Hq by (by intros []). by apply (bt_quiet _ Hb). }
  assert (∀ q, tqueue k' q = []) as Htq.
  { intros q. unfold tqueue, k'. ksimpl. destruct (decide (q = QTimer)) as [->|Hne]; [by rewrite lookup_insert_eq|].
    rewrite lookup_insert_ne by done. by apply (bt_idle _ Hb). }
  constructor; [|exact Hq|done]. constructor; [constructor|apply Hb|done|intros q _; apply Hall|exact Htq].
  - apply sched_inv_empty; [exact Hall|apply Hb|apply Hb].
  - apply timer_inv_empty; [exact Htq|apply Hb|apply Hb|apply Hb].
Qed.

(** *** What carries over *)
Lemma timer_inv_same ths tms tqs tqs' : TimerInv ths tms tqs → (∀ q, qof tqs' q = qof tqs q) → TimerInv ths tms tqs'.
Proof.
  intros [H1 H2 H3 H4 H5 H6 H7 H8 H9] Hq. constructor.
  - intros q. rewrite Hq. apply H1.
  - intros q1 q2 r. rewrite !Hq. apply H2.
  - intros q r. rewrite Hq. apply H3.
  - intros q r tm. rewrite Hq. apply H4.
  - intros r tm Hr Ha. destruct (H5 r tm Hr Ha) as [q Hin]. exists q. by rewrite Hq.
  - exact H6.
  - intros t. rewrite Hq. apply H7.
  - intros q t tm. rewrite Hq. apply H8.
  - exact H9.
Qed.
Lemma soft_list_starting k : starting k →
  let k' := k <| timer_queues := <[QSoftTimer := []]> (timer_queues k) |> in starting k' ∧ ∀ t, beside t k k'.
Proof.
  intros [[Hsi Hti] Hn Hl Hq Ht] k'.
  assert (∀ q, tqueue k' q = []) as Ht'.
  { intros q. unfold tqueue, k'. ksimpl. destruct (decide (q = QSoftTimer)) as [->|]; [by rewrite lookup_insert_eq|].
    rewrite lookup_insert_ne by done. apply Ht. }
  split; [|by intros t; constructor; auto]. constructor; [constructor|done..]; [done|].
  eapply timer_inv_same; [exact Hti|]. intros q. unfold tqueue in *. by rewrite Ht, Ht'.
Qed.
Lemma zeroed_beside t t' k k' : zeroed t k → beside t' k k' → t ≠ t' → zeroed t k'.
Proof.
  intros [H1 H2 H3] [B1 B2 B3 _ _ _ _] Hne. constructor.
  - by rewrite B1.
  - by rewrite B2 by congruence.
  - intros type r [->|[->|Hr]]%B3; [split; congruence..|by apply (H3 type)].
Qed.
Lemma zeroed_unborn t k : zeroed t k → unborn t zero_thread zero_timer k ∧ Obj t ∉ object_list k RT_Object_Class_Thread.
Proof.
  intros [H1 H2 H3]. split; [|by intros [? _]%H3]. constructor; [done|done|done|]. by intros [_ ?]%H3.
Qed.
Lemma initialised_zeroed t k k' : initialised k k' → zeroed t k → zeroed t k'.
Proof.
  intros [_ _ (E1 & E2 & E3 & _)] [H1 H2 H3]. constructor; [by rewrite E1|by rewrite E2|]. intros type r. unfold object_list. rewrite E3. apply H3.
Qed.
Lemma ready_beside t t' k k' (P : rt_thread → Prop) :
  (∃ th, threads k !! t = Some th ∧ P th) → beside t' k k' → t ≠ t' → ∃ th, threads k' !! t = Some th ∧ P th.
Proof. intros (th & Ht & HP) Hb Hne. exists th. by rewrite (be_threads _ _ _ Hb). Qed.

Lemma static_runs t name e stack size priority tick k :
  starting k → zeroed t k → in_memory stack size → 0 ≤ priority < RT_THREAD_PRIORITY_MAX →
  wp (rt_thread_init t name e RT_NULL stack size priority tick;; rt_thread_startup t;; mret tt) k (λ _ k', thread_up t priority k k').
Proof.
  intros Hk [Hu Hout]%zeroed_unborn Hm Hp.
  pose proof (static_up t name _ _ e stack size priority tick k Hk Hu Hout Hm Hp) as (r & k' & E & -> & Hup)%wp_ok.
  apply bind_ok_inv in E as (r1 & k1 & E1 & E2). apply wp_bind. eapply wp_eq; [exact E1|]. apply wp_bind. by eapply wp_eq; [exact E2|].
Qed.
Lemma timer_thread_init_spec stack e k :
  starting k → zeroed (timer_thread k) k → in_memory stack RT_TIMER_THREAD_STACK_SIZE →
  wp (rt_system_timer_thread_init stack e) k (λ _ k', thread_up (timer_thread k) RT_TIMER_THREAD_PRIO k k').
Proof.
  intros Hk Hz Hm. destruct (soft_list_starting k Hk) as [Hk1 Hb]. set (t := timer_thread k) in *.
  unfold rt_system_timer_thread_init, set_tqueue. apply wp_bind, wp_modify, wp_bind, wp_gets. cbv beta. ksimpl. fold t.
  eapply wp_mono; [apply static_runs; [exact Hk1| |exact Hm|done]|].
  - destruct Hz. by constructor.
  - intros _ k' [H1 H2 H3]. constructor; [done|done|]. etransitivity; [apply Hb|exact H3].
Qed.
Lemma idle_init_spec idle stack e k :
  starting k → zeroed idle k → in_memory stack IDLE_THREAD_STACK_SIZE →
  wp (rt_thread_idle_init idle stack e) k (λ _ k', thread_up idle (RT_THREAD_PRIORITY_MAX - 1) k k').
Proof.
  intros Hk Hz Hm. unfold rt_thread_idle_init. apply wp_bind. eapply wp_lift_outcome; [vm_compute; reflexivity|]. cbv beta iota.
  by apply static_runs.
Qed.

Section Main.
Context `{!AllocOps system, !AllocSpec system}.
(** Memory of the heap has addresses of 32 bits. *)
Context (Haddr : ∀ h bs a n, blocks h bs → bs !! a = Some n → 0 < a ∧ a + n < 2 ^ 32).

Lemma initialised_world k k' h bs : initialised k k' → world k h bs → world k' h bs.
Proof.
  intros [_ Hq (E1 & E2 & E3 & E4 & E5 & E6 & E7 & E8 & E9 & E10 & E11 & _)] [Hu Hb Hv Hl]. constructor; [|done| |by rewrite E3].
  - apply (guard_frame k); [done|by rewrite E4| |done]. unfold queue. by rewrite Hq by (by intros []).
  - intros a Ha Hn. destruct (proj1 (vacant_fields a k) (Hv a Ha Hn)). apply vacant_fields.
    constructor; rewrite ?E1, ?E2, ?E3, ?E4, ?E5, ?E6, ?E7, ?E8, ?E9, ?E10; try done; by rewrite Hq by (by intros []).
Qed.

Definition main_made (k : kernel) ps bs (t : addr) (k' : kernel) (s' : system) : Prop :=
  ∃ stack h' n m, s' = mkSystem k' ps h' ∧ vacant t k ∧ bs !! t = None ∧ bs !! stack = None ∧ stack ≠ t ∧
    object_size RT_Object_Class_Thread ≤ n ∧ RT_MAIN_THREAD_STACK_SIZE ≤ m ∧ blocks h' (<[stack := m]> (<[t := n]> bs)).
Lemma application_init_case e k ps h bs :
  starting k → world k h bs →
  (rt_application_init e (mkSystem k ps h) = Err FAssert ∧ out_of_memory RT_MAIN_THREAD_STACK_SIZE) ∨
  ∃ t k' s', rt_application_init e (mkSystem k ps h) = Ok (tt, s') ∧ thread_up t RT_MAIN_THREAD_PRIORITY k k' ∧ main_made k ps bs t k' s'.
Proof.
  intros Hk Hw.
  pose proof (thread_create_spec main_name e RT_NULL RT_MAIN_THREAD_STACK_SIZE RT_MAIN_THREAD_PRIORITY 20 k ps h bs Hk Hw ltac:(done) ltac:(done) ltac:(done))
    as (t & s1 & E & Hc)%wp_ok.
  unfold rt_application_init. rewrite (bind_ok _ _ _ _ _ E). destruct Hc as [(-> & Hno & _)|Hmade].
  { left. split; [done|exact Hno]. }
  right. destruct Hmade as (stack & k1 & h1 & n & m & Hmade). set (o := new_header _ main_name) in Hmade.
  destruct Hmade as (-> & -> & Ht & Hst & Hv & Hbt & Hbs & Hne & Hn & Hm & Hw1).
  rewrite assert_then by done.
  assert (in_memory stack RT_MAIN_THREAD_STACK_SIZE) as Hmem.
  { destruct (Haddr _ _ stack m (wo_blocks _ _ _ Hw1) (lookup_insert_eq _ _ _)). change (u32 RT_MAIN_THREAD_STACK_SIZE) with 2048 in Hm.
    unfold in_memory, RT_MAIN_THREAD_STACK_SIZE. lia. }
  pose proof (up_spec t (zero_thread <| th_parent := o |>) zero_timer e RT_NULL stack RT_MAIN_THREAD_STACK_SIZE RT_MAIN_THREAD_PRIORITY 20 k
    (fresh RT_Object_Class_Thread t o k) (fresh_starting t o k Hk Hv Ht) (fresh_unborn t o k Hv) eq_refl Hmem ltac:(done) (fresh_beside t o k))
    as (r & k' & E' & -> & Hup)%wp_ok.
  exists t, k', (mkSystem k' ps h1). split.
  - erewrite bind_ok; [|unfold zoom; simpl part_get; exact (f_equal (λ x, match x with Ok (r, k) => Ok (r, mkSystem k ps h1) | Err e => Err e end) E')].
    done.
  - split; [exact Hup|]. exists stack, h1, n, m. split; [done|]. split; [done|]. split; [done|]. split; [done|]. split; [done|].
    split; [done|]. split; [exact Hm|]. apply Hw1.
Qed.

(** The processor is with the timer thread, the other two wait for it, and the
    conditions of Concurrency hold. *)
Definition ready_at (k : kernel) (t priority : Z) : Prop :=
  ∃ th, threads k !! t = Some th ∧ stat_of th = RT_THREAD_READY ∧ current_priority th = priority.
Record system_up (idle main : addr) (k : kernel) : Prop := {
  su_world : Concurrency.world_ok (Concurrency.mkWorld k ∅);
  su_timer : ∃ th, running k th ∧ rt_current_thread k = timer_thread k ∧ current_priority th = RT_TIMER_THREAD_PRIO;
  su_main : ready_at k main RT_MAIN_THREAD_PRIORITY;
  su_idle : ready_at k idle (RT_THREAD_PRIORITY_MAX - 1);
  su_only t th : threads k !! t = Some th → stat_of th = RT_THREAD_READY → t = main ∨ t = idle;
  su_soft : tqueue k QSoftTimer = [];
  su_interrupts : primask k = 0
}.

Lemma first_thread_world k0 k k' t th :
  booted k0 → semaphores k = semaphores k0 → mailboxes k = mailboxes k0 → rt_interrupt_nest k = 0 → (∀ q, waiting q → queue k0 q = []) →
  first_thread k k' t th → Concurrency.world_ok (Concurrency.mkWorld k' ∅).
Proof.
  intros Hb Es Em En Hq0 [Ht [Hs Hbest] Ets Ec Hi Hq Htq (Es' & Em' & En' & El & Etm & _) _].
  assert (running k' (th <| stat := RT_THREAD_RUNNING |>)) as Hrun by (split; [by rewrite Ec, Ets, lookup_insert_eq|done]).
  constructor; simpl.
  - constructor; [done|by eapply running_ok|by apply Htq|rewrite (Htq QTimer); split; constructor|rewrite (Htq QTimer); by constructor].
  - by rewrite En'.
  - done.
  - intros th1 t2 th2 H1 H2 Hs2. destruct Hrun as [Hr Hrs]. rewrite Hr in H1. injection H1 as <-. split; [done|].
    rewrite Ets in H2. apply lookup_insert_Some in H2 as [[<- <-]|[Hne H2]]; [by rewrite Hrs in Hs2|]. by apply (Hbest t2 th2).
  - intros s x. rewrite Es', Es. intros Hx. destruct (bt_sems _ Hb s x Hx). constructor; try done; [by rewrite Es', Es|].
    intros _. by apply Hq.
  - intros mb x. rewrite Em', Em. intros Hx. destruct (bt_boxes _ Hb mb x Hx). constructor; try done. by rewrite Em', Em.
  - intros a. rewrite Es', Es, Em', Em. apply (bt_apart _ Hb).
  - intros t1. split; [done|]. intros q Hw. rewrite Hq by done. by intros ?%not_elem_of_nil.
Qed.

Lemma zoom_kernel_ok {A} (m : M kernel A) k ps h a k' : m k = Ok (a, k') → zoom m (mkSystem k ps h) = Ok (a, mkSystem k' ps h).
Proof. intros E. unfold zoom. simpl. by rewrite E. Qed.
Lemma outranked k t th priority limit : ready_at k t priority → threads k !! t = Some th → current_priority th ≤ limit → limit < priority → False.
Proof. intros (th' & Ht' & _ & Hp) Ht Hle Hlt. rewrite Ht in Ht'. injection Ht' as <-. lia. Qed.
(** The three threads, started one after the other, and the choice between them. *)
Lemma three_threads idle idle_stack timer_stack e_timer e_idle main k0 k1 k2 :
  booted k0 → initialised k0 k1 → rt_interrupt_nest k0 = 0 → threads k0 !! main = None →
  zeroed idle k0 → zeroed (timer_thread k0) k0 → idle ≠ timer_thread k0 →
  in_memory idle_stack IDLE_THREAD_STACK_SIZE → in_memory timer_stack RT_TIMER_THREAD_STACK_SIZE →
  thread_up main RT_MAIN_THREAD_PRIORITY k1 k2 →
  wp (rt_system_timer_thread_init timer_stack e_timer;; rt_thread_idle_init idle idle_stack e_idle;; rt_system_scheduler_start) k2
    (λ _ k', system_up idle main k').
Proof.
  intros Hb Hi Hn0 Hmain Hzi Hzt Hne Hmi Hmt Hup. pose proof (in_same _ _ Hi) as (Eth & _ & _ & Es & _ & _ & Eb & _ & _ & _ & En & Ett).
  pose proof (be_timer_thread _ _ _ (tu_beside _ _ _ _ Hup)) as Ett2. set (tt_ := timer_thread k0) in *.
  assert (idle ≠ main) as Him by (intros ->; by rewrite (zr_thread _ _ Hzi) in Hmain).
  assert (tt_ ≠ main) as Htm by (intros E; rewrite <-E in Hmain; by rewrite (zr_thread _ _ Hzt) in Hmain).
  assert (zeroed (timer_thread k2) k2) as Hzt2.
  { rewrite Ett2, Ett. eapply zeroed_beside; [by eapply initialised_zeroed|apply Hup|done]. }
  assert (zeroed idle k2) as Hzi2 by (eapply zeroed_beside; [by eapply initialised_zeroed|apply Hup|done]).
  pose proof (timer_thread_init_spec timer_stack e_timer k2 (tu_starting _ _ _ _ Hup) Hzt2 Hmt) as (u & k3 & E3 & Hup3)%wp_ok.
  apply wp_bind. eapply wp_eq; [exact E3|]. rewrite Ett2, Ett in Hup3.
  assert (zeroed idle k3) as Hzi3 by (eapply zeroed_beside; [exact Hzi2|apply Hup3|done]).
  pose proof (idle_init_spec idle idle_stack e_idle k3 (tu_starting _ _ _ _ Hup3) Hzi3 Hmi) as (u' & k4 & E4 & Hup4)%wp_ok.
  apply wp_bind. eapply wp_eq; [exact E4|].
  pose proof Hup as [_ Hr1 B1]. pose proof Hup3 as [_ Hr3 B3]. pose proof Hup4 as [Hk4 Hri B4].
  pose proof (ready_beside tt_ idle k3 k4 _ Hr3 B4 (not_eq_sym Hne)) as Hrt.
  pose proof (ready_beside main idle k3 k4 _ (ready_beside main tt_ k2 k3 _ Hr1 B3 (not_eq_sym Htm)) B4 (not_eq_sym Him)) as Hrm.
  pose proof Hrt as (tht & Htt & Hst & Hpt).
  eapply wp_mono; [exact (scheduler_start_spec k4 tt_ tht Hk4 Htt Hst)|]. intros _ k' (t & th & Hf).
  assert (∀ t1 th1, threads k4 !! t1 = Some th1 → stat_of th1 = RT_THREAD_READY → t1 = main ∨ t1 = idle ∨ t1 = tt_) as Honly.
  { intros t1 th1 Ht1 Hs1. destruct (decide (t1 = main)); [by left|]. destruct (decide (t1 = idle)); [by right; left|]. right. right.
    destruct (decide (t1 = tt_)); [done|]. rewrite (be_threads _ _ _ B4), (be_threads _ _ _ B3), (be_threads _ _ _ B1), Eth in Ht1 by done.
    by rewrite (bt_threads _ Hb _ _ Ht1) in Hs1. }
  assert (t = tt_) as ->.
  { pose proof (ft_ready _ _ _ _ Hf) as Hth. destruct (ft_best _ _ _ _ Hf) as [Hs Hbest]. pose proof (Hbest _ _ Htt Hst) as Hle.
    rewrite Hpt in Hle. destruct (Honly t th Hth Hs) as [->|[->|?]]; [| |done]; exfalso.
    - by apply (outranked k4 main th RT_MAIN_THREAD_PRIORITY RT_TIMER_THREAD_PRIO Hrm Hth).
    - by apply (outranked k4 idle th (RT_THREAD_PRIORITY_MAX - 1) RT_TIMER_THREAD_PRIO Hri Hth). }
  rewrite (ft_ready _ _ _ _ Hf) in Htt. injection Htt as <-.
  pose proof (ft_threads _ _ _ _ Hf) as Ets. destruct (ft_objects _ _ _ _ Hf) as (_ & _ & _ & _ & _ & Ett').
  assert (∀ t priority, t ≠ tt_ → ready_at k4 t priority → ready_at k' t priority) as Hkeep.
  { intros t priority Htn (th1 & Ht1 & H1). exists th1. by rewrite Ets, lookup_insert_ne. }
  constructor.
  - eapply (first_thread_world k0 k4); [done| | | |apply Hb|exact Hf].
    + by rewrite (be_sems _ _ _ B4), (be_sems _ _ _ B3), (be_sems _ _ _ B1).
    + by rewrite (be_boxes _ _ _ B4), (be_boxes _ _ _ B3), (be_boxes _ _ _ B1).
    + by rewrite (be_nest _ _ _ B4), (be_nest _ _ _ B3), (be_nest _ _ _ B1), En.
  - exists (th <| stat := RT_THREAD_RUNNING |>). split; [split; [by rewrite (ft_current _ _ _ _ Hf), Ets, lookup_insert_eq|done]|].
    split; [|exact Hpt]. by rewrite (ft_current _ _ _ _ Hf), Ett', (be_timer_thread _ _ _ B4), (be_timer_thread _ _ _ B3), Ett2, Ett.
  - apply Hkeep; [by apply not_eq_sym|exact Hrm].
  - apply Hkeep; [done|exact Hri].
  - intros t th1 Ht1 Hs1. rewrite Ets in Ht1. apply lookup_insert_Some in Ht1 as [[<- <-]|[Hnt Ht1]]; [done|].
    destruct (Honly t th1 Ht1 Hs1) as [?|[?|?]]; [by left|by right|by destruct Hnt].
  - apply Hf.
  - apply Hf.
Qed.
End Main.

(** The timer thread finds no timer and suspends itself. *)
Lemma first_round `{!AllocOps system, !AllocSpec system} idle main k : system_up idle main k →
  wp timer_entry_wait k (λ c k', c = Some (Return RT_EOK) ∧ ∃ th, running k' th ∧ rt_current_thread k' = main).
Proof.
  intros [Hw (th & Hr & Ec & Hp) Hm Hi Honly Hsoft _]. destruct Hw as [[H _ _ _ _] _ Hl _ _ _ _ _]. simpl in H, Hl.
  assert (rt_timer_list_next_timeout QSoftTimer k = Ok (RT_TICK_MAX, k)) as Hnext.
  { apply wp_exact. unfold rt_timer_list_next_timeout. ksteps. unfold tqueue, id in *. ksimpl. rewrite Hsoft. ksteps. by destruct k. }
  pose proof Hr as [Ht Hs]. set (k1 := suspended (rt_current_thread k) th k).
  assert (kernel_inv k1) as H1 by (apply suspended_inv; [done..|by eapply running_live|by rewrite Hs]).
  assert (∀ t priority, ready_at k t priority → ready_at k1 t priority) as Hkeep.
  { intros t priority (th1 & Ht1 & Hs1 & Hp1). exists th1. split; [|done]. unfold k1, suspended, removed. ksimpl.
    rewrite lookup_insert_ne; [done|]. intros <-. rewrite Ht in Ht1. injection Ht1 as <-. by rewrite Hs in Hs1. }
  unfold timer_entry_wait. apply wp_bind. eapply wp_eq; [exact Hnext|]. rewrite decide_True by done. apply wp_bind, wp_gets.
  apply wp_bind. eapply wp_eq; [apply (suspend_eq _ th); [done..|by right]|]. fold k1.
  apply wp_bind. eapply wp_mono; [apply (schedule_keeps k1 H1), current_ok_suspended|]. intros _ k' [Hsc H'].
  apply wp_ret. split; [done|].
  assert (rt_scheduler_lock_nest k1 = 0) as Hl1 by exact Hl.
  destruct (Hkeep main _ Hm) as (thm & Htm & Hsm & Hpm).
  assert (rt_thread_ready_priority_group k1 ≠ 0) as Hg by exact (ready_group k1 main thm H1 Htm Hsm).
  destruct (sc_switch _ _ Hsc _ Hl1 Hg (suspended_thread _ th k)) as (best & p & Hbest & Hcur).
  rewrite decide_False in Hcur by (intros [Hk _]; by rewrite stat_of_with_stat in Hk).
  destruct (best_thread None k1 best p (ki_sched _ H1) Hbest) as (thb & Htb & Hsb & Hpb & _).
  assert (threads k !! best = Some thb) as Htbk.
  { revert Htb. unfold k1, suspended, removed. ksimpl. rewrite lookup_insert_Some. intros [[_ <-]|[_ ?]]; [|done].
    by rewrite stat_of_with_stat in Hsb. }
  pose proof (best_least k1 best p main thm H1 Hbest Htm Hsm) as Hle. rewrite Hpm, <-Hpb in Hle.
  assert (best = main) as ->.
  { destruct (Honly best thb Htbk Hsb) as [?| ->]; [done|]. exfalso.
    by apply (outranked k idle thb (RT_THREAD_PRIORITY_MAX - 1) RT_MAIN_THREAD_PRIORITY Hi Htbk). }
  destruct (sc_cur _ _ Hsc) as (th' & Ht' & Hnr & _). rewrite Hcur in Ht'.
  exists th'. split; [|done]. split; [by rewrite Hcur|].
  destruct (frame_thread _ _ _ _ (sc_frame _ _ Hsc) Htm) as (th2 & Ht2 & Hcore). rewrite Ht' in Ht2. injection Ht2 as <-.
  apply core_class in Hcore. unfold stat_class in Hcore. rewrite Hsm in Hcore. rewrite (decide_False (P := RT_THREAD_READY = _)) in Hcore by done.
  by case_decide.
Qed.


(** ** The property *)
Definition interrupts_off (s : system) : system := s <| sy_kernel := (sy_kernel s) <| primask := 1 |> |>.

(** C6: the system starts.  When the board has been set up, [rtthread_startup] stops at
    its assertion if there is no memory for the main thread or its stack; otherwise
    it makes the main, timer and idle threads, and gives the processor with
    interrupts enabled to the timer thread, the most urgent of them.  The kernel then satisfies the
    invariant of Concurrency, from which every run goes on without a fault; and the first
    round of the timer thread leaves the processor to the main thread. *)
Theorem system_starts `{!AllocOps system, !AllocSpec system} idle idle_stack timer_stack e_main e_timer e_idle
    rt_hw_board_init rt_show_version s0 k ps h bs :
  (∀ h bs a n, blocks h bs → bs !! a = Some n → 0 < a ∧ a + n < 2 ^ 32) →
  rt_hw_board_init (interrupts_off s0) = Ok (tt, mkSystem k ps h) → rt_show_version (mkSystem k ps h) = Ok (tt, mkSystem k ps h) →
  booted k → world k h bs → zeroed idle k → zeroed (timer_thread k) k → idle ≠ timer_thread k →
  in_memory idle_stack IDLE_THREAD_STACK_SIZE → in_memory timer_stack RT_TIMER_THREAD_STACK_SIZE →
  let result := rtthread_startup idle idle_stack timer_stack e_main e_timer e_idle rt_hw_board_init rt_show_version s0 in
  (result = Err FAssert ∧ out_of_memory RT_MAIN_THREAD_STACK_SIZE) ∨
  ∃ main stack k' h' n m, result = Ok (0, mkSystem k' ps h') ∧ system_up idle main k' ∧
    vacant main k ∧ bs !! main = None ∧ bs !! stack = None ∧ stack ≠ main ∧
    object_size RT_Object_Class_Thread ≤ n ∧ RT_MAIN_THREAD_STACK_SIZE ≤ m ∧ blocks h' (<[stack := m]> (<[main := n]> bs)) ∧
    wp timer_entry_wait k' (λ c k'', c = Some (Return RT_EOK) ∧ ∃ th, running k'' th ∧ rt_current_thread k'' = main).
Proof.
  intros Haddr Hboard Hshow Hb Hw Hzi Hzt Hne Hmi Hmt result.
  pose proof (init_lists_spec k Hb) as (u & k1 & E & Hi)%wp_ok. apply bind_ok_inv in E as (u1 & ka & Ea & Eb). destruct u, u1.
  assert (result = (rt_application_init e_main;; zoom (rt_system_timer_thread_init timer_stack e_timer);;
    zoom (rt_thread_idle_init idle idle_stack e_idle);; zoom rt_system_scheduler_start;; mret 0) (mkSystem k1 ps h)) as ->.
  { unfold result, rtthread_startup. rewrite (bind_ok _ _ s0 (primask (sy_kernel s0)) (interrupts_off s0)) by (by destruct s0).
    rewrite (bind_ok _ _ _ _ _ Hboard), (bind_ok _ _ _ _ _ Hshow).
    by rewrite (bind_ok _ _ _ _ _ (zoom_kernel_ok _ k ps h _ _ Ea)), (bind_ok _ _ _ _ _ (zoom_kernel_ok _ ka ps h _ _ Eb)). }
  assert (rt_interrupt_nest k = 0) as Hnest by apply unguarded_nest, Hw.
  destruct (application_init_case Haddr e_main k1 ps h bs (in_starting _ _ Hi) (initialised_world k k1 h bs Hi Hw))
    as [[Ef Hno]|(main & k2 & s2 & E2 & Hup & stack & h2 & n & m & -> & Hv & Hbm & Hbs & Hsm & Hn & Hm & Hbl)].
  { left. split; [by rewrite (bind_err _ _ _ _ Ef)|done]. }
  right. assert (vacant main k) as Hvk.
  { apply (wo_vacant _ _ _ Hw); [|done]. apply (blocks_inside _ (<[stack := m]> (<[main := n]> bs)) _ n Hbl).
    rewrite lookup_insert_ne by done. apply lookup_insert_eq. }
  assert (threads k !! main = None) as Hmain by apply (proj1 (vacant_fields main k) Hvk).
  pose proof (three_threads idle idle_stack timer_stack e_timer e_idle main k k1 k2 Hb Hi Hnest Hmain Hzi Hzt Hne Hmi Hmt Hup) as (u & k' & E & Hsu)%wp_ok.
  apply bind_ok_inv in E as (? & k3 & E3 & E). apply bind_ok_inv in E as (? & k4 & E4 & E5).
  exists main, stack, k', h2, n, m. split.
  2:{ repeat (split; [done|]). by eapply first_round. }
  by rewrite (bind_ok _ _ _ _ _ E2), (bind_ok _ _ _ _ _ (zoom_kernel_ok _ _ ps h2 _ _ E3)),
    (bind_ok _ _ _ _ _ (zoom_kernel_ok _ _ ps h2 _ _ E4)), (bind_ok _ _ _ _ _ (zoom_kernel_ok _ _ ps h2 _ _ E5)).
Qed.

(** ** A concrete instance

    An arena of 8 kB, and static memory as it is after reset. *)
#[local] Instance boot_ops : AllocOps system := lock_alloc G_sem.
#[local] Instance boot_contract : AllocSpec system :=
  lock_alloc_contract G_sem 0x20001000 0x20003000 ltac:(by vm_compute; intros []) ltac:(done).
Definition boot_heap : heap := default (mkHeap ∅ ∅ 0 0 0 0 0) (rt_system_heap_init 0x20001000 0x20003000).
Definition boot_kernel : kernel :=
  mkKernel (list_to_map [(T_idle, zero_thread); (T_peer, zero_thread)])
    (list_to_map [(ThreadTimer T_idle, zero_timer); (ThreadTimer T_peer, zero_timer)])
    ∅ ∅ (list_to_map ((λ t, (t, [])) <$> rt_object_container)) {[G_sem := a_sem 1]} ∅ ∅ ∅ ∅ ∅ ∅ ∅ 0 0 RT_NULL 0 0 0 0 1
    RT_SOFT_TIMER_IDLE T_peer.
Definition board_up : M system unit := modify (λ _, mkSystem boot_kernel ∅ boot_heap).
Definition boot_result : outcome (Z * system) :=
  rtthread_startup T_idle 0x20000600 0x20000a00 0x08001000 0x08002000 0x08003000 board_up (mret tt) (mkSystem boot_kernel ∅ boot_heap).

Lemma boot_booted : booted boot_kernel.
Proof.
  assert (map_Forall (λ _ th, stat_of th = RT_THREAD_INIT) (threads boot_kernel)) as H1 by by_evaluation.
  assert (map_Forall (λ _ tm, ¬ active tm) (timers boot_kernel)) as H2 by by_evaluation.
  constructor; try done.
  intros s x Hx. change (({[G_sem := a_sem 1]} : gmap addr rt_semaphore) !! s = Some x) in Hx.
  apply lookup_singleton_Some in Hx as [<- <-]. constructor; [done|done|done|by left|by vm_compute|done].
Qed.
Lemma boot_zeroed t : t = T_idle ∨ t = T_peer → zeroed t boot_kernel.
Proof.
  intros Ht. constructor; [by destruct Ht as [-> | ->]..|].
  assert (map_Forall (λ _ l, l = []) (object_lists boot_kernel)) as Hl by by_evaluation.
  intros type r. unfold object_list. destruct (object_lists boot_kernel !! type) as [l|] eqn:E; [|by intros ?%not_elem_of_nil].
  simpl. rewrite (Hl type l E). by intros ?%not_elem_of_nil.
Qed.
Lemma boot_blocks : blocks boot_heap ∅.
Proof.
  destruct (Heap.init_spec 0x20001000 0x20003000 boot_heap) as (H & _); [by vm_compute|done|done|done|by vm_compute|].
  split; [by vm_compute|]. split; [by vm_compute|]. eexists. split; [exact H|done].
Qed.
Lemma boot_world : world boot_kernel boot_heap ∅.
Proof.
  split.
  - exists (a_sem 1). constructor; [|done|done]. constructor; [done|done|done|by left|by vm_compute|done].
  - apply boot_blocks.
  - intros a Ha Hb. apply (clean_sound 0x20001000 0x20003000 ∅); [by_evaluation|done|done].
  - intros type Ht. class_cases Ht; vm_compute; by eexists.
Qed.
Lemma boot_addresses h bs a n : blocks h bs → bs !! a = Some n → 0 < a ∧ a + n < 2 ^ 32.
Proof. intros (Hlo & Hhi & l & Hrep & ->) Hp. destruct (in_use_separate _ _ Hrep a n Hp). lia. Qed.
Lemma boot_succeeds : boot_result ≠ Err FAssert.
Proof. intros E. assert (match boot_result with Ok _ => true | Err _ => false end = true) as H by (vm_compute; reflexivity). by rewrite E in H. Qed.

Lemma system_starts_witness :
  ∃ main k' h', boot_result = Ok (0, mkSystem k' ∅ h') ∧ system_up T_idle main k' ∧
    wp timer_entry_wait k' (λ c k'', ∃ th, running k'' th ∧ rt_current_thread k'' = main).
Proof.
  destruct (system_starts T_idle 0x20000600 0x20000a00 0x08001000 0x08002000 0x08003000 board_up (mret tt : M system unit)
    (mkSystem boot_kernel ∅ boot_heap) boot_kernel ∅ boot_heap ∅) as [[E _]|(main & stack & k' & h' & n & m & E & Hup & H)].
  - exact boot_addresses.
  - done.
  - done.
  - exact boot_booted.
  - exact boot_world.
  - apply boot_zeroed. by left.
  - apply boot_zeroed. by right.
  - done.
  - done.
  - done.
  - by destruct boot_succeeds.
  - exists main, k', h'. split; [exact E|]. split; [exact Hup|]. destruct H as (_ & _ & _ & _ & _ & _ & _ & Hround).
    eapply wp_mono; [exact Hround|]. by intros c k'' [_ ?].
Defined.
