(* ===== verification/Application.v ===== *)
(** * The threads of the application ([src/applications/main.cpp], [oled_btn.cpp])

    The mailboxes of [main.cpp] and its speaking loop; the button, the thread that
    takes texts for the display and the thread that draws.  The graphics library is
    a list of drawing commands and a function for the width of a text, the button
    library calls the two callbacks, and the conversion of texts to GBK is a
    function of a package: none of them is part of the repository.  A round is
    one pass of a thread's loop. *)
From S2P Require Import Prelude Kernel Scheduler Object Timer Thread Ipc Decide Scenario Scheduling Semaphore Mailbox Strings Heap Allocator HeapLock MemPool Device Pin Serial Calendar Rtc WallClock Syn6288.

(** ** The display: state

    The static variables [mode], [offset] and [width] of [oled_btn.cpp]. *)
Definition mode_static : Z := 0.
Definition mode_dynamic : Z := 1.
Record show := mkShow { mode : Z; offset : Z; width : Z }.
#[global] Instance eta_show : EtaRecord show := λ v, mkShow (mode v) (offset v) (width v).

(** Kernel, heap and clock; the memory with the texts; the pins. *)
Record panel (D : Type) := mkPanel { pn_station : station; pn_memory : memory; pn_show : show; pn_pins : pins D }.
Arguments mkPanel {D}.
Arguments pn_station {D} p.
Arguments pn_memory {D} p.
Arguments pn_show {D} p.
Arguments pn_pins {D} p.
#[global] Instance panel_station D : Part (panel D) station :=
  MkPart _ _ pn_station (λ s p, mkPanel s (pn_memory p) (pn_show p) (pn_pins p)).
#[global] Instance panel_memory D : Part (panel D) memory :=
  MkPart _ _ pn_memory (λ m p, mkPanel (pn_station p) m (pn_show p) (pn_pins p)).
#[global] Instance panel_show D : Part (panel D) show :=
  MkPart _ _ pn_show (λ v p, mkPanel (pn_station p) (pn_memory p) v (pn_pins p)).
#[global] Instance panel_pins D : Part (panel D) (pins D) :=
  MkPart _ _ pn_pins (λ q p, mkPanel (pn_station p) (pn_memory p) (pn_show p) q).

(** What the graphics library is told to draw. *)
Inductive draw :=
  | DrawUTF8 (x y : Z) (s : list Z)
  | DrawStr (x y : Z) (s : list Z).
Definition display_width : Z := 128.

(** The positions at which the copies of a scrolling text are drawn: [do { ...
    x += (width+8); } while (x < u8g2.getDisplayWidth());].  [bits] is the width of
    [u8g2_uint_t]. *)
Fixpoint scroll_loop (bits : Z) (fuel : nat) (x width : Z) : outcome (list Z) :=
  match fuel with
  | O => Err FFuel
  | Datatypes.S fuel =>
      let next := wrapU bits (x + (width + 8)) in
      if decide (next < display_width) then
        match scroll_loop bits fuel next width with Ok xs => Ok (x :: xs) | Err e => Err e end
      else Ok [x]
  end.
(** Below 128 the position moves one way only. *)
Definition scroll_fuel : nat := 129.

(** [offset -= 4; if ((u8g2_uint_t)offset < (u8g2_uint_t)-width) offset = 0;] *)
Definition scroll_step (bits : Z) (v : show) : show :=
  let off := wrapU bits (offset v - 4) in
  v <| offset := if decide (off < wrapU bits (- width v)) then 0 else off |>.

(** The string a pointer stands for. *)
Definition text_at (a : Z) : M memory (list Z) :=
  n ← rt_strlen a;
  m ← gets id;
  mret (subseq m (Z.to_nat a) (Z.to_nat n)).

(** ** The mailboxes *)

(** A pool of 32 bytes has room for 8 mails. *)
Definition mb_pool_words : list Z := replicate 8 0.
Definition mb_6288_name : list Z := [109; 98; 95; 54; 50; 56; 56].
Definition mb_oled_name : list Z := [109; 98; 95; 111; 108; 101; 100].
Definition mb_time_name : list Z := [109; 98; 95; 116; 105; 109; 101].
Definition btn_mbt_name : list Z := [98; 116; 110; 95; 109; 98; 116].
Definition init_box (mb : addr) (name : list Z) : M kernel Z := rt_mb_init mb name mb_pool_words (32 / 4) RT_IPC_FLAG_FIFO.

(** [complain] prints that a mailbox could not be made. *)
Definition mailbox_init (ble_mb_6288 ble_mb_oled ble_mb_time : addr) (complain : M kernel unit) : M kernel Z :=
  result ← init_box ble_mb_6288 mb_6288_name;
  if decide (result ≠ RT_EOK) then complain;; mret (-1)
  else
    result ← init_box ble_mb_oled mb_oled_name;
    if decide (result ≠ RT_EOK) then complain;; mret (-1)
    else
      result ← init_box ble_mb_time mb_time_name;
      if decide (result ≠ RT_EOK) then complain;; mret (-1)
      else mret RT_EOK.

Section Display.
Context {D : Type} `{!PinOps D, !AllocOps station}.
(** What the clock needs, see WallClock. *)
Context (time_bits : Z) (soft_rtc_dev : addr) (others : addr → device_methods station unit).
Context (ble_mb_time : addr) (time_text stale_text : addr → list Z) (rt_kprintf : list Z → M station unit).
(** Mailboxes, semaphore, the two arrays of [MAX_STR] bytes, the two mails of the
    button, the pins. *)
Context (ble_mb_oled btn_oled_mbt oled_sem_event : addr) (text d_text mb_once mb_doub LED0 KEY0 : Z).
(** [u8g2_uint_t] and [u8g2.getUTF8Width]. *)
Context (bits : Z) (getUTF8Width : list Z → Z).

Definition kernel_call {A} (f : M kernel A) : M (panel D) A := zoom (zoom f : M station A).

(** ** The button *)
Definition Read_u8g2b_Level : M (panel D) Z := zoom (rt_pin_read KEY0).
Definition led_init : M (panel D) unit := zoom (rt_pin_mode LED0 PIN_MODE_OUTPUT).
Definition led_on : M (panel D) unit := zoom (rt_pin_write LED0 PIN_LOW).
Definition led_off : M (panel D) unit := zoom (rt_pin_write LED0 PIN_HIGH).
Definition key_init : M (panel D) unit := zoom (rt_pin_mode KEY0 PIN_MODE_INPUT_PULLUP).
Definition Btn1_Dowm_CallBack : M (panel D) unit :=
  led_off;; kernel_call (rt_mb_send btn_oled_mbt mb_doub);; mret tt.
Definition Btn1_Double_CallBack : M (panel D) unit :=
  led_on;; kernel_call (rt_mb_send btn_oled_mbt mb_once);; mret tt.
Definition BSP_Init (complain : M kernel unit) : M (panel D) unit :=
  result ← kernel_call (init_box btn_oled_mbt btn_mbt_name);
  (if decide (result ≠ RT_EOK) then kernel_call complain else mret tt);;
  led_init;;
  key_init.

(** The rest of a round when [rt_mb_recv] has ended or waits. *)
Definition button_mail (r : call (Z * option Z) wait_locals) : M (panel D) (call unit wait_locals) :=
  match r with
  | Return (result, mail) =>
      (if decide (result = RT_EOK) then
         str ← of_option FBadPointer mail;
         zoom (modify (λ v, if decide (str = mb_once) then v <| mode := mode_dynamic |>
                            else if decide (str = mb_doub) then v <| mode := mode_static |> else v))
       else mret tt);;
      mret (Return tt)
  | Park w => mret (Park w)
  end.
Definition btn_ctrl_entry : M (panel D) (call unit wait_locals) :=
  r ← kernel_call (rt_mb_recv btn_oled_mbt RT_WAITING_FOREVER); button_mail r.
Definition btn_ctrl_resume (w : wait_locals) : M (panel D) (call unit wait_locals) :=
  r ← kernel_call (rt_mb_recv_resume btn_oled_mbt w); button_mail r.

(** ** The text *)
Definition text_mail (r : call (Z * option Z) wait_locals) : M (panel D) (call unit wait_locals) :=
  match r with
  | Return (result, mail) =>
      (if decide (result = RT_EOK) then
         text_t ← of_option FBadPointer mail;
         zoom (rt_memset text 0 MAX_STR);;
         zoom (rt_strncpy text text_t MAX_STR);;
         kernel_call (rt_sem_release oled_sem_event);;
         mret tt
       else mret tt);;
      mret (Return tt)
  | Park w => mret (Park w)
  end.
Definition u8g2_get_txt : M (panel D) (call unit wait_locals) :=
  r ← kernel_call (rt_mb_recv ble_mb_oled RT_WAITING_FOREVER); text_mail r.
Definition u8g2_get_txt_resume (w : wait_locals) : M (panel D) (call unit wait_locals) :=
  r ← kernel_call (rt_mb_recv_resume ble_mb_oled w); text_mail r.

(** ** Drawing *)

(** One page of a picture; the library repeats it for each page of the display. *)
Definition draw_page (time_buf : list Z) : M (panel D) (list draw) :=
  v ← zoom (gets (id : show → show));
  if decide (mode v = mode_static) then
    s ← zoom (text_at d_text);
    mret [DrawUTF8 5 48 s; DrawStr 5 24 time_buf]
  else if decide (mode v = mode_dynamic) then
    xs ← lift_outcome (scroll_loop bits scroll_fuel (offset v) (width v));
    s ← zoom (text_at text);
    mret (((λ x, DrawUTF8 x 48 s) <$> xs) ++ [DrawStr 5 24 time_buf])
  else mret [].
Definition scroll : M (panel D) unit :=
  zoom (modify (λ v, if decide (mode v = mode_dynamic) then scroll_step bits v else v)).
(** [if (rt_sem_take(oled_sem_event, RT_WAITING_NO) == RT_EOK) ...] *)
Definition refresh_text : M (panel D) unit :=
  r ← kernel_call (rt_sem_take oled_sem_event 0);
  match r with
  | Return result =>
      if decide (result = RT_EOK) then
        zoom (rt_memset d_text 0 MAX_STR);;
        zoom (rt_strncpy d_text text MAX_STR);;
        s ← zoom (text_at d_text);
        zoom (modify (λ v, v <| width := wrapU bits (getUTF8Width s) |>))
      else mret tt
  | Park _ => fail FConfig
  end.
(** A round of [u8g2_dst_thread]: what it draws, and the wait at its end; [buf] is
    the static array of [getStrTime]. *)
Definition u8g2_dst_thread (buf : list Z) : M (panel D) (list draw * call Z addr) :=
  zoom (changeTime time_bits soft_rtc_dev others ble_mb_time time_text stale_text rt_kprintf);;
  time_buf ← zoom (getStrTime time_bits soft_rtc_dev others buf);
  page ← draw_page time_buf;
  scroll;;
  refresh_text;;
  w ← kernel_call (rt_thread_mdelay 10);
  mret (page, w).
End Display.

(** ** Speaking *)

(** C's [strcat] on a destination array. *)
Definition strcat (dst src : list Z) : outcome (list Z) :=
  match strlen dst, strlen src with
  | Ok n, Ok k => if decide (n + k + 1 ≤ zlen dst) then Ok (splice dst (Z.to_nat n) (take (Z.to_nat (k + 1)) src)) else Err FBounds
  | Err e, _ => Err e
  | _, Err e => Err e
  end.

Section Speaking.
Context {U : Type} `{!UartOps U} (heap_sem SYN6288_serial ble_mb_6288 : addr).
(** The bytes at the address in a mail; the conversion, which gives the block it
    allocates and the text in it. *)
Context (mail_text : addr → list Z) (utf82gbk : list Z → M (machine U) (addr * list Z)).

(** The rest of a round of [main] when the mail has come; [Frame_Info] is the local
    array of [SYN_FrameInfo]. *)
Definition speak_mail (Frame_Info : list Z) (r : call (Z * option Z) wait_locals) : M (machine U) (call unit wait_locals) :=
  match r with
  | Return (result, mail) =>
      (if decide (result = RT_EOK) then
         str ← of_option FBadPointer mail;
         head ← lift_outcome (strcat [0] (mail_text str));
         '(block, name) ← utf82gbk head;
         SYN_FrameInfo heap_sem SYN6288_serial 0 name Frame_Info;;
         freed ← rt_free heap_sem block;
         match freed with Return _ => mret tt | Park _ => fail FConfig end
       else mret tt);;
      mret (Return tt)
  | Park w => mret (Park w)
  end.
Definition main_round (Frame_Info : list Z) : M (machine U) (call unit wait_locals) :=
  r ← zoom (rt_mb_recv ble_mb_6288 RT_WAITING_FOREVER); speak_mail Frame_Info r.
Definition main_resume (Frame_Info : list Z) (w : wait_locals) : M (machine U) (call unit wait_locals) :=
  r ← zoom (rt_mb_recv_resume ble_mb_6288 w); speak_mail Frame_Info r.
End Speaking.

(** ** Scrolling *)
Section Scroll.
Context (bits width : Z) (Hbits : 8 ≤ bits).
Let step := wrapU bits (width + 8).
Definition position (x : Z) (i : nat) : Z := wrapU bits (x + Z.of_nat i * (width + 8)).

Lemma range_bits : 256 ≤ 2 ^ bits.
Proof. change 256 with (2 ^ 8). apply Z.pow_le_mono_r; lia. Qed.
Lemma wrap_next x : wrapU bits (x + (width + 8)) = (x + step) mod 2 ^ bits.
Proof. unfold step, wrapU. by rewrite Zplus_mod_idemp_r. Qed.
Lemma step_range : 0 ≤ step < 2 ^ bits.
Proof. pose proof range_bits. apply Z.mod_pos_bound. lia. Qed.
Lemma next_plain x : 0 ≤ x → x + step < 2 ^ bits → wrapU bits (x + (width + 8)) = x + step.
Proof. intros. rewrite wrap_next. apply Z.mod_small. pose proof step_range. lia. Qed.
Lemma next_round x : x < 2 ^ bits → 2 ^ bits ≤ x + step → wrapU bits (x + (width + 8)) = x + step - 2 ^ bits.
Proof.
  intros. rewrite wrap_next. pose proof step_range. rewrite <-(Z.mod_small (x + step - 2 ^ bits) (2 ^ bits)) by lia.
  by rewrite <-(Z.mod_add _ (-1)) by lia.
Qed.

Definition ends (fuel : nat) (x : Z) : Prop := ∃ xs, scroll_loop bits fuel x width = Ok xs.
Lemma ends_next fuel x : (wrapU bits (x + (width + 8)) < display_width → ends fuel (wrapU bits (x + (width + 8)))) → ends (S fuel) x.
Proof.
  intros H. unfold ends. cbn [scroll_loop]. case_decide as Hd; [|by eexists].
  destruct (H Hd) as [xs ->]. by eexists.
Qed.
(** A small step goes up until it leaves the display, a big one goes round and down. *)
Lemma ends_up fuel : ∀ x, 0 < step ≤ 2 ^ bits - 128 → 0 ≤ x → 128 - x ≤ Z.of_nat fuel → x < 128 → ends fuel x.
Proof.
  induction fuel as [|fuel IH]; intros x Hs Hx Hf Hl; [lia|]. pose proof range_bits. apply ends_next.
  rewrite next_plain by lia. unfold display_width. intros Hn. apply IH; lia.
Qed.
Lemma ends_down fuel : ∀ x, 2 ^ bits - 128 < step → 0 ≤ x → x < Z.of_nat fuel → x < 128 → ends fuel x.
Proof.
  induction fuel as [|fuel IH]; intros x Hs Hx Hf Hl; [lia|]. pose proof range_bits. pose proof step_range. apply ends_next.
  destruct (decide (x + step < 2 ^ bits)) as [Hp|Hp].
  - rewrite next_plain by lia. unfold display_width. lia.
  - rewrite next_round by lia. unfold display_width. intros Hn. apply IH; lia.
Qed.
Lemma scroll_ends_in x : step ≠ 0 → ends scroll_fuel x.
Proof.
  intros Hs. pose proof range_bits. pose proof step_range. apply ends_next. intros Hn.
  assert (0 ≤ wrapU bits (x + (width + 8))) as Hpos by (apply Z.mod_pos_bound; lia). unfold display_width in Hn.
  destruct (decide (step ≤ 2 ^ bits - 128)) as [Hd|Hd]; [apply ends_up|apply ends_down]; lia.
Qed.

Lemma position_next x i : position (wrapU bits (x + (width + 8))) i = position x (S i).
Proof.
  unfold position, wrapU. rewrite Zplus_mod_idemp_l. f_equal. lia.
Qed.
(** What is drawn: the first position whatever it is, and those after it that lie
    on the display, up to the first that does not. *)
Lemma scroll_shape fuel : ∀ x xs, scroll_loop bits fuel x width = Ok xs → wrapU bits x = x →
  ∃ n, xs = position x <$> seq 0 (S n) ∧ (n < fuel)%nat ∧
    (∀ i, (1 ≤ i ≤ n)%nat → position x i < display_width) ∧ display_width ≤ position x (S n).
Proof.
  induction fuel as [|fuel IH]; intros x xs E Hx; [done|]. cbn [scroll_loop] in E.
  assert (position x 0 = x) as H0 by (unfold position; by rewrite Z.mul_0_l, Z.add_0_r).
  assert (position x 1 = wrapU bits (x + (width + 8))) as H1 by (unfold position; by rewrite Z.mul_1_l).
  case_decide as Hd.
  - destruct (scroll_loop _ _ _ _) as [ys|] eqn:Ey; [|done]. injection E as <-.
    destruct (IH _ _ Ey) as (n & -> & Hn & Hin & Hout).
    { apply wrapU_idemp. lia. }
    exists (S n). split; [|split; [lia|split]].
    + change (seq 0 (S (S n))) with (0%nat :: seq 1 (S n)). rewrite fmap_cons, H0. f_equal. rewrite <-fmap_S_seq, <-list_fmap_compose. apply list_fmap_ext. intros ? i _.
      apply position_next.
    + intros i Hi. destruct i as [|i]; [lia|]. rewrite <-position_next. destruct i as [|i].
      * unfold position at 1. by rewrite Z.mul_0_l, Z.add_0_r, wrapU_idemp by lia.
      * apply Hin. lia.
    + by rewrite <-position_next.
  - injection E as <-. exists 0%nat. split; [change ([x] = [position x 0]); by rewrite H0|]. split; [lia|]. split; [lia|]. rewrite H1. lia.
Qed.
Lemma scroll_stuck x fuel : step = 0 → 0 ≤ x < display_width → scroll_loop bits fuel x width = Err FFuel.
Proof.
  intros Hs Hx. unfold display_width in Hx. pose proof range_bits. induction fuel as [|fuel IH]; [done|]. cbn [scroll_loop].
  rewrite next_plain by lia. rewrite Hs, Z.add_0_r, decide_True by (unfold display_width; lia). by rewrite IH.
Qed.
End Scroll.

(** C36: the copies of a scrolling text.  For every text but one whose width with the
    gap fills the range of [u8g2_uint_t] exactly, the loop ends: it draws at the
    offset and then at every position one text and gap further that is on the
    display, and stops at the first that is not, after at most 129 copies.  For the one width it never ends. *)
Theorem scroll_ends bits width x :
  8 ≤ bits → 0 ≤ x < 2 ^ bits →
  (wrapU bits (width + 8) ≠ 0 → ∃ n, (n ≤ 128)%nat ∧
    scroll_loop bits scroll_fuel x width = Ok (position bits width x <$> seq 0 (S n)) ∧ position bits width x 0 = x ∧
    (∀ i, (1 ≤ i ≤ n)%nat → position bits width x i < display_width) ∧ display_width ≤ position bits width x (S n)) ∧
  (wrapU bits (width + 8) = 0 → x < display_width → ∀ fuel, scroll_loop bits fuel x width = Err FFuel).
Proof.
  intros Hb Hx. split.
  - intros Hs. destruct (scroll_ends_in bits width Hb x Hs) as [xs E].
    assert (wrapU bits x = x) as Ex by (by apply Z.mod_small).
    destruct (scroll_shape bits width Hb scroll_fuel x xs E Ex) as (n & -> & Hn & Hin & Hout).
    exists n. split; [unfold scroll_fuel in Hn; lia|]. split; [exact E|]. split; [|done].
    unfold position. by rewrite Z.mul_0_l, Z.add_0_r.
  - intros Hs Hd fuel. apply scroll_stuck; [done|done|lia].
Qed.

(** ** Texts in memory *)
Lemma length_padded n s : length (padded n s) = n.
Proof. unfold padded. rewrite length_app, length_take, length_replicate. lia. Qed.
Lemma string_at_padded m a s n :
  Forall (λ c, 1 ≤ c < 256) s → 0 ≤ a → a + Z.of_nat n ≤ zlen m → zlen s < Z.of_nat n →
  string_at (splice m (Z.to_nat a) (padded n s)) a s.
Proof.
  intros Hs Ha Hm Hn. unfold zlen in *.
  assert (∀ i, (i < n)%nat → splice m (Z.to_nat a) (padded n s) !! Z.to_nat (a + Z.of_nat i) = padded n s !! i) as Hin.
  { intros i Hi. rewrite lookup_splice_in by (rewrite length_padded; lia). f_equal. lia. }
  constructor; [done|done| |].
  - intros i c Hi. pose proof (lookup_lt_Some _ _ _ Hi). rewrite Hin by lia. unfold padded.
    by rewrite lookup_app_l, lookup_take_lt by (rewrite ?length_take; lia).
  - unfold zlen. rewrite Hin by lia. unfold padded. rewrite lookup_app_r by (rewrite length_take; lia).
    rewrite length_take, lookup_replicate_2 by lia. done.
Qed.
Lemma string_at_splice m a s d xs :
  string_at m a s → 0 ≤ d → d + zlen xs ≤ zlen m → a + zlen s < d ∨ d + zlen xs ≤ a →
  string_at (splice m (Z.to_nat d) xs) a s.
Proof.
  intros Hs Hd Hm Ho. pose proof (string_at_bound _ _ _ Hs). destruct Hs as [Ha Hc Ht He]. unfold zlen in *. constructor; [done|done| |].
  - intros i c Hi. pose proof (lookup_lt_Some _ _ _ Hi). rewrite lookup_splice_out by lia. by apply Ht.
  - unfold zlen. by rewrite lookup_splice_out by lia.
Qed.
Lemma text_at_run m a s : string_at m a s → text_at a m = Ok (s, m).
Proof.
  intros Hs. unfold text_at. rewrite (bind_ok _ _ _ _ _ (strlen_run _ _ _ Hs)). erewrite bind_ok by reflexivity. unfold id.
  unfold mret, M_ret. do 2 f_equal. pose proof (string_at_bound _ _ _ Hs). destruct Hs as [Ha _ Ht _]. unfold zlen in *.
  apply list_eq_same_length with (length s); [done|rewrite length_subseq; lia|]. intros i c d Hi Hc Hd.
  rewrite lookup_subseq in Hc by lia. specialize (Ht i d Hd). replace (Z.to_nat a + i)%nat with (Z.to_nat (a + Z.of_nat i)) in Hc by lia. congruence.
Qed.

(** Clearing an array and copying a string into it. *)
Lemma set_text m dst src s n :
  string_at m src s → 0 ≤ dst → 0 ≤ n → dst + n ≤ zlen m → src + zlen s < dst ∨ dst + n ≤ src →
  (rt_memset dst 0 n;; rt_strncpy dst src n) m = Ok (dst, splice m (Z.to_nat dst) (padded (Z.to_nat n) s)).
Proof.
  intros Hs Hd Hn Hm Ho. rewrite (bind_ok _ _ _ _ _ (memset_run dst 0 n m Hd Hn Hm)).
  assert (length (replicate (Z.to_nat n) (u8 0)) = Z.to_nat n) as Hl by apply length_replicate.
  assert (length (filled m dst (Z.to_nat n) (u8 0)) = length m) as Hlf by (apply length_filled; lia).
  rewrite (strncpy_run _ dst src s n); [|apply string_at_splice; [done|lia|unfold zlen in *; lia|unfold zlen in *; lia]|done|done|unfold zlen in *; lia|done].
  do 2 f_equal. apply list_eq. intros i. unfold filled. unfold zlen in *. pose proof (length_padded (Z.to_nat n) s).
  destruct (decide (Z.to_nat dst ≤ i < Z.to_nat dst + Z.to_nat n)%nat) as [Hi|Hi].
  - by rewrite !lookup_splice_in by (rewrite ?length_splice; lia).
  - by rewrite !lookup_splice_out by (rewrite ?length_splice; lia).
Qed.

(** ** The way of a text to the display *)
Section Facts.
Context {D : Type}.
Implicit Types (q : pins D) (m : memory) (v : show).

Lemma wp_kernel_call {A} (f : M kernel A) k h r m v q (Q : A → panel D → Prop) :
  wp f k (λ a k', Q a (mkPanel (mkStation k' h r) m v q)) → wp (kernel_call f) (mkPanel (mkStation k h r) m v q) Q.
Proof. unfold wp, kernel_call, zoom. simpl. by destruct (f k) as [[a k']|]. Qed.
Lemma wp_memory {A} (f : M memory A) a m m' st v q (Q : A → panel D → Prop) :
  f m = Ok (a, m') → Q a (mkPanel st m' v q) → wp (zoom f) (mkPanel st m v q) Q.
Proof. intros E. unfold wp, zoom. simpl. by rewrite E. Qed.
Lemma wp_memory_two {A B C} (f : M memory A) (g : M memory B) (rest : M (panel D) C) b m m' st v q (Q : C → panel D → Prop) :
  (f;; g) m = Ok (b, m') → wp rest (mkPanel st m' v q) Q → wp (zoom f;; zoom g;; rest) (mkPanel st m v q) Q.
Proof.
  intros E HQ. unfold mbind, M_bind in E. destruct (f m) as [[a m1]|] eqn:Ef; [|done].
  apply wp_bind. eapply wp_memory; [exact Ef|]. apply wp_bind. by eapply wp_memory; [exact E|].
Qed.
Lemma wp_show_get st m v q (Q : show → panel D → Prop) : Q v (mkPanel st m v q) → wp (zoom (gets (id : show → show))) (mkPanel st m v q) Q.
Proof. done. Qed.
Lemma wp_show (f : show → show) st m v q (Q : unit → panel D → Prop) : Q tt (mkPanel st m (f v) q) → wp (zoom (modify f)) (mkPanel st m v q) Q.
Proof. done. Qed.

Context (ble_mb_oled oled_sem_event : addr) (text d_text : Z) (bits : Z) (getUTF8Width : list Z → Z).
(** The two arrays lie in memory and apart. *)
Record arrays m : Prop := {
  ar_text : 0 ≤ text ∧ text + MAX_STR ≤ zlen m;
  ar_d_text : 0 ≤ d_text ∧ d_text + MAX_STR ≤ zlen m;
  ar_apart : text + MAX_STR ≤ d_text ∨ d_text + MAX_STR ≤ text
}.
(** A text fits when it comes with its terminating zero and from outside [text]. *)
Definition text_fits m (p : Z) (s : list Z) : Prop :=
  string_at m p s ∧ zlen s < MAX_STR ∧ (p + zlen s < text ∨ text + MAX_STR ≤ p).
(** The semaphore says how many texts have come that were not shown. *)
Definition unseen (k : kernel) (n : Z) : Prop :=
  ∃ y, sem_ok k oled_sem_event y ∧ sem_value y = n ∧ queue k (QSuspend oled_sem_event) = [].

Lemma unseen_set k y n : sem_ok k oled_sem_event y → queue k (QSuspend oled_sem_event) = [] → 0 ≤ n ≤ RT_SEM_VALUE_MAX →
  unseen (k <| semaphores := <[oled_sem_event := y <| sem_value := n |>]> (semaphores k) |>) n.
Proof. intros Hok Hq Hn. exists (y <| sem_value := n |>). split; [by apply sem_ok_set|done]. Qed.

Lemma get_txt_spec x p l s k h r m v q n :
  kernel_inv k → current_ok k → mailbox_ok k ble_mb_oled x → mails x = p :: l → oled_sem_event ≠ ble_mb_oled →
  arrays m → text_fits m p s → unseen k n → n < RT_SEM_VALUE_MAX →
  wp (u8g2_get_txt (D := D) ble_mb_oled oled_sem_event text) (mkPanel (mkStation k h r) m v q) (λ res s',
    res = Return tt ∧ ∃ k' x', s' = mkPanel (mkStation k' h r) (splice m (Z.to_nat text) (padded (Z.to_nat MAX_STR) s)) v q ∧
      kernel_inv k' ∧ current_ok k' ∧ mailboxes k' !! ble_mb_oled = Some x' ∧ mails x' = l ∧ unseen k' (n + 1)).
Proof.
  intros H Hc Hmb Hm Hne [[Ht0 Ht1] _ _] (Hs & Hn & Hout) (y & Hy & Hv & Hq) Hmax. unfold u8g2_get_txt.
  assert (0 < mb_entry x) as He by (pose proof (length_mails x) as E; rewrite Hm in E; simpl in E; lia).
  apply wp_bind, wp_kernel_call. eapply wp_mono; [by apply (mb_recv_spec k ble_mb_oled x)|].
  intros res k1 (p' & l' & x' & Hm' & -> & Hl & _ & Hd). rewrite Hm in Hm'. injection Hm' as <- <-. unfold text_mail.
  rewrite decide_True by done. apply wp_bind. apply wp_bind, wp_ret.
  eapply wp_memory_two; [by apply (set_text m text p s MAX_STR)|].
  assert (queue k1 (QSuspend oled_sem_event) = []) as Hq1 by (rewrite (md_others _ _ _ _ _ Hd); [done|by intros []|done]).
  assert (sem_ok k1 oled_sem_event y) as Hy1.
  { destruct Hy. constructor; try done. by rewrite (md_sems _ _ _ _ _ Hd). }
  apply wp_bind, wp_kernel_call. eapply wp_eq; [apply (sem_release_count k1 oled_sem_event y Hy1 Hq1); lia|].
  apply wp_ret, wp_ret. split; [done|]. eexists _, x'. split; [reflexivity|]. split; [apply kernel_inv_sems, Hd|].
  split; [apply Hd|]. split; [apply Hd|]. split; [done|]. rewrite Hv. apply unseen_set; [done|done|].
  destruct (so_range _ _ _ Hy). lia.
Qed.
Lemma refresh_spec s k h r m v q n :
  kernel_inv k → arrays m → string_at m text s → zlen s < MAX_STR → unseen k n → 0 < n →
  wp (refresh_text (D := D) oled_sem_event text d_text bits getUTF8Width) (mkPanel (mkStation k h r) m v q) (λ _ s', ∃ k',
    s' = mkPanel (mkStation k' h r) (splice m (Z.to_nat d_text) (padded (Z.to_nat MAX_STR) s)) (v <| width := wrapU bits (getUTF8Width s) |>) q ∧
    kernel_inv k' ∧ (∀ th, running k th → running k' th) ∧ unseen k' (n - 1) ∧ rt_current_thread k' = rt_current_thread k).
Proof.
  intros H [[Ht0 Ht1] [Hd0 Hd1] Hap] Hs Hn (y & Hy & Hv & Hq) Hpos. unfold refresh_text.
  apply wp_bind, wp_kernel_call. eapply wp_eq; [apply sem_take_available; [exact Hy|lia]|]. cbv beta iota. rewrite decide_True by done.
  eapply wp_memory_two; [apply (set_text m d_text text s MAX_STR); [done|done|done|done|lia]|].
  apply wp_bind. eapply wp_memory; [apply text_at_run, string_at_padded|].
  - apply Hs.
  - done.
  - done.
  - exact Hn.
  - apply wp_show. eexists. split; [reflexivity|]. split; [by apply kernel_inv_sems|]. split; [done|]. split; [|done].
    rewrite Hv. apply unseen_set; [done|done|]. destruct (so_range _ _ _ Hy). lia.
Qed.
(** A thread that goes to sleep leaves the reports alone. *)
Lemma unseen_asleep tick k k' n : asleep tick k k' → unseen k n → unseen k' n.
Proof.
  intros Ha (y & Hy & Hv & Hq).
  assert (queue k' (QSuspend oled_sem_event) = []) as Hq' by (rewrite (as_queues _ _ _ Ha); [done|by intros []]).
  exists y. split; [|done]. destruct Hy. constructor; try done.
  assert (semaphores k' = semaphores k) as -> by apply (objs_fields _ _ (as_objs _ _ _ Ha)). done.
Qed.
End Facts.

(** What a page shows when the arrays hold a text. *)
Definition drawable (bits : Z) (v : show) : Prop :=
  8 ≤ bits ∧ 0 ≤ offset v < 2 ^ bits ∧ (mode v = mode_static ∨ mode v = mode_dynamic ∧ wrapU bits (width v + 8) ≠ 0).
(** [shown] is the text in [d_text], [s] the one in [text].  A scrolling text is
    drawn at the offset and, one text and gap further each, at all the positions
    on the display up to the first that is behind its edge. *)
Definition page_of (bits : Z) (v : show) (shown s time_buf : list Z) (page : list draw) : Prop :=
  ∃ xs, page = xs ++ [DrawStr 5 24 time_buf] ∧
    if decide (mode v = mode_static) then xs = [DrawUTF8 5 48 shown]
    else ∃ n, (n ≤ 128)%nat ∧ xs = (λ i, DrawUTF8 (position bits (width v) (offset v) i) 48 s) <$> seq 0 (S n) ∧
      (∀ i, (1 ≤ i ≤ n)%nat → position bits (width v) (offset v) i < display_width) ∧
      display_width ≤ position bits (width v) (offset v) (S n).
Lemma draw_page_spec {D} text d_text bits s shown time_buf st m v (q : pins D) :
  drawable bits v → string_at m text s → string_at m d_text shown →
  wp (draw_page text d_text bits time_buf) (mkPanel st m v q) (λ page s', s' = mkPanel st m v q ∧ page_of bits v shown s time_buf page).
Proof.
  intros (Hb & Ho & Hmode) Ht Hd. unfold draw_page, page_of. apply wp_bind.
  apply wp_show_get. destruct Hmode as [Hs|[Hs Hw]].
  - rewrite decide_True by done. apply wp_bind. eapply wp_memory; [by apply text_at_run|]. apply wp_ret.
    split; [done|]. exists [DrawUTF8 5 48 shown]. split; [done|by rewrite decide_True].
  - assert (mode v ≠ mode_static) as Hns by by rewrite Hs. rewrite !decide_False, decide_True by done. apply wp_bind.
    destruct (scroll_ends_in bits (width v) Hb (offset v) Hw) as [xs E].
    destruct (scroll_shape bits (width v) Hb scroll_fuel (offset v) xs E ltac:(by apply Z.mod_small)) as (n & -> & Hn & Hin & Hout).
    rewrite E. apply wp_ret. apply wp_bind. eapply wp_memory; [by apply text_at_run|]. apply wp_ret. split; [done|].
    eexists. split; [reflexivity|]. rewrite ?decide_False by done. exists n. split; [unfold scroll_fuel in Hn; lia|]. by rewrite <-list_fmap_compose.
Qed.

(** *** A round of the thread that draws *)
Section Round.
Context {D : Type} `{!AllocOps station} (time_bits : Z) (R : addr) (others : addr → device_methods station unit).
Context (ble_mb_time : addr) (time_text stale_text : addr → list Z) (rt_kprintf : list Z → M station unit).
Context (oled_sem_event : addr) (text d_text bits : Z) (getUTF8Width : list Z → Z).
Implicit Types (q : pins D).

(** What the clock's part of the round gives, see WallClock. *)
Definition clock_part (buf : list Z) : M station (list Z) :=
  changeTime time_bits R others ble_mb_time time_text stale_text rt_kprintf;; getStrTime time_bits R others buf.

Lemma zoom_station_two {A B C} (f : M station A) (g : M station B) (rest : B → M (panel D) C) b st st' m v q (Q : C → panel D → Prop) :
  (f;; g) st = Ok (b, st') → wp (rest b) (mkPanel st' m v q) Q → wp (zoom f;; b ← zoom g; rest b) (mkPanel st m v q) Q.
Proof.
  intros E HQ. unfold mbind, M_bind in E. destruct (f st) as [[a s1]|] eqn:Ef; [|done].
  unfold wp, mbind, M_bind, zoom at 1. simpl. rewrite Ef. unfold zoom. simpl. by rewrite E.
Qed.

(** The offset and, in [mode_static], nothing else moves in a round without a new
    text. *)
Definition scrolled (v : show) : show := if decide (mode v = mode_dynamic) then scroll_step bits v else v.
Lemma display_round th buf time_buf s shown st k1 h1 r1 m v q n :
  clock_part buf st = Ok (time_buf, mkStation k1 h1 r1) → kernel_inv k1 → running k1 th →
  arrays text d_text m → string_at m text s → zlen s < MAX_STR → string_at m d_text shown → drawable bits v →
  unseen oled_sem_event k1 n →
  wp (u8g2_dst_thread time_bits R others ble_mb_time time_text stale_text rt_kprintf oled_sem_event text d_text bits getUTF8Width buf)
    (mkPanel st m v q) (λ '(page, c) s', c = Park (rt_current_thread k1) ∧ page_of bits v shown s time_buf page ∧
      pn_show s' = (if decide (0 < n) then (scrolled v) <| width := wrapU bits (getUTF8Width s) |> else scrolled v) ∧
      pn_memory s' = (if decide (0 < n) then splice m (Z.to_nat d_text) (padded (Z.to_nat MAX_STR) s) else m) ∧
      unseen oled_sem_event (st_kernel (pn_station s')) (if decide (0 < n) then n - 1 else n)).
Proof.
  intros Hclock H Hr Har Ht Hs Hd Hdraw Hn. unfold u8g2_dst_thread. unfold clock_part in Hclock.
  apply (zoom_station_two _ _ _ _ _ _ _ _ _ _ Hclock).
  apply wp_bind. eapply wp_mono; [exact (draw_page_spec text d_text bits s shown time_buf _ m v q Hdraw Ht Hd)|]. intros page ? [-> Hpage].
  apply wp_bind, wp_show. fold (scrolled v). set (v1 := scrolled v). apply wp_bind.
  assert (∀ k2 m2 v2 n2, kernel_inv k2 → running k2 th → rt_current_thread k2 = rt_current_thread k1 →
    unseen oled_sem_event k2 n2 →
    wp (w ← kernel_call (rt_thread_mdelay 10); mret (page, w)) (mkPanel (mkStation k2 h1 r1) m2 v2 q) (λ '(page, c) s',
      c = Park (rt_current_thread k1) ∧ page_of bits v shown s time_buf page ∧ pn_show s' = v2 ∧ pn_memory s' = m2 ∧ unseen oled_sem_event (st_kernel (pn_station s')) n2)) as Hsleep.
  { intros k2 m2 v2 n2 H2 Hr2 Ec Hn2. apply wp_bind, wp_kernel_call. eapply wp_mono; [apply (sleep_spec k2 th); [done|done|by vm_compute]|].
    intros c k3 [-> Ha]. apply wp_ret. rewrite Ec. split; [done|]. split; [done|]. split; [done|]. split; [done|].
    exact (unseen_asleep _ _ _ _ _ Ha Hn2). }
  destruct (decide (0 < n)) as [Hpos|Hpos].
  - destruct Har as [[Ht0 Ht1] [Hd0 Hd1] Hap].
    eapply wp_mono; [apply (refresh_spec oled_sem_event text d_text bits getUTF8Width s k1 h1 r1 m v1 q n); try done|].
    intros _ s' (k2 & -> & H2 & Hk2 & Hn2 & Hc2).
    exact (Hsleep k2 (splice m (Z.to_nat d_text) (padded (Z.to_nat MAX_STR) s)) (v1 <| width := wrapU bits (getUTF8Width s) |>) (n - 1) H2 (Hk2 th Hr) Hc2 Hn2).
  - unfold refresh_text. pose proof Hn as (y & Hy & Hv & _). pose proof (so_range _ _ _ Hy).
    apply wp_bind, wp_kernel_call. eapply wp_eq; [apply sem_take_empty with y; [exact Hy|lia]|]. cbv beta iota.
    rewrite decide_False by done. apply wp_ret. exact (Hsleep k1 m v1 n H Hr eq_refl Hn).
Qed.
End Round.

(** ** The button *)
Section Button.
Context {D : Type} `{!PinOps D, !PinSpec D} (btn_oled_mbt : addr) (mb_once mb_doub LED0 : Z).
Context (Honce : 0 ≤ mb_once < 2 ^ 32) (Hdoub : 0 ≤ mb_doub < 2 ^ 32) (Hne : mb_once ≠ mb_doub).

(** A press puts its mail into the empty mailbox and the control thread takes it
    out. *)
Lemma press_spec mail x k h r m v d :
  0 ≤ mail < 2 ^ 32 → kernel_inv k → current_ok k → mailbox_ok k btn_oled_mbt x → mails x = [] →
  wp (kernel_call (D := D) (rt_mb_send btn_oled_mbt mail);; btn_ctrl_entry btn_oled_mbt mb_once mb_doub) (mkPanel (mkStation k h r) m v (mkPins true d))
    (λ res s', res = Return tt ∧ pn_pins s' = mkPins true d ∧ pn_memory s' = m ∧
      pn_show s' = if decide (mail = mb_once) then v <| mode := mode_dynamic |>
                   else if decide (mail = mb_doub) then v <| mode := mode_static |> else v).
Proof.
  intros Hmail H Hc Hok Hm. pose proof (mw_size _ (mo_wf _ _ _ Hok)) as Hsize. pose proof (mw_entry _ (mo_wf _ _ _ Hok)).
  assert (mb_entry x = 0) as He by (pose proof (length_mails x) as E; rewrite Hm in E; simpl in E; lia).
  apply wp_bind, wp_kernel_call. eapply wp_mono; [apply (mb_send_spec k btn_oled_mbt x H Hc Hok mail 0); [lia|done]|].
  intros ? k1 (-> & x1 & Hm1 & _ & Hd). rewrite Hm in Hm1. unfold btn_ctrl_entry. apply wp_bind, wp_kernel_call.
  eapply wp_mono; [apply (mb_recv_spec k1 btn_oled_mbt x1); [apply Hd|apply Hd|apply Hd|]|].
  { pose proof (length_mails x1) as E. rewrite Hm1 in E. simpl in E. lia. }
  intros res k2 (v' & l' & x2 & Hm2 & -> & _). rewrite Hm1 in Hm2. injection Hm2 as <- <-. unfold button_mail.
  rewrite decide_True by done. apply wp_bind. apply wp_bind, wp_ret. apply wp_show. apply wp_ret. by repeat split.
Qed.
Lemma button_press (level_ mail : Z) x k h r m v d (callback := (zoom (rt_pin_write LED0 level_);; kernel_call (rt_mb_send btn_oled_mbt mail);; mret tt) : M (panel D) unit) :
  0 ≤ mail < 2 ^ 32 → kernel_inv k → current_ok k → mailbox_ok k btn_oled_mbt x → mails x = [] →
  wp (callback;; btn_ctrl_entry btn_oled_mbt mb_once mb_doub) (mkPanel (mkStation k h r) m v (mkPins true d)) (λ res s',
    res = Return tt ∧ level (pin_hw (pn_pins s')) LED0 = level_ ∧
    pn_show s' = if decide (mail = mb_once) then v <| mode := mode_dynamic |>
                 else if decide (mail = mb_doub) then v <| mode := mode_static |> else v).
Proof.
  intros Hmail H Hc Hok Hm. destruct (rt_pin_write_run d LED0 level_) as (d' & E & Hl & _).
  pose proof (press_spec mail x k h r m v d' Hmail H Hc Hok Hm) as Hp. unfold callback.
  apply wp_bind, wp_bind. unfold wp, zoom at 1. simpl. rewrite E. apply wp_bind.
  unfold wp in Hp |- *. unfold mbind, M_bind in Hp.
  destruct (kernel_call (rt_mb_send btn_oled_mbt mail) _) as [[c s1]|]; [|done]. simpl.
  destruct (btn_ctrl_entry _ _ _ s1) as [[res s2]|]; [|done]. destruct Hp as (-> & Eq & _ & Es). by rewrite Eq.
Qed.
End Button.

(** ** Speaking *)
Lemma strlen_ok s tail : Forall (λ c, 1 ≤ c < 256) s → strlen (s ++ 0 :: tail) = Ok (zlen s).
Proof.
  induction 1 as [|c s Hc Hs IH]; [done|]. cbn [strlen app]. rewrite decide_False by lia. rewrite IH. f_equal. unfold zlen. simpl. lia.
Qed.
(** [head] has room for the terminating zero only. *)
Lemma strcat_head s tail : Forall (λ c, 1 ≤ c < 256) s → strcat [0] (s ++ 0 :: tail) = if decide (s = []) then Ok [0] else Err FBounds.
Proof.
  intros Hs. unfold strcat. rewrite strlen_ok by done. simpl. destruct s as [|c s].
  - by rewrite !decide_True.
  - rewrite (decide_False (P := c :: s = [])) by done. rewrite decide_False; [done|]. unfold zlen. simpl. lia.
Qed.

Lemma arrays_splice text d_text m a xs : arrays text d_text m → 0 ≤ a → a + zlen xs ≤ zlen m → arrays text d_text (splice m (Z.to_nat a) xs).
Proof.
  intros [] Ha Hm. assert (zlen (splice m (Z.to_nat a) xs) = zlen m) as E by (unfold zlen in *; rewrite length_splice; lia).
  constructor; by rewrite ?E.
Qed.

(** ** The properties *)

(** C18: a text that comes by mail is shown.  The thread that takes texts empties the
    mailbox, copies the text and reports it; the next round of the thread that
    draws, whenever it comes and whatever the clock does in it, takes one report
    off the semaphore, and the text with its width; and from then on a page shows
    the text: at its place, or, when it scrolls, at the offset and at every
    position one text and gap further that is on the display. *)
Theorem text_shown {D} `{!AllocOps station} time_bits R others mb_time time_text stale kputs mb sem text d_text bits getUTF8Width
    x p l s k h r m v (q : pins D) n :
  kernel_inv k → current_ok k → mailbox_ok k mb x → mails x = p :: l → sem ≠ mb →
  arrays text d_text m → text_fits text m p s → unseen sem k n → n < RT_SEM_VALUE_MAX →
  wp (u8g2_get_txt mb sem text) (mkPanel (mkStation k h r) m v q) (λ res s1, res = Return tt ∧
    (∃ k1 x', pn_station s1 = mkStation k1 h r ∧ mailboxes k1 !! mb = Some x' ∧ mails x' = l ∧ unseen sem k1 (n + 1)) ∧
    (∀ shown, string_at m d_text shown → zlen shown < MAX_STR → string_at (pn_memory s1) d_text shown) ∧
    ∀ st th buf time_buf k2 h2 r2 n2 v2 shown,
      clock_part time_bits R others mb_time time_text stale kputs buf st = Ok (time_buf, mkStation k2 h2 r2) →
      kernel_inv k2 → running k2 th → unseen sem k2 n2 → 0 < n2 → drawable bits v2 → string_at (pn_memory s1) d_text shown →
      wp (u8g2_dst_thread time_bits R others mb_time time_text stale kputs sem text d_text bits getUTF8Width buf) (mkPanel st (pn_memory s1) v2 q)
        (λ _ s2, string_at (pn_memory s2) d_text s ∧ width (pn_show s2) = wrapU bits (getUTF8Width s) ∧
          unseen sem (st_kernel (pn_station s2)) (n2 - 1) ∧
          ∀ time_buf', drawable bits (pn_show s2) →
            wp (draw_page text d_text bits time_buf') s2 (λ page _, page_of bits (pn_show s2) s s time_buf' page))).
Proof.
  intros H Hc Hmb Hm Hne Har Hfits Hn Hmax.
  eapply wp_mono; [exact (get_txt_spec mb sem text d_text x p l s k h r m v q n H Hc Hmb Hm Hne Har Hfits Hn Hmax)|].
  intros res s1 (-> & k1 & x' & -> & _ & _ & Hx' & Hm' & Hn1). split; [done|]. split; [by exists k1, x'|].
  destruct Hfits as (Hs & Hlen & _). pose proof (ar_text _ _ _ Har) as [Ht0 Ht1]. pose proof (ar_d_text _ _ _ Har) as [Hd0 Hd1].
  assert (zlen (padded (Z.to_nat MAX_STR) s) = MAX_STR) as Hpad by (unfold zlen; by rewrite length_padded).
  set (m1 := splice m (Z.to_nat text) (padded (Z.to_nat MAX_STR) s)).
  assert (arrays text d_text m1) as Har1 by (apply arrays_splice; [done|done|by rewrite Hpad]).
  assert (string_at m1 text s) as Hs1 by (apply string_at_padded; [apply Hs|done|done|done]).
  split.
  { intros shown Hshown Hl. apply string_at_splice; [done|done|by rewrite Hpad|]. rewrite Hpad. destruct (ar_apart _ _ _ Har); lia. }
  intros st th buf time_buf k2 h2 r2 n2 v2 shown Hclock H2 Hr2 Hn2 Hpos Hdraw Hshown. cbn [pn_memory] in *.
  eapply wp_mono; [exact (display_round time_bits R others mb_time time_text stale kputs sem text d_text bits getUTF8Width
    th buf time_buf s shown st k2 h2 r2 m1 v2 q n2 Hclock H2 Hr2 Har1 Hs1 Hlen Hshown Hdraw Hn2)|].
  intros [page c] [st2 m2 v3 q2] (_ & _ & Ev & Em & Hn'). cbn [pn_memory pn_show] in *.
  rewrite decide_True in Ev by done. rewrite decide_True in Em by done. rewrite decide_True in Hn' by done.
  pose proof (ar_d_text _ _ _ Har1) as [_ Hd1'].
  assert (string_at m2 d_text s) as Hsd by (rewrite Em; apply string_at_padded; [apply Hs|done|done|done]).
  assert (string_at m2 text s) as Hst.
  { rewrite Em. apply string_at_splice; [done|done|by rewrite Hpad|]. rewrite Hpad. destruct (ar_apart _ _ _ Har); lia. }
  split; [done|]. split; [by rewrite Ev|]. split; [exact Hn'|]. intros time_buf' Hdraw'.
  eapply wp_mono; [exact (draw_page_spec text d_text bits s s time_buf' st2 m2 v3 q2 Hdraw' Hst Hsd)|]. by intros ? ? [_ ?].
Qed.

(** C38: a command that is not empty overruns [head].  [main] appends the text of every mail to
    an array that has room for a terminating zero only; it speaks nothing but empty texts. *)
Theorem speech_overruns {U} `{!UartOps U} heap_sem port mb mail_text utf82gbk Frame_Info x p l s tail (w : machine U) :
  kernel_inv (m_kernel w) → current_ok (m_kernel w) → mailbox_ok (m_kernel w) mb x → mails x = p :: l →
  mail_text p = s ++ 0 :: tail → Forall (λ c, 1 ≤ c < 256) s → s ≠ [] →
  main_round heap_sem port mb mail_text utf82gbk Frame_Info w = Err FBounds.
Proof.
  intros H Hc Hmb Hm Htext Hs Hne. assert (0 < mb_entry x) as He by (pose proof (length_mails x) as E; rewrite Hm in E; simpl in E; lia).
  pose proof (mb_recv_spec (m_kernel w) mb x H Hc Hmb RT_WAITING_FOREVER He) as Hrecv. unfold wp in Hrecv.
  unfold main_round, mbind at 1, M_bind, zoom. simpl part_get. destruct (rt_mb_recv mb RT_WAITING_FOREVER (m_kernel w)) as [[res k']|]; [|done].
  destruct Hrecv as (p' & l' & x' & Hm' & -> & _). rewrite Hm in Hm'. injection Hm' as <- <-.
  unfold speak_mail. rewrite decide_True by done. unfold mbind, M_bind, of_option. cbn [mret M_ret].
  rewrite Htext, strcat_head by done. rewrite decide_False by done. done.
Qed.

(** C35: what the button does.  A single press turns the lamp off and leaves the text
    standing; a double press turns the lamp on and makes it scroll. *)
Theorem button_modes {D} `{!PinOps D, !PinSpec D} mb mb_once mb_doub LED0 x k h r m v (d : D) :
  0 ≤ mb_once < 2 ^ 32 → 0 ≤ mb_doub < 2 ^ 32 → mb_once ≠ mb_doub →
  kernel_inv k → current_ok k → mailbox_ok k mb x → mails x = [] →
  wp (Btn1_Dowm_CallBack mb mb_doub LED0;; btn_ctrl_entry mb mb_once mb_doub) (mkPanel (mkStation k h r) m v (mkPins true d)) (λ res s',
    res = Return tt ∧ level (pin_hw (pn_pins s')) LED0 = PIN_HIGH ∧ pn_show s' = v <| mode := mode_static |>) ∧
  wp (Btn1_Double_CallBack mb mb_once LED0;; btn_ctrl_entry mb mb_once mb_doub) (mkPanel (mkStation k h r) m v (mkPins true d)) (λ res s',
    res = Return tt ∧ level (pin_hw (pn_pins s')) LED0 = PIN_LOW ∧ pn_show s' = v <| mode := mode_dynamic |>).
Proof.
  intros Ho Hd Hne H Hc Hok Hm. split.
  - eapply wp_mono; [exact (button_press mb mb_once mb_doub LED0 PIN_HIGH mb_doub x k h r m v d Hd H Hc Hok Hm)|].
    intros res s' (-> & Hl & ->). by rewrite decide_False, decide_True.
  - eapply wp_mono; [exact (button_press mb mb_once mb_doub LED0 PIN_LOW mb_once x k h r m v d Ho H Hc Hok Hm)|].
    intros res s' (-> & Hl & ->). by rewrite decide_True.
Qed.

(** ** Concrete instances *)
Definition O_oled : addr := 0x20001600.
Definition oled_text : Z := 0.
Definition oled_d_text : Z := 61.
(** The two arrays, empty, and behind them a text of two characters. *)
Definition panel_memory_bytes : memory := replicate 130 0 ++ [104; 105; 0].
Definition panel_kernel (n : Z) : kernel :=
  (scene_with (QSuspend 1) {[heap_guard := guard_sem; O_sem := a_sem n]} ∅ ∅ {[O_mb := clock_box 0; O_oled := a_mailbox [130; 0; 0] 1 0]} ∅)
    <| devices := {[clock_addr := a_clock]} |>
    <| object_lists := {[RT_Object_Class_Device := [Obj clock_addr]]} |>.
Definition panel_station_at (n : Z) : station := mkStation (panel_kernel n) taken_heap a_rtc.
Definition six_pixels (s : list Z) : Z := 6 * zlen s.
#[local] Instance panel_alloc : AllocOps station := lock_alloc heap_guard.
Definition panel_clock : list Z * station :=
  match clock_part 32 clock_addr no_driver O_mb (λ _, []) (λ _, []) (λ _, mret tt) (replicate 20 0) (panel_station_at 1) with
  | Ok r => r
  | Err _ => ([], panel_station_at 1)
  end.
Lemma panel_clock_run :
  clock_part 32 clock_addr no_driver O_mb (λ _, []) (λ _, []) (λ _, mret tt) (replicate 20 0) (panel_station_at 1) = Ok panel_clock.
Proof. vm_compute. reflexivity. Qed.
Lemma panel_text : string_at panel_memory_bytes 130 [104; 105].
Proof. apply (string_at_intro (replicate 130 0) [104; 105] []), (bool_decide_eq_true_1 _). by vm_compute. Qed.
Lemma panel_unseen n : 0 ≤ n ≤ RT_SEM_VALUE_MAX → unseen O_sem (panel_kernel n) n.
Proof. intros Hn. exists (a_sem n). split; [|done]. by constructor; [..|left| |]. Qed.

(** One text has come; the next round of the drawing thread, in which the clock shows
    1 January 2018, takes it. *)
Lemma text_shown_witness :
  wp (u8g2_get_txt O_oled O_sem oled_text) (mkPanel (panel_station_at 0) panel_memory_bytes (mkShow 0 0 0) (mkPins true ∅ : pins (gmap Z Z)))
    (λ res s1, res = Return tt ∧
      wp (u8g2_dst_thread 32 clock_addr no_driver O_mb (λ _, []) (λ _, []) (λ _, mret tt) O_sem oled_text oled_d_text 8 six_pixels (replicate 20 0))
        (mkPanel (panel_station_at 1) (pn_memory s1) (mkShow 1 252 20) (mkPins true ∅ : pins (gmap Z Z))) (λ _ s2,
          string_at (pn_memory s2) oled_d_text [104; 105] ∧ width (pn_show s2) = 12 ∧
          unseen O_sem (st_kernel (pn_station s2)) 0)).
Proof.
  eapply wp_mono; [apply (text_shown 32 clock_addr no_driver O_mb (λ _, []) (λ _, []) (λ _, mret tt) O_oled O_sem oled_text oled_d_text 8 six_pixels
    (a_mailbox [130; 0; 0] 1 0) 130 [] [104; 105] (panel_kernel 0) taken_heap a_rtc panel_memory_bytes (mkShow 0 0 0) (mkPins true ∅ : pins (gmap Z Z)) 0)|].
  - by_check.
  - by apply (running_ok _ (a_thread RT_THREAD_RUNNING 10 RT_EOK)).
  - constructor; [done|done|done|by left|]. by constructor.
  - done.
  - done.
  - by constructor; [..|left].
  - split; [apply panel_text|]. split; [done|by right].
  - by apply panel_unseen.
  - done.
  - intros res s1 (-> & _ & Hkeeps & Hround). split; [done|].
    eapply wp_mono; [apply (Hround (panel_station_at 1) (a_thread RT_THREAD_RUNNING 10 RT_EOK) (replicate 20 0) panel_clock.1
      (st_kernel panel_clock.2) (st_heap panel_clock.2) (st_rtc panel_clock.2) 1 (mkShow 1 252 20) [])|].
    + rewrite panel_clock_run. by destruct panel_clock as [? []].
    + by_check.
    + by vm_compute.
    + exists (a_sem 1). split; [|by vm_compute]. constructor; [by vm_compute|done|done|by left|done|done].
    + done.
    + split; [done|]. split; [done|]. by right.
    + apply Hkeeps; [|done]. by constructor.
    + intros ? s2 (Hs & Hw & Hn & _). split; [exact Hs|]. split; [exact Hw|exact Hn].
Defined.

(** A text of 20 pixels from the offset 252: four pixels left of the display, and four times on it. *)
Lemma scroll_ends_witness : ∃ n, (n ≤ 128)%nat ∧ scroll_loop 8 scroll_fuel 252 20 = Ok (position 8 20 252 <$> seq 0 (S n)) ∧
  display_width ≤ position 8 20 252 (S n).
Proof.
  destruct (scroll_ends 8 20 252) as [Hends _]; [done|done|]. destruct Hends as (n & Hn & E & _ & _ & Hout); [done|].
  exists n. split; [exact Hn|]. split; [exact E|exact Hout].
Defined.
Lemma speech_overruns_witness :
  main_round (U := pipe) O_sem 0x20003000 O_mb (λ _, [104; 105; 0]) (λ s, mret (0, s)) (replicate 50 0)
    (mkMachine (mb_scene (a_mailbox [5; 0; 0] 1 0) (QSuspend 1)) ∅ demo_heap) = Err FBounds.
Proof.
  apply (speech_overruns O_sem 0x20003000 O_mb (λ _, [104; 105; 0]) (λ s, mret (0, s)) (replicate 50 0) (a_mailbox [5; 0; 0] 1 0) 5 [] [104; 105] []).
  - by_check.
  - by apply (running_ok _ (a_thread RT_THREAD_RUNNING 10 RT_EOK)).
  - by apply mb_scene_ok.
  - done.
  - done.
  - by_evaluation.
  - done.
Defined.
Lemma button_modes_witness :
  wp (Btn1_Dowm_CallBack O_mb 200 8;; btn_ctrl_entry O_mb 100 200)
    (mkPanel (mkStation (mb_scene (a_mailbox [5; 0; 0] 0 0) (QSuspend 1)) demo_heap a_rtc) [] (mkShow mode_dynamic 0 0) (mkPins true (∅ : gmap Z Z)))
    (λ res s', res = Return tt ∧ level (pin_hw (pn_pins s')) 8 = PIN_HIGH ∧ pn_show s' = mkShow mode_static 0 0).
Proof.
  refine (proj1 (button_modes O_mb 100 200 8 (a_mailbox [5; 0; 0] 0 0) (mb_scene (a_mailbox [5; 0; 0] 0 0) (QSuspend 1))
    demo_heap a_rtc [] (mkShow mode_dynamic 0 0) (∅ : gmap Z Z) _ _ _ _ _ _ _)).
  - done.
  - done.
  - done.
  - by_check.
  - by apply (running_ok _ (a_thread RT_THREAD_RUNNING 10 RT_EOK)).
  - by apply mb_scene_ok.
  - done.
Defined.

(** The mailboxes of [main], made in a kernel that has them as plain objects. *)
Definition unused_box : rt_mailbox := mkMailbox (mkObject [0; 0; 0; 0; 0; 0; 0; 0] 0 0) [] 0 0 0 0.
Lemma mailbox_init_run :
  match mailbox_init 0x20001700 0x20001800 0x20001900 (mret tt)
    (scene_with (QSuspend 1) ∅ ∅ ∅ (list_to_map [(0x20001700, unused_box); (0x20001800, unused_box); (0x20001900, unused_box)]) ∅) with
  | Ok (r, k) => r = RT_EOK ∧ Forall (λ mb, (λ x, (mb_size x, mb_entry x)) <$> (mailboxes k !! mb) = Some (8, 0)) [0x20001700; 0x20001800; 0x20001900]
  | Err _ => False
  end.
Proof. vm_compute. by repeat constructor. Qed.
