(* ===== verification/Bluetooth.v ===== *)
(** * The Bluetooth command reader ([applications/bluetooth.c])

    The thread that collects the bytes of a command, echoes them, and mails the
    address of its buffer to the consumers of the command.  The calls of the
    thread are run one after the other; what other threads do between two of
    them is not part of a run. *)
From S2P Require Import Prelude Kernel Scheduler Object Timer Thread Ipc Decide Scenario Scheduling Registry Semaphore Mailbox Heap Allocator HeapLock MemPool Device Serial.

Definition DATA_CMD_END : Z := 97.
(** The macro is [30+1], without parentheses. *)
Definition ONE_DATA_MAXLEN : Z := 30 + 1.

(** The mailboxes of main.cpp a command can go to. *)
Inductive mbox := ble_mb_6288 | ble_mb_oled | ble_mb_time.
#[global] Instance mbox_eq_dec : EqDecision mbox.
Proof. solve_decision. Defined.

(** The local array [_data_] and the static counter [i]. *)
Record ble := mkBle { _data_ : list Z; ble_i : Z }.
#[global] Instance eta_ble : EtaRecord ble := λ b, mkBle (_data_ b) (ble_i b).

Record firmware (U : Type) := mkFirmware { fw_ble : ble; fw_machine : machine U }.
Arguments mkFirmware {U}.
Arguments fw_ble {U} f.
Arguments fw_machine {U} f.
#[global] Instance firmware_part_ble U : Part (firmware U) ble := MkPart _ _ fw_ble (λ b a, mkFirmware b (fw_machine a)).
#[global] Instance firmware_part_machine U : Part (firmware U) (machine U) :=
  MkPart _ _ fw_machine (λ m a, mkFirmware (fw_ble a) m).

(** [strchr(s, c) != NULL] *)
Fixpoint strchr (s : list Z) (c : Z) : outcome bool :=
  match s with
  | [] => Err FBounds
  | b :: s => if decide (b = c) then Ok true else if decide (b = 0) then Ok false else strchr s c
  end.

(** [_data_[i++] = v] *)
Definition data_push (v : Z) : M ble unit :=
  b ← gets id;
  d ← lift_outcome (array_set (_data_ b) (ble_i b) v);
  modify (λ b, b <| _data_ := d |> <| ble_i := u8 (ble_i b + 1) |>).

(** Lines 66-76: where a complete command goes. *)
Definition destinations : M ble (list mbox) :=
  b ← gets id;
  first ← lift_outcome (array_get (_data_ b) 0);
  if decide (first = 84) then mret [ble_mb_time]
  else
    bracket ← lift_outcome (strchr (_data_ b) 91);
    if decide (bracket = false) then mret [ble_mb_6288; ble_mb_oled] else mret [ble_mb_6288].

(** Lines 59-84: one received byte. *)
Definition parse_char (ch : Z) : M ble (list mbox) :=
  if decide (ch = DATA_CMD_END) then
    data_push 0;;
    mbs ← destinations;
    modify (λ b, b <| ble_i := 0 |>);;
    mret mbs
  else
    modify (λ b, b <| ble_i := if decide (ONE_DATA_MAXLEN - 1 ≤ ble_i b) then ONE_DATA_MAXLEN - 1 else ble_i b |>);;
    data_push ch;;
    mret [].

Section Thread.
Context {U : Type} `{!UartOps U} (heap_sem ble_serial ble_rxsem : addr).
(** The addresses of the mailboxes and of the array [_data_]. *)
Context (mb_at : mbox → addr) (data_at : addr).

Definition uart_rx_ind (dev : addr) (size : Z) : M (machine U) Z :=
  (if decide (0 < size) then zoom (rt_sem_release ble_rxsem);; mret tt else mret tt);; mret RT_EOK.

(** [fuel] bounds the rounds in which the semaphore was taken and there was
    still nothing to read. *)
Fixpoint uart_sample_get_char (fuel : nat) : M (machine U) (call Z addr) :=
  match fuel with
  | O => fail FFuel
  | Datatypes.S fuel =>
      data ← rt_device_read (board heap_sem) ble_serial 0 1;
      match data with
      | ch :: _ => mret (Return ch)
      | [] =>
          zoom (rt_sem_control ble_rxsem RT_IPC_CMD_RESET 0);;
          r ← zoom (rt_sem_take ble_rxsem RT_WAITING_FOREVER);
          match r with
          | Return _ => uart_sample_get_char fuel
          | Park thread => mret (Park thread)
          end
      end
  end.

Fixpoint send_mails (mbs : list mbox) : M kernel unit :=
  match mbs with
  | [] => mret tt
  | mb :: mbs => rt_mb_send (mb_at mb) data_at;; send_mails mbs
  end.

(** One round of the loop of [data_parsing]. *)
Definition data_parsing (fuel : nat) : M (firmware U) (call unit addr) :=
  r ← zoom (uart_sample_get_char fuel);
  match r with
  | Park thread => mret (Park thread)
  | Return ch =>
      zoom (rt_device_write (board heap_sem) ble_serial 0 [ch]);;
      mbs ← zoom (parse_char ch);
      zoom (zoom (send_mails mbs) : M (machine U) unit);;
      mret (Return tt)
  end.
(** [n] rounds that do not wait. *)
Fixpoint data_parsing_rounds (n fuel : nat) : M (firmware U) (call unit addr) :=
  match n with
  | O => mret (Return tt)
  | Datatypes.S n =>
      r ← data_parsing fuel;
      match r with
      | Return _ => data_parsing_rounds n fuel
      | Park thread => mret (Park thread)
      end
  end.
End Thread.

(** ** What a command means *)
Definition command_route (cs : list Z) : list mbox :=
  if decide (head cs = Some 84) then [ble_mb_time]
  else if decide (91 ∈ cs) then [ble_mb_6288] else [ble_mb_6288; ble_mb_oled].
(** Bytes of a command: neither the end marker nor a zero byte. *)
Definition command_byte (c : Z) : Prop := 1 ≤ c < 256 ∧ c ≠ DATA_CMD_END.

(** ** The buffer *)
Lemma strchr_text cs tail c :
  Forall (λ c, 1 ≤ c < 256) cs → c ≠ 0 → strchr (cs ++ 0 :: tail) c = Ok (bool_decide (c ∈ cs)).
Proof.
  intros Hcs Hc. induction Hcs as [|b cs Hb Hcs IH]; cbn [strchr app].
  - rewrite decide_False by done. rewrite bool_decide_eq_false_2; [done|apply not_elem_of_nil].
  - destruct (decide (b = c)) as [Hbc|Hbc].
    + rewrite bool_decide_eq_true_2; [done|]. subst b. left.
    + rewrite decide_False by lia. rewrite IH. f_equal. apply bool_decide_ext. rewrite elem_of_cons. naive_solver.
Qed.

(** [cs] has been collected. *)
Definition collected (b : ble) (cs : list Z) : Prop :=
  zlen (_data_ b) = ONE_DATA_MAXLEN ∧ ble_i b = zlen cs ∧ take (length cs) (_data_ b) = cs.

Lemma collected_set b cs v :
  collected b cs → zlen cs < 31 →
  data_push v b = Ok (tt, mkBle (<[length cs := v]> (_data_ b)) (zlen cs + 1)) ∧
  collected (mkBle (<[length cs := v]> (_data_ b)) (zlen cs + 1)) (cs ++ [v]).
Proof.
  intros (Hl & Hi & Ht) Hn. unfold ONE_DATA_MAXLEN in *. split.
  - unfold data_push. erewrite bind_ok by reflexivity. unfold id. rewrite Hi.
    erewrite bind_ok; [|apply lift_ok; unfold array_set; rewrite decide_True by (unfold zlen in *; lia); reflexivity].
    unfold modify. simpl. do 2 f_equal. unfold zlen. rewrite Nat2Z.id. f_equal. rewrite Hi.
    apply u8_byte. unfold zlen in *. lia.
  - split; [|split].
    + unfold zlen in *. simpl. by rewrite length_insert.
    + unfold zlen. rewrite length_app. simpl. lia.
    + rewrite length_app. simpl. assert (length cs < length (_data_ b))%nat as Hlt by (unfold zlen in *; lia).
      rewrite Nat.add_1_r. erewrite take_S_r; [|by apply list_lookup_insert_eq].
      by rewrite take_insert_ge, Ht.
Qed.

Lemma parse_collect b cs ch :
  collected b cs → zlen cs ≤ 30 → ch ≠ DATA_CMD_END →
  ∃ b', parse_char ch b = Ok ([], b') ∧ collected b' (cs ++ [ch]).
Proof.
  intros Hc Hn Hch. pose proof Hc as (Hl & Hi & Ht). destruct (collected_set b cs ch Hc) as [E Hc']; [lia|].
  eexists. split; [|exact Hc']. unfold parse_char. rewrite decide_False by done.
  erewrite bind_ok by reflexivity.
  assert (b <| ble_i := if decide (ONE_DATA_MAXLEN - 1 ≤ ble_i b) then ONE_DATA_MAXLEN - 1 else ble_i b |> = b) as ->.
  { destruct b as [d i]. simpl in *. subst i. unfold ONE_DATA_MAXLEN in *. case_decide; [|done]. f_equal. lia. }
  by rewrite (bind_ok _ _ _ _ _ E).
Qed.

(** The buffer after the end marker: the text with its terminating zero. *)
Definition holds_command (b : ble) (cs : list Z) : Prop :=
  zlen (_data_ b) = ONE_DATA_MAXLEN ∧ ble_i b = 0 ∧ ∃ tail, _data_ b = cs ++ 0 :: tail.
Lemma holds_collected b cs : holds_command b cs → collected b [].
Proof. intros (Hl & Hi & _). done. Qed.

Lemma parse_end b cs :
  collected b cs → zlen cs ≤ 30 → Forall (λ c, 1 ≤ c < 256) cs →
  ∃ b', parse_char DATA_CMD_END b = Ok (command_route cs, b') ∧ holds_command b' cs.
Proof.
  intros Hc Hn Hcs. destruct (collected_set b cs 0 Hc) as [E (Hl & Hi & Ht)]; [lia|].
  set (b1 := mkBle (<[length cs := 0]> (_data_ b)) (zlen cs + 1)) in *.
  assert (∃ tail, _data_ b1 = cs ++ 0 :: tail) as (tail & Ed).
  { exists (drop (length (cs ++ [0])) (_data_ b1)). rewrite <-(take_drop (length (cs ++ [0])) (_data_ b1)) at 1.
    by rewrite Ht, <-app_assoc. }
  exists (mkBle (_data_ b1) 0). split; [|split; [done|split; [done|by exists tail]]].
  unfold parse_char. rewrite decide_True by done. rewrite (bind_ok _ _ _ _ _ E).
  assert (destinations b1 = Ok (command_route cs, b1)) as Ed'.
  { unfold destinations, command_route. erewrite bind_ok by reflexivity. unfold id. rewrite Ed.
    assert (array_get (cs ++ 0 :: tail) 0 = Ok (hd 0 cs)) as Eh by by destruct cs.
    rewrite (bind_ok _ _ _ _ _ (lift_ok _ _ _ Eh)).
    assert (hd 0 cs = 84 ↔ head cs = Some 84) as Hhd by (destruct cs; simpl; [done|naive_solver]).
    destruct (decide (hd 0 cs = 84)) as [H84|H84].
    - by rewrite decide_True by tauto.
    - rewrite (decide_False (P := head cs = Some 84)) by tauto.
      rewrite (bind_ok _ _ _ _ _ (lift_ok _ _ _ (strchr_text cs tail 91 Hcs ltac:(done)))).
      destruct (decide (91 ∈ cs)) as [Hin|Hin].
      + rewrite bool_decide_eq_true_2 by done. by rewrite decide_False.
      + rewrite bool_decide_eq_false_2 by done. by rewrite decide_True. }
  by rewrite (bind_ok _ _ _ _ _ Ed').
Qed.

(** One byte too many: from then on the end marker writes behind the array. *)
Definition overfull (b : ble) : Prop := zlen (_data_ b) = ONE_DATA_MAXLEN ∧ ble_i b = 31.
Lemma collected_overfull b cs : collected b cs → zlen cs = 31 → overfull b.
Proof. intros (Hl & Hi & _) Hn. split; [done|]. by rewrite Hi. Qed.
Lemma overfull_keeps b ch : overfull b → ch ≠ DATA_CMD_END → ∃ b', parse_char ch b = Ok ([], b') ∧ overfull b'.
Proof.
  intros [Hl Hi] Hch. destruct b as [d i]. simpl in *. subst i. unfold ONE_DATA_MAXLEN in *.
  exists (mkBle (<[30%nat := ch]> d) 31). split.
  - unfold parse_char. rewrite decide_False by done. erewrite bind_ok by reflexivity.
    rewrite (bind_ok _ _ _ tt (mkBle (<[30%nat := ch]> d) 31)); [done|].
    match goal with |- data_push ch ?b = _ => change b with (mkBle d 30) end.
    unfold data_push. erewrite bind_ok by reflexivity. unfold id.
    erewrite bind_ok; [|apply lift_ok; unfold array_set; rewrite decide_True by (simpl; lia); reflexivity]. done.
  - split; [|done]. unfold zlen in *. simpl. by rewrite length_insert.
Qed.
Lemma overfull_faults b : overfull b → parse_char DATA_CMD_END b = Err FBounds.
Proof.
  intros [Hl Hi]. unfold parse_char. rewrite decide_True by done. apply bind_err.
  unfold data_push. erewrite bind_ok by reflexivity. unfold id. apply bind_err, lift_err.
  unfold array_set. rewrite decide_False; [done|]. rewrite Hl, Hi. unfold ONE_DATA_MAXLEN. lia.
Qed.

(** ** Mailing *)

(** A mailbox after one mail: the mail is lost when the box is full. *)
Definition posted (size : Z) (l : list Z) (v : Z) : list Z :=
  if decide (zlen l < size) then l ++ [v] else l.

Lemma mb_post k mb x v :
  kernel_inv k → current_ok k → mailbox_ok k mb x → 0 ≤ v < 2 ^ 32 →
  wp (rt_mb_send mb v) k (λ _ k', kernel_inv k' ∧ current_ok k' ∧ devices k' = devices k ∧
    ∃ x', mailbox_ok k' mb x' ∧ mb_size x' = mb_size x ∧ mails x' = posted (mb_size x) (mails x) v ∧
      mailboxes k' = <[mb := x']> (mailboxes k)).
Proof.
  intros H Hc Hok Hv. pose proof (length_mails x) as Hlen. pose proof (mw_entry _ (mo_wf _ _ _ Hok)) as He.
  unfold rt_mb_send, posted, zlen. destruct (decide (mb_entry x < mb_size x)) as [Hroom|Hfull].
  - eapply wp_mono; [by apply (mb_send_spec k mb x H Hc Hok v 0)|].
    intros r k' (-> & x' & Hm & Hs & Hd). split; [apply Hd|]. split; [apply Hd|]. split; [apply Hd|].
    exists x'. split; [apply Hd|]. split; [done|]. split; [|apply Hd]. by rewrite decide_True by lia.
  - eapply wp_eq; [apply (mb_send_full k mb x H Hc Hok); lia|]. split; [done|]. split; [done|]. split; [done|].
    exists x. split; [done|]. split; [done|]. split; [by rewrite decide_False by lia|].
    symmetry. apply insert_id, Hok.
Qed.

Lemma mailbox_ok_other k k' mb mb' x x' :
  mailbox_ok k mb' x → mailboxes k' = <[mb := x']> (mailboxes k) → mb' ≠ mb → mailbox_ok k' mb' x.
Proof. intros [] E Hne. constructor; try done. by rewrite E, lookup_insert_ne. Qed.

Section Mailing.
Context (mb_at : mbox → addr) (data_at : addr) `{!Inj (=) (=) mb_at} (Hdata : 0 ≤ data_at < 2 ^ 32).

(** What happened to the three mailboxes. *)
Definition mailed (mbs : list mbox) (k k' : kernel) : Prop :=
  ∀ mb x, mailbox_ok k (mb_at mb) x → ∃ x', mailbox_ok k' (mb_at mb) x' ∧ mb_size x' = mb_size x ∧
    mails x' = if decide (mb ∈ mbs) then posted (mb_size x) (mails x) data_at else mails x.

Lemma send_mails_spec mbs : ∀ k,
  NoDup mbs → kernel_inv k → current_ok k → (∀ mb, mb ∈ mbs → ∃ x, mailbox_ok k (mb_at mb) x) →
  wp (send_mails mb_at data_at mbs) k (λ _ k', kernel_inv k' ∧ current_ok k' ∧ devices k' = devices k ∧ mailed mbs k k').
Proof.
  induction mbs as [|mb mbs IH]; intros k Hnd H Hc Hall; cbn [send_mails].
  { wp_steps. split; [done|]. split; [done|]. split; [done|]. intros mb x Hx. exists x.
    rewrite decide_False by apply not_elem_of_nil. done. }
  apply NoDup_cons in Hnd as [Hmb Hnd]. destruct (Hall mb) as (x0 & Hx0); [left|].
  wp_steps. eapply wp_mono; [by apply (mb_post k (mb_at mb) x0 data_at)|].
  intros _ k1 (H1 & Hc1 & Hd1 & x1 & Hx1 & Hs1 & Hm1 & Eb).
  assert (∀ mb' x, mb' ≠ mb → mailbox_ok k (mb_at mb') x → mailbox_ok k1 (mb_at mb') x) as Hoth.
  { intros mb' x Hne Hx. eapply mailbox_ok_other; [done|done|]. intros E. by apply Hne, (inj mb_at). }
  eapply wp_mono; [apply (IH k1); [done|done|done|]|].
  - intros mb' Hin. destruct (Hall mb') as (x & Hx); [by right|]. exists x. apply Hoth; [|done].
    by intros ->.
  - intros _ k' (H' & Hc' & Hd' & Hmail). split; [done|]. split; [done|]. split; [congruence|].
    intros mb' x Hx. destruct (decide (mb' = mb)) as [->|Hne].
    + assert (x = x0) as -> by (apply (inj Some); rewrite <-(mo_lookup _ _ _ Hx); apply Hx0).
      destruct (Hmail mb x1 Hx1) as (x' & Hx' & Hs' & Hm'). exists x'. split; [done|]. split; [congruence|].
      rewrite decide_False in Hm' by done. rewrite decide_True by left. congruence.
    + destruct (Hmail mb' x (Hoth mb' x Hne Hx)) as (x' & Hx' & Hs' & Hm'). exists x'. split; [done|]. split; [done|].
      rewrite Hm'. assert (mb' ∈ mb :: mbs ↔ mb' ∈ mbs) as Hiff by (rewrite elem_of_cons; naive_solver).
      destruct (decide (mb' ∈ mbs)); [by rewrite decide_True by tauto|by rewrite decide_False by tauto].
Qed.
End Mailing.

(** ** The thread's rounds *)
Section Rounds.
Context {U : Type} `{UartSpec U} (heap_sem ble_serial ble_rxsem : addr).
Context (mb_at : mbox → addr) (data_at : addr) `{!Inj (=) (=) mb_at} (Hdata : 0 ≤ data_at < 2 ^ 32).
Context (d : rt_device) (c : serial_configure).
Context (Hu : in_use d) (Hraw : Z.land (open_flag d) RT_DEVICE_FLAG_STREAM = 0).
#[local] Abbreviation port := (port_inv d ble_serial c).
#[local] Abbreviation round := (data_parsing heap_sem ble_serial ble_rxsem mb_at data_at).
#[local] Abbreviation rounds := (data_parsing_rounds heap_sem ble_serial ble_rxsem mb_at data_at).
Implicit Types (m : machine U) (f : firmware U).

Lemma port_raw m q ss data : port m q [] (ss ++ line_bytes d data) → port m q [] (ss ++ data).
Proof.
  intros Hp. assert (line_bytes d data = data) as <-; [|done].
  unfold line_bytes. clear Hp. induction data as [|x data IH]; [done|]. simpl.
  rewrite decide_False by (rewrite Hraw; by intros [_ []]). simpl. f_equal. exact IH.
Qed.

(** The next byte is read and echoed. *)
Lemma round_reads m b fuel ch q ss :
  port m (ch :: q) [] ss → ∃ m1, port m1 q [] (ss ++ [ch]) ∧ m_kernel m1 = m_kernel m ∧
    round (S fuel) (mkFirmware b m) =
    (mbs ← zoom (parse_char ch);
     zoom (zoom (send_mails mb_at data_at mbs) : M (machine U) unit);;
     mret (Return tt)) (mkFirmware b m1).
Proof.
  intros Hp. destruct (device_read_spec heap_sem m ble_serial d c (ch :: q) [] ss 0 1 Hp Hu) as (m0 & E0 & Hp0 & Ho0); [done|].
  change (Z.to_nat 1) with 1%nat in *. simpl in E0, Hp0.
  destruct (device_write_spec heap_sem m0 ble_serial d c q [] ss 0 [ch] Hp0 Hu) as (m1 & E1 & Hp1 & Ho1).
  exists m1. split; [by apply port_raw|]. split; [by rewrite (proj1 Ho1), (proj1 Ho0)|].
  unfold data_parsing.
  assert (zoom (uart_sample_get_char heap_sem ble_serial ble_rxsem (S fuel)) (mkFirmware b m) =
          Ok (Return ch, mkFirmware b m0)) as Eg.
  { unfold zoom. simpl. unfold mbind, M_bind. by rewrite E0. }
  rewrite (bind_ok _ _ _ _ _ Eg). cbv beta iota.
  rewrite (bind_ok _ _ _ (zlen [ch]) (mkFirmware b m1)); [done|]. unfold zoom. simpl. by rewrite E1.
Qed.
Lemma zoom_ble {A} (p : M ble A) b m a b' : p b = Ok (a, b') → zoom p (mkFirmware b m) = Ok (a, mkFirmware b' m).
Proof. intros E. unfold zoom. simpl. by rewrite E. Qed.

Lemma round_quiet m b fuel ch q ss b' :
  port m (ch :: q) [] ss → parse_char ch b = Ok ([], b') →
  ∃ m1, port m1 q [] (ss ++ [ch]) ∧ m_kernel m1 = m_kernel m ∧
    round (S fuel) (mkFirmware b m) = Ok (Return tt, mkFirmware b' m1).
Proof.
  intros Hp E. destruct (round_reads m b fuel ch q ss Hp) as (m1 & Hp1 & Hk & ->). exists m1.
  split; [done|]. split; [done|]. rewrite (bind_ok _ _ _ _ _ (zoom_ble _ _ _ _ _ E)). by destruct m1.
Qed.
Lemma rounds_step n m b fuel m1 b1 :
  round fuel (mkFirmware b m) = Ok (Return tt, mkFirmware b1 m1) →
  rounds (S n) fuel (mkFirmware b m) = rounds n fuel (mkFirmware b1 m1).
Proof. intros E. cbn [data_parsing_rounds]. by rewrite (bind_ok _ _ _ _ _ E). Qed.

(** The bytes of a command up to the end of the buffer. *)
Lemma rounds_collect cs2 : ∀ cs1 m b fuel q ss n,
  port m (cs2 ++ q) [] ss → collected b cs1 → zlen cs1 + zlen cs2 ≤ 31 →
  Forall (λ c, c ≠ DATA_CMD_END) cs2 →
  ∃ m1 b1, port m1 q [] (ss ++ cs2) ∧ m_kernel m1 = m_kernel m ∧ collected b1 (cs1 ++ cs2) ∧
    rounds (length cs2 + n) (S fuel) (mkFirmware b m) = rounds n (S fuel) (mkFirmware b1 m1).
Proof.
  induction cs2 as [|ch cs2 IH]; intros cs1 m b fuel q ss n Hp Hb Hn Hcs.
  { exists m, b. rewrite !app_nil_r. done. }
  apply Forall_cons in Hcs as [Hch Hcs]. unfold zlen in Hn. simpl in Hn.
  destruct (parse_collect b cs1 ch Hb) as (b0 & E0 & Hb0); [unfold zlen; lia|done|].
  destruct (round_quiet m b fuel ch (cs2 ++ q) ss b0 Hp E0) as (m0 & Hp0 & Hk0 & Er).
  destruct (IH (cs1 ++ [ch]) m0 b0 fuel q (ss ++ [ch]) n Hp0 Hb0) as (m1 & b1 & Hp1 & Hk1 & Hb1 & Es).
  { unfold zlen. rewrite length_app. simpl. lia. }
  { done. }
  exists m1, b1. rewrite <-!app_assoc in Hp1, Hb1. split; [done|]. split; [congruence|]. split; [done|].
  rewrite <-Es. by apply rounds_step.
Qed.
(** And beyond it. *)
Lemma rounds_overfull cs : ∀ m b fuel q ss n,
  port m (cs ++ q) [] ss → overfull b → Forall (λ c, c ≠ DATA_CMD_END) cs →
  ∃ m1 b1, port m1 q [] (ss ++ cs) ∧ overfull b1 ∧
    rounds (length cs + n) (S fuel) (mkFirmware b m) = rounds n (S fuel) (mkFirmware b1 m1).
Proof.
  induction cs as [|ch cs IH]; intros m b fuel q ss n Hp Hb Hcs.
  { exists m, b. by rewrite app_nil_r. }
  apply Forall_cons in Hcs as [Hch Hcs]. destruct (overfull_keeps b ch Hb Hch) as (b0 & E0 & Hb0).
  destruct (round_quiet m b fuel ch (cs ++ q) ss b0 Hp E0) as (m0 & Hp0 & Hk0 & Er).
  destruct (IH m0 b0 fuel q (ss ++ [ch]) n Hp0 Hb0 Hcs) as (m1 & b1 & Hp1 & Hb1 & Es).
  exists m1, b1. rewrite <-!app_assoc in Hp1. split; [done|]. split; [done|]. rewrite <-Es. by apply rounds_step.
Qed.
End Rounds.

Lemma command_bytes cs :
  Forall command_byte cs → Forall (λ c, c ≠ DATA_CMD_END) cs ∧ Forall (λ c, 1 ≤ c < 256) cs.
Proof. intros Hcs. split; (eapply Forall_impl; [exact Hcs|]); by intros c [? ?]. Qed.

Lemma command_route_NoDup cs : NoDup (command_route cs).
Proof. unfold command_route. repeat case_decide; apply (bool_decide_eq_true_1 _); by vm_compute. Qed.

(** C17: a command of at most 30 bytes that has arrived on the Bluetooth port is
    taken in whole.  After as many rounds of the reader as it has bytes and one
    for the end marker, the port has echoed it, the buffer holds it as a string,
    the address of the buffer has been mailed where the command goes (a time
    to the clock, a text with a bracket to the synthesiser, any other text to
    the synthesiser and the display; a mailbox that is full drops it) and nowhere
    else, and what follows it on
    the line is still unread. *)
Theorem command_delivered {U} `{UartSpec U} heap_sem dev rx_sem mb_at data_at d c (m : machine U) b cs rest ss fuel :
  Inj (=) (=) mb_at → 0 ≤ data_at < 2 ^ 32 → in_use d → Z.land (open_flag d) RT_DEVICE_FLAG_STREAM = 0 →
  kernel_inv (m_kernel m) → current_ok (m_kernel m) →
  (∀ mb, ∃ x, mailbox_ok (m_kernel m) (mb_at mb) x) →
  port_inv d dev c m (cs ++ DATA_CMD_END :: rest) [] ss → collected b [] →
  Forall command_byte cs → zlen cs ≤ 30 →
  wp (data_parsing_rounds heap_sem dev rx_sem mb_at data_at (length cs + 1) (S fuel)) (mkFirmware b m) (λ r f,
    r = Return tt ∧ holds_command (fw_ble f) cs ∧
    port_inv d dev c (fw_machine f) rest [] (ss ++ cs ++ [DATA_CMD_END]) ∧
    mailed mb_at data_at (command_route cs) (m_kernel m) (m_kernel (fw_machine f)) ∧
    kernel_inv (m_kernel (fw_machine f)) ∧ current_ok (m_kernel (fw_machine f))).
Proof.
  intros Hinj Hdata Hu Hraw Hk Hc Hbox Hp Hb Hcs Hn. destruct (command_bytes cs Hcs) as [Hend Htext].
  destruct (rounds_collect heap_sem dev rx_sem mb_at data_at d c Hu Hraw cs [] m b fuel
    (DATA_CMD_END :: rest) ss 1 Hp Hb) as (m1 & b1 & Hp1 & Hk1 & Hb1 & Er); [unfold zlen in *; simpl; lia|done|].
  unfold wp at 1. rewrite Er. clear Er. cbn [data_parsing_rounds]. simpl in Hb1.
  destruct (parse_end b1 cs Hb1 Hn Htext) as (b2 & E2 & Hb2).
  destruct (round_reads heap_sem dev rx_sem mb_at data_at d c Hu Hraw m1 b1 fuel DATA_CMD_END rest _ Hp1)
    as (m2 & Hp2 & Hk2 & E3).
  unfold mbind at 1, M_bind at 1. rewrite E3, (bind_ok _ _ _ _ _ (zoom_ble _ _ _ _ _ E2)).
  rewrite <-app_assoc in Hp2. assert (m_kernel m2 = m_kernel m) as Ek by congruence.
  pose proof (send_mails_spec mb_at data_at Hdata (command_route cs) (m_kernel m2) (command_route_NoDup cs)) as Hsend.
  rewrite Ek in Hsend. specialize (Hsend Hk Hc (λ mb _, Hbox mb)).
  apply wp_ok in Hsend as ([] & k' & E4 & Hk' & Hc' & Hd' & Hm').
  erewrite bind_ok; [|unfold zoom; simpl; by rewrite Ek, E4]. cbv beta. simpl.
  split; [done|]. split; [done|]. split; [|done].
  destruct Hp2 as [[Hnull (dd & Hdd & Hfl) Hport] Hd]. rewrite Ek in Hdd, Hd. split.
  - split; [done| |done]. exists dd. simpl. by rewrite Hd'.
  - simpl. by rewrite Hd'.
Qed.

(** C37: a command of more than 30 bytes is not cut off.  Its end marker is
    stored behind the 31 bytes of the buffer. *)
Theorem command_overrun {U} `{UartSpec U} heap_sem dev rx_sem mb_at data_at d c (m : machine U) b cs rest ss fuel :
  in_use d → Z.land (open_flag d) RT_DEVICE_FLAG_STREAM = 0 →
  port_inv d dev c m (cs ++ DATA_CMD_END :: rest) [] ss → collected b [] →
  Forall command_byte cs → 31 ≤ zlen cs →
  data_parsing_rounds heap_sem dev rx_sem mb_at data_at (length cs + 1) (S fuel) (mkFirmware b m) = Err FBounds.
Proof.
  intros Hu Hraw Hp Hb Hcs Hn. destruct (command_bytes cs Hcs) as [Hend _].
  rewrite <-(take_drop 31 cs) in Hp, Hend |- *. rewrite <-app_assoc in Hp. apply Forall_app in Hend as [He1 He2].
  rewrite length_app, <-Nat.add_assoc.
  assert (length (take 31 cs) = 31%nat) as Hl by (rewrite length_take; unfold zlen in Hn; lia).
  destruct (rounds_collect heap_sem dev rx_sem mb_at data_at d c Hu Hraw (take 31 cs) [] m b fuel
    (drop 31 cs ++ DATA_CMD_END :: rest) ss (length (drop 31 cs) + 1) Hp Hb) as (m1 & b1 & Hp1 & _ & Hb1 & ->);
    [unfold zlen; simpl; lia|done|].
  destruct (rounds_overfull heap_sem dev rx_sem mb_at data_at d c Hu Hraw (drop 31 cs) m1 b1 fuel
    (DATA_CMD_END :: rest) _ 1 Hp1) as (m2 & b2 & Hp2 & Hb2 & ->); [|done|].
  { apply (collected_overfull _ (take 31 cs)); [done|]. unfold zlen. by rewrite Hl. }
  cbn [data_parsing_rounds].
  destruct (round_reads heap_sem dev rx_sem mb_at data_at d c Hu Hraw m2 b2 fuel DATA_CMD_END rest _ Hp2)
    as (m3 & Hp3 & _ & E3).
  apply bind_err. rewrite E3. apply bind_err. unfold zoom. simpl. by rewrite overfull_faults.
Qed.

(** ** Concrete instances *)
Definition mb_address (mb : mbox) : addr :=
  match mb with ble_mb_6288 => O_mb | ble_mb_oled => O_mb + 256 | ble_mb_time => O_mb + 512 end.
#[global] Instance mb_address_inj : Inj (=) (=) mb_address.
Proof. by intros [] []. Qed.
Definition empty_box : rt_mailbox := a_mailbox [0; 0; 0] 0 0.
Definition ble_kernel : kernel :=
  set_dev D_uart (a_device 0x513 0x108 1)
    (scene_with (QSuspend 1) ∅ ∅ ∅
       {[ mb_address ble_mb_6288 := empty_box; mb_address ble_mb_oled := empty_box; mb_address ble_mb_time := empty_box ]} ∅).
Definition ble_config : serial_configure := RT_SERIAL_CONFIG_DEFAULT.
(** The FIFO of the port after the bytes [l] have arrived. *)
Definition filled_fifo (l : list Z) : rt_serial_rx_fifo :=
  mkFifo (l ++ replicate (64 - length l) 0) (zlen l) 0 false.
Definition ble_machine (l : list Z) : machine pipe :=
  mkMachine ble_kernel {[ D_uart := mkSerial ble_config (Some (0x20003100, filled_fifo l)) None (mkPipe [] [] None) ]} demo_heap.
Definition fresh_ble : ble := mkBle (replicate 31 0) 0.

Lemma filled_fifo_rep l :
  zlen l < 64 → Forall (λ c, byte c) l → fifo_rep 64 (filled_fifo l) l.
Proof.
  intros Hl Hb. unfold zlen in *. split; simpl; unfold wrap; try done.
  - unfold zlen. rewrite length_app, length_replicate. lia.
  - unfold zlen. by rewrite decide_True.
  - intros i x Hi. pose proof (lookup_lt_Some _ _ _ Hi) as Hlt. rewrite decide_True by lia.
    rewrite Z.add_0_l, Nat2Z.id. by rewrite lookup_app_l.
Qed.
Lemma ble_kernel_inv : kernel_inv ble_kernel.
Proof. by_check. Qed.
Lemma ble_kernel_running : current_ok ble_kernel.
Proof. by apply (running_ok _ (a_thread RT_THREAD_RUNNING 10 RT_EOK)). Qed.
Lemma ble_boxes mb : ∃ x, mailbox_ok ble_kernel (mb_address mb) x.
Proof.
  exists empty_box. constructor; [by destruct mb|by destruct mb|done|by left|]. by constructor.
Qed.
Definition ble_device : rt_device := a_device 0x513 0x108 1.
Lemma ble_port l :
  zlen l < 64 → Forall (λ c, byte c) l → port_inv ble_device D_uart ble_config (ble_machine l) l [] [].
Proof.
  intros Hl Hb. split; [split|done].
  - done.
  - by exists ble_device.
  - eexists _, _, None, (mkPipe [] [] None). split; [done|]. split; [by apply filled_fifo_rep|done].
Qed.

Lemma fresh_collected : collected fresh_ble [].
Proof. done. Qed.
Lemma ble_in_use : in_use ble_device.
Proof. done. Qed.
Lemma ble_not_stream : Z.land (open_flag ble_device) RT_DEVICE_FLAG_STREAM = 0.
Proof. done. Qed.
(** The time command [T20a]. *)
Lemma command_delivered_witness :
  wp (data_parsing_rounds O_sem D_uart O_sem mb_address 0x20004000 4 1) (mkFirmware fresh_ble (ble_machine [84; 50; 48; 97]))
    (λ r f, r = Return tt ∧ holds_command (fw_ble f) [84; 50; 48] ∧
      port_inv ble_device D_uart ble_config (fw_machine f) [] [] [84; 50; 48; 97] ∧
      mailed mb_address 0x20004000 [ble_mb_time] ble_kernel (m_kernel (fw_machine f)) ∧
      kernel_inv (m_kernel (fw_machine f)) ∧ current_ok (m_kernel (fw_machine f))).
Proof.
  pose proof (command_delivered O_sem D_uart O_sem mb_address 0x20004000 ble_device ble_config
    (ble_machine [84; 50; 48; 97]) fresh_ble [84; 50; 48] [] [] 0) as H.
  specialize (H mb_address_inj). specialize (H ltac:(lia) ble_in_use ble_not_stream).
  specialize (H ble_kernel_inv ble_kernel_running ble_boxes).
  specialize (H (ble_port [84; 50; 48; 97] ltac:(by_evaluation) ltac:(by_evaluation)) fresh_collected).
  specialize (H ltac:(by_evaluation) ltac:(by_evaluation)).
  exact H.
Defined.
(** A command of 31 bytes. *)
Lemma command_overrun_witness :
  data_parsing_rounds O_sem D_uart O_sem mb_address 0x20004000 32 1
    (mkFirmware fresh_ble (ble_machine (replicate 31 98 ++ [97]))) = Err FBounds.
Proof.
  pose proof (command_overrun O_sem D_uart O_sem mb_address 0x20004000 ble_device ble_config
    (ble_machine (replicate 31 98 ++ [97])) fresh_ble (replicate 31 98) [] [] 0) as H.
  specialize (H ble_in_use ble_not_stream).
  specialize (H (ble_port (replicate 31 98 ++ [97]) ltac:(by_evaluation) ltac:(by_evaluation)) fresh_collected).
  specialize (H ltac:(by_evaluation) ltac:(by_evaluation)).
  exact H.
Defined.
